(** * fastflash: the token subsystem ([core/lib/token.mjs])

    A shallow embedding of the [Token] class: JWT-like access/refresh tokens
    ([encode], [decode], [validate], [verify], [generate]) and the CSRF pair
    ([generateCsrf], [verifyCsrf]), together with the part of the JavaScript
    platform that the class calls into (string coercions, loose equality,
    numbers, [JSON], [Buffer] base64, [encodeURIComponent],
    [crypto.createHmac]).

    Modelling conventions.
    - A JavaScript string is the list of its UTF-16 code units ([jstring]).
    - JavaScript values are the JSON-shaped ones plus [undefined]; objects are
      association lists in enumeration order (array indices in ascending
      order first, then the other keys in the order of their creation).
    - Numbers are IEEE-754 binary64 values, the primitive [float] of the
      prover; a decimal text is read by rounding it to the nearest double,
      and a double is printed with the fewest digits that read back as
      itself, as ECMA-262 prescribes.
    - Properties inherited from the built-in prototypes are found by
      [JS.find]; the built-in functions and prototype objects themselves are
      not values of the model, since the class only ever compares them.
    - A [try { .. } catch] block is a computation in the [result] monad whose
      [Throw] case is mapped to the value returned by the handler;
      [Logger.error] only writes to the log and is not represented.
    - [new Time()] reads the clock once; the reading, a number, is an
      explicit argument [now] of every operation that constructs a
      [Time]. *)

From Stdlib Require Import String Ascii.
From Stdlib Require Import List ZArith NArith Lia Bool.
From Stdlib Require Import Floats Zpower.
From Stdlib Require DecimalFacts DecimalPos DecimalN.
Import ListNotations.

(* ================================================================== *)
(** * Part I.  Definitions                                              *)
(* ================================================================== *)

(** ** Strings and exceptions *)

Definition jstring := list N.

Definition ch (a : ascii) : N := N_of_ascii a.

Definition str (s : string) : jstring := map N_of_ascii (list_ascii_of_string s).

Fixpoint str_eqb (a b : jstring) : bool :=
  match a, b with
  | [], [] => true
  | x :: a', y :: b' => N.eqb x y && str_eqb a' b'
  | _, _ => false
  end.

Inductive exn :=
| TypeError
| URIError
| SyntaxError
| Error (msg : jstring).

Inductive result (A : Type) :=
| Ok (a : A)
| Throw (e : exn).
Arguments Ok {A} a.
Arguments Throw {A} e.

Definition bind {A B} (m : result A) (k : A -> result B) : result B :=
  match m with
  | Ok a => k a
  | Throw e => Throw e
  end.

Notation "'let*' x ':=' m 'in' k" := (bind m (fun x => k))
  (at level 10, x name, m at level 100, k at level 200).

(** [try { body } catch (err) { return handler }] *)
Definition try_catch {A} (body : result A) (handler : A) : A :=
  match body with
  | Ok a => a
  | Throw _ => handler
  end.

(** ** JavaScript values *)

#[warnings="-register-all"]
Inductive value :=
| VUndefined
| VNull
| VBool (b : bool)
| VNum (x : float)
| VStr (s : jstring)
| VArr (items : list value)
| VObj (props : list (jstring * value)).

Module JS.

(** Decimal digits of a natural number, most significant first. *)
Fixpoint digits_of_uint (d : Decimal.uint) : jstring :=
  match d with
  | Decimal.Nil => []
  | Decimal.D0 d' => 48%N :: digits_of_uint d'
  | Decimal.D1 d' => 49%N :: digits_of_uint d'
  | Decimal.D2 d' => 50%N :: digits_of_uint d'
  | Decimal.D3 d' => 51%N :: digits_of_uint d'
  | Decimal.D4 d' => 52%N :: digits_of_uint d'
  | Decimal.D5 d' => 53%N :: digits_of_uint d'
  | Decimal.D6 d' => 54%N :: digits_of_uint d'
  | Decimal.D7 d' => 55%N :: digits_of_uint d'
  | Decimal.D8 d' => 56%N :: digits_of_uint d'
  | Decimal.D9 d' => 57%N :: digits_of_uint d'
  end.

Definition dec_of_N (n : N) : jstring := digits_of_uint (N.to_uint n).

Definition is_digit (c : N) : bool := (48 <=? c)%N && (c <=? 57)%N.

(** Value of a run of decimal digits ([None] when a character is not a
    digit). *)
Fixpoint digits_value (acc : N) (s : jstring) : option N :=
  match s with
  | [] => Some acc
  | c :: s' =>
      if is_digit c then digits_value (10 * acc + (c - 48))%N s' else None
  end.

(** *** Numbers

    A number is a binary64 value.  [Prim2SF] gives its sign, mantissa and
    exponent ([m * 2^e]); [SF2Prim] goes back. *)

(** The double nearest to [D * 10^E], ties to even, and infinity past the
    largest double: the rounding that ECMA-262 writes as a blackboard F.  A
    whole number is rounded as it is, a fraction [D / 10^j] by the
    division of the floating-point specification. *)
Definition round_decimal (D : N) (E : Z) : spec_float :=
  match D with
  | N0 => S754_zero false
  | Npos d =>
      match E with
      | Zneg j =>
          let '(q, e, l) :=
            SFdiv_core_binary prec emax (Zpos d) 0 (Zpos (10 ^ j)) 0 in
          binary_round_aux prec emax false q e l
      | _ => binary_normalize prec emax (Zpos d * 10 ^ E) 0 false
      end
  end.

Definition signed (negative : bool) (x : spec_float) : spec_float :=
  match x with
  | S754_zero _ => S754_zero negative
  | S754_infinity _ => S754_infinity negative
  | S754_nan => S754_nan
  | S754_finite _ m e => S754_finite negative m e
  end.

(** The number written [D * 10^E], with a minus sign if [negative]. *)
Definition of_decimal (negative : bool) (D : N) (E : Z) : float :=
  SF2Prim (signed negative (round_decimal D E)).

Definition of_N (n : N) : float := of_decimal false n 0.

Definition same_double (a b : spec_float) : bool :=
  match a, b with
  | S754_finite s m e, S754_finite s' m' e' =>
      Bool.eqb s s' && Pos.eqb m m' && Z.eqb e e'
  | S754_zero s, S754_zero s' => Bool.eqb s s'
  | S754_infinity s, S754_infinity s' => Bool.eqb s s'
  | S754_nan, S754_nan => true
  | _, _ => false
  end.

(** [m * 2^e] as a fraction. *)
Definition fraction (m : positive) (e : Z) : N * N :=
  match e with
  | Zneg j => (Npos m, Npos (2 ^ j))
  | _ => (Z.to_N (Zpos m * 2 ^ e), 1%N)
  end.

Definition decimal_length (n : N) : Z := Z.of_nat (length (dec_of_N n)).

(** The [n] with [10^(n-1) <= a/b < 10^n]. *)
Definition magnitude (a b : N) : Z :=
  if (b <=? a)%N then decimal_length (a / b)
  else (1 - decimal_length (b / a))%Z.

Fixpoint strip_zeros (fuel : nat) (D : N) (E : Z) : N * Z :=
  match fuel with
  | O => (D, E)
  | S f =>
      if (0 <? D)%N && (D mod 10 =? 0)%N then strip_zeros f (D / 10)%N (E + 1)%Z
      else (D, E)
  end.

(** [D * 10^E] written without final zeros in [D]. *)
Definition canonical (D : N) (E : Z) : N * Z :=
  strip_zeros (length (dec_of_N D)) D E.

(** The two decimals of [k] digits around [a/b] (one if [a/b] is such a
    decimal), the nearer one first, the even one first at equal
    distance; [n] is the magnitude of [a/b]. *)
Definition neighbours (a b : N) (n k : Z) : list (N * Z) :=
  let '(p, q) :=
    match (k - n)%Z with
    | Zneg j => (a, b * Npos (10 ^ j))%N
    | t => (a * Z.to_N (10 ^ t), b)%N
    end in
  let lo := (p / q)%N in
  let r := (p mod q)%N in
  let E := (n - k)%Z in
  if (r =? 0)%N then [canonical lo E]
  else
    match (2 * r ?= q)%N with
    | Lt => [canonical lo E; canonical (lo + 1) E]
    | Gt => [canonical (lo + 1) E; canonical lo E]
    | Eq => if N.even lo then [canonical lo E; canonical (lo + 1) E]
            else [canonical (lo + 1) E; canonical lo E]
    end.

(** The first decimal with [k], [k + 1], ... digits that rounds to [x]. *)
Fixpoint shortest (fuel : nat) (k : Z) (x : spec_float) (a b : N) (n : Z)
  : option (N * Z) :=
  match fuel with
  | O => None
  | S f =>
      match find (fun c => same_double (round_decimal (fst c) (snd c)) x)
              (neighbours a b n k) with
      | Some c => Some c
      | None => shortest f (k + 1) x a b n
      end
  end.

(** The decimal expansion of [m * 2^e]. *)
Definition expansion (m : positive) (e : Z) : N * Z :=
  match e with
  | Zneg j => canonical (Npos (m * 5 ^ j)) e
  | _ => canonical (Z.to_N (Zpos m * 2 ^ e)) 0
  end.

(** The digits [s] and the exponent of the shortest decimal [s * 10^E]
    that rounds to [m * 2^e].  Seventeen digits are always enough for a
    double; the expansion stands for the case that the search ends
    without a result. *)
Definition shortest_decimal (m : positive) (e : Z) : N * Z :=
  let '(a, b) := fraction m e in
  match shortest 17 1 (S754_finite false m e) a b (magnitude a b) with
  | Some c => c
  | None => expansion m e
  end.

Definition zeros (n : nat) : jstring := repeat 48%N n.

(** Number::toString, steps 6 to 12: the [k] digits of [D] with the point
    after the [n]-th, [n = k + E]; the exponent form outside
    [-6 < n <= 21]. *)
Definition format (D : N) (E : Z) : jstring :=
  let ds := dec_of_N D in
  let k := Z.of_nat (length ds) in
  let n := (k + E)%Z in
  if ((-6 <? n) && (n <=? 21))%Z then
    if (k <=? n)%Z then ds ++ zeros (Z.to_nat (n - k))
    else if (0 <? n)%Z then
      firstn (Z.to_nat n) ds ++ str "." ++ skipn (Z.to_nat n) ds
    else str "0." ++ zeros (Z.to_nat (- n)) ++ ds
  else
    let exponent :=
      (if (n - 1 <? 0)%Z then str "-" else str "+")
      ++ dec_of_N (Z.to_N (Z.abs (n - 1))) in
    match ds with
    | [] => []
    | [d] => [d] ++ str "e" ++ exponent
    | d :: more => [d] ++ str "." ++ more ++ str "e" ++ exponent
    end.

(** Number::toString(x), radix 10 *)
Definition Number_toString (x : float) : jstring :=
  match Prim2SF x with
  | S754_nan => str "NaN"
  | S754_zero _ => str "0"
  | S754_infinity s => (if s then str "-" else []) ++ str "Infinity"
  | S754_finite s m e =>
      let '(D, E) := shortest_decimal m e in
      (if s then str "-" else []) ++ format D E
  end.

Fixpoint take_digits (s : jstring) : jstring * jstring :=
  match s with
  | c :: rest =>
      if is_digit c then let (ds, r) := take_digits rest in (c :: ds, r)
      else ([], s)
  | [] => ([], [])
  end.

(** An exponent part, if there is one: [e] or [E], a sign, digits. *)
Definition scan_exponent (s : jstring) : option (Z * jstring) :=
  match s with
  | c :: r =>
      if ((c =? 101) || (c =? 69))%N then
        let '(negative, r1) :=
          match r with
          | c' :: r' =>
              if (c' =? 45)%N then (true, r')
              else if (c' =? 43)%N then (false, r')
              else (false, r)
          | [] => (false, r)
          end in
        let (ds, r2) := take_digits r1 in
        match ds, digits_value 0 ds with
        | _ :: _, Some x => Some (if negative then (- Z.of_N x)%Z else Z.of_N x, r2)
        | _, _ => None
        end
      else Some (0%Z, s)
  | [] => Some (0%Z, [])
  end.

(** The parts of a decimal numeral at the head of [s]: the digits before
    the point, the digits after it if there is a point, the exponent, and
    what follows. *)
Definition scan (s : jstring) : option (jstring * option jstring * Z * jstring) :=
  let (whole, r) := take_digits s in
  let '(part, r1) :=
    match r with
    | c :: r' =>
        if (c =? 46)%N then let (f, r'') := take_digits r' in (Some f, r'')
        else (None, r)
    | [] => (None, r)
    end in
  match scan_exponent r1 with
  | Some (x, r2) => Some (whole, part, x, r2)
  | None => None
  end.

(** The mathematical value of the parts: digits and power of ten. *)
Definition decimal_value (whole : jstring) (part : option jstring) (x : Z)
  : option (N * Z) :=
  let f := match part with Some f => f | None => [] end in
  match digits_value 0 (whole ++ f) with
  | Some D => Some (D, (x - Z.of_nat (length f))%Z)
  | None => None
  end.

(** [!!v] *)
Definition truthy (v : value) : bool :=
  match v with
  | VUndefined | VNull => false
  | VBool b => b
  | VNum x => match Prim2SF x with
              | S754_zero _ | S754_nan => false
              | _ => true
              end
  | VStr s => match s with [] => false | _ => true end
  | VArr _ | VObj _ => true
  end.

Fixpoint lookup (k : jstring) (props : list (jstring * value)) : option value :=
  match props with
  | [] => None
  | (k', v) :: rest => if str_eqb k k' then Some v else lookup k rest
  end.

(** An array index written canonically ("0", "1", "17", never "01"). *)
Definition index_of_key (k : jstring) : option nat :=
  match k with
  | [] => None
  | _ =>
      match digits_value 0 k with
      | Some n => if str_eqb (dec_of_N n) k then Some (N.to_nat n) else None
      | None => None
      end
  end.

Definition length_key : jstring := str "length".

(** Own property lookup. *)
Definition get_own (v : value) (k : jstring) : option value :=
  match v with
  | VObj props => lookup k props
  | VArr items =>
      if str_eqb k length_key then Some (VNum (of_N (N.of_nat (length items))))
      else match index_of_key k with
           | Some i => nth_error items i
           | None => None
           end
  | VStr s =>
      if str_eqb k length_key then Some (VNum (of_N (N.of_nat (length s))))
      else match index_of_key k with
           | Some i => option_map (fun c => VStr [c]) (nth_error s i)
           | None => None
           end
  | _ => None
  end.

(** *** Inherited properties

    The built-in prototypes of ECMAScript 2024 (with Annex B), by the
    names of their properties.  What a name gives is a built-in function,
    a prototype object, or a plain value. *)

Inductive kind := KObject | KArray | KString | KNumber | KBoolean.

Inductive inherited :=
| IFunction (name : jstring)
| IPrototype (k : kind)
| IData (v : value).

Definition methods (names : list string) : list (jstring * inherited) :=
  map (fun n => (str n, IFunction (str n))) names.

Definition object_prototype : list (jstring * inherited) :=
  (str "constructor", IFunction (str "Object"))
  :: methods ["__defineGetter__"; "__defineSetter__"; "hasOwnProperty";
              "__lookupGetter__"; "__lookupSetter__"; "isPrototypeOf";
              "propertyIsEnumerable"; "toString"; "valueOf";
              "toLocaleString"]%string.

Definition array_prototype : list (jstring * inherited) :=
  (str "length", IData (VNum 0%float))
  :: (str "constructor", IFunction (str "Array"))
  :: methods ["at"; "concat"; "copyWithin"; "fill"; "find"; "findIndex";
              "findLast"; "findLastIndex"; "lastIndexOf"; "pop"; "push";
              "reverse"; "shift"; "unshift"; "slice"; "sort"; "splice";
              "includes"; "indexOf"; "join"; "keys"; "entries"; "values";
              "forEach"; "filter"; "flat"; "flatMap"; "map"; "every";
              "some"; "reduce"; "reduceRight"; "toLocaleString";
              "toString"; "toReversed"; "toSorted"; "toSpliced";
              "with"]%string.

Definition string_prototype : list (jstring * inherited) :=
  (str "length", IData (VNum 0%float))
  :: (str "constructor", IFunction (str "String"))
  :: (str "trimLeft", IFunction (str "trimStart"))
  :: (str "trimRight", IFunction (str "trimEnd"))
  :: methods ["anchor"; "at"; "big"; "blink"; "bold"; "charAt";
              "charCodeAt"; "codePointAt"; "concat"; "endsWith";
              "fontcolor"; "fontsize"; "fixed"; "includes"; "indexOf";
              "isWellFormed"; "italics"; "lastIndexOf"; "link";
              "localeCompare"; "match"; "matchAll"; "normalize"; "padEnd";
              "padStart"; "repeat"; "replace"; "replaceAll"; "search";
              "slice"; "small"; "split"; "strike"; "sub"; "substr";
              "substring"; "sup"; "startsWith"; "toString";
              "toWellFormed"; "trim"; "trimStart"; "trimEnd";
              "toLocaleLowerCase"; "toLocaleUpperCase"; "toLowerCase";
              "toUpperCase"; "valueOf"]%string.

Definition number_prototype : list (jstring * inherited) :=
  (str "constructor", IFunction (str "Number"))
  :: methods ["toExponential"; "toFixed"; "toPrecision"; "toString";
              "valueOf"; "toLocaleString"]%string.

Definition boolean_prototype : list (jstring * inherited) :=
  (str "constructor", IFunction (str "Boolean"))
  :: methods ["toString"; "valueOf"]%string.

Definition prototype (k : kind) : list (jstring * inherited) :=
  match k with
  | KObject => object_prototype
  | KArray => array_prototype
  | KString => string_prototype
  | KNumber => number_prototype
  | KBoolean => boolean_prototype
  end.

Definition kind_of (v : value) : option kind :=
  match v with
  | VUndefined | VNull => None
  | VBool _ => Some KBoolean
  | VNum _ => Some KNumber
  | VStr _ => Some KString
  | VArr _ => Some KArray
  | VObj _ => Some KObject
  end.

Fixpoint assoc {A} (k : jstring) (l : list (jstring * A)) : option A :=
  match l with
  | [] => None
  | (k', a) :: rest => if str_eqb k k' then Some a else assoc k rest
  end.

(** The property [key] on the prototype chain of a value of kind [k]:
    its own prototype, then [Object.prototype]; [__proto__] is the
    accessor of [Object.prototype], which gives the prototype itself. *)
Definition inherits (k : kind) (key : jstring) : option inherited :=
  match assoc key (prototype k) with
  | Some i => Some i
  | None =>
      match assoc key object_prototype with
      | Some i => Some i
      | None => if str_eqb key (str "__proto__") then Some (IPrototype k) else None
      end
  end.

Inductive found :=
| Own (v : value)
| Inherited (i : inherited)
| Missing.

(** Where [v[k]] is found; reading a property of [undefined] or [null]
    throws. *)
Definition find (v : value) (k : jstring) : result found :=
  match kind_of v with
  | None => Throw TypeError
  | Some kd =>
      Ok (match get_own v k with
          | Some x => Own x
          | None =>
              match inherits kd k with
              | Some i => Inherited i
              | None => Missing
              end
          end)
  end.

(** [v[k]] and [v.k] as a value.  A built-in function or prototype object
    is no value of the model and reads as [undefined] here: [get] is for
    the properties that the classes read by name, none of which is a
    built-in one, and for own properties. *)
Definition get (v : value) (k : jstring) : result value :=
  let* f := find v k in
  Ok (match f with
      | Own x => x
      | Inherited (IData x) => x
      | Inherited _ => VUndefined
      | Missing => VUndefined
      end).

Definition has_own (v : value) (k : jstring) : bool :=
  match get_own v k with Some _ => true | None => false end.

(** [v.hasOwnProperty(k)]: the method is found on [Object.prototype] unless
    the object shadows it with an own (data, hence non-callable) property. *)
Definition hasOwnProperty (v : value) (k : jstring) : result bool :=
  match v with
  | VUndefined | VNull => Throw TypeError
  | _ => if has_own v (str "hasOwnProperty") then Throw TypeError
         else Ok (has_own v k)
  end.

Fixpoint index_keys (from count : nat) : list jstring :=
  match count with
  | O => []
  | S c => dec_of_N (N.of_nat from) :: index_keys (S from) c
  end.

(** Keys visited by [for (let key in v)]. *)
Definition forin_keys (v : value) : list jstring :=
  match v with
  | VObj props => map fst props
  | VArr items => index_keys 0 (length items)
  | VStr s => index_keys 0 (length s)
  | _ => []
  end.

Fixpoint join (sep : jstring) (parts : list jstring) : jstring :=
  match parts with
  | [] => []
  | [p] => p
  | p :: rest => p ++ sep ++ join sep rest
  end.

(** [String(v)].  A plain object prints as "[object Object]" unless an own
    [toString] property (never callable here) hides the inherited method,
    in which case the conversion throws. *)
Fixpoint ToString (v : value) : result jstring :=
  match v with
  | VUndefined => Ok (str "undefined")
  | VNull => Ok (str "null")
  | VBool true => Ok (str "true")
  | VBool false => Ok (str "false")
  | VNum x => Ok (Number_toString x)
  | VStr s => Ok s
  | VArr items =>
      let* parts :=
        (fix each (l : list value) : result (list jstring) :=
           match l with
           | [] => Ok []
           | x :: l' =>
               let* s := match x with
                         | VUndefined | VNull => Ok []
                         | _ => ToString x
                         end in
               let* r := each l' in
               Ok (s :: r)
           end) items in
      Ok (join (str ",") parts)
  | VObj props =>
      match lookup (str "toString") props with
      | Some _ => Throw TypeError
      | None => Ok (str "[object Object]")
      end
  end.

Definition is_object (v : value) : bool :=
  match v with VArr _ | VObj _ => true | _ => false end.

Definition is_nullish (v : value) : bool :=
  match v with VUndefined | VNull => true | _ => false end.

Definition ToPrimitive (v : value) : result value :=
  if is_object v then let* s := ToString v in Ok (VStr s) else Ok v.

Definition is_space (c : N) : bool :=
  existsb (N.eqb c) [9; 10; 11; 12; 13; 32; 160; 5760; 8232; 8233; 8239; 8287; 12288; 65279]%N
  || ((8192 <=? c) && (c <=? 8202))%N.

Fixpoint trim_left (s : jstring) : jstring :=
  match s with
  | c :: s' => if is_space c then trim_left s' else s
  | [] => []
  end.

Definition trim (s : jstring) : jstring := rev (trim_left (rev (trim_left s))).

Definition radix_digit (c : N) : option N :=
  (if (48 <=? c) && (c <=? 57) then Some (c - 48)
   else if (65 <=? c) && (c <=? 70) then Some (c - 55)
   else if (97 <=? c) && (c <=? 102) then Some (c - 87)
   else None)%N.

Fixpoint radix_value (radix acc : N) (s : jstring) : option N :=
  match s with
  | [] => Some acc
  | c :: s' =>
      match radix_digit c with
      | Some d => if (d <? radix)%N then radix_value radix (radix * acc + d) s' else None
      | None => None
      end
  end.

(** A binary, octal or hexadecimal integer literal: [0b], [0o] or [0x] in
    either case, then digits. *)
Definition non_decimal (s : jstring) : option N :=
  match s with
  | z :: p :: (_ :: _) as ds =>
      if (z =? 48)%N then
        if ((p =? 98) || (p =? 66))%N then radix_value 2 0 ds
        else if ((p =? 111) || (p =? 79))%N then radix_value 8 0 ds
        else if ((p =? 120) || (p =? 88))%N then radix_value 16 0 ds
        else None
      else None
  | _ => None
  end.

(** An unsigned decimal literal that is all of [s]: [Infinity], or digits
    with a point and an exponent, at least one digit before or after the
    point. *)
Definition unsigned_decimal (negative : bool) (s : jstring) : float :=
  if str_eqb s (str "Infinity") then (if negative then neg_infinity else infinity)
  else
    match scan s with
    | Some (whole, part, x, []) =>
        match whole, part with
        | [], None | [], Some [] => nan
        | _, _ =>
            match decimal_value whole part x with
            | Some (D, E) => of_decimal negative D E
            | None => nan
            end
        end
    | _ => nan
    end.

(** StringToNumber: [Number(s)] on a string.  White space around the
    literal is dropped and the empty text is 0; a text that is no numeric
    literal is NaN. *)
Definition StringToNumber (s : jstring) : float :=
  match trim s with
  | [] => 0%float
  | c :: r =>
      match non_decimal (c :: r) with
      | Some n => of_N n
      | None =>
          if (c =? 45)%N then unsigned_decimal true r
          else if (c =? 43)%N then unsigned_decimal false r
          else unsigned_decimal false (c :: r)
      end
  end.

(** [Number(v)] for a primitive [v]. *)
Definition ToNumber (v : value) : float :=
  match v with
  | VNull => 0%float
  | VBool true => 1%float
  | VBool false => 0%float
  | VNum x => x
  | VStr s => StringToNumber s
  | _ => nan
  end.

Definition prim_loose_eq (a b : value) : bool :=
  match a, b with
  | VStr x, VStr y => str_eqb x y
  | _, _ => (ToNumber a =? ToNumber b)%float
  end.

(** [a == b].  Two objects are equal only when they are the same object;
    every comparison made by the token class is between objects of different
    origin (a freshly parsed payload against the caller's record or against
    another parse), so object-to-object comparisons are [false]. *)
Definition loose_eq (a b : value) : result bool :=
  match is_nullish a, is_nullish b with
  | true, true => Ok true
  | true, false | false, true => Ok false
  | false, false =>
      if is_object a && is_object b then Ok false
      else
        let* pa := ToPrimitive a in
        let* pb := ToPrimitive b in
        Ok (prim_loose_eq pa pb)
  end.

(** [a != b] *)
Definition loose_neq (a b : value) : result bool :=
  let* e := loose_eq a b in Ok (negb e).

(** What [Function.prototype.toString] gives for a built-in function. *)
Definition native_text (name : jstring) : jstring :=
  str "function " ++ name ++ str "() { [native code] }".

(** The primitive value of a prototype object: [Object.prototype] prints
    as an object, [Array.prototype] is an empty array, and the other
    three wrap the empty string, zero and [false]. *)
Definition prototype_primitive (k : kind) : value :=
  match k with
  | KObject => VStr (str "[object Object]")
  | KArray | KString => VStr []
  | KNumber => VNum 0%float
  | KBoolean => VBool false
  end.

(** [a != v[k]], [a] a value and [f] what was found for [v[k]].  A
    built-in function or prototype object is an object other than [a]; an
    object and a primitive are compared through the primitive value of
    the object. *)
Definition differs (a : value) (f : found) : result bool :=
  match f with
  | Own u | Inherited (IData u) => loose_neq a u
  | Missing => loose_neq a VUndefined
  | Inherited (IFunction name) =>
      Ok (if is_nullish a || is_object a then true
          else negb (prim_loose_eq a (VStr (native_text name))))
  | Inherited (IPrototype k) =>
      Ok (if is_nullish a || is_object a then true
          else negb (prim_loose_eq a (prototype_primitive k)))
  end.

(** [a < n] for a number [n] on the right. *)
Definition lt_num (a : value) (n : float) : result bool :=
  let* pa := ToPrimitive a in
  Ok (ToNumber pa <? n)%float.

(** [a + b] when both sides are strings or [undefined] elements of a
    [split] result. *)
Definition nth_string (segments : list jstring) (i : nat) : jstring :=
  nth i segments (str "undefined").

End JS.

(** ** The platform: encodings *)

(** [Buffer.from(text, 'binary')] keeps the low byte of every code unit;
    [buf.toString('binary')] maps every byte to the code unit of the same
    value. *)
Module Latin1.

Definition bytes_of_string (text : jstring) : list N :=
  map (fun c => N.land c 255) text.

Definition string_of_bytes (bytes : list N) : jstring := bytes.

End Latin1.

(** UTF-8, as used by [encodeURIComponent] and by [hmac.update(string)]. *)
Module Utf8.

Definition is_high_surrogate (c : N) : bool := ((55296 <=? c) && (c <=? 56319))%N.
Definition is_low_surrogate (c : N) : bool := ((56320 <=? c) && (c <=? 57343))%N.

Definition encode_code_point (cp : N) : list N :=
  (if cp <? 128 then [cp]
   else if cp <? 2048 then
     [N.lor 192 (N.shiftr cp 6); N.lor 128 (N.land cp 63)]
   else if cp <? 65536 then
     [N.lor 224 (N.shiftr cp 12); N.lor 128 (N.land (N.shiftr cp 6) 63);
      N.lor 128 (N.land cp 63)]
   else
     [N.lor 240 (N.shiftr cp 18); N.lor 128 (N.land (N.shiftr cp 12) 63);
      N.lor 128 (N.land (N.shiftr cp 6) 63); N.lor 128 (N.land cp 63)])%N.

Definition pair_code_point (hi lo : N) : N :=
  (65536 + N.shiftl (hi - 55296) 10 + (lo - 56320))%N.

(** The encoding used by [Buffer.from(s, 'utf8')]: a surrogate that is not
    part of a pair becomes U+FFFD. *)
Fixpoint bytes_of_string (s : jstring) : list N :=
  match s with
  | [] => []
  | c :: rest =>
      if is_high_surrogate c then
        match rest with
        | d :: rest' =>
            if is_low_surrogate d
            then encode_code_point (pair_code_point c d) ++ bytes_of_string rest'
            else [239; 191; 189]%N ++ bytes_of_string rest
        | [] => [239; 191; 189]%N
        end
      else if is_low_surrogate c then [239; 191; 189]%N ++ bytes_of_string rest
      else encode_code_point c ++ bytes_of_string rest
  end.

End Utf8.

(** [buf.toString('base64')] and [Buffer.from(text, 'base64')]. *)
Module Base64.

Definition char_of_sextet (n : N) : N :=
  (if n <? 26 then 65 + n
   else if n <? 52 then 97 + (n - 26)
   else if n <? 62 then 48 + (n - 52)
   else if n =? 62 then 43
   else 47)%N.

Definition pad : N := 61%N.

Fixpoint encode (bytes : list N) : jstring :=
  match bytes with
  | a :: b :: c :: rest =>
      char_of_sextet (N.shiftr a 2)
      :: char_of_sextet (N.lor (N.shiftl (N.land a 3) 4) (N.shiftr b 4))
      :: char_of_sextet (N.lor (N.shiftl (N.land b 15) 2) (N.shiftr c 6))
      :: char_of_sextet (N.land c 63)
      :: encode rest
  | [a; b] =>
      [char_of_sextet (N.shiftr a 2);
       char_of_sextet (N.lor (N.shiftl (N.land a 3) 4) (N.shiftr b 4));
       char_of_sextet (N.shiftl (N.land b 15) 2);
       pad]
  | [a] =>
      [char_of_sextet (N.shiftr a 2);
       char_of_sextet (N.shiftl (N.land a 3) 4);
       pad; pad]
  | [] => []
  end.

(** The decoder looks at the low byte of each code unit. *)
Definition low_byte (c : N) : N := N.land c 255.

(** It accepts both alphabets ('+' '/' and '-' '_'). *)
Definition sextet_of_char (c : N) : option N :=
  let b := low_byte c in
  (if (65 <=? b) && (b <=? 90) then Some (b - 65)
   else if (97 <=? b) && (b <=? 122) then Some (b - 71)
   else if (48 <=? b) && (b <=? 57) then Some (b + 4)
   else if (b =? 43) || (b =? 45) then Some 62
   else if (b =? 47) || (b =? 95) then Some 63
   else None)%N.

(** Characters outside the alphabet are skipped; decoding stops at the
    first '='. *)
Fixpoint sextets (text : jstring) : list N :=
  match text with
  | [] => []
  | c :: rest =>
      if (low_byte c =? pad)%N then []
      else match sextet_of_char c with
           | Some n => n :: sextets rest
           | None => sextets rest
           end
  end.

Fixpoint bytes_of_sextets (l : list N) : list N :=
  match l with
  | a :: b :: c :: d :: rest =>
      N.lor (N.shiftl a 2) (N.shiftr b 4)
      :: N.lor (N.shiftl (N.land b 15) 4) (N.shiftr c 2)
      :: N.lor (N.shiftl (N.land c 3) 6) d
      :: bytes_of_sextets rest
  | [a; b; c] =>
      [N.lor (N.shiftl a 2) (N.shiftr b 4);
       N.lor (N.shiftl (N.land b 15) 4) (N.shiftr c 2)]
  | [a; b] => [N.lor (N.shiftl a 2) (N.shiftr b 4)]
  | _ => []
  end.

Definition decode (text : jstring) : list N := bytes_of_sextets (sextets text).

End Base64.

(** [buf.toString('hex')] *)
Module Hex.

Definition lower_digit (n : N) : N := (if n <? 10 then 48 + n else 87 + n)%N.
Definition upper_digit (n : N) : N := (if n <? 10 then 48 + n else 55 + n)%N.

Definition encode (bytes : list N) : jstring :=
  flat_map (fun b => [lower_digit (N.shiftr b 4); lower_digit (N.land b 15)]) bytes.

Definition digit_value (c : N) : option N :=
  (if (48 <=? c) && (c <=? 57) then Some (c - 48)
   else if (65 <=? c) && (c <=? 70) then Some (c - 55)
   else if (97 <=? c) && (c <=? 102) then Some (c - 87)
   else None)%N.

End Hex.

(** [encodeURIComponent] and [decodeURIComponent]. *)
Module Uri.

Definition is_alnum (c : N) : bool :=
  (((65 <=? c) && (c <=? 90)) || ((97 <=? c) && (c <=? 122))
   || ((48 <=? c) && (c <=? 57)))%N.

(** A-Z a-z 0-9 - _ . ! ~ * ' ( ) *)
Definition unreserved (c : N) : bool :=
  is_alnum c || existsb (N.eqb c) [45; 95; 46; 33; 126; 42; 39; 40; 41]%N.

Definition percent : N := 37%N.

Definition escape_byte (b : N) : jstring :=
  [percent; Hex.upper_digit (N.shiftr b 4); Hex.upper_digit (N.land b 15)].

Definition escape (bytes : list N) : jstring := flat_map escape_byte bytes.

Fixpoint encodeURIComponent (s : jstring) : result jstring :=
  match s with
  | [] => Ok []
  | c :: rest =>
      if unreserved c then
        let* r := encodeURIComponent rest in Ok (c :: r)
      else if Utf8.is_low_surrogate c then Throw URIError
      else if Utf8.is_high_surrogate c then
        match rest with
        | d :: rest' =>
            if Utf8.is_low_surrogate d then
              let* r := encodeURIComponent rest' in
              Ok (escape (Utf8.encode_code_point (Utf8.pair_code_point c d)) ++ r)
            else Throw URIError
        | [] => Throw URIError
        end
      else
        let* r := encodeURIComponent rest in
        Ok (escape (Utf8.encode_code_point c) ++ r)
  end.

(** Decoding in two passes: first every "%XX" becomes an octet, then runs
    of octets are read as UTF-8. *)
Inductive item :=
| Raw (c : N)
| Octet (b : N).

Fixpoint unescape (s : jstring) : result (list item) :=
  match s with
  | [] => Ok []
  | c :: rest =>
      if (c =? percent)%N then
        match rest with
        | h :: l :: rest' =>
            match Hex.digit_value h, Hex.digit_value l with
            | Some x, Some y =>
                let* r := unescape rest' in Ok (Octet (16 * x + y) :: r)
            | _, _ => Throw URIError
            end
        | _ => Throw URIError
        end
      else let* r := unescape rest in Ok (Raw c :: r)
  end.

Definition is_continuation (b : N) : bool := (N.shiftr b 6 =? 2)%N.

Definition code_units_of_code_point (cp : N) : jstring :=
  (if cp <? 65536 then [cp]
   else [55296 + N.shiftr (cp - 65536) 10; 56320 + N.land (cp - 65536) 1023])%N.

Fixpoint decode_items (l : list item) : result jstring :=
  match l with
  | [] => Ok []
  | Raw c :: rest => let* r := decode_items rest in Ok (c :: r)
  | Octet b :: rest =>
      if (b <? 128)%N then let* r := decode_items rest in Ok (b :: r)
      else if (N.shiftr b 5 =? 6)%N then
        match rest with
        | Octet b1 :: rest' =>
            let cp := (N.shiftl (N.land b 31) 6 + N.land b1 63)%N in
            if is_continuation b1 && (128 <=? cp)%N then
              let* r := decode_items rest' in Ok (cp :: r)
            else Throw URIError
        | _ => Throw URIError
        end
      else if (N.shiftr b 4 =? 14)%N then
        match rest with
        | Octet b1 :: Octet b2 :: rest' =>
            let cp := (N.shiftl (N.land b 15) 12 + N.shiftl (N.land b1 63) 6
                       + N.land b2 63)%N in
            if is_continuation b1 && is_continuation b2 && (2048 <=? cp)%N
               && negb ((55296 <=? cp) && (cp <=? 57343))%N then
              let* r := decode_items rest' in Ok (cp :: r)
            else Throw URIError
        | _ => Throw URIError
        end
      else if (N.shiftr b 3 =? 30)%N then
        match rest with
        | Octet b1 :: Octet b2 :: Octet b3 :: rest' =>
            let cp := (N.shiftl (N.land b 7) 18 + N.shiftl (N.land b1 63) 12
                       + N.shiftl (N.land b2 63) 6 + N.land b3 63)%N in
            if is_continuation b1 && is_continuation b2 && is_continuation b3
               && (65536 <=? cp)%N && (cp <=? 1114111)%N then
              let* r := decode_items rest' in
              Ok (code_units_of_code_point cp ++ r)
            else Throw URIError
        | _ => Throw URIError
        end
      else Throw URIError
  end.

Definition decodeURIComponent (s : jstring) : result jstring :=
  let* items := unescape s in decode_items items.

End Uri.

(** [s.split(sep)] for a one-character separator, and [Array.prototype.join]. *)
Fixpoint split (sep : N) (s : jstring) : list jstring :=
  match s with
  | [] => [[]]
  | c :: s' =>
      if (c =? sep)%N then [] :: split sep s'
      else match split sep s' with
           | seg :: segs => (c :: seg) :: segs
           | [] => [[c]]
           end
  end.

Definition dot : N := 46%N.

(** ** The platform: [crypto.createHmac('sha512', key)] *)

(** SHA-512 (FIPS 180-4) on 64-bit words and HMAC (RFC 2104) over it; octets
    and words are natural numbers with the wrap-around written out. *)
Module Sha512.

Local Open Scope N_scope.

Definition mask64 : N := 0xffffffffffffffff.
Definition add64 (x y : N) : N := N.land (x + y) mask64.
Definition rotr (n x : N) : N :=
  N.lor (N.shiftr x n) (N.land (N.shiftl x (64 - n)) mask64).
Definition not64 (x : N) : N := N.lxor x mask64.

Definition Ch (x y z : N) : N := N.lxor (N.land x y) (N.land (not64 x) z).
Definition Maj (x y z : N) : N :=
  N.lxor (N.lxor (N.land x y) (N.land x z)) (N.land y z).
Definition Sigma0 (x : N) : N := N.lxor (N.lxor (rotr 28 x) (rotr 34 x)) (rotr 39 x).
Definition Sigma1 (x : N) : N := N.lxor (N.lxor (rotr 14 x) (rotr 18 x)) (rotr 41 x).
Definition sigma0 (x : N) : N := N.lxor (N.lxor (rotr 1 x) (rotr 8 x)) (N.shiftr x 7).
Definition sigma1 (x : N) : N := N.lxor (N.lxor (rotr 19 x) (rotr 61 x)) (N.shiftr x 6).

Definition H0 : list N :=
  [
   0x6a09e667f3bcc908; 0xbb67ae8584caa73b; 0x3c6ef372fe94f82b; 0xa54ff53a5f1d36f1;
   0x510e527fade682d1; 0x9b05688c2b3e6c1f; 0x1f83d9abfb41bd6b; 0x5be0cd19137e2179
  ].

Definition K : list N :=
  [
   0x428a2f98d728ae22; 0x7137449123ef65cd; 0xb5c0fbcfec4d3b2f; 0xe9b5dba58189dbbc;
   0x3956c25bf348b538; 0x59f111f1b605d019; 0x923f82a4af194f9b; 0xab1c5ed5da6d8118;
   0xd807aa98a3030242; 0x12835b0145706fbe; 0x243185be4ee4b28c; 0x550c7dc3d5ffb4e2;
   0x72be5d74f27b896f; 0x80deb1fe3b1696b1; 0x9bdc06a725c71235; 0xc19bf174cf692694;
   0xe49b69c19ef14ad2; 0xefbe4786384f25e3; 0x0fc19dc68b8cd5b5; 0x240ca1cc77ac9c65;
   0x2de92c6f592b0275; 0x4a7484aa6ea6e483; 0x5cb0a9dcbd41fbd4; 0x76f988da831153b5;
   0x983e5152ee66dfab; 0xa831c66d2db43210; 0xb00327c898fb213f; 0xbf597fc7beef0ee4;
   0xc6e00bf33da88fc2; 0xd5a79147930aa725; 0x06ca6351e003826f; 0x142929670a0e6e70;
   0x27b70a8546d22ffc; 0x2e1b21385c26c926; 0x4d2c6dfc5ac42aed; 0x53380d139d95b3df;
   0x650a73548baf63de; 0x766a0abb3c77b2a8; 0x81c2c92e47edaee6; 0x92722c851482353b;
   0xa2bfe8a14cf10364; 0xa81a664bbc423001; 0xc24b8b70d0f89791; 0xc76c51a30654be30;
   0xd192e819d6ef5218; 0xd69906245565a910; 0xf40e35855771202a; 0x106aa07032bbd1b8;
   0x19a4c116b8d2d0c8; 0x1e376c085141ab53; 0x2748774cdf8eeb99; 0x34b0bcb5e19b48a8;
   0x391c0cb3c5c95a63; 0x4ed8aa4ae3418acb; 0x5b9cca4f7763e373; 0x682e6ff3d6b2b8a3;
   0x748f82ee5defb2fc; 0x78a5636f43172f60; 0x84c87814a1f0ab72; 0x8cc702081a6439ec;
   0x90befffa23631e28; 0xa4506cebde82bde9; 0xbef9a3f7b2c67915; 0xc67178f2e372532b;
   0xca273eceea26619c; 0xd186b8c721c0c207; 0xeada7dd6cde0eb1e; 0xf57d4f7fee6ed178;
   0x06f067aa72176fba; 0x0a637dc5a2c898a6; 0x113f9804bef90dae; 0x1b710b35131c471b;
   0x28db77f523047d84; 0x32caab7b40c72493; 0x3c9ebe0a15c9bebc; 0x431d67c49c100d4c;
   0x4cc5d4becb3e42b6; 0x597f299cfc657e2a; 0x5fcb6fab3ad6faec; 0x6c44198c4a475817
  ].

(** Big-endian octets of a word, [count] of them. *)
Fixpoint be_bytes (count : nat) (x : N) : list N :=
  match count with
  | O => []
  | S c => N.land (N.shiftr x (8 * N.of_nat c)) 255 :: be_bytes c x
  end.

Definition be_word (bytes : list N) : N :=
  fold_left (fun acc b => N.lor (N.shiftl acc 8) b) bytes 0.

(** Message padding: 0x80, zeros up to 112 mod 128, the bit length on 16
    octets. *)
Definition padding (len : nat) : list N :=
  let r := Nat.modulo (len + 1) 128 in
  let zeros := if Nat.leb r 112 then (112 - r)%nat else (240 - r)%nat in
  128 :: repeat 0 zeros ++ be_bytes 16 (8 * N.of_nat len).

Fixpoint chunks (fuel : nat) (size : nat) (l : list N) : list (list N) :=
  match fuel with
  | O => []
  | S f =>
      match l with
      | [] => []
      | _ => firstn size l :: chunks f size (skipn size l)
      end
  end.

Definition words_of_block (block : list N) : list N :=
  map be_word (chunks 16 8 block).

(** Message schedule, most recent word first. *)
Fixpoint extend (count : nat) (rev_w : list N) : list N :=
  match count with
  | O => rev_w
  | S c =>
      let w := add64 (add64 (sigma1 (nth 1 rev_w 0)) (nth 6 rev_w 0))
                     (add64 (sigma0 (nth 14 rev_w 0)) (nth 15 rev_w 0)) in
      extend c (w :: rev_w)
  end.

Definition schedule (block : list N) : list N :=
  rev (extend 64 (rev (words_of_block block))).

Record state := mkState { sa : N; sb : N; sc : N; sd : N; se : N; sf : N; sg : N; sh : N }.

Definition round (s : state) (kw : N * N) : state :=
  let t1 := add64 (add64 (add64 (sh s) (Sigma1 (se s)))
                         (add64 (Ch (se s) (sf s) (sg s)) (fst kw))) (snd kw) in
  let t2 := add64 (Sigma0 (sa s)) (Maj (sa s) (sb s) (sc s)) in
  mkState (add64 t1 t2) (sa s) (sb s) (sc s) (add64 (sd s) t1) (se s) (sf s) (sg s).

Definition state_of_list (l : list N) : state :=
  mkState (nth 0 l 0) (nth 1 l 0) (nth 2 l 0) (nth 3 l 0)
          (nth 4 l 0) (nth 5 l 0) (nth 6 l 0) (nth 7 l 0).

Definition list_of_state (s : state) : list N :=
  [sa s; sb s; sc s; sd s; se s; sf s; sg s; sh s].

Definition compress (h : list N) (block : list N) : list N :=
  let s := fold_left round (combine K (schedule block)) (state_of_list h) in
  map (fun p => add64 (fst p) (snd p)) (combine h (list_of_state s)).

Definition hash (msg : list N) : list N :=
  let padded := msg ++ padding (length msg) in
  let blocks := chunks (length padded) 128 padded in
  flat_map (be_bytes 8) (fold_left compress blocks H0).

Definition block_size : nat := 128.

Definition hmac (key msg : list N) : list N :=
  let k := if Nat.ltb block_size (length key) then hash key else key in
  let k := k ++ repeat 0 (block_size - length k) in
  let ipad := map (fun b => N.lxor b 0x36) k in
  let opad := map (fun b => N.lxor b 0x5c) k in
  hash (opad ++ hash (ipad ++ msg)).

End Sha512.

Module Crypto.

Inductive encoding := base64 | hex.

Definition digest (enc : encoding) (bytes : list N) : jstring :=
  match enc with
  | base64 => Base64.encode bytes
  | hex => Hex.encode bytes
  end.

(** [crypto.createHmac('sha512', key).update(data).digest(enc)].  Both
    [createHmac] and [update] reject anything that is not a string (or a
    buffer, which the token class never passes) with a [TypeError]. *)
Definition hmac_sha512 (key : value) (data : value) (enc : encoding) : result jstring :=
  match key with
  | VStr k =>
      match data with
      | VStr d =>
          Ok (digest enc (Sha512.hmac (Utf8.bytes_of_string k) (Utf8.bytes_of_string d)))
      | _ => Throw TypeError
      end
  | _ => Throw TypeError
  end.

End Crypto.


(** ** The platform: the properties of an object *)

Module Obj.

(** An array index: a canonical numeral below 2^32 - 1. *)
Definition array_index (k : jstring) : option N :=
  match k with
  | [] => None
  | _ =>
      match JS.digits_value 0 k with
      | Some n => if str_eqb (JS.dec_of_N n) k && (n <? 4294967295)%N then Some n else None
      | None => None
      end
  end.

Definition comes_before (n : N) (k : jstring) : bool :=
  match array_index k with
  | Some m => (n <? m)%N
  | None => true
  end.

Fixpoint has_key {A} (k : jstring) (props : list (jstring * A)) : bool :=
  match props with
  | [] => false
  | (k', _) :: rest => str_eqb k k' || has_key k rest
  end.

Fixpoint replace_value {A} (k : jstring) (v : A) (props : list (jstring * A))
  : list (jstring * A) :=
  match props with
  | [] => []
  | (k', v') :: rest =>
      if str_eqb k k' then (k, v) :: rest else (k', v') :: replace_value k v rest
  end.

Fixpoint insert_index {A} (n : N) (k : jstring) (v : A) (props : list (jstring * A))
  : list (jstring * A) :=
  match props with
  | [] => [(k, v)]
  | (k', v') :: rest =>
      if comes_before n k' then (k, v) :: props else (k', v') :: insert_index n k v rest
  end.

(** [obj[k] = v] on an ordinary object, the properties listed in the order
    of enumeration: array indices in ascending order, then the other keys in
    the order of their creation.  Assigning to "__proto__" goes to the
    setter inherited from [Object.prototype] and creates no property. *)
Definition assign {A} (k : jstring) (v : A) (props : list (jstring * A))
  : list (jstring * A) :=
  if str_eqb k (str "__proto__") then props
  else if has_key k props then replace_value k v props
  else
    match array_index k with
    | Some n => insert_index n k v props
    | None => props ++ [(k, v)]
    end.

(** The same without the setter: the property definition of [JSON.parse]
    (CreateDataProperty), for which "__proto__" is a key like any
    other. *)
Definition define {A} (k : jstring) (v : A) (props : list (jstring * A))
  : list (jstring * A) :=
  if has_key k props then replace_value k v props
  else
    match array_index k with
    | Some n => insert_index n k v props
    | None => props ++ [(k, v)]
    end.

(** [k] may come before [k'] in an enumeration. *)
Definition precedes (k k' : jstring) : bool :=
  match array_index k, array_index k' with
  | Some n, Some m => (n <? m)%N
  | Some _, None => true
  | None, Some _ => false
  | None, None => true
  end.

(** Keys in the order of enumeration. *)
Fixpoint ordered (keys : list jstring) : bool :=
  match keys with
  | [] => true
  | k :: rest => forallb (precedes k) rest && ordered rest
  end.

End Obj.

(** ** The platform: [JSON.stringify] and [JSON.parse] *)

Module Json.

Definition hex4 (c : N) : jstring :=
  [Hex.lower_digit (N.land (N.shiftr c 12) 15);
   Hex.lower_digit (N.land (N.shiftr c 8) 15);
   Hex.lower_digit (N.land (N.shiftr c 4) 15);
   Hex.lower_digit (N.land c 15)].

Definition backslash : N := 92%N.
Definition quote_mark : N := 34%N.

Definition unicode_escape (c : N) : jstring := backslash :: 117%N :: hex4 c.

Definition escape_unit (c : N) : jstring :=
  (if c =? 8 then [backslash; 98]
   else if c =? 9 then [backslash; 116]
   else if c =? 10 then [backslash; 110]
   else if c =? 12 then [backslash; 102]
   else if c =? 13 then [backslash; 114]
   else if c =? quote_mark then [backslash; quote_mark]
   else if c =? backslash then [backslash; backslash]
   else if c <? 32 then unicode_escape c
   else [c])%N.

(** QuoteJSONString: surrogates that do not form a pair are escaped. *)
Fixpoint quote_body (s : jstring) : jstring :=
  match s with
  | [] => []
  | c :: rest =>
      if Utf8.is_high_surrogate c then
        match rest with
        | d :: rest' =>
            if Utf8.is_low_surrogate d then c :: d :: quote_body rest'
            else unicode_escape c ++ quote_body rest
        | [] => unicode_escape c
        end
      else if Utf8.is_low_surrogate c then unicode_escape c ++ quote_body rest
      else escape_unit c ++ quote_body rest
  end.

Definition quote (s : jstring) : jstring :=
  quote_mark :: quote_body s ++ [quote_mark].

(** SerializeJSONProperty; [None] is [undefined]. *)
Fixpoint serialize (v : value) : option jstring :=
  match v with
  | VUndefined => None
  | VNull => Some (str "null")
  | VBool true => Some (str "true")
  | VBool false => Some (str "false")
  | VNum x => Some (match Prim2SF x with
                    | S754_nan | S754_infinity _ => str "null"
                    | _ => JS.Number_toString x
                    end)
  | VStr s => Some (quote s)
  | VArr items =>
      Some (str "["
            ++ JS.join (str ",")
                 ((fix each (l : list value) : list jstring :=
                     match l with
                     | [] => []
                     | x :: l' =>
                         match serialize x with
                         | Some s => s
                         | None => str "null"
                         end :: each l'
                     end) items)
            ++ str "]")
  | VObj props =>
      Some (str "{"
            ++ JS.join (str ",")
                 ((fix each (l : list (jstring * value)) : list jstring :=
                     match l with
                     | [] => []
                     | (k, x) :: l' =>
                         match serialize x with
                         | Some s => (quote k ++ str ":" ++ s) :: each l'
                         | None => each l'
                         end
                     end) props)
            ++ str "}")
  end.

(** [JSON.stringify(v)] *)
Definition stringify (v : value) : value :=
  match serialize v with
  | Some s => VStr s
  | None => VUndefined
  end.

(** Values that [JSON.stringify] and [JSON.parse] carry faithfully: no
    [undefined] inside, numbers that are finite and not the negative zero
    (JSON has no text for NaN and the infinities, and writes -0 as 0),
    objects with distinct keys in the order of enumeration, and every code
    unit of every string and key below [bound] (65536 for any string, 256
    for the strings that survive a 'binary' buffer). *)
Definition string_below (bound : N) (s : jstring) : bool :=
  forallb (fun c => (c <? bound)%N) s.

Definition plain_number (x : float) : bool :=
  match Prim2SF x with
  | S754_zero negative => negb negative
  | S754_finite _ _ _ => true
  | _ => false
  end.

Fixpoint distinct (keys : list jstring) : bool :=
  match keys with
  | [] => true
  | k :: rest => negb (existsb (str_eqb k) rest) && distinct rest
  end.

Fixpoint well_formed (bound : N) (v : value) : bool :=
  match v with
  | VUndefined => false
  | VNull | VBool _ => true
  | VNum x => plain_number x
  | VStr s => string_below bound s
  | VArr items =>
      (fix all (l : list value) : bool :=
         match l with
         | [] => true
         | x :: l' => well_formed bound x && all l'
         end) items
  | VObj props =>
      distinct (map fst props) && Obj.ordered (map fst props)
      && (fix all (l : list (jstring * value)) : bool :=
            match l with
            | [] => true
            | (k, x) :: l' => string_below bound k && well_formed bound x && all l'
            end) props
  end.

Definition is_ws (c : N) : bool :=
  ((c =? 32) || (c =? 9) || (c =? 10) || (c =? 13))%N.

Fixpoint skip_ws (s : jstring) : jstring :=
  match s with
  | c :: rest => if is_ws c then skip_ws rest else s
  | [] => []
  end.

Fixpoint expect (word : jstring) (s : jstring) : option jstring :=
  match word, s with
  | [], _ => Some s
  | w :: word', c :: s' => if (w =? c)%N then expect word' s' else None
  | _ :: _, [] => None
  end.

Definition hex4_value (a b c d : N) : option N :=
  match Hex.digit_value a, Hex.digit_value b, Hex.digit_value c, Hex.digit_value d with
  | Some x, Some y, Some z, Some w => Some (4096 * x + 256 * y + 16 * z + w)%N
  | _, _, _, _ => None
  end.

(** The characters of a string literal after the opening quote. *)
Fixpoint parse_string (s : jstring) : option (jstring * jstring) :=
  match s with
  | [] => None
  | c :: rest =>
      if (c =? quote_mark)%N then Some ([], rest)
      else if (c =? backslash)%N then
        match rest with
        | e :: rest' =>
            let simple (x : N) :=
              match parse_string rest' with
              | Some (body, r) => Some (x :: body, r)
              | None => None
              end in
            if (e =? 34)%N then simple 34%N
            else if (e =? 92)%N then simple 92%N
            else if (e =? 47)%N then simple 47%N
            else if (e =? 98)%N then simple 8%N
            else if (e =? 102)%N then simple 12%N
            else if (e =? 110)%N then simple 10%N
            else if (e =? 114)%N then simple 13%N
            else if (e =? 116)%N then simple 9%N
            else if (e =? 117)%N then
              match rest' with
              | h1 :: h2 :: h3 :: h4 :: rest'' =>
                  match hex4_value h1 h2 h3 h4 with
                  | Some x =>
                      match parse_string rest'' with
                      | Some (body, r) => Some (x :: body, r)
                      | None => None
                      end
                  | None => None
                  end
              | _ => None
              end
            else None
        | [] => None
        end
      else if (c <? 32)%N then None
      else
        match parse_string rest with
        | Some (body, r) => Some (c :: body, r)
        | None => None
        end
  end.

(** A JSON numeral has digits before the point, no zero before another
    digit, and digits after the point if there is one. *)
Definition numeral (whole : jstring) (part : option jstring) : bool :=
  match whole with
  | [] => false
  | d :: more => negb ((d =? 48)%N && negb (match more with [] => true | _ => false end))
  end
  && match part with
     | Some [] => false
     | _ => true
     end.

(** A number without its sign. *)
Definition parse_number (negative : bool) (s : jstring) : option (float * jstring) :=
  match JS.scan s with
  | Some (whole, part, x, r) =>
      if numeral whole part then
        match JS.decimal_value whole part x with
        | Some (D, E) => Some (JS.of_decimal negative D E, r)
        | None => None
        end
      else None
  | None => None
  end.

(** [obj.k = v] on a property that exists or has a key that is no array
    index: a later value overwrites in place. *)
Fixpoint set_prop (k : jstring) (v : value) (props : list (jstring * value))
  : list (jstring * value) :=
  match props with
  | [] => [(k, v)]
  | (k', v') :: rest =>
      if str_eqb k k' then (k, v) :: rest else (k', v') :: set_prop k v rest
  end.

(** The members become properties one after the other. *)
Definition object_of_members (members : list (jstring * value)) : value :=
  VObj (fold_left (fun acc kv => Obj.define (fst kv) (snd kv) acc) members []).

Fixpoint parse_value (fuel : nat) (s : jstring) : option (value * jstring) :=
  match fuel with
  | O => None
  | S f =>
      match skip_ws s with
      | [] => None
      | c :: r =>
          if (c =? 110)%N then option_map (fun r' => (VNull, r')) (expect (str "ull") r)
          else if (c =? 116)%N then option_map (fun r' => (VBool true, r')) (expect (str "rue") r)
          else if (c =? 102)%N then option_map (fun r' => (VBool false, r')) (expect (str "alse") r)
          else if (c =? quote_mark)%N then
            option_map (fun p => (VStr (fst p), snd p)) (parse_string r)
          else if (c =? 45)%N then
            option_map (fun p => (VNum (fst p), snd p)) (parse_number true r)
          else if JS.is_digit c then
            option_map (fun p => (VNum (fst p), snd p)) (parse_number false (c :: r))
          else if (c =? 91)%N then
            match skip_ws r with
            | c' :: r' =>
                if (c' =? 93)%N then Some (VArr [], r')
                else option_map (fun p => (VArr (fst p), snd p)) (parse_elements f r)
            | [] => None
            end
          else if (c =? 123)%N then
            match skip_ws r with
            | c' :: r' =>
                if (c' =? 125)%N then Some (VObj [], r')
                else option_map (fun p => (object_of_members (fst p), snd p))
                       (parse_members f r)
            | [] => None
            end
          else None
      end
  end

with parse_elements (fuel : nat) (s : jstring) : option (list value * jstring) :=
  match fuel with
  | O => None
  | S f =>
      match parse_value f s with
      | Some (v, r) =>
          match skip_ws r with
          | c :: r' =>
              if (c =? 44)%N then
                option_map (fun p => (v :: fst p, snd p)) (parse_elements f r')
              else if (c =? 93)%N then Some ([v], r')
              else None
          | [] => None
          end
      | None => None
      end
  end

with parse_members (fuel : nat) (s : jstring)
  : option (list (jstring * value) * jstring) :=
  match fuel with
  | O => None
  | S f =>
      match skip_ws s with
      | q :: r0 =>
          if (q =? quote_mark)%N then
            match parse_string r0 with
            | Some (k, r1) =>
                match skip_ws r1 with
                | colon :: r2 =>
                    if (colon =? 58)%N then
                      match parse_value f r2 with
                      | Some (v, r3) =>
                          match skip_ws r3 with
                          | c :: r4 =>
                              if (c =? 44)%N then
                                option_map (fun p => ((k, v) :: fst p, snd p))
                                  (parse_members f r4)
                              else if (c =? 125)%N then Some ([(k, v)], r4)
                              else None
                          | [] => None
                          end
                      | None => None
                      end
                    else None
                | [] => None
                end
            | None => None
            end
          else None
      | [] => None
      end
  end.

(** [JSON.parse(text)]; a malformed text throws [SyntaxError]. *)
Definition parse (text : jstring) : result value :=
  match parse_value (S (length text)) text with
  | Some (v, r) =>
      match skip_ws r with
      | [] => Ok v
      | _ :: _ => Throw SyntaxError
      end
  | None => Throw SyntaxError
  end.

End Json.


(** ** The [Token] class *)

Module Token.

(** The object loaded by [Token.setConfig]: [DOMAIN], [LTT] (lifetime of
    the access token, in days) and [LTRT] (lifetime of the refresh token,
    in days), both numbers.  The static field [Token.#CONFIG] is [None]
    until [setConfig] has run. *)
Record Config := mkConfig { DOMAIN : value; LTT : float; LTRT : float }.

(** The messages of [validate] and the errors of [generate], in the order
    of the source: "Токен поврежден", "Время действия токена истекло",
    "Недействительный токен", "Действительный токен", "Ошибка проверки
    токена", "В объекте user отсутствует ключ для генерации access_token"
    and the same for refresh_token. *)
Definition MSG_CORRUPTED : jstring :=
  [1058; 1086; 1082; 1077; 1085; 32; 1087; 1086; 1074; 1088; 1077; 1078;
   1076; 1077; 1085]%N.

Definition MSG_EXPIRED : jstring :=
  [1042; 1088; 1077; 1084; 1103; 32; 1076; 1077; 1081; 1089; 1090; 1074;
   1080; 1103; 32; 1090; 1086; 1082; 1077; 1085; 1072; 32; 1080; 1089;
   1090; 1077; 1082; 1083; 1086]%N.

Definition MSG_INVALID : jstring :=
  [1053; 1077; 1076; 1077; 1081; 1089; 1090; 1074; 1080; 1090; 1077;
   1083; 1100; 1085; 1099; 1081; 32; 1090; 1086; 1082; 1077; 1085]%N.

Definition MSG_VALID : jstring :=
  [1044; 1077; 1081; 1089; 1090; 1074; 1080; 1090; 1077; 1083; 1100;
   1085; 1099; 1081; 32; 1090; 1086; 1082; 1077; 1085]%N.

Definition MSG_ERROR : jstring :=
  [1054; 1096; 1080; 1073; 1082; 1072; 32; 1087; 1088; 1086; 1074; 1077;
   1088; 1082; 1080; 32; 1090; 1086; 1082; 1077; 1085; 1072]%N.

Definition MSG_NO_ACCESS_KEY : jstring :=
  [1042; 32; 1086; 1073; 1098; 1077; 1082; 1090; 1077; 32; 117; 115; 101;
   114; 32; 1086; 1090; 1089; 1091; 1090; 1089; 1090; 1074; 1091; 1077;
   1090; 32; 1082; 1083; 1102; 1095; 32; 1076; 1083; 1103; 32; 1075;
   1077; 1085; 1077; 1088; 1072; 1094; 1080; 1080; 32; 97; 99; 99; 101;
   115; 115; 95; 116; 111; 107; 101; 110]%N.

Definition MSG_NO_REFRESH_KEY : jstring :=
  [1042; 32; 1086; 1073; 1098; 1077; 1082; 1090; 1077; 32; 117; 115; 101;
   114; 32; 1086; 1090; 1089; 1091; 1090; 1089; 1090; 1074; 1091; 1077;
   1090; 32; 1082; 1083; 1102; 1095; 32; 1076; 1083; 1103; 32; 1075;
   1077; 1085; 1077; 1088; 1072; 1094; 1080; 1080; 32; 114; 101; 102;
   114; 101; 115; 104; 95; 116; 111; 107; 101; 110]%N.

(** [{ success: .., message: .. }] *)
Definition Result (success : bool) (message : jstring) : value :=
  VObj [(str "success", VBool success); (str "message", VStr message)].

(** [#btoa(text)]: [Buffer.from] throws on [undefined], the only
    non-string that [JSON.stringify] can hand over. *)
Definition btoa (text : value) : result jstring :=
  match text with
  | VStr s => Ok (Base64.encode (Latin1.bytes_of_string s))
  | _ => Throw TypeError
  end.

(** [#atob(text)] *)
Definition atob (text : jstring) : jstring :=
  Latin1.string_of_bytes (Base64.decode text).

(** [a && b] and [a || b] on conditions that may throw. *)
Definition and_then (a : result bool) (b : result bool) : result bool :=
  let* x := a in if x then b else Ok false.
Definition or_else (a : result bool) (b : result bool) : result bool :=
  let* x := a in if x then Ok true else b.

(** A parameter default, [f(x = d)]: used when the argument is
    [undefined]. *)
Definition default_to (d v : value) : value :=
  match v with VUndefined => d | _ => v end.

Definition header : value := VObj [(str "alg", VStr (str "SHA256"))].

(** Each method is one [try] block with a [catch] that returns the
    sentinel of the method: [name_body] is the block, [name] the
    method. *)
Definition encode_body (data key : value) : result value :=
  let* given :=
    and_then (JS.loose_neq key VNull)
      (and_then (JS.loose_neq key VUndefined) (JS.loose_neq key (VStr []))) in
  if given then
    let* seg0 := btoa (Json.stringify header) in
    let* seg1 := btoa (Json.stringify data) in
    let dataSign := seg0 ++ str "." ++ seg1 in
    let* k := JS.ToString key in
    let* sign := Crypto.hmac_sha512 (VStr k) (VStr dataSign) Crypto.base64 in
    let res := JS.join (str ".") [seg0; seg1; sign] in
    let* r := Uri.encodeURIComponent res in
    Ok (VStr r)
  else Ok (VBool false).

Definition encode (data key : value) : value :=
  try_catch (encode_body data key) (VBool false).

Definition decode_body (token : value) : result value :=
  let* empty := or_else (JS.loose_eq token VNull) (JS.loose_eq token (VStr [])) in
  if empty then Ok (VBool false)
  else
    let* t := JS.ToString token in
    let* d := Uri.decodeURIComponent t in
    let segments := split dot d in
    if (length segments <? 3)%nat then Ok (VBool false)
    else
      let* h := Json.parse (atob (JS.nth_string segments 0)) in
      let* b := Json.parse (atob (JS.nth_string segments 1)) in
      Ok (VObj [(str "header", h); (str "body", b);
                (str "sign", VStr (JS.nth_string segments 2))]).

Definition decode (token : value) : value :=
  try_catch (decode_body token) (VBool false).

Definition validate_body (now : float) (token key : value) : result value :=
  let data := decode token in
  if negb (JS.truthy data) then Ok (Result false MSG_CORRUPTED)
  else
    let* body := JS.get data (str "body") in
    let* exp := JS.get body (str "exp") in
    let* expired := JS.lt_num exp now in
    if expired then Ok (Result true MSG_EXPIRED)
    else
      let* t := JS.ToString token in
      let* d := Uri.decodeURIComponent t in
      let segments := split dot d in
      let dataSign := JS.nth_string segments 0 ++ str "." ++ JS.nth_string segments 1 in
      let* k := JS.ToString key in
      let* sign := Crypto.hmac_sha512 (VStr k) (VStr dataSign) Crypto.base64 in
      let* stored := JS.get data (str "sign") in
      let* differs := JS.loose_neq stored (VStr sign) in
      if differs then Ok (Result false MSG_INVALID)
      else Ok (Result true MSG_VALID).

Definition validate (now : float) (token key : value) : value :=
  try_catch (validate_body now token key) (Result false MSG_ERROR).

(** [for (let key in obj) { if (mismatch(key)) return false }]: [Ok true]
    when the loop runs to its end. *)
Fixpoint for_in (keys : list jstring) (mismatch : jstring -> result bool) : result bool :=
  match keys with
  | [] => Ok true
  | key :: rest =>
      let* m := mismatch key in
      if m then Ok false else for_in rest mismatch
  end.

Definition strict_eq_false (v : value) : bool :=
  match v with VBool false => true | _ => false end.

(** [!user.hasOwnProperty('userId') || !user.hasOwnProperty('userKey')
    || !user.hasOwnProperty('userRkey')] *)
Definition lacks_capability (user : value) : result bool :=
  or_else (let* p := JS.hasOwnProperty user (str "userId") in Ok (negb p))
    (or_else (let* p := JS.hasOwnProperty user (str "userKey") in Ok (negb p))
             (let* p := JS.hasOwnProperty user (str "userRkey") in Ok (negb p))).

(** The first loop of [verify]: every key of the payload's [data] against
    the same key of [user], own or inherited. *)
Definition bound_to_user (data user : value) : result bool :=
  for_in (JS.forin_keys data)
    (fun key =>
       let* a := JS.get data key in
       let* u := JS.find user key in
       JS.differs a u).

(** The second loop: the same keys against [infoRefresh.body.data]. *)
Definition bound_to_refresh (data infoRefresh : value) : result bool :=
  for_in (JS.forin_keys data)
    (fun key =>
       let* a := JS.get data key in
       let* rbody := JS.get infoRefresh (str "body") in
       let* rdata := JS.get rbody (str "data") in
       let* r := JS.find rdata key in
       JS.differs a r).

Definition verify_body (now_access now_refresh : float)
    (user accessKey accessToken refreshKey refreshToken : value) : result value :=
  let infoAccess := decode accessToken in
  if negb (JS.truthy infoAccess) then Ok (VBool false)
  else
    let* lacks := lacks_capability user in
    if lacks then Ok (VBool false)
    else
      let* body := JS.get infoAccess (str "body") in
      let* data := JS.get body (str "data") in
      let* bound := bound_to_user data user in
      if negb bound then Ok (VBool false)
      else
        let result := validate now_access accessToken accessKey in
        let* success := JS.get result (str "success") in
        if negb (JS.truthy success) then
          let* supplied :=
            and_then (JS.loose_neq refreshKey VNull) (JS.loose_neq refreshToken VNull) in
          if supplied then
            let infoRefresh := decode refreshToken in
            if strict_eq_false infoRefresh then Ok (VBool false)
            else
              let* same := bound_to_refresh data infoRefresh in
              if negb same then Ok (VBool false)
              else
                let result := validate now_refresh refreshToken refreshKey in
                JS.get result (str "success")
          else Ok (VBool false)
        else Ok (VBool true).

(** [now_access] and [now_refresh] are the clock readings of the two
    [validate] calls. *)
Definition verify (now_access now_refresh : float)
    (user accessKey accessToken refreshKey refreshToken : value) : value :=
  let refreshKey := default_to VNull refreshKey in
  let refreshToken := default_to VNull refreshToken in
  try_catch
    (verify_body now_access now_refresh user accessKey accessToken refreshKey
       refreshToken)
    (VBool false).

(** [(3600 * 1000) * 24], the milliseconds of a day. *)
Definition day_ms : float := (3600 * 1000 * 24)%float.

(** [time.timestamp + ((3600 * 1000) * 24 * lifetime)] *)
Definition expiry (now lifetime : float) : float := (now + day_ms * lifetime)%float.

Definition payload (iss : value) (gen exp : float) (user : value) : value :=
  VObj [(str "iss", iss); (str "gen", VNum gen); (str "exp", VNum exp);
        (str "data", user)].

(** [data.exp = exp] on the payload object. *)
Definition set_exp (data : value) (exp : float) : value :=
  match data with
  | VObj props => VObj (Json.set_prop (str "exp") (VNum exp) props)
  | _ => data
  end.

Definition generate_body (CONFIG : option Config) (now : float)
    (user accessKey refreshKey : value) : result value :=
  let* cfg := match CONFIG with Some c => Ok c | None => Throw TypeError end in
  let data := payload (DOMAIN cfg) now (expiry now (LTT cfg)) user in
  let token := encode data accessKey in
  let* failed := JS.loose_eq token (VBool false) in
  if failed then Throw (Error MSG_NO_ACCESS_KEY)
  else
    let* refresh := JS.loose_neq refreshKey (VStr []) in
    if refresh then
      let* dateAccess := JS.get data (str "exp") in
      let data := set_exp data (expiry now (LTRT cfg)) in
      let* dateRefresh := JS.get data (str "exp") in
      let refreshToken := encode data refreshKey in
      let* failed := JS.loose_eq refreshToken (VBool false) in
      if failed then Throw (Error MSG_NO_REFRESH_KEY)
      else
        Ok (VObj [(str "success", VNum 1%float); (str "accessToken", token);
                  (str "refreshToken", refreshToken);
                  (str "dateAccess", dateAccess); (str "dateRefresh", dateRefresh)])
    else
      let* dateAccess := JS.get data (str "exp") in
      Ok (VObj [(str "success", VNum 1%float); (str "accessToken", token);
                (str "dateAccess", dateAccess)]).

Definition generate (CONFIG : option Config) (now : float)
    (user accessKey refreshKey : value) : value :=
  let accessKey := default_to (VStr []) accessKey in
  let refreshKey := default_to (VStr []) refreshKey in
  try_catch (generate_body CONFIG now user accessKey refreshKey) (VBool false).

Definition generateCsrf_body (now : float) (id csrfKey : value) : result value :=
  let data := VObj [(str "id", id); (str "create", VNum now)] in
  let* csrfToken := Crypto.hmac_sha512 csrfKey (Json.stringify data) Crypto.hex in
  Ok (VObj [(str "csrfToken", VStr csrfToken); (str "timeCreate", VNum now)]).

(** The [catch] block of [generateCsrf] has no [return]: the call then
    evaluates to [undefined]. *)
Definition generateCsrf (now : float) (id csrfKey : value) : value :=
  try_catch (generateCsrf_body now id csrfKey) VUndefined.

Definition verifyCsrf_body (key data token : value) : result value :=
  let* sign := Crypto.hmac_sha512 key (Json.stringify data) Crypto.hex in
  let* same := JS.loose_eq token (VStr sign) in
  Ok (VBool same).

Definition verifyCsrf (key data token : value) : value :=
  try_catch (verifyCsrf_body key data token) (VBool false).

End Token.

(** ** [generate] over a store

    [generate] receives a reference to the caller's [user] object and builds
    its own [data] object around it ([data.data] aliases [user]); the only
    assignment in the method is [data.exp = ..].  To state what the caller's
    objects look like afterwards, the method is given a second time over an
    explicit store of mutable objects. *)

Module Store.

Definition loc := nat.

(** What a property or an array slot holds: an immutable value or a
    reference to an object of the store. *)
Inductive svalue :=
| SPrim (v : value)
| SRef (l : loc).

Inductive cell :=
| CObj (props : list (jstring * svalue))
| CArr (items : list svalue).

(** The store; a location is an index. *)
Definition heap := list cell.

Definition alloc (h : heap) (c : cell) : heap * loc := (h ++ [c], length h).

Fixpoint set_field (k : jstring) (v : svalue) (props : list (jstring * svalue))
  : list (jstring * svalue) :=
  match props with
  | [] => [(k, v)]
  | (k', v') :: rest =>
      if str_eqb k k' then (k, v) :: rest else (k', v') :: set_field k v rest
  end.

Fixpoint update (h : heap) (l : loc) (f : cell -> cell) : heap :=
  match h, l with
  | [], _ => []
  | c :: h', O => f c :: h'
  | c :: h', S l' => c :: update h' l' f
  end.

(** [obj.k = v] *)
Definition write (h : heap) (l : loc) (k : jstring) (v : svalue) : heap :=
  update h l (fun c => match c with
                       | CObj props => CObj (set_field k v props)
                       | CArr _ => c
                       end).

Fixpoint all_some {A} (l : list (option A)) : option (list A) :=
  match l with
  | [] => Some []
  | Some x :: l' => option_map (cons x) (all_some l')
  | None :: _ => None
  end.

(** The tree that [JSON.stringify] walks from [v].  [None] when the walk
    does not end within [fuel] steps of depth, which is the case of a cyclic
    structure ([JSON.stringify] then throws a [TypeError]). *)
Fixpoint snap (fuel : nat) (h : heap) (v : svalue) : option value :=
  match v with
  | SPrim p => Some p
  | SRef l =>
      match fuel with
      | O => None
      | S f =>
          match nth_error h l with
          | Some (CObj props) =>
              option_map VObj
                (all_some (map (fun kv => option_map (pair (fst kv)) (snap f h (snd kv)))
                               props))
          | Some (CArr items) => option_map VArr (all_some (map (snap f h) items))
          | None => None
          end
      end
  end.

Definition snapshot (h : heap) (v : svalue) : option value :=
  snap (S (length h)) h v.

(** [this.encode(data, key)] with [data] in the store: [encode] only reads
    it.  When [JSON.stringify(data)] throws, the [catch] of [encode] returns
    [false], which is also what every earlier exit of [encode] returns. *)
Definition encode (h : heap) (data : svalue) (key : value) : value :=
  match snapshot h data with
  | Some d => Token.encode d key
  | None => VBool false
  end.

(** [data.exp] *)
Definition read_exp (h : heap) (data : loc) : result value :=
  match nth_error h data with
  | Some (CObj props) =>
      Ok (match find (fun kv => str_eqb (str "exp") (fst kv)) props with
          | Some (_, SPrim v) => v
          | _ => VUndefined
          end)
  | _ => Throw TypeError
  end.

Definition generate (CONFIG : option Token.Config) (now : float) (h : heap)
    (user : svalue) (accessKey refreshKey : value) : heap * value :=
  let accessKey := Token.default_to (VStr []) accessKey in
  let refreshKey := Token.default_to (VStr []) refreshKey in
  match CONFIG with
  | None => (h, VBool false)
  | Some cfg =>
      let (h1, data) :=
        alloc h (CObj [(str "iss", SPrim (Token.DOMAIN cfg));
                       (str "gen", SPrim (VNum now));
                       (str "exp", SPrim (VNum (Token.expiry now (Token.LTT cfg))));
                       (str "data", user)]) in
      let token := encode h1 (SRef data) accessKey in
      match JS.loose_eq token (VBool false) with
      | Ok false =>
          match JS.loose_neq refreshKey (VStr []) with
          | Ok true =>
              let dateAccess := read_exp h1 data in
              let h2 := write h1 data (str "exp")
                          (SPrim (VNum (Token.expiry now (Token.LTRT cfg)))) in
              let dateRefresh := read_exp h2 data in
              let refreshToken := encode h2 (SRef data) refreshKey in
              (h2,
               try_catch
                 (let* dateAccess := dateAccess in
                  let* dateRefresh := dateRefresh in
                  let* failed := JS.loose_eq refreshToken (VBool false) in
                  if failed then Throw (Error Token.MSG_NO_REFRESH_KEY)
                  else
                    Ok (VObj [(str "success", VNum 1%float); (str "accessToken", token);
                              (str "refreshToken", refreshToken);
                              (str "dateAccess", dateAccess);
                              (str "dateRefresh", dateRefresh)]))
                 (VBool false))
          | Ok false =>
              (h1,
               try_catch
                 (let* dateAccess := read_exp h1 data in
                  Ok (VObj [(str "success", VNum 1%float); (str "accessToken", token);
                            (str "dateAccess", dateAccess)]))
                 (VBool false))
          | Throw _ => (h1, VBool false)
          end
      | _ => (h1, VBool false)
      end
  end.

End Store.

(* ================================================================== *)
(** * Part I, continued.  The input filter                              *)
(* ================================================================== *)

(** The classes [Filter] and [InputHttp] of the same file check and clean
    what a client sends.  They are written with regular expressions, so the
    platform part comes first: the patterns and flags that the file uses,
    and the methods that take a pattern ([test], [match], [replace],
    [split]).

    Conventions, beyond those of the token class.
    - A pattern is matched on UTF-16 code units.  The one pattern with the
      [u] flag (the rule for names) lists only characters of the Basic
      Multilingual Plane that are no surrogates, so that reading the input
      by code points gives the same matches.
    - The [i] flag is given for literal characters; the two patterns that
      carry it ("content-disposition" and "false|true") are ASCII
      literals, whose only case variants are the ASCII ones.
    - [Number(text)] of a decimal numeral is kept as that numeral (digits
      before and after the point); its rounding to a double is not
      represented. *)

(** ** The platform: regular expressions *)

Module RegExp.

(** What a character class lists. *)
Inductive item :=
| One (c : N)
| Range (lo hi : N)
| Digit
| Word
| Space.

(** The abstract syntax of ECMA-262: a disjunction of alternatives, an
    alternative being a left-nested sequence of terms.  Groups carry their
    number (the rank of their opening parenthesis); [Repeat] is the greedy
    quantifier, [*] being [{0,}], [+] [{1,}] and [?] [{0,1}]. *)
Inductive pattern :=
| Empty
| Char (c : N)
| Any
| Class (negated : bool) (items : list item)
| Bol
| Eol
| Seq (a b : pattern)
| Alt (a b : pattern)
| Group (index : nat) (p : pattern)
| Repeat (min : nat) (max : option nat) (p : pattern).

(** *** Reading a pattern *)

Definition is_letter (c : N) : bool :=
  (((65 <=? c) && (c <=? 90)) || ((97 <=? c) && (c <=? 122)))%N.

Fixpoint read_digits (acc : nat) (s : jstring) : nat * jstring :=
  match s with
  | c :: r => if JS.is_digit c then read_digits (10 * acc + N.to_nat (c - 48)) r
              else (acc, s)
  | [] => (acc, [])
  end.

Definition starts_with_digit (s : jstring) : bool :=
  match s with c :: _ => JS.is_digit c | [] => false end.

(** A quantifier at the head of [s], if there is one; the bounds of
    [{n,m}] are in order. *)
Definition read_quantifier (s : jstring) : option (nat * option nat * jstring) :=
  match s with
  | 42%N :: r => Some (0, None, r)
  | 43%N :: r => Some (1, None, r)
  | 63%N :: r => Some (0, Some 1, r)
  | 123%N :: r =>
      if starts_with_digit r then
        let (n, r1) := read_digits 0 r in
        match r1 with
        | 125%N :: r2 => Some (n, Some n, r2)
        | 44%N :: 125%N :: r2 => Some (n, None, r2)
        | 44%N :: r2 =>
            if starts_with_digit r2 then
              let (m, r3) := read_digits 0 r2 in
              match r3 with
              | 125%N :: r4 => if (m <? n)%nat then None else Some (n, Some m, r4)
              | _ => None
              end
            else None
        | _ => None
        end
      else None
  | _ => None
  end.

(** A backslash escape, the backslash already read: [\d], [\w], [\s], the
    control escapes [\n], [\r], [\t], and the identity escape of a
    character that is neither a letter nor a digit.  [None] for the escapes
    that the file does not use. *)
Definition read_escape (s : jstring) : option (item * jstring) :=
  match s with
  | c :: r =>
      if (c =? 100)%N then Some (Digit, r)
      else if (c =? 119)%N then Some (Word, r)
      else if (c =? 115)%N then Some (Space, r)
      else if (c =? 110)%N then Some (One 10, r)
      else if (c =? 114)%N then Some (One 13, r)
      else if (c =? 116)%N then Some (One 9, r)
      else if is_letter c || JS.is_digit c then None
      else Some (One c, r)
  | [] => None
  end.

Definition read_class_atom (s : jstring) : option (item * jstring) :=
  match s with
  | 92%N :: r => read_escape r
  | c :: r => Some (One c, r)
  | [] => None
  end.

(** The members of a class up to the closing bracket.  [a-b] is a range
    when a member follows the dash; a dash elsewhere stands for itself. *)
Fixpoint read_class (fuel : nat) (s : jstring) : option (list item * jstring) :=
  match fuel with
  | O => None
  | S f =>
      match s with
      | 93%N :: r => Some ([], r)
      | _ =>
          match read_class_atom s with
          | Some (a, r) =>
              match r with
              | 45%N :: c :: r' =>
                  if (c =? 93)%N then
                    option_map (fun p => (a :: fst p, snd p)) (read_class f r)
                  else
                    match a, read_class_atom (c :: r') with
                    | One lo, Some (One hi, r'') =>
                        option_map (fun p => (Range lo hi :: fst p, snd p))
                          (read_class f r'')
                    | _, _ => None
                    end
              | _ => option_map (fun p => (a :: fst p, snd p)) (read_class f r)
              end
          | None => None
          end
      end
  end.

Definition of_item (i : item) : pattern :=
  match i with
  | One c => Char c
  | _ => Class false [i]
  end.

Definition extend (acc : option pattern) (t : pattern) : pattern :=
  match acc with
  | Some a => Seq a t
  | None => t
  end.

Definition finish (acc : option pattern) : pattern :=
  match acc with
  | Some a => a
  | None => Empty
  end.

(** [n] is the number of groups opened so far. *)
Fixpoint read_disjunction (fuel : nat) (s : jstring) (n : nat)
  : option (pattern * jstring * nat) :=
  match fuel with
  | O => None
  | S f =>
      match read_alternative f None s n with
      | Some (a, r, n1) =>
          match r with
          | 124%N :: r' =>
              match read_disjunction f r' n1 with
              | Some (b, r'', n2) => Some (Alt a b, r'', n2)
              | None => None
              end
          | _ => Some (a, r, n1)
          end
      | None => None
      end
  end

with read_alternative (fuel : nat) (acc : option pattern) (s : jstring) (n : nat)
  : option (pattern * jstring * nat) :=
  match fuel with
  | O => None
  | S f =>
      match s with
      | [] => Some (finish acc, [], n)
      | c :: _ =>
          if ((c =? 124) || (c =? 41))%N then Some (finish acc, s, n)
          else
            match read_term f s n with
            | Some (t, r, n1) => read_alternative f (Some (extend acc t)) r n1
            | None => None
            end
      end
  end

with read_term (fuel : nat) (s : jstring) (n : nat)
  : option (pattern * jstring * nat) :=
  match fuel with
  | O => None
  | S f =>
      match s with
      | [] => None
      | c :: r =>
          if (c =? 94)%N then Some (Bol, r, n)
          else if (c =? 36)%N then Some (Eol, r, n)
          else
            let atom :=
              if (c =? 40)%N then
                match r with
                | 63%N :: _ => None
                | _ =>
                    match read_disjunction f r (S n) with
                    | Some (p, 41%N :: r', n1) => Some (Group (S n) p, r', n1)
                    | _ => None
                    end
                end
              else if (c =? 46)%N then Some (Any, r, n)
              else if (c =? 91)%N then
                match r with
                | 94%N :: r' =>
                    option_map (fun p => (Class true (fst p), snd p, n))
                      (read_class (S (length r')) r')
                | _ =>
                    option_map (fun p => (Class false (fst p), snd p, n))
                      (read_class (S (length r)) r)
                end
              else if (c =? 92)%N then
                option_map (fun p => (of_item (fst p), snd p, n)) (read_escape r)
              else if existsb (N.eqb c) [42; 43; 63; 123; 125; 93]%N then None
              else Some (Char c, r, n) in
            match atom with
            | Some (a, r1, n1) =>
                match read_quantifier r1 with
                | Some (min, max, r2) =>
                    match r2 with
                    | 63%N :: _ => None
                    | _ => Some (Repeat min max a, r2, n1)
                    end
                | None => Some (a, r1, n1)
                end
            | None => None
            end
      end
  end.

Definition read (source : jstring) : option pattern :=
  match read_disjunction (4 * length source + 4) source 0 with
  | Some (p, [], _) => Some p
  | _ => None
  end.

(** [new RegExp(source)] and the literal [/source/]; a text that is no
    pattern is a [SyntaxError]. *)
Definition compile (source : jstring) : result pattern :=
  match read source with
  | Some p => Ok p
  | None => Throw SyntaxError
  end.

(** *** Matching *)

(** A position of the matcher: the index reached, the input from there on,
    and the groups captured so far (start and end index, the most recent
    capture of a group first). *)
Record state := mkState {
  pos : nat;
  rest : jstring;
  caps : list (nat * (nat * nat))
}.

Definition is_line_terminator (c : N) : bool :=
  ((c =? 10) || (c =? 13) || (c =? 8232) || (c =? 8233))%N.

Definition is_word (c : N) : bool :=
  is_letter c || JS.is_digit c || (c =? 95)%N.

(** Canonicalize, for the [i] flag. *)
Definition canonical (c : N) : N :=
  if ((97 <=? c) && (c <=? 122))%N then (c - 32)%N else c.

Definition same (ignore_case : bool) (a c : N) : bool :=
  if ignore_case then (canonical a =? canonical c)%N else (a =? c)%N.

Definition member (c : N) (i : item) : bool :=
  match i with
  | One a => (a =? c)%N
  | Range lo hi => ((lo <=? c) && (c <=? hi))%N
  | Digit => JS.is_digit c
  | Word => is_word c
  | Space => JS.is_space c
  end.

Definition in_class (negated : bool) (items : list item) (c : N) : bool :=
  xorb negated (existsb (member c) items).

(** One character, if it passes [ok]. *)
Definition step (ok : N -> bool) (x : state) : list state :=
  match rest x with
  | c :: r => if ok c then [mkState (S (pos x)) r (caps x)] else []
  | [] => []
  end.

Fixpoint groups (p : pattern) : list nat :=
  match p with
  | Seq a b | Alt a b => groups a ++ groups b
  | Group i q => i :: groups q
  | Repeat _ _ q => groups q
  | _ => []
  end.

Definition forget (gs : list nat) (x : state) : state :=
  mkState (pos x) (rest x)
    (filter (fun c => negb (existsb (Nat.eqb (fst c)) gs)) (caps x)).

Definition capture (i from : nat) (y : state) : state :=
  mkState (pos y) (rest y) ((i, (from, pos y)) :: caps y).

Definition lower (max : option nat) : option nat := option_map Nat.pred max.

(** RepeatMatcher: the ways of matching between [min] and [max] rounds of
    [one] from [x], the longest first; once [min] rounds are done, a round
    that consumes nothing is not continued. *)
Fixpoint iterate (fuel : nat) (one : state -> list state)
    (min : nat) (max : option nat) (x : state) : list state :=
  match max with
  | Some O => [x]
  | _ =>
      match fuel with
      | O => []
      | S f =>
          let more :=
            flat_map
              (fun y =>
                 if (min =? 0)%nat && (length (rest y) =? length (rest x))%nat then []
                 else iterate f one (Nat.pred min) (lower max) y)
              (one x) in
          if (min =? 0)%nat then more ++ [x] else more
      end
  end.

(** The ways of matching [p] from [x], in the order in which the
    backtracking matcher of ECMA-262 tries them: the first one that lets
    the rest of the pattern match is the match. *)
Fixpoint run (ignore_case : bool) (p : pattern) (x : state) : list state :=
  match p with
  | Empty => [x]
  | Char c => step (same ignore_case c) x
  | Any => step (fun c => negb (is_line_terminator c)) x
  | Class negated items => step (in_class negated items) x
  | Bol => if (pos x =? 0)%nat then [x] else []
  | Eol => match rest x with [] => [x] | _ :: _ => [] end
  | Seq a b => flat_map (run ignore_case b) (run ignore_case a x)
  | Alt a b => run ignore_case a x ++ run ignore_case b x
  | Group i q => map (capture i (pos x)) (run ignore_case q x)
  | Repeat min max q =>
      iterate (S (min + length (rest x)))
        (fun y => run ignore_case q (forget (groups q) y)) min max x
  end.

(** A compiled pattern with its [i] flag.  The [g] flag only matters to
    [replace]; a pattern object is never used by two calls in a way that
    lets [lastIndex] be seen. *)
Record regexp := mkRegExp { pattern_of : pattern; ignore_case : bool }.

(** The first match at or after index [i], [s] being the input from [i]
    on: the start index and the final position. *)
Fixpoint search (re : regexp) (i : nat) (s : jstring) : option (nat * state) :=
  match run (ignore_case re) (pattern_of re) (mkState i s []) with
  | y :: _ => Some (i, y)
  | [] =>
      match s with
      | [] => None
      | _ :: s' => search re (S i) s'
      end
  end.

(** [re.exec(s)] *)
Definition exec (re : regexp) (s : jstring) : option (nat * state) := search re 0 s.

(** [re.test(s)] *)
Definition test (re : regexp) (s : jstring) : bool :=
  match exec re s with Some _ => true | None => false end.

Definition substring (s : jstring) (from to : nat) : jstring :=
  firstn (to - from) (skipn from s).

(** [s.match(re)[i]] for a pattern without the [g] flag: the text of
    group [i] in the first match, [None] when the group took no part. *)
Definition captured (s : jstring) (y : state) (i : nat) : option jstring :=
  match find (fun c => Nat.eqb (fst c) i) (caps y) with
  | Some (_, (from, to)) => Some (substring s from to)
  | None => None
  end.

(** [s.replace(re, by)] for a pattern with the [g] flag and a replacement
    text without [$]: [s] is the input from index [i] on. *)
Fixpoint replace_from (fuel : nat) (re : regexp) (by_text : jstring) (i : nat)
    (s : jstring) : jstring :=
  match fuel with
  | O => s
  | S f =>
      match search re i s with
      | None => s
      | Some (j, y) =>
          let kept := firstn (j - i) s in
          if (pos y =? j)%nat then
            match skipn (j - i) s with
            | [] => kept ++ by_text
            | c :: s' => kept ++ by_text ++ c :: replace_from f re by_text (S j) s'
            end
          else kept ++ by_text ++ replace_from f re by_text (pos y) (rest y)
      end
  end.

Definition replace (re : regexp) (by_text : jstring) (s : jstring) : jstring :=
  replace_from (S (length s)) re by_text 0 s.

(** [s.split(re)] for a pattern without groups.  [piece] is the text since
    the last separator, in reverse; [s] is the input from index [q] on.  A
    separator is looked for at [q] only when [q] is before the end, and an
    empty match at the start of a piece is passed over. *)
Fixpoint split_from (fuel : nat) (re : regexp) (piece : jstring) (q : nat)
    (s : jstring) : list jstring :=
  match fuel with
  | O => [rev piece ++ s]
  | S f =>
      match s with
      | [] => [rev piece]
      | c :: s' =>
          match run (ignore_case re) (pattern_of re) (mkState q s []) with
          | y :: _ =>
              if (pos y =? q - length piece)%nat
              then split_from f re (c :: piece) (S q) s'
              else rev piece :: split_from f re [] (pos y) (rest y)
          | [] => split_from f re (c :: piece) (S q) s'
          end
      end
  end.

Definition split (re : regexp) (s : jstring) : list jstring :=
  match s with
  | [] => match run (ignore_case re) (pattern_of re) (mkState 0 [] []) with
          | _ :: _ => []
          | [] => [[]]
          end
  | _ => split_from (2 * length s + 1) re [] 0 s
  end.

End RegExp.

(** ** The platform: property assignment and string methods *)



Module Str.

(** [s.toLowerCase()] on the ASCII letters. *)
Definition toLowerCase (s : jstring) : jstring :=
  map (fun c => if ((65 <=? c) && (c <=? 90))%N then (c + 32)%N else c) s.

(** A number written in decimal: [mantissa / 10^scale]. *)
Record decimal := mkDecimal { mantissa : N; scale : nat }.

Fixpoint digits (acc : N) (s : jstring) : N :=
  match s with
  | c :: r => digits (10 * acc + (c - 48))%N r
  | [] => acc
  end.

(** [Number(s)] for a text made of digits with at most one point. *)
Definition Number (s : jstring) : decimal :=
  match split 46%N s with
  | [whole] => mkDecimal (digits 0 whole) 0
  | whole :: fraction :: _ => mkDecimal (digits 0 (whole ++ fraction)) (length fraction)
  | [] => mkDecimal 0 0
  end.

(** [v.toString()]: [undefined] and [null] have no methods. *)
Definition toString (v : value) : result jstring :=
  match v with
  | VUndefined | VNull => Throw TypeError
  | _ => JS.ToString v
  end.

End Str.

(** ** The class [Filter] *)

Module Filter.

(** A pattern literal.  Every literal of the file reads as a pattern
    (lemmas [rules_read], [literals_read] and [os_table_reads]). *)
Definition literal (source : jstring) (ignore_case : bool) : RegExp.regexp :=
  RegExp.mkRegExp
    (match RegExp.read source with Some p => p | None => RegExp.Empty end)
    ignore_case.

Definition quote : jstring := [34%N].

(** The sources of the five rules of [regular]; the Cyrillic letters are
    given by their code: U+0410 to U+044F are the letters from capital A to
    small ya, U+0401 and U+0451 capital and small io. *)
Definition login_source : jstring := str "^[a-zA-Z][a-zA-Z0-9-_\.]{3,20}$".
Definition name_source : jstring :=
  str "[A-z" ++ [1040; 45; 1103; 1025; 45; 1105]%N ++ str "]{2,30}$".
Definition email_source : jstring :=
  str "^[\w.]+@([A-z0-9][-A-z0-9]+\.)+[A-z]{2,4}$".
Definition pass_source : jstring :=
  str "^[^" ++ [1040; 45; 1071; 1072; 45; 1103; 1025; 1105]%N ++ str "]{8,20}$".
Definition telephone_source : jstring :=
  str "^(\+)([- _():=+]?\d[- _():=+]?){11,14}(\s*)?$".

Definition rule_sources : list (jstring * jstring) :=
  [(str "login", login_source);
   (str "name", name_source);
   (str "email", email_source);
   (str "pass", pass_source);
   (str "telephone", telephone_source)].

(** The map [regular], in the order of its entries. *)
Definition regular : list (jstring * RegExp.regexp) :=
  Eval vm_compute in map (fun e => (fst e, literal (snd e) false)) rule_sources.

(** [new RegExp(`^.*${key}*$`)] *)
Definition type_pattern (key : jstring) : result RegExp.regexp :=
  let* p := RegExp.compile (str "^.*" ++ key ++ str "*$") in
  Ok (RegExp.mkRegExp p false).

(** The loop of [validate] over the entries of [regular]. *)
Fixpoint validate_from (rules : list (jstring * RegExp.regexp)) (type variable : value)
  : result value :=
  match rules with
  | [] => Ok VNull
  | (key, rule) :: more =>
      let* reg := type_pattern key in
      let* t := JS.ToString type in
      if RegExp.test reg t then
        let* v := JS.ToString variable in
        if RegExp.test rule v then Ok (VBool true) else Ok (VBool false)
      else validate_from more type variable
  end.

Definition validate (type variable : value) : result value :=
  validate_from regular type variable.

(** [data[key] != null && data[key] != undefined && data[key] != ''] *)
Definition filled (v : value) : result bool :=
  Token.and_then (JS.loose_neq v VNull)
    (Token.and_then (JS.loose_neq v VUndefined) (JS.loose_neq v (VStr []))).

(** The loop of [getUserData], [userData] being the object built so far. *)
Fixpoint getUserData_from (keys : list jstring) (data : value) (hardCheck : bool)
    (userData : list (jstring * value)) : result value :=
  match keys with
  | [] => Ok (VObj userData)
  | key :: more =>
      let* v := JS.get data key in
      let* present := filled v in
      if present then
        let* valid := validate (VStr key) v in
        let* unknown := JS.loose_eq valid VNull in
        if JS.truthy valid || unknown then
          getUserData_from more data hardCheck (Obj.assign key v userData)
        else if hardCheck then Ok (VBool false)
        else getUserData_from more data hardCheck userData
      else getUserData_from more data hardCheck userData
  end.

Definition getUserData (data : value) (hardCheck : bool) : result value :=
  getUserData_from (JS.forin_keys data) data hardCheck [].

(** What [parseData] stores in a field. *)
Inductive field :=
| FString (s : jstring)
| FBoolean (b : bool)
| FNumber (n : Str.decimal).

Definition boolean_pattern : RegExp.regexp :=
  Eval vm_compute in literal (str "^(false|true)$") true.
Definition number_pattern : RegExp.regexp :=
  Eval vm_compute in literal (str "^[0-9]*[\.]?[0-9]+$") false.
Definition disposition_pattern : RegExp.regexp :=
  Eval vm_compute in literal (str "content-disposition") true.
Definition boundary_pattern : RegExp.regexp :=
  Eval vm_compute in
  literal (str "--[\w\-\_\@\#\~\(\)\[\]\\\/\*\.\,\?\^\&\+\:\;\'\" ++ quote
           ++ str "\`\$\<\>]+") false.
Definition breaks_pattern : RegExp.regexp :=
  Eval vm_compute in literal (str "[\n\r\t]+") false.
Definition name_pattern : RegExp.regexp :=
  Eval vm_compute in
  literal (str "name=" ++ quote ++ str "([^" ++ quote ++ str "]+)" ++ quote) false.
Definition tag_pattern : RegExp.regexp :=
  Eval vm_compute in literal (str "(<)([\/]{0,1})[^\<\>]+(>)") false.

Definition literal_sources : list jstring :=
  [str "^(false|true)$"; str "^[0-9]*[\.]?[0-9]+$"; str "content-disposition";
   str "--[\w\-\_\@\#\~\(\)\[\]\\\/\*\.\,\?\^\&\+\:\;\'\" ++ quote ++ str "\`\$\<\>]+";
   str "[\n\r\t]+";
   str "name=" ++ quote ++ str "([^" ++ quote ++ str "]+)" ++ quote;
   str "(<)([\/]{0,1})[^\<\>]+(>)"].

(** The two conversions that [parseData] applies to a text, one after the
    other: "true" and "false" in any case become booleans, decimal numerals
    become numbers.  The second test is made on what the first has left (a
    boolean is tested as "true" or "false"). *)
Definition to_boolean (s : jstring) : field :=
  if RegExp.test boolean_pattern s
  then FBoolean (str_eqb (Str.toLowerCase s) (str "true"))
  else FString s.

Definition to_number (f : field) : field :=
  match f with
  | FString s => if RegExp.test number_pattern s then FNumber (Str.Number s) else f
  | FBoolean b =>
      if RegExp.test number_pattern (if b then str "true" else str "false")
      then FNumber (Str.Number (if b then str "true" else str "false"))
      else f
  | FNumber _ => f
  end.

Definition convert (s : jstring) : field := to_number (to_boolean s).

(** What [parseData] returns: an object, or [false]. *)
Inductive parsed :=
| Fields (props : list (jstring * field))
| Refused.

(** The first loop of the query branch: [result[spl[0]] =
    decodeURIComponent(spl[1])] for the items with exactly one "="; [found]
    is the object [result] built so far. *)
Fixpoint read_items (items : list jstring) (hardCheck : bool)
    (found : list (jstring * jstring)) : result (option (list (jstring * jstring))) :=
  match items with
  | [] => Ok (Some found)
  | item :: more =>
      match split 61%N item with
      | [key; text] =>
          let* v := Uri.decodeURIComponent text in
          read_items more hardCheck (Obj.assign key v found)
      | _ => if hardCheck then Ok None else read_items more hardCheck found
      end
  end.

(** One part of a multipart body: line breaks become ";", and when one of
    the pieces between ";" names a field, the last piece but one is its
    value. *)
Fixpoint first_named (items : list jstring) : option jstring :=
  match items with
  | [] => None
  | item :: more =>
      match RegExp.exec name_pattern item with
      | Some (_, y) =>
          match RegExp.captured item y 1 with
          | Some name => Some name
          | None => Some (str "undefined")
          end
      | None => first_named more
      end
  end.

Definition read_part (part : jstring) (obj : list (jstring * field))
  : list (jstring * field) :=
  let arr := split 59%N (RegExp.replace breaks_pattern (str ";") part) in
  if (1 <? length arr)%nat then
    match first_named arr with
    | Some name => Obj.assign name (convert (nth (length arr - 2) arr [])) obj
    | None => obj
    end
  else obj.

Definition parseData (uri : jstring) (hardCheck : bool) : result parsed :=
  if RegExp.test disposition_pattern uri then
    Ok (Fields (fold_left (fun obj part => read_part part obj)
                  (RegExp.split boundary_pattern uri) []))
  else
    let* r := read_items (split 38%N uri) hardCheck [] in
    match r with
    | Some found => Ok (Fields (map (fun kv => (fst kv, convert (snd kv))) found))
    | None => Ok Refused
    end.

Definition strip (s : jstring) : jstring := RegExp.replace tag_pattern [] s.

Fixpoint strip_items (items : list value) : result (list value) :=
  match items with
  | [] => Ok []
  | x :: more =>
      let* s := Str.toString x in
      let* r := strip_items more in
      Ok (VStr (strip s) :: r)
  end.

Fixpoint strip_keys (keys : list jstring) (props : list (jstring * value))
  : result (list (jstring * value)) :=
  match keys with
  | [] => Ok props
  | key :: more =>
      let* v := JS.get (VObj props) key in
      let* s := Str.toString v in
      strip_keys more (Obj.replace_value key (VStr (strip s)) props)
  end.

(** [stripTags(data)]: the elements of an array and the properties of an
    object are replaced in place, and the same array or object is
    returned. *)
Definition stripTags (data : value) : result value :=
  match data with
  | VArr items => let* r := strip_items items in Ok (VArr r)
  | VObj props => let* r := strip_keys (map fst props) props in Ok (VObj r)
  | VNull => Ok VNull
  | _ => let* s := Str.toString data in Ok (VStr (strip s))
  end.

End Filter.

(** ** The class [InputHttp] *)

Module InputHttp.

(** The map [oses], in the order of its entries: the name of a system and
    the source of its pattern. *)
Definition os_table : list (jstring * jstring) :=
  [
   (str "Windows 3.11", str "(Win16)");
   (str "Windows 95", str "(Windows 95)|(Win95)|(Windows_95)");
   (str "Windows 98", str "(Windows 98)|(Win98)");
   (str "Windows 2000", str "(Windows NT 5.0)|(Windows 2000)");
   (str "Windows 2000 Service Pack 1", str "(Windows NT 5.01)");
   (str "Windows XP", str "(Windows NT 5.1)|(Windows XP)");
   (str "Windows Server 2003", str "(Windows NT 5.2)");
   (str "Windows Vista", str "(Windows NT 6.0)|(Windows Vista)");
   (str "Windows 7", str "(Windows NT 6.1)|(Windows 7)");
   (str "Windows 8", str "(Windows NT 6.2)|(Windows 8)");
   (str "Windows 8.1", str "(Windows NT 6.3)|(Windows 8.1)");
   (str "Windows 10", str "(Windows NT 10.0)|(Windows 10)");
   (str "Windows 11", str "(Windows NT 11.0)|(Windows 11)");
   (str "Windows NT 4.0", str "(Windows NT 4.0)|(WinNT4.0)|(WinNT)|(Windows NT)");
   (str "Windows ME", str "(Windows ME)|(Windows 98; Win 9x 4.90 )");
   (str "Windows CE", str "(Windows CE)");
   (str "Mac OS X Kodiak (beta)", str "(Mac OS X beta)");
   (str "Mac OS X Cheetah", str "(Mac OS X 10.0)");
   (str "Mac OS X Puma", str "(Mac OS X 10.1)");
   (str "Mac OS X Jaguar", str "(Mac OS X 10.2)");
   (str "Mac OS X Panther", str "(Mac OS X 10.3)");
   (str "Mac OS X Tiger", str "(Mac OS X 10.4)");
   (str "Mac OS X Leopard", str "(Mac OS X 10.5)");
   (str "Mac OS X Snow Leopard", str "(Mac OS X 10.6)");
   (str "Mac OS X Lion", str "(Mac OS X 10.7)");
   (str "Mac OS X", str "(Mac OS X)");
   (str "Mac OS", str "(Mac_PowerPC)|(PowerPC)|(Macintosh)");
   (str "Open BSD", str "(OpenBSD)");
   (str "SunOS", str "(SunOS)");
   (str "Solaris 11", str "(Solaris\/11)|(Solaris11)");
   (str "Solaris 10", str "((Solaris\/10)|(Solaris10))");
   (str "Solaris 9", str "((Solaris\/9)|(Solaris9))");
   (str "CentOS", str "(CentOS)");
   (str "QNX", str "(QNX)");
   (str "UNIX", str "(UNIX)");
   (str "Ubuntu 21.04", str "(Ubuntu\/21.04)|(Ubuntu 21.04)");
   (str "Ubuntu 20.04", str "(Ubuntu\/20.04)|(Ubuntu 20.04)");
   (str "Ubuntu 19.04", str "(Ubuntu\/19.04)|(Ubuntu 19.04)");
   (str "Ubuntu 18.04", str "(Ubuntu\/18.04)|(Ubuntu 18.04)");
   (str "Ubuntu 17.04", str "(Ubuntu\/17.04)|(Ubuntu 17.04)");
   (str "Ubuntu 16.04", str "(Ubuntu\/16.04)|(Ubuntu 16.04)");
   (str "Ubuntu 15.04", str "(Ubuntu\/15.04)|(Ubuntu 15.04)");
   (str "Ubuntu 14.04", str "(Ubuntu\/14.04)|(Ubuntu 14.04)");
   (str "Ubuntu 13.10", str "(Ubuntu\/13.10)|(Ubuntu 13.10)");
   (str "Ubuntu 13.04", str "(Ubuntu\/13.04)|(Ubuntu 12.04)");
   (str "Ubuntu 12.10", str "(Ubuntu\/12.10)|(Ubuntu 12.10)");
   (str "Ubuntu 12.04 LTS", str "(Ubuntu\/12.04)|(Ubuntu 12.04)");
   (str "Ubuntu 11.10", str "(Ubuntu\/11.10)|(Ubuntu 11.10)");
   (str "Ubuntu 11.04", str "(Ubuntu\/11.04)|(Ubuntu 11.04)");
   (str "Ubuntu 10.10", str "(Ubuntu\/10.10)|(Ubuntu 10.10)");
   (str "Ubuntu 10.04 LTS", str "(Ubuntu\/10.04)|(Ubuntu 10.04)");
   (str "Ubuntu 9.10", str "(Ubuntu\/9.10)|(Ubuntu 9.10)");
   (str "Ubuntu 9.04", str "(Ubuntu\/9.04)|(Ubuntu 9.04)");
   (str "Ubuntu 8.10", str "(Ubuntu\/8.10)|(Ubuntu 8.10)");
   (str "Ubuntu 8.04 LTS", str "(Ubuntu\/8.04)|(Ubuntu 8.04)");
   (str "Ubuntu 6.06 LTS", str "(Ubuntu\/6.06)|(Ubuntu 6.06)");
   (str "Red Hat Linux", str "(Red Hat)");
   (str "Red Hat Enterprise Linux", str "(Red Hat Enterprise)");
   (str "Fedora 17", str "(Fedora\/17)|(Fedora 17)");
   (str "Fedora 16", str "(Fedora\/16)|(Fedora 16)");
   (str "Fedora 15", str "(Fedora\/15)|(Fedora 15)");
   (str "Fedora 14", str "(Fedora\/14)|(Fedora 14)");
   (str "Chromium OS", str "(ChromiumOS)");
   (str "Google Chrome OS", str "(ChromeOS)");
   (str "OpenBSD", str "(OpenBSD)");
   (str "FreeBSD", str "(FreeBSD)");
   (str "NetBSD", str "(NetBSD)");
   (str "Android 12.0", str "(Android\/12)|(Android 12)");
   (str "Android 11.0", str "(Android\/11)|(Android 11)");
   (str "Android 10.0", str "(Android\/10)|(Android 10)");
   (str "Android 9.0 Pie", str "(Android\/9)|(Android 9)");
   (str "Android 8.1 Oreo", str "(Android\/8.1)|(Android 8.1)");
   (str "Android 8.0 Oreo", str "(Android\/8)|(Android 8)");
   (str "Android 7.1 Nougat", str "(Android\/7.1)|(Android 7.1)");
   (str "Android 7.0 Nougat", str "(Android\/7)|(Android 7)");
   (str "Android 6.0 Marshmallow", str "(Android\/6)|(Android 6)");
   (str "Android 5.1 Lollipop", str "(Android\/5.1)|(Android 5.1)");
   (str "Android 5.0 Lollipop", str "(Android\/5)|(Android 5)");
   (str "Android 4.4 KitKat", str "(Android\/4.4)|(Android 4.4)");
   (str "Android 4.3 Jelly Bean", str "(Android\/4.3)|(Android 4.3)");
   (str "Android 4.2 Jelly Bean", str "(Android\/4.2)|(Android 4.2)");
   (str "Android 4.1 Jelly Bean", str "(Android\/4.1)|(Android 4.1)");
   (str "Android 4.0 Ice Cream Sandwich", str "(Android\/4.0)|(Android 4.0)");
   (str "Linux", str "(Linux)|(X11)");
   (str "iPod", str "(iPod)");
   (str "iPhone", str "(iPhone)");
   (str "iPad", str "(iPad)");
   (str "OS/8", str "(OS\/8)|(OS8)");
   (str "Older DEC OS", str "(DEC)|(RSTS)|(RSTS\/E)");
   (str "WPS-8", str "(WPS-8)|(WPS8)");
   (str "BeOS", str "(BeOS)|(BeOS r5)");
   (str "BeIA", str "(BeIA)");
   (str "OS/2 2.0", str "(OS\/220)|(OS\/2 2.0)");
   (str "OS/2", str "(OS\/2)|(OS2)");
   (str "Search engine or robot", str "(nuhk)|(Googlebot)|(Yammybot)|(Openbot)|(Slurp)|(msnbot)|(Ask Jeeves\/Teoma)|(ia_archiver)")
  ].

Definition oses : list (jstring * RegExp.regexp) :=
  Eval vm_compute in
  map (fun e => (fst e, Filter.literal (snd e) false)) os_table.

(** The loop of [getOs]: the name of the first entry whose pattern is
    found in the header. *)
Fixpoint getOs_from (entries : list (jstring * RegExp.regexp)) (agent : value)
  : result jstring :=
  match entries with
  | [] => Ok (str "Unknown")
  | (item, reg) :: more =>
      let* s := JS.ToString agent in
      if RegExp.test reg s then Ok item else getOs_from more agent
  end.

(** [request] is the private field [#request]. *)
Definition getOs (request : value) : jstring :=
  try_catch
    (let* headers := JS.get request (str "headers") in
     let* agent := JS.get headers (str "user-agent") in
     getOs_from oses agent)
    (str "Unknown").

Definition getIp (request : value) : value :=
  try_catch
    (let* headers := JS.get request (str "headers") in
     JS.get headers (str "x-forwarded-for"))
    VNull.

End InputHttp.

(** ** Vocabulary of the statements *)

(** What may follow a numeral: not a digit, and nothing that starts a
    fraction or an exponent. *)
Definition delimited (rest : jstring) : Prop :=
  match rest with
  | [] => True
  | c :: _ =>
      JS.is_digit c = false /\ ((c =? 46) || (c =? 101) || (c =? 69))%N = false
  end.

(** [D * 10^E] is [m * 2^e]. *)
Definition represents (D : N) (E : Z) (m : positive) (e : Z) : Prop :=
  (Z.of_N D * 10 ^ Z.max E 0 * 2 ^ Z.max (- e) 0
   = Zpos m * 2 ^ Z.max e 0 * 10 ^ Z.max (- E) 0)%Z.

(** What may follow the digits of an exponent. *)
Definition not_digit (rest : jstring) : Prop :=
  match rest with
  | [] => True
  | c :: _ => JS.is_digit c = false
  end.

(** The exponent part that [format] writes. *)
Definition exponent_text (x : Z) : jstring :=
  str "e" ++ (if (x <? 0)%Z then str "-" else str "+") ++ JS.dec_of_N (Z.to_N (Z.abs x)).

(** The characters of a number's text. *)
Definition numeric_char (c : N) : bool :=
  JS.is_digit c || (c =? 43)%N || (c =? 45)%N || (c =? 46)%N || (c =? 101)%N.

(** The binary places kept below the unit. *)
Definition places : Z := 1100%Z.

(** The first power of two that is no double. *)
Definition top : Z := (2 ^ (emax + places))%Z.

(** A double in units of [2^-places]. *)
Definition scaled (x : spec_float) : Z :=
  match x with
  | S754_zero _ | S754_nan => 0%Z
  | S754_infinity s => cond_Zopp s top
  | S754_finite s m e => cond_Zopp s (Zpos m * 2 ^ (e + places))%Z
  end.

(** The exponent of the last place of the doubles around [X]. *)
Definition grid (X : Z) : Z :=
  (Z.max (Z.log2 X + 1 - prec) (SpecFloat.emin prec emax + places))%Z.

(** Round to nearest, ties to even, with overflow to [top]. *)
Definition nearest (X : Z) : Z :=
  let g := grid X in
  let q := (X / 2 ^ g)%Z in
  let r := (X mod 2 ^ g)%Z in
  let up := (2 ^ g <? 2 * r)%Z || ((2 ^ g =? 2 * r)%Z && Z.odd q) in
  Z.min top ((if up then q + 1 else q) * 2 ^ g)%Z.

Definition nearest_signed (V : Z) : Z :=
  if (V <? 0)%Z then (- nearest (- V))%Z else nearest V.

(** The record after [k] shifts of [M] to the right. *)
Definition shifted (M k : Z) : shr_record :=
  if (k =? 0)%Z then {| shr_m := M; shr_r := false; shr_s := false |}
  else {| shr_m := (M / 2 ^ k)%Z; shr_r := Z.testbit M (k - 1)%Z;
          shr_s := negb (M mod 2 ^ (k - 1) =? 0)%Z |}.

(** The choice between the two neighbours, from the bits shifted out. *)
Definition rounds_up (M n : Z) : bool :=
  (2 ^ n <? 2 * (M mod 2 ^ n))%Z
  || ((2 ^ n =? 2 * (M mod 2 ^ n))%Z && Z.odd (M / 2 ^ n)%Z).

(** The result before the overflow is looked at. *)
Definition raw (X : Z) : Z :=
  let g := grid X in
  let q := (X / 2 ^ g)%Z in
  let r := (X mod 2 ^ g)%Z in
  let up := (2 ^ g <? 2 * r)%Z || ((2 ^ g =? 2 * r)%Z && Z.odd q) in
  ((if up then q + 1 else q) * 2 ^ g)%Z.

(** A double that is zero or finite. *)
Definition finite_double (x : spec_float) : bool :=
  match x with
  | S754_zero _ | S754_finite _ _ _ => true
  | _ => false
  end.

(** A number that is neither NaN nor infinite. *)
Definition finite_number (x : float) : bool := finite_double (Prim2SF x).

(** Exhaustive checks over an initial segment of the naturals. *)
Fixpoint count_from (from : N) (n : nat) : list N :=
  match n with
  | O => []
  | S k => from :: count_from (N.succ from) k
  end.

Definition below (bound : N) : list N := count_from 0 (N.to_nat bound).

Definition is_octet (b : N) : Prop := (b < 256)%N.

Definition sextet0 (a : N) : N := N.shiftr a 2.
Definition sextet1 (a b : N) : N := N.lor (N.shiftl (N.land a 3) 4) (N.shiftr b 4).
Definition sextet2 (b c : N) : N := N.lor (N.shiftl (N.land b 15) 2) (N.shiftr c 6).
Definition sextet3 (c : N) : N := N.land c 63.

(** The characters that [encode] produces. *)
Definition is_base64_char (c : N) : bool :=
  Uri.is_alnum c || (c =? 43)%N || (c =? 47)%N || (c =? 61)%N.

Definition is_ascii (c : N) : Prop := (c < 128)%N.

Definition escape_ascii (c : N) : jstring :=
  if Uri.unreserved c then [c] else Uri.escape_byte c.

Definition item_of_ascii (c : N) : Uri.item :=
  if Uri.unreserved c then Uri.Raw c else Uri.Octet c.

Definition push (c : N) (r : option (jstring * jstring)) : option (jstring * jstring) :=
  match r with
  | Some (body, rest) => Some (c :: body, rest)
  | None => None
  end.

(** The text of a value: what [JSON.stringify] prints for it inside an
    array. *)
Definition text (v : value) : jstring :=
  match Json.serialize v with
  | Some s => s
  | None => str "null"
  end.

(** What a token carries for a number: [JSON.stringify] writes a number
    that is not finite as [null] and both zeros as [0]. *)
Definition stored_number (x : float) : value :=
  match Prim2SF x with
  | S754_nan | S754_infinity _ => VNull
  | S754_zero _ => VNum 0%float
  | S754_finite _ _ _ => VNum x
  end.

Definition member_text (kv : jstring * value) : jstring :=
  Json.quote (fst kv) ++ str ":" ++ text (snd kv).

Fixpoint weight (v : value) : nat :=
  match v with
  | VArr items =>
      S ((fix sum (l : list value) : nat :=
            match l with
            | [] => O
            | x :: l' => S (weight x + sum l')
            end) items)
  | VObj props =>
      S ((fix sum (l : list (jstring * value)) : nat :=
            match l with
            | [] => O
            | (_, x) :: l' => S (weight x + sum l')
            end) props)
  | _ => 1
  end.

Definition weights (items : list value) : nat :=
  fold_right (fun x acc => S (weight x + acc)) O items.

Definition member_weights (props : list (jstring * value)) : nat :=
  fold_right (fun kv acc => S (weight (snd kv) + acc)) O props.

(** The statement proved by induction on the value. *)
Definition parses_back (v : value) : Prop :=
  Json.well_formed 65536 v = true ->
  forall (f : nat) (rest : jstring),
    (weight v <= f)%nat ->
    delimited rest ->
    Json.parse_value f (text v ++ rest) = Some (v, rest).

Definition token_body (h b : value) (s : jstring) : value :=
  VObj [(str "header", h); (str "body", b); (str "sign", VStr s)].

(** The signature that [validate] recomputes for [segments] under [k]. *)
Definition signature (k : jstring) (segments : list jstring) : jstring :=
  Crypto.digest Crypto.base64
    (Sha512.hmac (Utf8.bytes_of_string k)
       (Utf8.bytes_of_string
          (JS.nth_string segments 0 ++ str "." ++ JS.nth_string segments 1))).

(** [data.body.exp < time.timestamp] *)
Definition expired (body : value) (now : float) : result bool :=
  let* exp := JS.get body (str "exp") in JS.lt_num exp now.

(** Every field of [data] is loosely equal to the field of the same name of
    [user], own or inherited: no [data[key] != user[key]]. *)
Definition matching (data user : value) : Prop :=
  Forall (fun key => exists a u,
              JS.get data key = Ok a /\ JS.find user key = Ok u
              /\ JS.differs a u = Ok false)
         (JS.forin_keys data).

(** [#btoa] of a text that is known to be a string. *)
Definition segment (t : jstring) : jstring :=
  Base64.encode (Latin1.bytes_of_string t).

(** The token that [encode] assembles from its three segments. *)
Definition wire (seg0 seg1 sign : jstring) : jstring :=
  flat_map escape_ascii (seg0 ++ str "." ++ seg1 ++ str "." ++ sign).

(** The encoded first two segments with their dots. *)
Definition wire_prefix (seg0 seg1 : jstring) : jstring :=
  flat_map escape_ascii (seg0 ++ str "." ++ seg1 ++ str ".").

(** The access token and the refresh token that [generate] issues. *)
Definition issued (key td : jstring) : jstring :=
  wire (segment (text Token.header)) (segment td)
    (signature key [segment (text Token.header); segment td]).

Definition identity : value :=
  VObj [(str "userId", VStr (str "u1")); (str "userKey", VStr (str "k1"));
        (str "userRkey", VStr (str "k2"))].

(** The character at position [i] replaced by [c]. *)
Fixpoint corrupt (i : nat) (c : N) (s : jstring) : jstring :=
  match s, i with
  | [], _ => []
  | _ :: s', O => c :: s'
  | x :: s', S i' => x :: corrupt i' c s'
  end.

(** The payload as the token carries it. *)
Definition carried (iss : value) (gen exp : float) (user : value) : value :=
  VObj [(str "iss", iss); (str "gen", stored_number gen); (str "exp", stored_number exp);
        (str "data", user)].

(** [exp < now] as [validate] finds it for a token issued with the date
    [exp]. *)
Definition lapsed (exp now : float) : bool :=
  (JS.ToNumber (stored_number exp) <? now)%float.

(** The hexadecimal HMAC-SHA512 of [message] under [key]. *)
Definition hex_hmac (key message : jstring) : jstring :=
  Crypto.digest Crypto.hex
    (Sha512.hmac (Utf8.bytes_of_string key) (Utf8.bytes_of_string message)).

Definition demo_config : Token.Config :=
  Token.mkConfig (VStr (str "example.com")) 1 7.

Definition demo_now : float := 1700000000000.

Definition k1 : value := VStr (str "k1").
Definition k2 : value := VStr (str "k2").

Definition demo_tokens : value :=
  Token.generate (Some demo_config) demo_now identity k1 k2.

Definition string_field (v : value) (k : string) : jstring :=
  match JS.get v (str k) with
  | Ok (VStr s) => s
  | _ => []
  end.

Definition demo_access : jstring := string_field demo_tokens "accessToken".
Definition demo_refresh : jstring := string_field demo_tokens "refreshToken".
Definition demo_sign : jstring := string_field (Token.decode (VStr demo_access)) "sign".

Definition demo_payload : value :=
  Token.payload (VStr (str "example.com")) demo_now (demo_now + 86400000) identity.

(** An identity with a property of its own under the name of the inherited
    method. *)
Definition shadowing_identity : value :=
  VObj [(str "userId", VStr (str "u1")); (str "userKey", VStr (str "k1"));
        (str "userRkey", VStr (str "k2")); (str "hasOwnProperty", VNum 1)].

(** Lifetimes of one day and of one day and the last binary place. *)
Definition close_config : Token.Config :=
  Token.mkConfig (VStr (str "example.com")) 1 0x1.0000000000001p+0.

(** An identity that refers to itself: [user.self = user]. *)
Definition cyclic_heap : Store.heap :=
  [Store.CObj [(str "userId", Store.SPrim (VStr (str "u1")));
               (str "userKey", Store.SPrim (VStr (str "k1")));
               (str "userRkey", Store.SPrim (VStr (str "k2")));
               (str "self", Store.SRef 0)]].


(** header.null.x : a token whose payload is the JSON text [null]. *)
Definition null_body_token : jstring :=
  str "eyJhbGciOiJTSEEyNTYifQ%3D%3D.bnVsbA%3D%3D.x".



(** An identity without [userRkey]. *)
Definition partial_identity : value :=
  VObj [(str "userId", VStr (str "u1")); (str "userKey", VStr (str "k1"))].

(** Ten days after [demo_now]: the access token of the scenario has
    expired. *)
Definition demo_later : float := demo_now + 10 * 86400000.

(** Where the third segment of [demo_access] starts. *)
Definition demo_sign_offset : nat :=
  length (JS.nth_string (split dot demo_access) 0)
  + length (JS.nth_string (split dot demo_access) 1) + 2.

(** [key != null && key != undefined && key != ''] *)
Definition key_given (key : value) : result bool :=
  Token.and_then (JS.loose_neq key VNull)
    (Token.and_then (JS.loose_neq key VUndefined) (JS.loose_neq key (VStr []))).

(** Letters, digits, the dot between segments and the percent sign of an
    escape. *)
Definition token_char (c : N) : bool :=
  Uri.is_alnum c || (c =? 46)%N || (c =? 37)%N.

(** No property of the object holds an object or an array. *)
Definition flat (user : value) : bool :=
  match user with
  | VObj props => forallb (fun kv => negb (JS.is_object (snd kv))) props
  | _ => false
  end.

Definition is_lower_hex (c : N) : bool :=
  ((48 <=? c) && (c <=? 57) || (97 <=? c) && (c <=? 102))%N.

(** The position [k] characters after [x]. *)
Definition advance (k : nat) (x : RegExp.state) : RegExp.state :=
  RegExp.mkState (RegExp.pos x + k) (skipn k (RegExp.rest x)) (RegExp.caps x).

(** The length of the longest prefix whose characters pass [ok]. *)
Fixpoint span (ok : N -> bool) (s : jstring) : nat :=
  match s with
  | c :: r => if ok c then S (span ok r) else 0
  | [] => 0
  end.

(** The largest number of rounds that a quantifier allows on a run of
    [n] characters. *)
Definition most (max : option nat) (n : nat) : nat :=
  match max with
  | Some m => Nat.min m n
  | None => n
  end.

(** [hi], [hi - 1], ..., [lo] *)
Definition downto (lo hi : nat) : list nat := rev (seq lo (S hi - lo)).

(** The test that a one-character pattern makes. *)
Definition char_test (ic : bool) (p : RegExp.pattern) : option (N -> bool) :=
  match p with
  | RegExp.Char c => Some (RegExp.same ic c)
  | RegExp.Any => Some (fun c => negb (RegExp.is_line_terminator c))
  | RegExp.Class negated items => Some (RegExp.in_class negated items)
  | _ => None
  end.

Definition found (ic : bool) (p : RegExp.pattern) (i : nat) (s : jstring) : bool :=
  match RegExp.run ic p (RegExp.mkState i s []) with
  | [] => false
  | _ :: _ => true
  end.

(** A pattern whose first term is [^]. *)
Fixpoint anchored (p : RegExp.pattern) : bool :=
  match p with
  | RegExp.Bol => true
  | RegExp.Seq a _ => anchored a
  | RegExp.Group _ q => anchored q
  | _ => false
  end.

Definition at_end (y : RegExp.state) : bool :=
  match RegExp.rest y with [] => true | _ :: _ => false end.

Definition within (max : option nat) (n : nat) : bool :=
  match max with
  | Some m => (n <=? m)%nat
  | None => true
  end.

Definition login_rule : RegExp.regexp := Filter.literal Filter.login_source false.
Definition name_rule : RegExp.regexp := Filter.literal Filter.name_source false.
Definition email_rule : RegExp.regexp := Filter.literal Filter.email_source false.
Definition pass_rule : RegExp.regexp := Filter.literal Filter.pass_source false.
Definition telephone_rule : RegExp.regexp := Filter.literal Filter.telephone_source false.

(** The five patterns that [validate] builds from the keys of [regular]. *)
Definition type_rule (key : jstring) : RegExp.regexp :=
  match Filter.type_pattern key with
  | Ok reg => reg
  | Throw _ => RegExp.mkRegExp RegExp.Empty false
  end.

(** [p] followed by the characters of [cs], as the reader nests them. *)
Definition chain (p : RegExp.pattern) (cs : jstring) : RegExp.pattern :=
  fold_left (fun acc c => RegExp.Seq acc (RegExp.Char c)) cs p.

(** [s] begins with [cs]; what follows. *)
Fixpoint after (cs s : jstring) : option jstring :=
  match cs, s with
  | [], _ => Some s
  | c :: cs', a :: s' => if (c =? a)%N then after cs' s' else None
  | _ :: _, [] => None
  end.

Definition expect (cs : jstring) (y : RegExp.state) : list RegExp.state :=
  match after cs (RegExp.rest y) with
  | Some r => [RegExp.mkState (RegExp.pos y + length cs) r (RegExp.caps y)]
  | None => []
  end.

Definition not_terminator (c : N) : bool := negb (RegExp.is_line_terminator c).

(** [^.*stem last*$] *)
Definition type_shape (stem : jstring) (last : N) : RegExp.pattern :=
  RegExp.Seq
    (RegExp.Seq (chain (RegExp.Seq RegExp.Bol (RegExp.Repeat 0 None RegExp.Any)) stem)
       (RegExp.Repeat 0 None (RegExp.Char last)))
    RegExp.Eol.

Definition login_char (c : N) : bool :=
  RegExp.is_letter c || JS.is_digit c || (c =? 45)%N || (c =? 95)%N || (c =? 46)%N.

(** A letter followed by 3 to 20 letters, digits, dashes, underscores or
    dots. *)
Definition login_shape (s : jstring) : bool :=
  match s with
  | a :: r =>
      RegExp.is_letter a && (3 <=? length r)%nat && (length r <=? 20)%nat
      && forallb login_char r
  | [] => false
  end.

(** The capital and small letters of the Russian alphabet: U+0410 to
    U+044F, U+0401 and U+0451. *)
Definition is_cyrillic (c : N) : bool :=
  ((1040 <=? c) && (c <=? 1103) || (c =? 1025) || (c =? 1105))%N.

(** Between 8 and 20 characters, none of them a Cyrillic letter. *)
Definition pass_shape (s : jstring) : bool :=
  (8 <=? length s)%nat && (length s <=? 20)%nat
  && forallb (fun c => negb (is_cyrillic c)) s.

(** The characters from "A" to "z" in the ASCII table (the letters and the
    six characters between "Z" and "a") and those from U+0401 to U+0451 (the
    Cyrillic letters among them). *)
Definition name_char (c : N) : bool :=
  ((65 <=? c) && (c <=? 122) || (1025 <=? c) && (c <=? 1105))%N.

(** The last two characters of [s] pass [ok]. *)
Definition last_two (ok : N -> bool) (s : jstring) : bool :=
  match rev s with
  | b :: a :: _ => ok a && ok b
  | _ => false
  end.

(** [t] is some text without line terminator, then [stem], then any number
    of [last]: what [^.*key*$] accepts, [key] being [stem] followed by
    [last]. *)
Definition ends_like (stem : jstring) (last : N) (t : jstring) : Prop :=
  exists p j, forallb not_terminator p = true /\ t = p ++ stem ++ repeat last j.

(** The fields that [getUserData] keeps: not loosely equal to [null] or to
    the empty string, and either accepted by their rule or without rule. *)
Definition kept (data : value) (k : jstring) (x : value) : Prop :=
  JS.get data k = Ok x
  /\ Filter.filled x = Ok true
  /\ (Filter.validate (VStr k) x = Ok (VBool true) \/ Filter.validate (VStr k) x = Ok VNull).

(** [{login: "abcd", age: 0, pass: "short", note: "<b>"}] *)
Definition demo_form : value :=
  VObj [(str "login", VStr (str "abcd")); (str "age", VNum 0);
        (str "pass", VStr (str "short")); (str "note", VStr (str "<b>"))].

Definition names (entries : list (jstring * RegExp.regexp)) : list jstring :=
  map fst entries.

Definition listed (name : jstring) (l : list jstring) : bool := existsb (str_eqb name) l.

Definition os_pattern (i : nat) : RegExp.regexp :=
  nth i (map snd InputHttp.oses) (RegExp.mkRegExp RegExp.Empty false).

Definition not_bracket (c : N) : bool := negb ((c =? 60)%N || (c =? 62)%N).

Definition tag : RegExp.pattern :=
  RegExp.Seq
    (RegExp.Seq
       (RegExp.Seq (RegExp.Group 1 (RegExp.Char 60))
          (RegExp.Group 2 (RegExp.Repeat 0 (Some 1) (RegExp.Class false [RegExp.One 47]))))
       (RegExp.Repeat 1 None (RegExp.Class true [RegExp.One 60; RegExp.One 62])))
    (RegExp.Group 3 (RegExp.Char 62)).

Definition no_open (t : jstring) : bool := forallb (fun c => negb (c =? 60)%N) t.

(** A text with tags: pieces of text, each followed by a tag, and a last
    piece of text. *)
Fixpoint render (pieces : list (jstring * jstring)) (last : jstring) : jstring :=
  match pieces with
  | [] => last
  | (text, body) :: more => text ++ 60%N :: body ++ 62%N :: render more last
  end.

Fixpoint plain (pieces : list (jstring * jstring)) (last : jstring) : jstring :=
  match pieces with
  | [] => last
  | (text, _) :: more => text ++ plain more last
  end.

(** No "<" in the text outside the tags; the body of a tag is not empty and
    holds neither "<" nor ">". *)
Definition well_marked (pieces : list (jstring * jstring)) (last : jstring) : bool :=
  forallb (fun p => no_open (fst p)
                    && negb (match snd p with [] => true | _ => false end)
                    && forallb not_bracket (snd p)) pieces
  && no_open last.

(** A code unit that is a character by itself. *)
Definition bmp_unit (c : N) : bool :=
  (c <? 65536)%N && negb (Utf8.is_high_surrogate c) && negb (Utf8.is_low_surrogate c).

Definition bmp_text (s : jstring) : bool := forallb bmp_unit s.

(** What [encodeURIComponent] writes for such a character. *)
Definition escaped (c : N) : jstring :=
  if Uri.unreserved c then [c] else Uri.escape (Utf8.encode_code_point c).

Definition decodes_to (e s : jstring) : bool :=
  match Uri.decodeURIComponent e with
  | Ok d => str_eqb d s
  | Throw _ => false
  end.

Definition separator_free (e : jstring) : bool :=
  forallb (fun x => negb (x =? 38)%N && negb (x =? 61)%N) e.

(** [encodeURIComponent(v)], the empty text if it throws. *)
Definition encoded (v : jstring) : jstring :=
  match Uri.encodeURIComponent v with
  | Ok e => e
  | Throw _ => []
  end.

(** [k1=encodeURIComponent(v1)&k2=encodeURIComponent(v2)&...] *)
Definition query (fields : list (jstring * jstring)) : jstring :=
  JS.join [38%N] (map (fun f => fst f ++ 61%N :: encoded (snd f)) fields).

(** A key that is written as it is: without "&" and "=", not "__proto__",
    and not an array index. *)
Definition plain_key (k : jstring) : bool :=
  separator_free k && negb (str_eqb k (str "__proto__"))
  && match Obj.array_index k with Some _ => false | None => true end.

Definition demo_fields : list (jstring * jstring) :=
  [(str "id", str "42"); (str "admin", str "True"); (str "q", str "a b&c=d")].

(** [s] begins with [cs], compared as the pattern compares characters;
    what follows. *)
Fixpoint begins (ic : bool) (cs s : jstring) : option jstring :=
  match cs, s with
  | [], _ => Some s
  | c :: cs', a :: s' => if RegExp.same ic c a then begins ic cs' s' else None
  | _ :: _, [] => None
  end.

Definition word (ic : bool) (cs : jstring) (y : RegExp.state) : list RegExp.state :=
  match begins ic cs (RegExp.rest y) with
  | Some r => [RegExp.mkState (RegExp.pos y + length cs) r (RegExp.caps y)]
  | None => []
  end.

(** Digits, or digits (maybe none), a point and at least one digit. *)
Definition number_shape (s : jstring) : bool :=
  match skipn (span JS.is_digit s) s with
  | [] => (0 <? span JS.is_digit s)%nat
  | c :: fraction =>
      (c =? 46)%N && (0 <? length fraction)%nat && forallb JS.is_digit fraction
  end.

Definition is_small_letter (c : N) : bool := ((97 <=? c) && (c <=? 122))%N.

(** An item of the query that the first loop goes past: one with exactly
    one "=" whose value decodes, or, without [hardCheck], one that has not
    exactly one "=". *)
Definition passes (hardCheck : bool) (item : jstring) : bool :=
  match split 61%N item with
  | [_; text] =>
      match Uri.decodeURIComponent text with
      | Ok _ => true
      | Throw _ => false
      end
  | _ => negb hardCheck
  end.

(* ================================================================== *)
(** * Part II.  Properties                                             *)
(* ================================================================== *)

(** * Properties of the platform: numbers *)

(** ** Decimal numerals *)

Lemma digits_value_uint (d : Decimal.uint) (acc : N) :
  JS.digits_value acc (JS.digits_of_uint d)
  = Some (acc * 10 ^ DecimalPos.Unsigned.usize d + DecimalPos.Unsigned.of_lu (Decimal.rev d))%N.
Proof.
  revert acc. induction d; intro acc;
    [ simpl; f_equal; lia | .. ];
    cbn [JS.digits_of_uint JS.digits_value];
    change (JS.is_digit _) with true; cbv iota;
    rewrite IHd; f_equal;
    unfold Decimal.rev at 2; cbn [Decimal.revapp];
    match goal with
    | |- context [Decimal.revapp d ?t] => rewrite (DecimalPos.Unsigned.of_lu_revapp d t)
    end;
    cbn [DecimalPos.Unsigned.of_lu DecimalPos.Unsigned.usize]; rewrite N.pow_succ_r';
    generalize (10 ^ DecimalPos.Unsigned.usize d)%N (DecimalPos.Unsigned.of_lu (Decimal.rev d));
    intros X L;
    match goal with
    | |- context [(?a - 48)%N] =>
        let v := eval vm_compute in (a - 48)%N in change (a - 48)%N with v
    end;
    ring.
Qed.

Lemma digits_value_dec (n : N) : JS.digits_value 0 (JS.dec_of_N n) = Some n.
Proof.
  unfold JS.dec_of_N. rewrite digits_value_uint. f_equal.
  rewrite N.mul_0_l, N.add_0_l, <- DecimalPos.Unsigned.of_uint_alt.
  apply DecimalN.Unsigned.of_to.
Qed.

Lemma digits_of_uint_digits (d : Decimal.uint) :
  forallb JS.is_digit (JS.digits_of_uint d) = true.
Proof. induction d; simpl; auto. Qed.

Lemma take_digits_run (ds rest : jstring) :
  forallb JS.is_digit ds = true ->
  delimited rest ->
  JS.take_digits (ds ++ rest) = (ds, rest).
Proof.
  intros D R. induction ds as [|c ds IH].
  - destruct rest as [|c rest]; [reflexivity|]. destruct R as [R _].
    simpl. now rewrite R.
  - simpl in D. apply andb_true_iff in D as [Dc Dr].
    simpl. rewrite Dc, (IH Dr). reflexivity.
Qed.

(** The numeral of a positive number does not start with a zero. *)
Lemma dec_of_pos_head (p : positive) :
  exists c ds, JS.dec_of_N (Npos p) = c :: ds /\ (c =? 48)%N = false.
Proof.
  unfold JS.dec_of_N. cbn [N.to_uint].
  assert (Hn : Decimal.unorm (Pos.to_uint p) = Pos.to_uint p).
  { rewrite <- (DecimalPos.Unsigned.to_of (Pos.to_uint p)), DecimalPos.Unsigned.of_to.
    reflexivity. }
  pose proof (DecimalPos.Unsigned.to_uint_nonnil p) as Hnil.
  pose proof (DecimalPos.Unsigned.to_uint_nonzero p) as Hz.
  destruct (Pos.to_uint p) as [|d|d|d|d|d|d|d|d|d|d] eqn:E;
    try (eexists _, _; split; [reflexivity | reflexivity]).
  - contradiction.
  - exfalso. unfold Decimal.unorm in Hn. cbn [Decimal.nzhead] in Hn.
    destruct (Decimal.nzhead d) eqn:Hd; apply (DecimalFacts.nzhead_nonzero d d); congruence.
Qed.

(** ** Rounding what needs no rounding *)

Local Open Scope Z_scope.

Lemma digits2_bounds (p : positive) :
  2 ^ (Zpos (digits2_pos p) - 1) <= Zpos p < 2 ^ Zpos (digits2_pos p).
Proof.
  induction p as [p IH | p IH |]; cbn [digits2_pos].
  - rewrite Pos2Z.inj_succ.
    replace (Z.succ (Zpos (digits2_pos p)) - 1) with (Z.succ (Zpos (digits2_pos p) - 1)) by lia.
    rewrite !Z.pow_succ_r by lia. lia.
  - rewrite Pos2Z.inj_succ.
    replace (Z.succ (Zpos (digits2_pos p)) - 1) with (Z.succ (Zpos (digits2_pos p) - 1)) by lia.
    rewrite !Z.pow_succ_r by lia. lia.
  - cbn. lia.
Qed.

Lemma digits2_unique (p : positive) (k : Z) :
  2 ^ (k - 1) <= Zpos p < 2 ^ k -> Zpos (digits2_pos p) = k.
Proof.
  intros [L U]. pose proof (digits2_bounds p) as [L' U'].
  assert (K : 0 < k).
  { destruct (Z.ltb_spec 0 k); [assumption|]. exfalso.
    destruct (Z.eq_dec k 0) as [-> | N]; [cbn in U; lia|].
    rewrite Z.pow_neg_r in U by lia. lia. }
  destruct (Z.lt_trichotomy (Zpos (digits2_pos p)) k) as [H | [H | H]]; [|exact H|]; exfalso.
  - assert (2 ^ Zpos (digits2_pos p) <= 2 ^ (k - 1)) by (apply Z.pow_le_mono_r; lia). lia.
  - assert (2 ^ k <= 2 ^ (Zpos (digits2_pos p) - 1)) by (apply Z.pow_le_mono_r; lia). lia.
Qed.

Lemma digits2_shift (m : positive) (t : Z) (M : positive) :
  0 <= t -> Zpos M = Zpos m * 2 ^ t ->
  Zpos (digits2_pos M) = Zpos (digits2_pos m) + t.
Proof.
  intros T E. apply digits2_unique. rewrite E.
  pose proof (digits2_bounds m) as [L U].
  replace (Zpos (digits2_pos m) + t - 1) with (Zpos (digits2_pos m) - 1 + t) by lia.
  rewrite !Z.pow_add_r by lia.
  assert (0 < 2 ^ t) by (apply Z.pow_pos_nonneg; lia).
  split; [apply Z.mul_le_mono_nonneg_r; lia | apply Z.mul_lt_mono_pos_r; lia].
Qed.

Lemma shr_1_even (M : Z) :
  0 <= M ->
  shr_1 {| shr_m := 2 * M; shr_r := false; shr_s := false |}
  = {| shr_m := M; shr_r := false; shr_s := false |}.
Proof. intro H. destruct M as [|p|p]; [reflexivity | reflexivity | lia]. Qed.

Lemma iter_shr_exact (p : positive) :
  forall M, 0 <= M ->
    iter_pos shr_1 p {| shr_m := 2 ^ Zpos p * M; shr_r := false; shr_s := false |}
    = {| shr_m := M; shr_r := false; shr_s := false |}.
Proof.
  induction p as [p IH | p IH |]; intros M H; cbn [iter_pos].
  - replace (2 ^ Zpos p~1 * M) with (2 * (2 ^ Zpos p * (2 ^ Zpos p * M))).
    + rewrite shr_1_even by (apply Z.mul_nonneg_nonneg; [lia|]; apply Z.mul_nonneg_nonneg; lia).
      rewrite IH by (apply Z.mul_nonneg_nonneg; lia). now apply IH.
    + replace (Zpos p~1) with (Zpos p + Zpos p + 1) by lia.
      rewrite !Z.pow_add_r by lia. change (2 ^ 1) with 2. ring.
  - replace (2 ^ Zpos p~0 * M) with (2 ^ Zpos p * (2 ^ Zpos p * M)).
    + rewrite IH by (apply Z.mul_nonneg_nonneg; lia). now apply IH.
    + replace (Zpos p~0) with (Zpos p + Zpos p) by lia.
      rewrite !Z.pow_add_r by lia. ring.
  - change (2 ^ 1) with 2. now apply shr_1_even.
Qed.

Lemma shr_exact (m : positive) (e t : Z) :
  0 <= t ->
  shr {| shr_m := Zpos m * 2 ^ t; shr_r := false; shr_s := false |} (e - t) t
  = ({| shr_m := Zpos m; shr_r := false; shr_s := false |}, e).
Proof.
  intro T. destruct t as [|p|p]; [| |lia].
  - cbn [shr]. rewrite Z.mul_1_r, Z.sub_0_r. reflexivity.
  - cbn [shr]. rewrite (Z.mul_comm (Zpos m)), iter_shr_exact by lia.
    f_equal. lia.
Qed.

Lemma bounded_canonical (m : positive) (e : Z) :
  bounded prec emax m e = true ->
  fexp prec emax (Zpos (digits2_pos m) + e) = e /\ e <= emax - prec.
Proof.
  unfold bounded, canonical_mantissa. intro H. apply andb_true_iff in H as [C B].
  apply Z.eqb_eq in C. apply Z.leb_le in B. split; assumption.
Qed.

(** An integer mantissa that holds [m * 2^e] with [t] more binary places
    than [m] is rounded to [m * 2^e]. *)
Lemma binary_round_aux_exact (s : bool) (m : positive) (e t : Z) (M : positive) :
  bounded prec emax m e = true ->
  0 <= t ->
  Zpos M = Zpos m * 2 ^ t ->
  binary_round_aux prec emax s (Zpos M) (e - t) loc_Exact = S754_finite s m e.
Proof.
  intros B T E. destruct (bounded_canonical m e B) as [C L].
  unfold binary_round_aux, shr_fexp.
  cbn [Zdigits2]. rewrite (digits2_shift m t M T E).
  replace (Zpos (digits2_pos m) + t + (e - t)) with (Zpos (digits2_pos m) + e) by lia.
  rewrite C. replace (e - (e - t)) with t by lia.
  cbn [shr_record_of_loc]. rewrite E, (shr_exact m e t T).
  cbn [loc_of_shr_record shr_m round_nearest_even Zdigits2].
  rewrite C, Z.sub_diag. cbn [shr shr_record_of_loc shr_m].
  apply Z.leb_le in L. now rewrite L.
Qed.

Lemma fexp_monotone (x y : Z) : x <= y -> fexp prec emax x <= fexp prec emax y.
Proof. unfold fexp. lia. Qed.

(** A whole number that is [m * 2^e]. *)
Lemma normalize_exact (N m : positive) (e : Z) :
  bounded prec emax m e = true ->
  Zpos N * 2 ^ Z.max (- e) 0 = Zpos m * 2 ^ Z.max e 0 ->
  binary_normalize prec emax (Zpos N) 0 false = S754_finite false m e.
Proof.
  intros B V. destruct (bounded_canonical m e B) as [C L].
  cbn [binary_normalize]. unfold binary_round.
  destruct (Z.le_gt_cases 0 e) as [P | P].
  - rewrite (Z.max_r (- e) 0), (Z.max_l e 0), Z.pow_0_r, Z.mul_1_r in V by lia.
    rewrite (digits2_shift m e N P V), Z.add_0_r, C.
    unfold shl_align. rewrite Z.sub_0_r.
    pose proof (binary_round_aux_exact false m e e N B P V) as R.
    rewrite Z.sub_diag in R.
    destruct e as [|p|p]; [exact R | exact R | lia].
  - rewrite (Z.max_l (- e) 0), (Z.max_r e 0), Z.pow_0_r, Z.mul_1_r in V by lia.
    assert (D : Zpos (digits2_pos m) = Zpos (digits2_pos N) + - e)
      by (apply (digits2_shift N (- e) m); [lia | now symmetry]).
    replace (Zpos (digits2_pos N) + 0) with (Zpos (digits2_pos m) + e) by lia.
    rewrite C. unfold shl_align. rewrite Z.sub_0_r.
    destruct e as [|p|p]; [lia | lia |].
    assert (S : Zpos (Pos.iter xO N p) = Zpos m).
    { change (Pos.iter xO N p) with (shift_pos p N).
      rewrite shift_pos_correct, Z.pow_pos_fold, <- V. cbn [Z.opp]. ring. }
    pose proof (binary_round_aux_exact false m (Zneg p) 0 (Pos.iter xO N p) B
                  (Z.le_refl 0)) as R.
    rewrite Z.sub_0_r in R. apply R. rewrite S. cbn [Z.pow]. ring.
Qed.

Lemma digits2_product (a b c : positive) :
  Zpos a = Zpos b * Zpos c ->
  Zpos (digits2_pos a) <= Zpos (digits2_pos b) + Zpos (digits2_pos c).
Proof.
  intro E. pose proof (digits2_bounds a) as [La Ua].
  pose proof (digits2_bounds b) as [Lb Ub]. pose proof (digits2_bounds c) as [Lc Uc].
  destruct (Z.le_gt_cases (Zpos (digits2_pos a))
              (Zpos (digits2_pos b) + Zpos (digits2_pos c))) as [H | H]; [exact H|].
  exfalso.
  assert (2 ^ (Zpos (digits2_pos b) + Zpos (digits2_pos c)) <= 2 ^ (Zpos (digits2_pos a) - 1))
    by (apply Z.pow_le_mono_r; lia).
  rewrite Z.pow_add_r in * by lia. nia.
Qed.

(** A fraction [a / b] that is [m * 2^e]. *)
Lemma divide_exact (a b m : positive) (e : Z) :
  bounded prec emax m e = true ->
  Zpos a * 2 ^ Z.max (- e) 0 = Zpos m * 2 ^ Z.max e 0 * Zpos b ->
  (let '(q, e', l) := SFdiv_core_binary prec emax (Zpos a) 0 (Zpos b) 0 in
   binary_round_aux prec emax false q e' l)
  = S754_finite false m e.
Proof.
  intros B V. destruct (bounded_canonical m e B) as [C L].
  unfold SFdiv_core_binary. cbn [Zdigits2]. rewrite !Z.add_0_r, Z.sub_0_r.
  set (d1 := Zpos (digits2_pos a)). set (d2 := Zpos (digits2_pos b)).
  set (e' := Z.min (fexp prec emax (d1 - d2)) 0).
  (* the quotient has at most [d1 - d2 + 1] places *)
  assert (G : d1 - d2 <= Zpos (digits2_pos m) + e).
  { destruct (Z.le_gt_cases 0 e) as [P | P].
    - rewrite (Z.max_r (- e) 0), (Z.max_l e 0), Z.pow_0_r, Z.mul_1_r in V by lia.
      assert (exists M : positive, Zpos M = Zpos m * 2 ^ e) as (M & EM).
      { assert (0 < Zpos m * 2 ^ e) by (apply Z.mul_pos_pos; [lia | apply Z.pow_pos_nonneg; lia]).
        destruct (Zpos m * 2 ^ e) as [|M|M] eqn:EM; [lia | now exists M | lia]. }
      rewrite <- EM in V.
      pose proof (digits2_product a M b V). pose proof (digits2_shift m e M P EM).
      unfold d1, d2. lia.
    - rewrite (Z.max_l (- e) 0), (Z.max_r e 0), Z.pow_0_r, Z.mul_1_r in V by lia.
      assert (exists A : positive, Zpos A = Zpos a * 2 ^ (- e)) as (A & EA).
      { assert (0 < Zpos a * 2 ^ (- e))
          by (apply Z.mul_pos_pos; [lia | apply Z.pow_pos_nonneg; lia]).
        destruct (Zpos a * 2 ^ (- e)) as [|A|A] eqn:EA; [lia | now exists A | lia]. }
      rewrite <- EA in V.
      pose proof (digits2_product A m b V).
      assert (Zpos (digits2_pos A) = Zpos (digits2_pos a) + - e)
        by (apply (digits2_shift a (- e) A); [lia | exact EA]).
      unfold d1, d2. lia. }
  assert (E' : e' <= e).
  { unfold e'. pose proof (fexp_monotone _ _ G). lia. }
  assert (E0 : e' <= 0) by (unfold e'; lia).
  (* the division is exact *)
  assert (Q : exists M : positive,
             Zpos M = Zpos m * 2 ^ (e - e')
             /\ (match 0 - e' with
                 | Z0 => Zpos a
                 | Zpos _ => Z.shiftl (Zpos a) (0 - e')
                 | Zneg _ => 0
                 end) = Zpos b * Zpos M).
  { assert (0 < Zpos m * 2 ^ (e - e'))
      by (apply Z.mul_pos_pos; [lia | apply Z.pow_pos_nonneg; lia]).
    destruct (Zpos m * 2 ^ (e - e')) as [|M|M] eqn:EM; [lia | | lia].
    exists M. split; [reflexivity|]. rewrite <- EM.
    assert (S : (match 0 - e' with
                 | Z0 => Zpos a
                 | Zpos _ => Z.shiftl (Zpos a) (0 - e')
                 | Zneg _ => 0
                 end) = Zpos a * 2 ^ (- e')).
    { replace (0 - e') with (- e') by lia.
      destruct (- e') as [|s|s] eqn:ES; [cbn; lia | | lia].
      rewrite Z.shiftl_mul_pow2 by lia. reflexivity. }
    rewrite S.
    destruct (Z.le_gt_cases 0 e) as [P | P].
    - rewrite (Z.max_r (- e) 0), (Z.max_l e 0), Z.pow_0_r, Z.mul_1_r in V by lia.
      rewrite V. replace (e - e') with (e + - e') by lia.
      rewrite Z.pow_add_r by lia. ring.
    - rewrite (Z.max_l (- e) 0), (Z.max_r e 0), Z.pow_0_r, Z.mul_1_r in V by lia.
      replace (- e') with (- e + (e - e')) by lia.
      rewrite Z.pow_add_r, Z.mul_assoc, V by lia. ring. }
  destruct Q as (M & EM & EQ).
  fold d1 d2. change (Z.min (fexp prec emax (d1 - d2)) 0) with e'.
  rewrite EQ.
  assert (DE : Z.div_eucl (Zpos b * Zpos M) (Zpos b) = (Zpos M, 0)).
  { pose proof (Z.div_eucl_eq (Zpos b * Zpos M) (Zpos b)) as H.
    pose proof (Z.mod_pos_bound (Zpos b * Zpos M) (Zpos b)) as Hb.
    unfold Z.modulo, Z.div in *.
    destruct (Z.div_eucl (Zpos b * Zpos M) (Zpos b)) as [q r].
    specialize (H ltac:(lia)). specialize (Hb ltac:(lia)).
    assert (q = Zpos M) by nia. subst q. f_equal. nia. }
  rewrite DE.
  assert (NL : new_location (Zpos b) 0 = loc_Exact).
  { unfold new_location, new_location_even, new_location_odd.
    destruct (Z.even (Zpos b)); reflexivity. }
  rewrite NL.
  replace e' with (e - (e - e')) at 1 by lia.
  apply (binary_round_aux_exact false m e (e - e') M B); [lia | exact EM].
Qed.

(** Rounding a decimal that is a double gives that double. *)
Lemma round_exact (D : N) (E : Z) (m : positive) (e : Z) :
  bounded prec emax m e = true ->
  represents D E m e ->
  JS.round_decimal D E = S754_finite false m e.
Proof.
  intros B R. unfold represents in R. unfold JS.round_decimal.
  destruct D as [|d].
  - exfalso. cbn [Z.of_N] in R. rewrite !Z.mul_0_l in R.
    assert (0 < Zpos m * 2 ^ Z.max e 0 * 10 ^ Z.max (- E) 0); [|lia].
    apply Z.mul_pos_pos; [apply Z.mul_pos_pos|]; try lia; apply Z.pow_pos_nonneg; lia.
  - cbn [Z.of_N] in R. destruct E as [|j|j].
    + cbn [Z.max Z.opp Z.compare Z.pow] in R. rewrite !Z.mul_1_r in R.
      cbn [Z.pow]. rewrite Z.mul_1_r. apply normalize_exact; [exact B | exact R].
    + rewrite (Z.max_l (Zpos j) 0), (Z.max_r (- Zpos j) 0), Z.pow_0_r, Z.mul_1_r in R by lia.
      assert (0 < Zpos d * 10 ^ Zpos j)
        by (apply Z.mul_pos_pos; [lia | apply Z.pow_pos_nonneg; lia]).
      destruct (Zpos d * 10 ^ Zpos j) as [|M|M] eqn:EM; [lia | | lia].
      apply normalize_exact; [exact B | exact R].
    + rewrite (Z.max_r (Zneg j) 0), (Z.max_l (- Zneg j) 0), Z.pow_0_r, Z.mul_1_r in R by lia.
      apply divide_exact; [exact B|]. rewrite R. cbn [Z.opp].
      rewrite Pos2Z.inj_pow. reflexivity.
Qed.

Lemma strip_zeros_represents (fuel : nat) (m : positive) (e : Z) :
  forall D E, represents D E m e ->
              represents (fst (JS.strip_zeros fuel D E)) (snd (JS.strip_zeros fuel D E)) m e.
Proof.
  induction fuel as [|f IH]; intros D E R; [exact R|].
  cbn [JS.strip_zeros].
  destruct ((0 <? D)%N && (D mod 10 =? 0)%N) eqn:T; [|exact R].
  apply andb_true_iff in T as [P Z10]. apply N.eqb_eq in Z10.
  apply IH. unfold represents in *.
  assert (DE : Z.of_N D = 10 * Z.of_N (D / 10)).
  { rewrite (N.div_mod D 10) at 1 by discriminate. rewrite Z10. lia. }
  rewrite DE in R.
  destruct (Z.le_gt_cases 0 E) as [H | H].
  - rewrite (Z.max_l E 0), (Z.max_r (- E) 0) in R by lia.
    rewrite (Z.max_l (E + 1) 0), (Z.max_r (- (E + 1)) 0) by lia.
    rewrite Z.pow_add_r by lia. rewrite <- R. change (10 ^ 1) with 10. ring.
  - rewrite (Z.max_r E 0), (Z.max_l (- E) 0) in R by lia.
    rewrite (Z.max_r (E + 1) 0), (Z.max_l (- (E + 1)) 0) by lia.
    replace (- E) with (1 + - (E + 1)) in R by lia.
    rewrite Z.pow_add_r in R by lia. change (10 ^ 1) with 10 in R.
    rewrite Z.pow_0_r in *. lia.
Qed.

Lemma expansion_represents (m : positive) (e : Z) :
  represents (fst (JS.expansion m e)) (snd (JS.expansion m e)) m e.
Proof.
  unfold JS.expansion, JS.canonical. destruct e as [|p|j]; apply strip_zeros_represents;
    unfold represents.
  - cbn. lia.
  - rewrite Z2N.id by (apply Z.mul_nonneg_nonneg; [lia | apply Z.pow_nonneg; lia]).
    cbn [Z.max Z.opp Z.compare]. rewrite !Z.pow_0_r. ring.
  - cbn [Z.max Z.opp Z.compare Z.of_N]. rewrite !Z.pow_0_r, Pos2Z.inj_mul, Pos2Z.inj_pow.
    rewrite !Z.mul_1_r, <- Z.mul_assoc, <- Z.pow_mul_l. reflexivity.
Qed.

Lemma same_double_eq (a b : spec_float) : JS.same_double a b = true -> a = b.
Proof.
  destruct a as [s|s| |s m e], b as [s'|s'| |s' m' e']; cbn; try discriminate;
    try reflexivity.
  - intro H. apply Bool.eqb_prop in H. now subst.
  - intro H. apply Bool.eqb_prop in H. now subst.
  - intro H. apply andb_true_iff in H as [H He]. apply andb_true_iff in H as [Hs Hm].
    apply Bool.eqb_prop in Hs. apply Pos.eqb_eq in Hm. apply Z.eqb_eq in He. now subst.
Qed.

Lemma shortest_rounds (fuel : nat) (x : spec_float) (a b : N) (n : Z) :
  forall k c, JS.shortest fuel k x a b n = Some c ->
              JS.round_decimal (fst c) (snd c) = x.
Proof.
  induction fuel as [|f IH]; intros k c; [discriminate|]. cbn [JS.shortest].
  destruct (find _ (JS.neighbours a b n k)) as [c'|] eqn:F.
  - intros [= <-]. apply find_some in F as [_ F]. now apply same_double_eq.
  - apply IH.
Qed.

(** The digits that [Number::toString] chooses for [m * 2^e] read back as
    [m * 2^e]. *)
Lemma shortest_decimal_rounds (m : positive) (e : Z) :
  bounded prec emax m e = true ->
  JS.round_decimal (fst (JS.shortest_decimal m e)) (snd (JS.shortest_decimal m e))
  = S754_finite false m e.
Proof.
  intro B. unfold JS.shortest_decimal. destruct (JS.fraction m e) as [a b].
  destruct (JS.shortest 17 1 _ a b _) as [c|] eqn:S.
  - exact (shortest_rounds _ _ _ _ _ _ _ S).
  - apply round_exact; [exact B | apply expansion_represents].
Qed.

Close Scope Z_scope.

(** ** Reading what [Number::toString] writes *)

Lemma digits_value_app (a b : jstring) (acc : N) :
  JS.digits_value acc (a ++ b)
  = match JS.digits_value acc a with
    | Some v => JS.digits_value v b
    | None => None
    end.
Proof.
  revert acc. induction a as [|c a IH]; intro acc; [reflexivity|].
  cbn [app JS.digits_value]. destruct (JS.is_digit c); [apply IH | reflexivity].
Qed.

Lemma digits_value_zeros (z : nat) (acc : N) :
  JS.digits_value acc (JS.zeros z) = Some (acc * 10 ^ N.of_nat z)%N.
Proof.
  revert acc. induction z as [|z IH]; intro acc.
  - cbn. f_equal. lia.
  - cbn [JS.zeros repeat JS.digits_value]. change (JS.is_digit 48) with true. cbv iota.
    fold (JS.zeros z). rewrite IH. f_equal.
    rewrite Nat2N.inj_succ, N.pow_succ_r'. change (48 - 48)%N with 0%N. lia.
Qed.

Lemma zeros_digits (z : nat) : forallb JS.is_digit (JS.zeros z) = true.
Proof. induction z as [|z IH]; [reflexivity | exact IH]. Qed.

Lemma forallb_firstn {A} (f : A -> bool) (n : nat) (l : list A) :
  forallb f l = true -> forallb f (firstn n l) = true.
Proof.
  revert l. induction n as [|n IH]; intros [|a l] H; try reflexivity.
  cbn in *. apply andb_true_iff in H as [-> H]. now apply IH.
Qed.

Lemma forallb_skipn_digits {A} (f : A -> bool) (n : nat) (l : list A) :
  forallb f l = true -> forallb f (skipn n l) = true.
Proof.
  revert l. induction n as [|n IH]; intros [|a l] H; try reflexivity; [exact H|].
  cbn in *. apply andb_true_iff in H as [_ H]. now apply IH.
Qed.

Lemma dec_of_N_digits (n : N) : forallb JS.is_digit (JS.dec_of_N n) = true.
Proof. apply digits_of_uint_digits. Qed.

Lemma dec_of_N_nonempty (n : N) : JS.dec_of_N n <> [].
Proof.
  destruct n as [|p]; [discriminate|].
  destruct (dec_of_pos_head p) as (c & ds & -> & _). discriminate.
Qed.

Lemma delimited_not_digit (rest : jstring) : delimited rest -> not_digit rest.
Proof. destruct rest; [trivial | intros [H _]; exact H]. Qed.

Lemma take_digits_stop (ds rest : jstring) :
  forallb JS.is_digit ds = true ->
  not_digit rest ->
  JS.take_digits (ds ++ rest) = (ds, rest).
Proof.
  intros D R. induction ds as [|c ds IH].
  - destruct rest as [|c rest]; [reflexivity|]. cbn in *. now rewrite R.
  - cbn in D. apply andb_true_iff in D as [Dc Dr].
    cbn [app JS.take_digits]. rewrite Dc, (IH Dr). reflexivity.
Qed.

Lemma scan_exponent_none (rest : jstring) :
  delimited rest -> JS.scan_exponent rest = Some (0%Z, rest).
Proof.
  destruct rest as [|c rest]; [reflexivity|]. intros [_ H]. cbn [JS.scan_exponent].
  apply orb_false_iff in H as [H E2]. apply orb_false_iff in H as [_ E1].
  now rewrite E1, E2.
Qed.

Lemma scan_exponent_text (x : Z) (rest : jstring) :
  not_digit rest -> JS.scan_exponent (exponent_text x ++ rest) = Some (x, rest).
Proof.
  intro R. unfold exponent_text. cbn [str map list_ascii_of_string app].
  change (N_of_ascii "e") with 101%N. cbn [JS.scan_exponent].
  change ((101 =? 101) || (101 =? 69))%N with true. cbv iota.
  assert (V := digits_value_dec (Z.to_N (Z.abs x))).
  assert (NE := dec_of_N_nonempty (Z.to_N (Z.abs x))).
  destruct (Z.ltb_spec x 0) as [L | L].
  - cbn [str map list_ascii_of_string app]. change (N_of_ascii "-") with 45%N.
    change (45 =? 45)%N with true. cbv iota.
    rewrite take_digits_stop by (try apply dec_of_N_digits; exact R).
    destruct (JS.dec_of_N (Z.to_N (Z.abs x))); [contradiction|].
    rewrite V. do 2 f_equal. lia.
  - cbn [str map list_ascii_of_string app]. change (N_of_ascii "+") with 43%N.
    change (43 =? 45)%N with false. change (43 =? 43)%N with true. cbv iota.
    rewrite take_digits_stop by (try apply dec_of_N_digits; exact R).
    destruct (JS.dec_of_N (Z.to_N (Z.abs x))); [contradiction|].
    rewrite V. do 2 f_equal. lia.
Qed.

Lemma exponent_text_head (x : Z) (rest : jstring) :
  exists t, exponent_text x ++ rest = 101%N :: t.
Proof. unfold exponent_text. cbn. eauto. Qed.

Lemma take_digits_before (ds : jstring) (c : N) (rest : jstring) :
  forallb JS.is_digit ds = true ->
  JS.is_digit c = false ->
  JS.take_digits (ds ++ c :: rest) = (ds, c :: rest).
Proof. intros D C. apply take_digits_stop; [exact D | exact C]. Qed.

Lemma length_zeros (z : nat) : length (JS.zeros z) = z.
Proof. apply repeat_length. Qed.

(** What [format] writes reads back as the same digits and power of ten,
    or, for a whole number, as the number they make. *)
Lemma scan_format (p : positive) (E : Z) (rest : jstring) :
  delimited rest ->
  exists whole part x D' E',
    JS.scan (JS.format (Npos p) E ++ rest) = Some (whole, part, x, rest)
    /\ Json.numeral whole part = true
    /\ JS.decimal_value whole part x = Some (D', E')
    /\ (D' = Npos p /\ E' = E
        \/ (0 <= E)%Z /\ D' = (Npos p * 10 ^ Z.to_N E)%N /\ E' = 0%Z).
Proof.
  intro R. unfold JS.format.
  destruct (dec_of_pos_head p) as (c & more & Eds & Hc).
  assert (Dg := dec_of_N_digits (Npos p)). assert (V := digits_value_dec (Npos p)).
  set (ds := JS.dec_of_N (Npos p)) in *.
  set (k := Z.of_nat (length ds)). set (n := (k + E)%Z).
  assert (K : (1 <= k)%Z) by (unfold k; rewrite Eds; cbn [length]; lia).
  assert (ND := delimited_not_digit rest R).
  assert (SE := scan_exponent_none rest R).
  assert (Dot : forall t, rest = 46%N :: t -> False).
  { intros t ->. destruct R as [_ R]. discriminate R. }
  destruct ((-6 <? n)%Z && (n <=? 21)%Z) eqn:Range.
  - destruct (Z.leb_spec k n) as [KN | KN]; [|destruct (Z.ltb_spec 0 n) as [N0 | N0]].
    + (* a whole number *)
      exists (ds ++ JS.zeros (Z.to_nat (n - k))), None, 0%Z,
        (Npos p * 10 ^ Z.to_N E)%N, 0%Z.
      split; [|split; [|split]].
      * unfold JS.scan.
        rewrite (take_digits_stop (ds ++ JS.zeros _) rest)
          by (rewrite ?forallb_app, ?Dg, ?zeros_digits; auto).
        destruct rest as [|c' rest'].
        -- reflexivity.
        -- destruct (N.eqb_spec c' 46) as [-> | _]; [destruct (Dot rest' eq_refl)|].
           rewrite SE. reflexivity.
      * unfold Json.numeral. rewrite Eds. cbn [app]. rewrite Hc. reflexivity.
      * unfold JS.decimal_value. rewrite List.app_nil_r, digits_value_app, V.
        rewrite digits_value_zeros. cbn [length]. do 3 f_equal.
        unfold n. replace (k + E - k)%Z with E by lia. now rewrite Z_nat_N.
      * right. unfold n in KN. repeat split; lia.
    + (* the point inside the digits *)
      exists (firstn (Z.to_nat n) ds), (Some (skipn (Z.to_nat n) ds)), 0%Z, (Npos p), E.
      assert (Ln : (Z.to_nat n < length ds)%nat) by (unfold k in KN; lia).
      split; [|split; [|split]].
      * unfold JS.scan. rewrite <- !List.app_assoc.
        cbn [str map list_ascii_of_string app]. change (N_of_ascii ".") with 46%N.
        rewrite take_digits_before by (try apply forallb_firstn; auto).
        change (46 =? 46)%N with true. cbv iota.
        rewrite take_digits_stop by (try apply forallb_skipn_digits; auto).
        rewrite SE. reflexivity.
      * unfold Json.numeral.
        destruct (Z.to_nat n) as [|j] eqn:EN; [lia|]. rewrite Eds. cbn [firstn].
        rewrite Hc. cbn [andb negb].
        destruct (skipn (S j) (c :: more)) eqn:ES; [|reflexivity].
        apply (f_equal (@length N)) in ES. rewrite length_skipn, <- Eds in ES.
        cbn [length] in ES. lia.
      * unfold JS.decimal_value. rewrite firstn_skipn, V, length_skipn.
        do 3 f_equal. unfold n, k in *. lia.
      * left. split; reflexivity.
    + (* zeros after the point *)
      exists (str "0"), (Some (JS.zeros (Z.to_nat (- n)) ++ ds)), 0%Z, (Npos p), E.
      split; [|split; [|split]].
      * unfold JS.scan. rewrite <- !List.app_assoc.
        cbn [str map list_ascii_of_string app].
        change (N_of_ascii "0") with 48%N. change (N_of_ascii ".") with 46%N.
        cbn [JS.take_digits]. change (JS.is_digit 48) with true.
        change (JS.is_digit 46) with false. cbv iota.
        change (46 =? 46)%N with true. cbv iota.
        rewrite List.app_assoc.
        rewrite take_digits_stop by (rewrite ?forallb_app, ?Dg, ?zeros_digits; auto).
        rewrite SE. reflexivity.
      * unfold Json.numeral. cbn [str map list_ascii_of_string andb negb N.eqb].
        destruct (JS.zeros (Z.to_nat (- n)) ++ ds) eqn:EZ; [|reflexivity].
        apply app_eq_nil in EZ as [_ EZ]. rewrite Eds in EZ. discriminate.
      * unfold JS.decimal_value.
        change (str "0" ++ JS.zeros (Z.to_nat (- n)) ++ ds)
          with (JS.zeros (S (Z.to_nat (- n))) ++ ds).
        rewrite digits_value_app, digits_value_zeros, N.mul_0_l, V.
        rewrite length_app, length_zeros. do 3 f_equal. unfold n, k in *. lia.
      * left. split; reflexivity.
  - (* the exponent form *)
    fold (exponent_text (n - 1)).
    change (str "e" ++ (if (n - 1 <? 0)%Z then str "-" else str "+")
            ++ JS.dec_of_N (Z.to_N (Z.abs (n - 1)))) with (exponent_text (n - 1)).
    rewrite Eds. destruct more as [|c2 more].
    + exists [c], None, (n - 1)%Z, (Npos p), E.
      assert (Dc : JS.is_digit c = true)
        by (rewrite Eds in Dg; cbn in Dg; now apply andb_true_iff in Dg as [-> _]).
      split; [|split; [|split]].
      * unfold JS.scan. rewrite <- !List.app_assoc.
        destruct (exponent_text_head (n - 1) rest) as (t & Et).
        cbn [app]. rewrite Et. cbn [JS.take_digits]. rewrite Dc.
        change (JS.is_digit 101) with false. cbv iota.
        change (101 =? 46)%N with false. cbv iota.
        rewrite <- Et, scan_exponent_text by exact ND. reflexivity.
      * unfold Json.numeral. rewrite Hc. reflexivity.
      * unfold JS.decimal_value. rewrite List.app_nil_r. rewrite Eds in V.
        rewrite V. cbn [length]. do 3 f_equal.
        unfold n, k. rewrite Eds. cbn [length]. lia.
      * left. split; reflexivity.
    + exists [c], (Some (c2 :: more)), (n - 1)%Z, (Npos p), E.
      assert (Dc : JS.is_digit c = true /\ forallb JS.is_digit (c2 :: more) = true)
        by (rewrite Eds in Dg; cbn [forallb] in Dg;
            now apply andb_true_iff in Dg).
      destruct Dc as [Dc Dm].
      split; [|split; [|split]].
      * unfold JS.scan. rewrite <- !List.app_assoc.
        cbn [str map list_ascii_of_string app]. change (N_of_ascii ".") with 46%N.
        cbn [JS.take_digits]. rewrite Dc.
        change (JS.is_digit 46) with false. cbv iota.
        change (46 =? 46)%N with true. cbv iota.
        destruct (exponent_text_head (n - 1) rest) as (t & Et).
        change (c2 :: more ++ exponent_text (n - 1) ++ rest)
          with ((c2 :: more) ++ exponent_text (n - 1) ++ rest).
        rewrite Et, take_digits_before by (auto; reflexivity).
        rewrite <- Et, scan_exponent_text by exact ND. reflexivity.
      * unfold Json.numeral. rewrite Hc. reflexivity.
      * unfold JS.decimal_value. rewrite Eds in V.
        change ([c] ++ c2 :: more) with (c :: c2 :: more). rewrite V.
        do 3 f_equal. unfold n, k. rewrite Eds. cbn [length]. lia.
      * left. split; reflexivity.
Qed.

Lemma round_decimal_scaled (p : positive) (E : Z) :
  (0 <= E)%Z ->
  JS.round_decimal (Npos p * 10 ^ Z.to_N E) 0 = JS.round_decimal (Npos p) E.
Proof.
  intro H. unfold JS.round_decimal.
  assert (P : (0 < Npos p * 10 ^ Z.to_N E)%N).
  { apply N.mul_pos_pos; [lia|]. apply N.neq_0_lt_0, N.pow_nonzero. discriminate. }
  destruct (Npos p * 10 ^ Z.to_N E)%N as [|q] eqn:EQ; [lia|].
  assert (Q : Zpos q = (Zpos p * 10 ^ E)%Z).
  { change (Zpos q) with (Z.of_N (Npos q)). rewrite <- EQ, N2Z.inj_mul, N2Z.inj_pow.
    rewrite Z2N.id by exact H. reflexivity. }
  cbn [Z.pow]. rewrite Z.mul_1_r, Q. destruct E; [reflexivity | reflexivity | lia].
Qed.

(** The text of a number between two JSON tokens reads back as the number
    written. *)
Lemma parse_number_format (negative : bool) (p : positive) (E : Z) (rest : jstring) :
  delimited rest ->
  Json.parse_number negative (JS.format (Npos p) E ++ rest)
  = Some (JS.of_decimal negative (Npos p) E, rest).
Proof.
  intro R. unfold Json.parse_number.
  destruct (scan_format p E rest R) as (whole & part & x & D' & E' & -> & -> & -> & H).
  destruct H as [[-> ->] | (P & -> & ->)]; [reflexivity|].
  unfold JS.of_decimal. now rewrite round_decimal_scaled.
Qed.

Lemma format_head (p : positive) (E : Z) :
  exists c t, JS.format (Npos p) E = c :: t /\ JS.is_digit c = true.
Proof.
  unfold JS.format. destruct (dec_of_pos_head p) as (c & more & Eds & _).
  assert (Dg := dec_of_N_digits (Npos p)). rewrite Eds in *.
  cbn [forallb] in Dg. apply andb_true_iff in Dg as [Dc _].
  destruct (_ && _).
  - destruct (Z.leb_spec (Z.of_nat (length (c :: more))) (Z.of_nat (length (c :: more)) + E)).
    + cbn [app]. eauto.
    + destruct (Z.ltb_spec 0 (Z.of_nat (length (c :: more)) + E)).
      * destruct (Z.to_nat (Z.of_nat (length (c :: more)) + E)) eqn:EN; [lia|].
        cbn [firstn app]. eauto.
      * exists 48%N. eexists. split; reflexivity.
  - destruct more; cbn [app]; eauto.
Qed.

Lemma digits_numeric (s : jstring) :
  forallb JS.is_digit s = true -> forallb numeric_char s = true.
Proof.
  rewrite !forallb_forall. intros H c Hc. unfold numeric_char. now rewrite (H c Hc).
Qed.

Lemma format_numeric (D : N) (E : Z) : forallb numeric_char (JS.format D E) = true.
Proof.
  unfold JS.format. assert (Dg := digits_numeric _ (dec_of_N_digits D)).
  assert (Z0 : forall z, forallb numeric_char (JS.zeros z) = true)
    by (intro z; apply digits_numeric, zeros_digits).
  destruct (_ && _).
  - destruct (_ <=? _)%Z; [now rewrite forallb_app, Dg, Z0|].
    destruct (0 <? _)%Z.
    + rewrite !forallb_app, forallb_firstn, forallb_skipn_digits by exact Dg. reflexivity.
    + rewrite !forallb_app, Dg, Z0. reflexivity.
  - assert (X : forall z : Z,
               forallb numeric_char (if (z <? 0)%Z then str "-" else str "+") = true)
      by (intro z; destruct (_ <? 0)%Z; reflexivity).
    assert (Y : forall n, forallb numeric_char (JS.dec_of_N n) = true)
      by (intro n; apply digits_numeric, dec_of_N_digits).
    generalize (Z.of_nat (length (JS.dec_of_N D)) + E - 1)%Z. intro z.
    destruct (JS.dec_of_N D) as [|d [|d2 more]]; [reflexivity | |].
    + cbn [forallb] in Dg. apply andb_true_iff in Dg as [Dd _].
      rewrite !forallb_app, X, Y. cbn [forallb]. now rewrite Dd.
    + rewrite !forallb_app, X, Y. cbn [forallb] in *.
      apply andb_true_iff in Dg as [Dd Dm]. now rewrite Dd, Dm.
Qed.

(** A finite number other than -0: zero, or [m * 2^e] with a sign. *)
Lemma plain_number_cases (x : float) :
  Json.plain_number x = true ->
  Prim2SF x = S754_zero false
  \/ exists s m e, Prim2SF x = S754_finite s m e /\ bounded prec emax m e = true.
Proof.
  unfold Json.plain_number. pose proof (Prim2SF_valid x) as V.
  destruct (Prim2SF x) as [[|]| | |s m e]; try discriminate; intros _; [now left|].
  right. exists s, m, e. split; [reflexivity | exact V].
Qed.

Lemma shortest_decimal_positive (m : positive) (e : Z) :
  bounded prec emax m e = true ->
  exists p E, JS.shortest_decimal m e = (Npos p, E)
              /\ JS.round_decimal (Npos p) E = S754_finite false m e.
Proof.
  intro B. pose proof (shortest_decimal_rounds m e B) as R.
  destruct (JS.shortest_decimal m e) as [[|p] E]; [discriminate R|].
  exists p, E. split; [reflexivity | exact R].
Qed.

Lemma of_decimal_rounds (s : bool) (D : N) (E : Z) (x : float) (m : positive) (e : Z) :
  Prim2SF x = S754_finite s m e ->
  JS.round_decimal D E = S754_finite false m e ->
  JS.of_decimal s D E = x.
Proof.
  intros X R. unfold JS.of_decimal. rewrite R. cbn [JS.signed].
  rewrite <- X. apply SF2Prim_Prim2SF.
Qed.

(** What [JSON.stringify] writes for a number. *)
Lemma number_text (x : float) :
  Json.plain_number x = true ->
  Json.serialize (VNum x) = Some (JS.Number_toString x).
Proof.
  intro P. cbn [Json.serialize].
  destruct (plain_number_cases x P) as [-> | (s & m & e & -> & _)]; reflexivity.
Qed.

Lemma Number_toString_head (x : float) :
  Json.plain_number x = true ->
  exists c t, JS.Number_toString x = c :: t /\ (JS.is_digit c = true \/ c = 45%N).
Proof.
  intro P. unfold JS.Number_toString.
  destruct (plain_number_cases x P) as [-> | (s & m & e & -> & B)].
  - exists 48%N, []. split; [reflexivity | now left].
  - destruct (shortest_decimal_positive m e B) as (p & E & -> & _).
    destruct (format_head p E) as (c & t & -> & D).
    destruct s; cbn [app str map list_ascii_of_string]; eauto.
Qed.

Lemma Number_toString_numeric (x : float) :
  Json.plain_number x = true -> forallb numeric_char (JS.Number_toString x) = true.
Proof.
  intro P. unfold JS.Number_toString.
  destruct (plain_number_cases x P) as [-> | (s & m & e & -> & B)]; [reflexivity|].
  destruct (JS.shortest_decimal m e) as [D E].
  rewrite forallb_app, format_numeric. destruct s; reflexivity.
Qed.

(** [JSON.parse] reads a number back from its text. *)
Lemma parse_number_text (x : float) (rest : jstring) :
  Json.plain_number x = true ->
  delimited rest ->
  match JS.Number_toString x ++ rest with
  | c :: r =>
      if (c =? 45)%N then Json.parse_number true r = Some (x, rest)
      else Json.parse_number false (c :: r) = Some (x, rest)
  | [] => False
  end.
Proof.
  intros P R. unfold JS.Number_toString.
  destruct (plain_number_cases x P) as [X | (s & m & e & X & B)]; rewrite X.
  - cbn [str map list_ascii_of_string app]. change (N_of_ascii "0") with 48%N.
    change (48 =? 45)%N with false. cbv iota.
    unfold Json.parse_number, JS.scan. cbn [JS.take_digits].
    change (JS.is_digit 48) with true. cbv iota.
    assert (T : JS.take_digits rest = ([], rest)).
    { destruct rest as [|c rest]; [reflexivity|]. destruct R as [R _].
      cbn [JS.take_digits]. now rewrite R. }
    rewrite T.
    assert (Dot : match rest with
                  | c :: r' => (c =? 46)%N = false
                  | [] => True
                  end).
    { destruct rest as [|c rest]; [trivial|]. destruct R as [_ R].
      apply orb_false_iff in R as [R _]. now apply orb_false_iff in R as [R _]. }
    assert (F : JS.of_decimal false 0 0 = x).
    { unfold JS.of_decimal. cbn [JS.round_decimal JS.signed]. rewrite <- X.
      apply SF2Prim_Prim2SF. }
    destruct rest as [|c rest].
    + rewrite (scan_exponent_none [] R).
      change (Json.numeral [48%N] None) with true.
      change (JS.decimal_value [48%N] None 0) with (Some (0%N, 0%Z)).
      cbv iota. now rewrite F.
    + rewrite Dot, (scan_exponent_none (c :: rest) R).
      change (Json.numeral [48%N] None) with true.
      change (JS.decimal_value [48%N] None 0) with (Some (0%N, 0%Z)).
      cbv iota. now rewrite F.
  - destruct (shortest_decimal_positive m e B) as (p & E & -> & Rd).
    pose proof (parse_number_format s p E rest R) as Pn.
    rewrite (of_decimal_rounds s (Npos p) E x m e X Rd) in Pn.
    destruct s.
    + cbn [str map list_ascii_of_string app]. change (N_of_ascii "-") with 45%N.
      change (45 =? 45)%N with true. cbv iota. exact Pn.
    + cbn [app]. destruct (format_head p E) as (c & t & Ef & D).
      rewrite Ef in *. cbn [app] in *.
      assert (C : (c =? 45)%N = false).
      { unfold JS.is_digit in D. apply andb_true_iff in D as [D _].
        apply N.leb_le in D. apply N.eqb_neq. lia. }
      rewrite C. exact Pn.
Qed.

Lemma Number_toString_nonempty (x : float) : JS.Number_toString x <> [].
Proof.
  unfold JS.Number_toString. pose proof (Prim2SF_valid x) as V.
  destruct (Prim2SF x) as [s | s | | s m e]; try discriminate.
  - destruct s; discriminate.
  - cbn [SpecFloat.valid_binary] in V.
    destruct (shortest_decimal_positive m e V) as (p & E & -> & _).
    destruct (format_head p E) as (c & t & -> & _). destruct s; discriminate.
Qed.

(** ** Rounding to the nearest double, on whole numbers

    A double other than NaN is given by a whole number: its value in units
    of [2^-1100], with [2^1024] for the infinities.  On these numbers the
    rounding of an exact product or sum is the function [nearest], which is
    monotone. *)

Local Open Scope Z_scope.

Lemma shr_1_spec (m : Z) (r s : bool) :
  0 <= m ->
  shr_1 {| shr_m := m; shr_r := r; shr_s := s |}
  = {| shr_m := Z.div2 m; shr_r := Z.odd m; shr_s := r || s |}.
Proof.
  intro H. destruct m as [|[p|p|]|p]; try reflexivity; lia.
Qed.

Lemma pow2_pred (k : Z) : 0 < k -> 2 ^ k = 2 * 2 ^ (k - 1).
Proof.
  intro H. rewrite <- Z.pow_succ_r by lia. f_equal. lia.
Qed.

Lemma low_bits (M k : Z) :
  0 < k ->
  M mod 2 ^ k = M mod 2 ^ (k - 1) + 2 ^ (k - 1) * Z.b2z (Z.testbit M (k - 1)).
Proof.
  intro H. rewrite (pow2_pred k H), (Z.mul_comm 2).
  rewrite Z.rem_mul_r by (try apply Z.pow_nonzero; lia).
  rewrite Z.testbit_spec' by lia. reflexivity.
Qed.

Lemma shifted_step (M k : Z) :
  0 <= M -> 0 <= k -> shr_1 (shifted M k) = shifted M (k + 1).
Proof.
  intros HM Hk. unfold shifted.
  destruct (Z.eqb_spec k 0) as [-> | N].
  - cbn [Z.add Z.eqb]. rewrite shr_1_spec by exact HM.
    change (2 ^ 1) with 2. change (1 - 1) with 0. rewrite Z.div2_div.
    change (2 ^ 0) with 1. rewrite Z.mod_1_r. cbn [Z.eqb negb orb].
    now rewrite Z.bit0_odd.
  - destruct (Z.eqb_spec (k + 1) 0); [lia|].
    rewrite shr_1_spec by (apply Z.div_pos; [lia | apply Z.pow_pos_nonneg; lia]).
    replace (k + 1 - 1) with k by lia.
    f_equal.
    + rewrite Z.div2_div, Z.div_div by (try apply Z.pow_pos_nonneg; lia).
      rewrite Z.pow_add_r by lia. reflexivity.
    + rewrite Z.testbit_odd, Z.shiftr_div_pow2 by lia. reflexivity.
    + rewrite (low_bits M k) by lia.
      assert (L : 0 <= M mod 2 ^ (k - 1) < 2 ^ (k - 1))
        by (apply Z.mod_pos_bound, Z.pow_pos_nonneg; lia).
      destruct (Z.testbit M (k - 1)); cbn [Z.b2z orb].
      * symmetry. apply negb_true_iff, Z.eqb_neq. lia.
      * now rewrite Z.mul_0_r, Z.add_0_r.
Qed.

Lemma iter_shifted (p : positive) :
  forall M k, 0 <= M -> 0 <= k ->
    iter_pos shr_1 p (shifted M k) = shifted M (k + Zpos p).
Proof.
  induction p as [p IH | p IH |]; intros M k HM Hk; cbn [iter_pos].
  - rewrite shifted_step, !IH by lia. f_equal. lia.
  - rewrite !IH by lia. f_equal. lia.
  - now apply shifted_step.
Qed.

Lemma shr_shifted (M e n : Z) :
  0 <= M -> 0 <= n ->
  shr {| shr_m := M; shr_r := false; shr_s := false |} e n = (shifted M n, e + n).
Proof.
  intros HM Hn. destruct n as [|p|p]; [| |lia].
  - now rewrite Z.add_0_r.
  - cbn [shr]. change {| shr_m := M; shr_r := false; shr_s := false |} with (shifted M 0).
    now rewrite iter_shifted.
Qed.

Lemma round_shifted (M n : Z) :
  0 <= M -> 0 <= n ->
  round_nearest_even (shr_m (shifted M n)) (loc_of_shr_record (shifted M n))
  = M / 2 ^ n + (if rounds_up M n then 1 else 0).
Proof.
  intros HM Hn. unfold shifted, rounds_up.
  destruct (Z.eqb_spec n 0) as [-> | N].
  - change (2 ^ 0) with 1. rewrite Z.mod_1_r, Z.div_1_r. cbn. lia.
  - rewrite (low_bits M n) by lia.
    assert (L : 0 <= M mod 2 ^ (n - 1) < 2 ^ (n - 1))
      by (apply Z.mod_pos_bound, Z.pow_pos_nonneg; lia).
    assert (P : 2 ^ n = 2 * 2 ^ (n - 1)) by (apply pow2_pred; lia).
    cbn [shr_m shr_r shr_s loc_of_shr_record].
    destruct (Z.testbit M (n - 1)); cbn [Z.b2z].
    + destruct (Z.eqb_spec (M mod 2 ^ (n - 1)) 0) as [Z | Z]; cbn [negb round_nearest_even].
      * destruct (Z.ltb_spec (2 ^ n) (2 * (M mod 2 ^ (n - 1) + 2 ^ (n - 1) * 1))); [lia|].
        destruct (Z.eqb_spec (2 ^ n) (2 * (M mod 2 ^ (n - 1) + 2 ^ (n - 1) * 1))); [|lia].
        cbn [orb andb]. rewrite <- Z.negb_even.
        destruct (Z.even (M / 2 ^ n)); cbn [negb]; lia.
      * destruct (Z.ltb_spec (2 ^ n) (2 * (M mod 2 ^ (n - 1) + 2 ^ (n - 1) * 1))); [|lia].
        reflexivity.
    + destruct (Z.ltb_spec (2 ^ n) (2 * (M mod 2 ^ (n - 1) + 2 ^ (n - 1) * 0))); [lia|].
      destruct (Z.eqb_spec (2 ^ n) (2 * (M mod 2 ^ (n - 1) + 2 ^ (n - 1) * 0))); [lia|].
      cbn [orb andb]. destruct (negb _); cbn [round_nearest_even]; lia.
Qed.

Lemma digits2_log2 (p : positive) : Zpos (digits2_pos p) = Z.log2 (Zpos p) + 1.
Proof.
  pose proof (digits2_bounds p) as [L U].
  assert (H : Z.log2 (Zpos p) = Zpos (digits2_pos p) - 1).
  { apply Z.log2_unique; [lia|].
    replace (Z.succ (Zpos (digits2_pos p) - 1)) with (Zpos (digits2_pos p)) by lia.
    split; assumption. }
  lia.
Qed.

Lemma grid_scaled (M : positive) (E : Z) :
  0 <= E + places ->
  grid (Zpos M * 2 ^ (E + places))
  = fexp prec emax (Zpos (digits2_pos M) + E) + places.
Proof.
  intro H. unfold grid, fexp. rewrite Z.log2_mul_pow2 by lia.
  rewrite digits2_log2. lia.
Qed.

Lemma shr_nonpos (r : shr_record) (e n : Z) : n <= 0 -> shr r e n = (r, e).
Proof. intro H. destruct n; [reflexivity | lia | reflexivity]. Qed.

Lemma rounds_up_scaled (M n t : Z) :
  0 <= n -> 0 <= t ->
  (2 ^ (n + t) <? 2 * ((M * 2 ^ t) mod 2 ^ (n + t)))
  || ((2 ^ (n + t) =? 2 * ((M * 2 ^ t) mod 2 ^ (n + t)))
      && Z.odd ((M * 2 ^ t) / 2 ^ (n + t)))
  = rounds_up M n.
Proof.
  intros Hn Ht. unfold rounds_up.
  assert (P : 0 < 2 ^ t) by (apply Z.pow_pos_nonneg; lia).
  assert (Q : 0 < 2 ^ n) by (apply Z.pow_pos_nonneg; lia).
  rewrite Z.pow_add_r by lia.
  rewrite Z.mul_mod_distr_r, Z.div_mul_cancel_r by lia.
  set (r := M mod 2 ^ n).
  replace (2 * (r * 2 ^ t)) with (2 * r * 2 ^ t) by ring.
  f_equal; [|f_equal].
  - destruct (Z.ltb_spec (2 ^ n) (2 * r)), (Z.ltb_spec (2 ^ n * 2 ^ t) (2 * r * 2 ^ t));
      try reflexivity; exfalso; nia.
  - destruct (Z.eqb_spec (2 ^ n) (2 * r)), (Z.eqb_spec (2 ^ n * 2 ^ t) (2 * r * 2 ^ t));
      try reflexivity; exfalso; nia.
Qed.

Lemma top_positive : 0 < top.
Proof. apply Z.pow_pos_nonneg; unfold places; cbn; lia. Qed.

(** What the rounding of [M * 2^E] gives, for [E] at or below the last
    place. *)
Lemma round_aux_scaled (s : bool) (M : positive) (E : Z) :
  0 <= E + places ->
  E <= fexp prec emax (Zpos (digits2_pos M) + E) ->
  binary_round_aux prec emax s (Zpos M) E loc_Exact <> S754_nan
  /\ SpecFloat.valid_binary prec emax (binary_round_aux prec emax s (Zpos M) E loc_Exact)
     = true
  /\ scaled (binary_round_aux prec emax s (Zpos M) E loc_Exact)
     = cond_Zopp s (nearest (Zpos M * 2 ^ (E + places))).
Proof.
  intros HE Hn.
  set (d := Zpos (digits2_pos M)) in *.
  set (e' := fexp prec emax (d + E)) in *.
  assert (He' : SpecFloat.emin prec emax <= e' /\ d + E - prec <= e'
                /\ (e' = d + E - prec \/ e' = SpecFloat.emin prec emax))
    by (unfold e', fexp; lia).
  destruct He' as (Hmin & Hd & Hcase).
  assert (Emin : SpecFloat.emin prec emax = -1074) by reflexivity.
  assert (Eprec : prec = 53) by reflexivity.
  pose proof (digits2_bounds M) as [LM UM]. fold d in LM, UM.
  set (n := e' - E).
  assert (Hn0 : 0 <= n) by (unfold n; lia).
  assert (P2n : 0 < 2 ^ n) by (apply Z.pow_pos_nonneg; lia).
  set (q := Zpos M / 2 ^ n).
  assert (Hq : 0 <= q < 2 ^ 53).
  { split; [apply Z.div_pos; lia|]. apply Z.div_lt_upper_bound; [lia|].
    rewrite <- Z.pow_add_r by lia.
    apply Z.lt_le_trans with (1 := UM). apply Z.pow_le_mono_r; unfold n; lia. }
  set (q' := q + (if rounds_up (Zpos M) n then 1 else 0)).
  assert (Hq' : 0 <= q' <= 2 ^ 53) by (unfold q'; destruct (rounds_up _ _); lia).
  (* the value of [nearest] *)
  assert (Near : nearest (Zpos M * 2 ^ (E + places))
                 = Z.min top (q' * 2 ^ (e' + places))).
  { unfold nearest. rewrite (grid_scaled M E HE). fold d. fold e'.
    replace (e' + places) with (n + (E + places)) by (unfold n; lia).
    rewrite (rounds_up_scaled (Zpos M) n (E + places) Hn0 HE).
    rewrite (Z.pow_add_r 2 n) by lia.
    rewrite Z.div_mul_cancel_r by (try apply Z.pow_nonzero; lia).
    fold q. unfold q'. destruct (rounds_up _ _); [reflexivity|].
    now rewrite Z.add_0_r. }
  (* large results *)
  assert (Big : -1074 < e' -> 2 ^ 52 <= q).
  { intro B. assert (n = d - 53) by (unfold n; lia).
    apply Z.div_le_lower_bound; [lia|].
    rewrite <- Z.pow_add_r by lia.
    apply Z.le_trans with (2 := LM). apply Z.pow_le_mono_r; lia. }
  assert (Top : top = 2 ^ 53 * 2 ^ (971 + places)).
  { unfold top. rewrite <- Z.pow_add_r by (unfold places; lia). reflexivity. }
  assert (Top' : top = 2 ^ 52 * 2 ^ (972 + places)).
  { unfold top. rewrite <- Z.pow_add_r by (unfold places; lia). reflexivity. }
  assert (Pg : 0 < 2 ^ (e' + places)) by (apply Z.pow_pos_nonneg; unfold places; lia).
  rewrite Near.
  unfold binary_round_aux, shr_fexp. cbn [Zdigits2 shr_record_of_loc].
  fold d. fold e'. fold n.
  rewrite (shr_shifted (Zpos M) E n) by lia.
  replace (E + n) with e' by (unfold n; lia).
  rewrite (round_shifted (Zpos M) n) by lia. fold q. fold q'.
  destruct (Z.eq_dec q' (2 ^ 53)) as [Q | Q].
  - (* the mantissa has grown by one digit *)
    rewrite Q. change (Zdigits2 (2 ^ 53)) with 54.
    replace (fexp prec emax (54 + e') - e') with 1 by (unfold fexp; lia).
    rewrite shr_shifted by lia.
    change (shr_m (shifted (2 ^ 53) 1)) with (2 ^ 52).
    change (2 ^ 52) with (Zpos (2 ^ 52)). cbv iota.
    assert (V : 2 ^ 53 * 2 ^ (e' + places) = Zpos (2 ^ 52) * 2 ^ (e' + 1 + places)).
    { replace (e' + 1 + places) with (Z.succ (e' + places)) by lia.
      rewrite Z.pow_succ_r by (unfold places; lia).
      change (2 ^ 53) with (2 * Zpos (2 ^ 52)). ring. }
    destruct (Z.leb_spec (e' + 1) (emax - prec)) as [L | L].
    + split; [discriminate|]. split.
      { cbn [SpecFloat.valid_binary]. unfold bounded, canonical_mantissa.
        change (Zpos (digits2_pos (2 ^ 52))) with 53.
        apply andb_true_iff. split; [apply Z.eqb_eq; unfold fexp; lia | now apply Z.leb_le]. }
      cbn [scaled]. f_equal. rewrite V.
      symmetry. apply Z.min_r. rewrite Top'.
      apply Z.mul_le_mono_nonneg_l; [lia|].
      apply Z.pow_le_mono_r; [lia|]. change (emax - prec) with 971 in L. lia.
    + split; [discriminate|]. split; [reflexivity|]. cbn [scaled]. f_equal.
      symmetry. apply Z.min_l. rewrite Top.
      apply Z.mul_le_mono_nonneg_l; [lia|].
      apply Z.pow_le_mono_r; [lia|]. change (emax - prec) with 971 in L. lia.
  - destruct q' as [|m'|m'] eqn:Eq'; [| |lia].
    + (* nothing is left *)
      cbn [Zdigits2 Z.add].
      rewrite shr_nonpos by (unfold fexp; lia). cbn [shr_m].
      split; [discriminate|]. split; [reflexivity|]. cbn [scaled].
      rewrite Z.mul_0_l, Z.min_r by (pose proof top_positive; lia).
      now destruct s.
    + cbn [Zdigits2].
      pose proof (digits2_bounds m') as [Lm' Um'].
      assert (Dm' : Zpos (digits2_pos m') <= 53).
      { destruct (Z.le_gt_cases (Zpos (digits2_pos m')) 53) as [H | H]; [exact H|].
        exfalso.
        assert (2 ^ 53 <= 2 ^ (Zpos (digits2_pos m') - 1))
          by (apply Z.pow_le_mono_r; lia).
        lia. }
      rewrite shr_nonpos by (unfold fexp; lia). cbn [shr_m].
      destruct (Z.leb_spec e' (emax - prec)) as [L | L];
        change (emax - prec) with 971 in L.
      * split; [discriminate|]. split.
        { cbn [SpecFloat.valid_binary]. unfold bounded, canonical_mantissa.
          apply andb_true_iff. split; [|now apply Z.leb_le]. apply Z.eqb_eq.
          destruct (Z.eq_dec e' (-1074)) as [Em | Em]; [unfold fexp; lia|].
          assert (B : 2 ^ 52 <= Zpos m').
          { specialize (Big ltac:(lia)). unfold q' in Eq'.
            destruct (rounds_up _ _); lia. }
          assert (Zpos (digits2_pos m') = 53).
          { apply digits2_unique. change (2 ^ (53 - 1)) with (2 ^ 52).
            split; [exact B|]. unfold q' in Eq'. lia. }
          unfold fexp. lia. }
        cbn [scaled]. f_equal.
        symmetry. apply Z.min_r. rewrite Top.
        apply Z.le_trans with (2 ^ 53 * 2 ^ (e' + places)).
        -- apply Z.mul_le_mono_nonneg_r; lia.
        -- apply Z.mul_le_mono_nonneg_l; [lia|].
           apply Z.pow_le_mono_r; unfold places; lia.
      * split; [discriminate|]. split; [reflexivity|]. cbn [scaled]. f_equal.
        symmetry. apply Z.min_l. rewrite Top'.
        assert (B : 2 ^ 52 <= Zpos m').
        { specialize (Big ltac:(lia)). unfold q' in Eq'. destruct (rounds_up _ _); lia. }
        apply Z.le_trans with (2 ^ 52 * 2 ^ (e' + places)).
        -- apply Z.mul_le_mono_nonneg_l; [lia|].
           apply Z.pow_le_mono_r; unfold places; lia.
        -- apply Z.mul_le_mono_nonneg_r; lia.
Qed.

(** *** [nearest] is monotone *)

Lemma grid_low (X : Z) : 26 <= grid X.
Proof. unfold grid. change (SpecFloat.emin prec emax + places) with 26. lia. Qed.

Lemma grid_monotone (X Y : Z) : X <= Y -> grid X <= grid Y.
Proof.
  intro H. unfold grid. pose proof (Z.log2_le_mono X Y H). lia.
Qed.

Lemma nearest_raw (X : Z) : nearest X = Z.min top (raw X).
Proof. reflexivity. Qed.

Lemma raw_below (X : Z) : 0 <= X -> 0 <= raw X <= 2 ^ (53 + grid X).
Proof.
  intro H. unfold raw. pose proof (grid_low X) as G.
  set (g := grid X) in *.
  assert (P : 0 < 2 ^ g) by (apply Z.pow_pos_nonneg; lia).
  assert (Q : 0 <= X / 2 ^ g < 2 ^ 53).
  { split; [apply Z.div_pos; lia|]. apply Z.div_lt_upper_bound; [lia|].
    rewrite <- Z.pow_add_r by lia.
    destruct (Z.eq_dec X 0) as [-> | N]; [apply Z.pow_pos_nonneg; lia|].
    destruct (Z.log2_spec X) as [_ U]; [lia|].
    apply Z.lt_le_trans with (1 := U). apply Z.pow_le_mono_r; [lia|].
    unfold g, grid. change prec with 53. lia. }
  rewrite (Z.pow_add_r 2 53) by lia.
  destruct (_ || _); split; try (apply Z.mul_nonneg_nonneg; lia);
    apply Z.mul_le_mono_nonneg_r; lia.
Qed.

Lemma raw_above (X : Z) :
  26 < grid X -> 2 ^ (52 + grid X) <= raw X.
Proof.
  intro G. unfold raw. set (g := grid X) in *.
  assert (P : 0 < 2 ^ g) by (apply Z.pow_pos_nonneg; lia).
  assert (E : g = Z.log2 X + 1 - 53).
  { unfold g, grid in *. change (SpecFloat.emin prec emax + places) with 26 in *.
    change prec with 53 in *. lia. }
  assert (X0 : 0 < X).
  { destruct (Z.lt_ge_cases 0 X) as [H | H]; [exact H|].
    rewrite (Z.log2_nonpos X) in E by lia. lia. }
  destruct (Z.log2_spec X X0) as [L _].
  assert (Q : 2 ^ 52 <= X / 2 ^ g).
  { apply Z.div_le_lower_bound; [lia|]. rewrite <- Z.pow_add_r by lia.
    apply Z.le_trans with (2 := L). apply Z.pow_le_mono_r; lia. }
  rewrite (Z.pow_add_r 2 52) by lia.
  destruct (_ || _); apply Z.mul_le_mono_nonneg_r; lia.
Qed.

Lemma raw_monotone (X Y : Z) : 0 <= X -> X <= Y -> raw X <= raw Y.
Proof.
  intros HX HXY. pose proof (grid_monotone X Y HXY) as G.
  pose proof (grid_low X) as GX.
  destruct (Z.eq_dec (grid X) (grid Y)) as [E | N].
  - unfold raw. rewrite <- E. set (g := grid X) in *.
    assert (P : 0 < 2 ^ g) by (apply Z.pow_pos_nonneg; lia).
    pose proof (Z.div_mod X (2 ^ g)) as DX. pose proof (Z.div_mod Y (2 ^ g)) as DY.
    pose proof (Z.mod_pos_bound X (2 ^ g) P) as RX.
    pose proof (Z.mod_pos_bound Y (2 ^ g) P) as RY.
    pose proof (Z.div_le_mono X Y (2 ^ g) P HXY) as Q.
    set (qx := X / 2 ^ g) in *. set (qy := Y / 2 ^ g) in *.
    set (rx := X mod 2 ^ g) in *. set (ry := Y mod 2 ^ g) in *.
    apply Z.mul_le_mono_nonneg_r; [lia|].
    destruct (Z.eq_dec qx qy) as [Eq | Nq].
    + assert (R : rx <= ry) by nia.
      rewrite <- Eq.
      destruct (Z.ltb_spec (2 ^ g) (2 * rx)), (Z.ltb_spec (2 ^ g) (2 * ry)),
        (Z.eqb_spec (2 ^ g) (2 * rx)), (Z.eqb_spec (2 ^ g) (2 * ry)), (Z.odd qx);
        cbn [orb andb]; lia.
    + assert (qx + 1 <= qy) by lia.
      destruct (_ || _), (_ || _); lia.
  - pose proof (raw_below X HX) as [_ U].
    assert (L : 2 ^ (52 + grid Y) <= raw Y) by (apply raw_above; lia).
    apply Z.le_trans with (1 := U). apply Z.le_trans with (2 := L).
    apply Z.pow_le_mono_r; lia.
Qed.

Lemma nearest_monotone (X Y : Z) : 0 <= X -> X <= Y -> nearest X <= nearest Y.
Proof.
  intros HX HXY. rewrite !nearest_raw.
  pose proof (raw_monotone X Y HX HXY). lia.
Qed.

Lemma nearest_bounds (X : Z) : 0 <= X -> 0 <= nearest X <= top.
Proof.
  intro H. rewrite nearest_raw. pose proof (raw_below X H). pose proof top_positive. lia.
Qed.

(** A number on its own grid stays. *)
Lemma nearest_fixed (X : Z) :
  0 <= X -> X <= top -> X mod 2 ^ grid X = 0 -> nearest X = X.
Proof.
  intros H T R. rewrite nearest_raw. unfold raw. rewrite R.
  pose proof (grid_low X) as G.
  assert (P : 0 < 2 ^ grid X) by (apply Z.pow_pos_nonneg; lia).
  destruct (Z.ltb_spec (2 ^ grid X) (2 * 0)); [lia|].
  destruct (Z.eqb_spec (2 ^ grid X) (2 * 0)); [lia|]. cbn [orb andb].
  pose proof (Z.div_mod X (2 ^ grid X)) as D. rewrite R in D.
  rewrite Z.mul_comm. lia.
Qed.

Lemma nearest_zero : nearest 0 = 0.
Proof. apply nearest_fixed; [lia | pose proof top_positive; lia | reflexivity]. Qed.

Lemma nearest_top (X : Z) : top <= X -> nearest X = top.
Proof.
  intro H. pose proof top_positive as T.
  assert (F : nearest top = top).
  { apply nearest_fixed; [lia | lia |].
    unfold grid, top. rewrite Z.log2_pow2 by (unfold places; cbn; lia).
    change (Z.max (emax + places + 1 - prec) (SpecFloat.emin prec emax + places))
      with 2072.
    change (emax + places) with (52 + 2072).
    rewrite Z.pow_add_r by lia. apply Z.mod_mul. apply Z.pow_nonzero; lia. }
  pose proof (nearest_monotone top X (Z.lt_le_incl _ _ T) H).
  pose proof (nearest_bounds X). lia.
Qed.

Lemma nearest_signed_monotone (V W : Z) : V <= W -> nearest_signed V <= nearest_signed W.
Proof.
  intro H. unfold nearest_signed.
  destruct (Z.ltb_spec V 0), (Z.ltb_spec W 0).
  - pose proof (nearest_monotone (- W) (- V)). lia.
  - pose proof (nearest_bounds (- V)). pose proof (nearest_bounds W). lia.
  - lia.
  - now apply nearest_monotone.
Qed.

Lemma nearest_signed_bounds (V : Z) : - top <= nearest_signed V <= top.
Proof.
  unfold nearest_signed. destruct (Z.ltb_spec V 0).
  - pose proof (nearest_bounds (- V)). lia.
  - pose proof (nearest_bounds V). lia.
Qed.

Lemma cond_Zopp_nearest (s : bool) (X : Z) :
  0 < X -> cond_Zopp s (nearest X) = nearest_signed (cond_Zopp s X).
Proof.
  intro H. unfold nearest_signed. destruct s; cbn [cond_Zopp].
  - destruct (Z.ltb_spec (- X) 0); [|lia]. now rewrite Z.opp_involutive.
  - destruct (Z.ltb_spec X 0); [lia|]. reflexivity.
Qed.

(** *** Doubles and their numbers *)

Lemma bounded_scaled (m : positive) (e : Z) :
  bounded prec emax m e = true ->
  -1074 <= e <= 971
  /\ Zpos (digits2_pos m) <= 53
  /\ (-1074 < e -> Zpos (digits2_pos m) = 53)
  /\ 0 < Zpos m * 2 ^ (e + places) < top.
Proof.
  intro B. destruct (bounded_canonical m e B) as [C L].
  change (emax - prec) with 971 in L. unfold fexp in C.
  change (SpecFloat.emin prec emax) with (-1074) in C. change prec with 53 in C.
  pose proof (digits2_bounds m) as [Lm Um].
  assert (P : 0 < 2 ^ (e + places)) by (apply Z.pow_pos_nonneg; unfold places; lia).
  repeat split; try lia.
  assert (T : top = 2 ^ 53 * 2 ^ (971 + places)).
  { unfold top. rewrite <- Z.pow_add_r by (unfold places; lia). reflexivity. }
  rewrite T.
  assert (Zpos m < 2 ^ 53).
  { apply Z.lt_le_trans with (1 := Um). apply Z.pow_le_mono_r; lia. }
  assert (2 ^ (e + places) <= 2 ^ (971 + places))
    by (apply Z.pow_le_mono_r; unfold places; lia).
  nia.
Qed.

Lemma nearest_double (m : positive) (e : Z) :
  bounded prec emax m e = true ->
  nearest (Zpos m * 2 ^ (e + places)) = Zpos m * 2 ^ (e + places).
Proof.
  intro B. destruct (bounded_scaled m e B) as (E & _ & _ & V).
  destruct (bounded_canonical m e B) as [C _].
  apply nearest_fixed; [lia | lia |].
  rewrite grid_scaled, C by (unfold places; lia).
  apply Z.mod_mul, Z.pow_nonzero; unfold places; lia.
Qed.

Lemma canonical_order (m1 m2 : positive) (e1 e2 : Z) :
  bounded prec emax m1 e1 = true ->
  bounded prec emax m2 e2 = true ->
  e1 < e2 ->
  Zpos m1 * 2 ^ (e1 + places) < Zpos m2 * 2 ^ (e2 + places).
Proof.
  intros B1 B2 H.
  destruct (bounded_scaled m1 e1 B1) as (E1 & D1 & _ & _).
  destruct (bounded_scaled m2 e2 B2) as (E2 & _ & D2 & _).
  specialize (D2 ltac:(lia)).
  pose proof (digits2_bounds m1) as [_ U1]. pose proof (digits2_bounds m2) as [L2 _].
  rewrite D2 in L2. change (2 ^ (53 - 1)) with (2 ^ 52) in L2.
  assert (Zpos m1 < 2 ^ 53).
  { apply Z.lt_le_trans with (1 := U1). apply Z.pow_le_mono_r; lia. }
  assert (P1 : 0 < 2 ^ (e1 + places)) by (apply Z.pow_pos_nonneg; unfold places; lia).
  assert (S : 2 * 2 ^ (e1 + places) <= 2 ^ (e2 + places)).
  { rewrite <- Z.pow_succ_r by (unfold places; lia).
    apply Z.pow_le_mono_r; unfold places; lia. }
  change (2 ^ 53) with (2 * 2 ^ 52) in *. nia.
Qed.

Lemma compare_magnitudes (m1 m2 : positive) (e1 e2 : Z) :
  bounded prec emax m1 e1 = true ->
  bounded prec emax m2 e2 = true ->
  match (e1 ?= e2) with
  | Lt => Lt
  | Gt => Gt
  | Eq => Pos.compare_cont Eq m1 m2
  end = (Zpos m1 * 2 ^ (e1 + places) ?= Zpos m2 * 2 ^ (e2 + places)).
Proof.
  intros B1 B2. destruct (Z.compare_spec e1 e2) as [-> | H | H].
  - destruct (bounded_scaled m2 e2 B2) as (E2 & _).
    assert (P : 0 < 2 ^ (e2 + places)) by (apply Z.pow_pos_nonneg; unfold places; lia).
    change (Pos.compare_cont Eq m1 m2) with (Zpos m1 ?= Zpos m2).
    symmetry. destruct (Z.compare_spec (Zpos m1) (Zpos m2)) as [-> | L | L].
    + apply Z.compare_refl.
    + apply Z.compare_lt_iff. nia.
    + apply Z.compare_gt_iff. nia.
  - symmetry. apply Z.compare_lt_iff. now apply canonical_order.
  - symmetry. apply Z.compare_gt_iff. now apply canonical_order.
Qed.

(** The order of two doubles is the order of their numbers. *)
Lemma compare_scaled (x y : spec_float) :
  SpecFloat.valid_binary prec emax x = true ->
  SpecFloat.valid_binary prec emax y = true ->
  x <> S754_nan -> y <> S754_nan ->
  SFcompare x y = Some (scaled x ?= scaled y).
Proof.
  intros Vx Vy Nx Ny. pose proof top_positive as T.
  destruct x as [sx | sx | | sx mx ex]; [| | contradiction |];
    destruct y as [sy | sy | | sy my ey]; try contradiction;
    cbn [SpecFloat.valid_binary] in Vx, Vy;
    try (destruct (bounded_scaled mx ex Vx) as (_ & _ & _ & Bx));
    try (destruct (bounded_scaled my ey Vy) as (_ & _ & _ & By));
    cbn [SFcompare scaled];
    try (destruct sx); try (destruct sy); cbn [cond_Zopp]; f_equal; symmetry;
    try reflexivity;
    try (apply Z.compare_lt_iff; lia); try (apply Z.compare_gt_iff; lia);
    try (apply Z.compare_eq_iff; lia).
  - rewrite Z.compare_opp. rewrite <- (compare_magnitudes my mx ey ex Vy Vx).
    rewrite (Z.compare_antisym ey ex), (Pos.compare_cont_antisym mx my Eq).
    cbn [CompOpp]. destruct (ey ?= ex); reflexivity.
  - symmetry. apply (compare_magnitudes mx my ex ey Vx Vy).
Qed.

(** *** Products and sums *)

Lemma shift_left (m d : positive) : Zpos (Pos.iter xO m d) = Zpos m * 2 ^ Zpos d.
Proof.
  change (Pos.iter xO m d) with (shift_pos d m).
  rewrite shift_pos_correct, Z.pow_pos_fold. ring.
Qed.

Lemma shl_align_value (m : positive) (e e' : Z) :
  e' <= e ->
  Zpos (fst (shl_align m e e')) = Zpos m * 2 ^ (e - e') /\ snd (shl_align m e e') = e'.
Proof.
  intro H. unfold shl_align. destruct (e' - e) as [|p|p] eqn:D; [| lia |].
  - cbn [fst snd]. replace (e - e') with 0 by lia. split; [ring | lia].
  - cbn [fst snd]. rewrite shift_left. replace (e - e') with (Zpos p) by lia.
    split; reflexivity.
Qed.

(** The rounding of [m * 2^e], whatever the exponent. *)
Lemma binary_round_scaled (s : bool) (m : positive) (e : Z) :
  0 <= e + places ->
  binary_round prec emax s m e <> S754_nan
  /\ SpecFloat.valid_binary prec emax (binary_round prec emax s m e) = true
  /\ scaled (binary_round prec emax s m e) = cond_Zopp s (nearest (Zpos m * 2 ^ (e + places))).
Proof.
  intro H. unfold binary_round.
  set (f := fexp prec emax (Zpos (digits2_pos m) + e)).
  assert (F : -1074 <= f) by (unfold f, fexp; change (SpecFloat.emin prec emax) with (-1074); lia).
  destruct (Z.le_gt_cases e f) as [L | L].
  - assert (A : shl_align m e f = (m, e)).
    { unfold shl_align. destruct (f - e) eqn:D; try reflexivity. lia. }
    rewrite A. apply round_aux_scaled; [exact H | exact L].
  - destruct (shl_align_value m e f) as [V E]; [lia|].
    destruct (shl_align m e f) as [mz ez]. cbn [fst snd] in V, E. subst ez.
    assert (D : Zpos (digits2_pos mz) = Zpos (digits2_pos m) + (e - f))
      by (apply digits2_shift; [lia | exact V]).
    assert (X : Zpos mz * 2 ^ (f + places) = Zpos m * 2 ^ (e + places)).
    { rewrite V, <- Z.mul_assoc, <- Z.pow_add_r by (unfold places; lia).
      do 2 f_equal. lia. }
    rewrite <- X. apply round_aux_scaled; [unfold places; lia|].
    rewrite D. replace (Zpos (digits2_pos m) + (e - f) + f) with (Zpos (digits2_pos m) + e)
      by lia.
    fold f. lia.
Qed.

Lemma nearest_signed_zero : nearest_signed 0 = 0.
Proof. unfold nearest_signed. cbn [Z.ltb Z.compare]. apply nearest_zero. Qed.

Lemma nearest_signed_double (x : spec_float) :
  SpecFloat.valid_binary prec emax x = true -> nearest_signed (scaled x) = scaled x.
Proof.
  intro V. destruct x as [s | s | | s m e]; cbn [scaled];
    try apply nearest_signed_zero.
  - rewrite <- cond_Zopp_nearest by apply top_positive.
    now rewrite nearest_top by lia.
  - cbn [SpecFloat.valid_binary] in V.
    destruct (bounded_scaled m e V) as (_ & _ & _ & B).
    rewrite <- cond_Zopp_nearest by lia. now rewrite nearest_double.
Qed.

Lemma SFadd_scaled (x y : spec_float) :
  SpecFloat.valid_binary prec emax x = true ->
  SpecFloat.valid_binary prec emax y = true ->
  finite_double x = true -> finite_double y = true ->
  SFadd prec emax x y <> S754_nan
  /\ scaled (SFadd prec emax x y) = nearest_signed (scaled x + scaled y).
Proof.
  intros Vx Vy Fx Fy.
  destruct x as [sx | sx | | sx mx ex]; try discriminate;
    destruct y as [sy | sy | | sy my ey]; try discriminate.
  - split; [destruct sx, sy; discriminate|].
    cbn [scaled Z.add]. rewrite nearest_signed_zero. destruct sx, sy; reflexivity.
  - split; [discriminate|]. cbn [SFadd]. rewrite Z.add_0_l.
    symmetry. now apply nearest_signed_double.
  - split; [discriminate|]. cbn [SFadd]. change (scaled (S754_zero sy)) with 0.
    rewrite Z.add_0_r. symmetry. now apply nearest_signed_double.
  - cbn [SpecFloat.valid_binary] in Vx, Vy.
    destruct (bounded_scaled mx ex Vx) as (Ex & _). destruct (bounded_scaled my ey Vy) as (Ey & _).
    cbn [SFadd]. set (ez := Z.min ex ey).
    destruct (shl_align_value mx ex ez) as [Ax _]; [unfold ez; lia|].
    destruct (shl_align_value my ey ez) as [Ay _]; [unfold ez; lia|].
    set (ax := fst (shl_align mx ex ez)) in *. set (ay := fst (shl_align my ey ez)) in *.
    assert (Px : Zpos ax * 2 ^ (ez + places) = Zpos mx * 2 ^ (ex + places)).
    { rewrite Ax, <- Z.mul_assoc, <- Z.pow_add_r by (unfold ez, places; lia).
      do 2 f_equal. lia. }
    assert (Py : Zpos ay * 2 ^ (ez + places) = Zpos my * 2 ^ (ey + places)).
    { rewrite Ay, <- Z.mul_assoc, <- Z.pow_add_r by (unfold ez, places; lia).
      do 2 f_equal. lia. }
    assert (S : scaled (S754_finite sx mx ex) + scaled (S754_finite sy my ey)
                = (cond_Zopp sx (Zpos ax) + cond_Zopp sy (Zpos ay)) * 2 ^ (ez + places)).
    { cbn [scaled]. rewrite <- Px, <- Py. destruct sx, sy; cbn [cond_Zopp]; ring. }
    rewrite S.
    assert (P : 0 < 2 ^ (ez + places)) by (apply Z.pow_pos_nonneg; unfold ez, places; lia).
    destruct (cond_Zopp sx (Zpos ax) + cond_Zopp sy (Zpos ay)) as [|p|p];
      cbn [binary_normalize].
    + split; [discriminate|]. cbn [scaled Z.mul]. now rewrite nearest_signed_zero.
    + destruct (binary_round_scaled false p ez) as (N & _ & R); [unfold ez, places; lia|].
      split; [exact N|]. rewrite R. apply cond_Zopp_nearest. lia.
    + destruct (binary_round_scaled true p ez) as (N & _ & R); [unfold ez, places; lia|].
      split; [exact N|]. rewrite R.
      rewrite cond_Zopp_nearest by lia. f_equal. cbn [cond_Zopp]. lia.
Qed.

Lemma scaled_bounds (x : spec_float) :
  SpecFloat.valid_binary prec emax x = true -> - top <= scaled x <= top.
Proof.
  intro V. pose proof top_positive.
  destruct x as [s | s | | s m e]; cbn [scaled]; try lia.
  - destruct s; cbn [cond_Zopp]; lia.
  - destruct (bounded_scaled m e V) as (_ & _ & _ & B). destruct s; cbn [cond_Zopp]; lia.
Qed.

Lemma scaled_finite (x : spec_float) :
  SpecFloat.valid_binary prec emax x = true -> finite_double x = true ->
  - top < scaled x < top.
Proof.
  intros V F. pose proof top_positive.
  destruct x as [s | s | | s m e]; try discriminate; cbn [scaled]; try lia.
  destruct (bounded_scaled m e V) as (_ & _ & _ & B). destruct s; cbn [cond_Zopp]; lia.
Qed.

(** Adding a larger number to a finite one gives no less. *)
Lemma SFadd_monotone (n p q : spec_float) :
  SpecFloat.valid_binary prec emax n = true ->
  SpecFloat.valid_binary prec emax p = true ->
  SpecFloat.valid_binary prec emax q = true ->
  finite_double n = true -> p <> S754_nan -> q <> S754_nan ->
  scaled p <= scaled q ->
  SFadd prec emax n p <> S754_nan /\ SFadd prec emax n q <> S754_nan
  /\ scaled (SFadd prec emax n p) <= scaled (SFadd prec emax n q).
Proof.
  intros Vn Vp Vq Fn Np Nq H. pose proof top_positive as T.
  assert (Inf : forall s, SFadd prec emax n (S754_infinity s) = S754_infinity s)
    by (intro s; destruct n; try discriminate; reflexivity).
  assert (Fin : forall y, SpecFloat.valid_binary prec emax y = true -> finite_double y = true ->
                          SFadd prec emax n y <> S754_nan
                          /\ - top <= scaled (SFadd prec emax n y) <= top).
  { intros y Vy Fy. destruct (SFadd_scaled n y Vn Vy Fn Fy) as [N E].
    split; [exact N|]. rewrite E. apply nearest_signed_bounds. }
  destruct (finite_double p) eqn:Fp, (finite_double q) eqn:Fq.
  - destruct (SFadd_scaled n p Vn Vp Fn Fp) as [N1 E1].
    destruct (SFadd_scaled n q Vn Vq Fn Fq) as [N2 E2].
    split; [exact N1|]. split; [exact N2|]. rewrite E1, E2.
    apply nearest_signed_monotone. lia.
  - destruct (Fin p Vp Fp) as [N1 B1].
    destruct q as [s | s | | s m e]; try discriminate; [|contradiction].
    pose proof (scaled_finite p Vp Fp) as Bp.
    destruct s; cbn [scaled cond_Zopp] in H; [lia|].
    rewrite Inf. split; [exact N1|]. split; [discriminate|]. cbn [scaled cond_Zopp]. lia.
  - destruct (Fin q Vq Fq) as [N2 B2].
    destruct p as [s | s | | s m e]; try discriminate; [|contradiction].
    pose proof (scaled_finite q Vq Fq) as Bq.
    destruct s; cbn [scaled cond_Zopp] in H; [|lia].
    rewrite Inf. split; [discriminate|]. split; [exact N2|]. cbn [scaled cond_Zopp]. lia.
  - destruct p as [s | s | | s m e]; try discriminate; [|contradiction].
    destruct q as [s' | s' | | s' m' e']; try discriminate; [|contradiction].
    rewrite !Inf. split; [discriminate|]. split; [discriminate|].
    destruct s, s'; cbn [scaled cond_Zopp] in *; lia.
Qed.

(** The milliseconds of a day as a double. *)
Lemma day_ms_double :
  Prim2SF Token.day_ms = S754_finite false 5798205849600000 (-26).
Proof. reflexivity. Qed.

Lemma SFmul_day (x : spec_float) :
  SpecFloat.valid_binary prec emax x = true ->
  x <> S754_nan ->
  SFmul prec emax (Prim2SF Token.day_ms) x <> S754_nan
  /\ scaled (SFmul prec emax (Prim2SF Token.day_ms) x) = nearest_signed (86400000 * scaled x).
Proof.
  intros V N. rewrite day_ms_double. pose proof top_positive as T.
  destruct x as [s | s | | s m e]; [| | contradiction |].
  - split; [discriminate|]. cbn [SFmul scaled]. now rewrite Z.mul_0_r, nearest_signed_zero.
  - split; [discriminate|]. cbn [SFmul xorb scaled].
    replace (86400000 * cond_Zopp s top) with (cond_Zopp s (86400000 * top))
      by (destruct s; cbn [cond_Zopp]; lia).
    rewrite <- cond_Zopp_nearest by lia. now rewrite nearest_top by lia.
  - cbn [SpecFloat.valid_binary] in V. destruct (bounded_scaled m e V) as (E & _ & _ & B).
    cbn [SFmul xorb].
    assert (X : Zpos (5798205849600000 * m) * 2 ^ (-26 + e + places)
                = 86400000 * (Zpos m * 2 ^ (e + places))).
    { replace (e + places) with (26 + (-26 + e + places)) by lia.
      rewrite (Z.pow_add_r 2 26) by (unfold places; lia).
      rewrite Pos2Z.inj_mul. change (Zpos 5798205849600000) with (86400000 * 2 ^ 26).
      ring. }
    destruct (round_aux_scaled s (5798205849600000 * m) (-26 + e)) as (Nn & _ & R).
    + unfold places; lia.
    + pose proof (digits2_bounds (5798205849600000 * m)) as [_ U].
      assert (D : 53 <= Zpos (digits2_pos (5798205849600000 * m))).
      { destruct (Z.le_gt_cases 53 (Zpos (digits2_pos (5798205849600000 * m))))
          as [H | H]; [exact H|]. exfalso.
        assert (2 ^ Zpos (digits2_pos (5798205849600000 * m)) <= 2 ^ 52)
          by (apply Z.pow_le_mono_r; lia).
        rewrite Pos2Z.inj_mul in U.
        change (Zpos 5798205849600000) with (86400000 * 2 ^ 26) in U.
        change (2 ^ 52) with 4503599627370496 in *. change (2 ^ 26) with 67108864 in U.
        lia. }
      unfold fexp. change prec with 53. lia.
    + split; [exact Nn|]. rewrite R, X.
      rewrite cond_Zopp_nearest by lia. f_equal. destruct s; cbn [scaled cond_Zopp]; lia.
Qed.

(** *** Expiry dates *)

Close Scope Z_scope.

Lemma leb_scaled (x y : float) :
  (x <=? y)%float = true ->
  Prim2SF x <> S754_nan /\ Prim2SF y <> S754_nan
  /\ (scaled (Prim2SF x) <= scaled (Prim2SF y))%Z.
Proof.
  rewrite leb_spec. unfold SFleb. intro H.
  assert (Nx : Prim2SF x <> S754_nan) by (intro E; rewrite E in H; discriminate).
  assert (Ny : Prim2SF y <> S754_nan)
    by (intro E; rewrite E in H; destruct (Prim2SF x); discriminate).
  split; [exact Nx|]. split; [exact Ny|].
  rewrite (compare_scaled _ _ (Prim2SF_valid x) (Prim2SF_valid y) Nx Ny) in H.
  destruct (Z.compare_spec (scaled (Prim2SF x)) (scaled (Prim2SF y))); try discriminate; lia.
Qed.

Lemma scaled_leb (x y : float) :
  Prim2SF x <> S754_nan -> Prim2SF y <> S754_nan ->
  (scaled (Prim2SF x) <= scaled (Prim2SF y))%Z ->
  (x <=? y)%float = true.
Proof.
  intros Nx Ny H. rewrite leb_spec. unfold SFleb.
  rewrite (compare_scaled _ _ (Prim2SF_valid x) (Prim2SF_valid y) Nx Ny).
  destruct (Z.compare_spec (scaled (Prim2SF x)) (scaled (Prim2SF y))); try reflexivity; lia.
Qed.

Lemma scaled_ltb (x y : float) :
  Prim2SF x <> S754_nan -> Prim2SF y <> S754_nan ->
  (scaled (Prim2SF x) < scaled (Prim2SF y))%Z ->
  (x <? y)%float = true.
Proof.
  intros Nx Ny H. rewrite ltb_spec. unfold SFltb.
  rewrite (compare_scaled _ _ (Prim2SF_valid x) (Prim2SF_valid y) Nx Ny).
  destruct (Z.compare_spec (scaled (Prim2SF x)) (scaled (Prim2SF y))); try reflexivity; lia.
Qed.

Lemma expiry_double (now lifetime : float) :
  Prim2SF (Token.expiry now lifetime)
  = SFadd prec emax (Prim2SF now) (SFmul prec emax (Prim2SF Token.day_ms) (Prim2SF lifetime)).
Proof.
  unfold Token.expiry. rewrite add_spec, mul_spec. reflexivity.
Qed.

(** A longer lifetime gives no earlier date, on a finite clock. *)
Lemma expiry_monotone (now a b : float) :
  finite_number now = true ->
  (a <=? b)%float = true ->
  (Token.expiry now a <=? Token.expiry now b)%float = true.
Proof.
  intros Fn H. destruct (leb_scaled a b H) as (Na & Nb & L).
  destruct (SFmul_day (Prim2SF a) (Prim2SF_valid a) Na) as [Npa Ea].
  destruct (SFmul_day (Prim2SF b) (Prim2SF_valid b) Nb) as [Npb Eb].
  assert (Va : SpecFloat.valid_binary prec emax
                 (SFmul prec emax (Prim2SF Token.day_ms) (Prim2SF a)) = true).
  { rewrite <- mul_spec. apply Prim2SF_valid. }
  assert (Vb : SpecFloat.valid_binary prec emax
                 (SFmul prec emax (Prim2SF Token.day_ms) (Prim2SF b)) = true).
  { rewrite <- mul_spec. apply Prim2SF_valid. }
  destruct (SFadd_monotone (Prim2SF now) _ _ (Prim2SF_valid now) Va Vb Fn Npa Npb)
    as (N1 & N2 & M).
  { rewrite Ea, Eb. apply nearest_signed_monotone. lia. }
  apply scaled_leb; rewrite !expiry_double; assumption.
Qed.

(** *** Whole numbers *)

Lemma nearest_whole (k : Z) :
  (0 <= k < 2 ^ 53)%Z -> nearest (k * 2 ^ places) = (k * 2 ^ places)%Z.
Proof.
  intros [L U]. destruct (Z.eq_dec k 0) as [-> | N]; [apply nearest_zero|].
  assert (P : (0 < 2 ^ places)%Z) by (apply Z.pow_pos_nonneg; unfold places; lia).
  assert (G : (26 <= grid (k * 2 ^ places) <= places)%Z).
  { split; [apply grid_low|]. unfold grid.
    rewrite Z.log2_mul_pow2 by (unfold places; lia).
    assert (Z.log2 k < 53)%Z by (apply Z.log2_lt_pow2; lia).
    change (SpecFloat.emin prec emax + places)%Z with 26%Z. change prec with 53%Z.
    unfold places. lia. }
  apply nearest_fixed.
  - lia.
  - unfold top. change (emax + places)%Z with (1024 + places)%Z.
    rewrite Z.pow_add_r by (unfold places; lia).
    assert (2 ^ 53 <= 2 ^ 1024)%Z by (apply Z.pow_le_mono_r; lia). nia.
  - set (g := grid (k * 2 ^ places)) in *.
    replace places with ((places - g) + g)%Z at 1 by lia.
    rewrite Z.pow_add_r, Z.mul_assoc by lia.
    apply Z.mod_mul, Z.pow_nonzero; lia.
Qed.

Lemma nearest_signed_whole (k : Z) :
  (0 <= k < 2 ^ 53)%Z -> nearest_signed (k * 2 ^ places) = (k * 2 ^ places)%Z.
Proof.
  intro H. unfold nearest_signed.
  assert (P : (0 < 2 ^ places)%Z) by (apply Z.pow_pos_nonneg; unfold places; lia).
  destruct (Z.ltb_spec (k * 2 ^ places) 0); [nia|]. now apply nearest_whole.
Qed.

Lemma whole_below_top (k : Z) : (0 <= k < 2 ^ 53)%Z -> (0 <= k * 2 ^ places < top)%Z.
Proof.
  intro H. assert (P : (0 < 2 ^ places)%Z) by (apply Z.pow_pos_nonneg; unfold places; lia).
  unfold top. change (emax + places)%Z with (1024 + places)%Z.
  rewrite Z.pow_add_r by (unfold places; lia).
  assert (2 ^ 53 <= 2 ^ 1024)%Z by (apply Z.pow_le_mono_r; lia). nia.
Qed.

Lemma finite_below_top (x : spec_float) :
  x <> S754_nan -> (- top < scaled x < top)%Z -> finite_double x = true.
Proof.
  intros N B. destruct x as [s | s | | s m e]; try reflexivity; [|contradiction].
  destruct s; cbn [scaled cond_Zopp] in B; lia.
Qed.

Lemma signed_positive (x : spec_float) :
  x <> S754_nan ->
  JS.signed false x <> S754_nan
  /\ SpecFloat.valid_binary prec emax (JS.signed false x) = SpecFloat.valid_binary prec emax x
  /\ scaled (JS.signed false x) = Z.abs (scaled x).
Proof.
  intro N. pose proof top_positive.
  destruct x as [s | s | | s m e]; [| | contradiction |]; cbn [JS.signed scaled cond_Zopp].
  - repeat split; discriminate.
  - repeat split; [discriminate|]. destruct s; cbn [cond_Zopp]; lia.
  - repeat split; [discriminate|]. destruct s; cbn [cond_Zopp]; lia.
Qed.

(** The double of a whole number below [2^53] is that number. *)
Lemma of_N_double (n : N) :
  (n < 2 ^ 53)%N ->
  finite_double (Prim2SF (JS.of_N n)) = true
  /\ scaled (Prim2SF (JS.of_N n)) = (Z.of_N n * 2 ^ places)%Z.
Proof.
  intro H.
  assert (Hz : (0 <= Z.of_N n < 2 ^ 53)%Z).
  { split; [lia|]. change (2 ^ 53)%Z with (Z.of_N (2 ^ 53)). lia. }
  pose proof (whole_below_top _ Hz) as B.
  unfold JS.of_N, JS.of_decimal, JS.round_decimal.
  destruct n as [|d].
  - cbn [JS.signed]. rewrite Prim2SF_SF2Prim by reflexivity. split; reflexivity.
  - change (Zpos d * 10 ^ 0)%Z with (Zpos d * 1)%Z. rewrite Z.mul_1_r.
    cbn [binary_normalize].
    destruct (binary_round_scaled false d 0) as (N & V & S); [unfold places; lia|].
    destruct (signed_positive _ N) as (N' & V' & S').
    rewrite Prim2SF_SF2Prim by (rewrite V'; exact V).
    rewrite S', S. cbn [cond_Zopp]. rewrite Z.add_0_l.
    change (Z.of_N (Npos d)) with (Zpos d) in *.
    rewrite nearest_whole by exact Hz.
    rewrite Z.abs_eq by lia. split; [|reflexivity].
    apply finite_below_top; [exact N'|].
    rewrite S', S. cbn [cond_Zopp]. rewrite Z.add_0_l, nearest_whole by exact Hz.
    rewrite Z.abs_eq by lia. lia.
Qed.

(** With whole numbers of days and of milliseconds below [2^53] nothing is
    rounded: the date is [n + 86400000 * a]. *)
Lemma expiry_whole (n a : N) :
  (n + 86400000 * a < 2 ^ 53)%N ->
  Prim2SF (Token.expiry (JS.of_N n) (JS.of_N a)) <> S754_nan
  /\ scaled (Prim2SF (Token.expiry (JS.of_N n) (JS.of_N a)))
     = (Z.of_N (n + 86400000 * a) * 2 ^ places)%Z.
Proof.
  intro H.
  assert (Hz : (0 <= Z.of_N n + 86400000 * Z.of_N a < 2 ^ 53)%Z).
  { split; [lia|]. change (2 ^ 53)%Z with (Z.of_N (2 ^ 53)). lia. }
  assert (Hn : (n < 2 ^ 53)%N) by lia.
  assert (Ha : (a < 2 ^ 53)%N) by lia.
  destruct (of_N_double n Hn) as [Fn Sn]. destruct (of_N_double a Ha) as [Fa Sa].
  assert (Na : Prim2SF (JS.of_N a) <> S754_nan)
    by (intro E; rewrite E in Fa; discriminate).
  destruct (SFmul_day _ (Prim2SF_valid (JS.of_N a)) Na) as [Np Ep].
  rewrite Sa in Ep.
  replace (86400000 * (Z.of_N a * 2 ^ places))%Z
    with ((86400000 * Z.of_N a) * 2 ^ places)%Z in Ep by ring.
  rewrite nearest_signed_whole in Ep by lia.
  assert (Vp : SpecFloat.valid_binary prec emax
                 (SFmul prec emax (Prim2SF Token.day_ms) (Prim2SF (JS.of_N a))) = true).
  { rewrite <- mul_spec. apply Prim2SF_valid. }
  assert (Fp : finite_double (SFmul prec emax (Prim2SF Token.day_ms) (Prim2SF (JS.of_N a))) = true).
  { apply finite_below_top; [exact Np|]. rewrite Ep.
    pose proof (whole_below_top (86400000 * Z.of_N a)). lia. }
  destruct (SFadd_scaled _ _ (Prim2SF_valid (JS.of_N n)) Vp Fn Fp) as [Ns Es].
  rewrite expiry_double. split; [exact Ns|].
  rewrite Es, Sn, Ep.
  replace (Z.of_N n * 2 ^ places + 86400000 * Z.of_N a * 2 ^ places)%Z
    with ((Z.of_N n + 86400000 * Z.of_N a) * 2 ^ places)%Z by ring.
  rewrite nearest_signed_whole by exact Hz. f_equal. lia.
Qed.

Lemma expiry_whole_order (n a b : N) :
  (a < b)%N ->
  (n + 86400000 * b < 2 ^ 53)%N ->
  (Token.expiry (JS.of_N n) (JS.of_N a) <? Token.expiry (JS.of_N n) (JS.of_N b))%float = true.
Proof.
  intros L H.
  destruct (expiry_whole n a) as [Na Sa]; [lia|].
  destruct (expiry_whole n b H) as [Nb Sb].
  apply scaled_ltb; [exact Na | exact Nb|]. rewrite Sa, Sb.
  assert (P : (0 < 2 ^ places)%Z) by (apply Z.pow_pos_nonneg; unfold places; lia).
  apply Z.mul_lt_mono_pos_r; [exact P | lia].
Qed.

Lemma ltb_leb (x y : float) : (x <? y)%float = true -> (x <=? y)%float = true.
Proof.
  rewrite ltb_spec, leb_spec. unfold SFltb, SFleb.
  destruct (SFcompare (Prim2SF x) (Prim2SF y)) as [[| |]|]; try discriminate; reflexivity.
Qed.

Lemma nan_ltb (x : float) : (nan <? x)%float = false.
Proof. rewrite ltb_spec. reflexivity. Qed.

(** ** Strings *)

Lemma str_eqb_eq (a b : jstring) : str_eqb a b = true <-> a = b.
Proof.
  revert b; induction a as [|x a IH]; intros [|y b]; simpl; split; intro H;
    try reflexivity; try discriminate.
  - apply andb_true_iff in H as [Hx Hr]. apply N.eqb_eq in Hx. apply IH in Hr.
    now subst.
  - injection H as -> ->. rewrite N.eqb_refl. simpl. now apply IH.
Qed.

Lemma str_eqb_refl (a : jstring) : str_eqb a a = true.
Proof. now apply str_eqb_eq. Qed.

Lemma str_eqb_neq (a b : jstring) : str_eqb a b = false <-> a <> b.
Proof.
  split; intro H.
  - intro E. apply str_eqb_eq in E. congruence.
  - destruct (str_eqb a b) eqn:E; [apply str_eqb_eq in E; contradiction | reflexivity].
Qed.

(** ** Checking a property of octets by enumeration *)

Lemma count_from_complete (n : nat) (from x : N) :
  (from <= x < from + N.of_nat n)%N -> In x (count_from from n).
Proof.
  revert from. induction n as [|n IH]; intros from H; [lia|].
  simpl. destruct (N.eq_dec from x) as [->|Hne]; [now left|].
  right. apply IH. lia.
Qed.

Lemma check_below (P : N -> bool) (bound : N) :
  forallb P (below bound) = true -> forall x, (x < bound)%N -> P x = true.
Proof.
  intros H x Hx. rewrite forallb_forall in H. apply H.
  apply count_from_complete. lia.
Qed.

Lemma check_below2 (P : N -> N -> bool) (n m : N) :
  forallb (fun x => forallb (P x) (below m)) (below n) = true ->
  forall x y, (x < n)%N -> (y < m)%N -> P x y = true.
Proof.
  intros H x y Hx Hy.
  apply (check_below (P x) m); [|exact Hy].
  apply (check_below (fun x => forallb (P x) (below m)) n H x Hx).
Qed.

(** ** Base64 *)

Lemma sextet_char (n : N) :
  (n < 64)%N ->
  Base64.sextet_of_char (Base64.char_of_sextet n) = Some n /\
  (Base64.low_byte (Base64.char_of_sextet n) =? Base64.pad)%N = false.
Proof.
  intro H.
  assert (C : (match Base64.sextet_of_char (Base64.char_of_sextet n) with
               | Some m => (m =? n)%N
               | None => false
               end && negb (Base64.low_byte (Base64.char_of_sextet n) =? Base64.pad)%N)
              = true).
  { revert n H. apply (check_below _ 64). vm_compute. reflexivity. }
  apply andb_true_iff in C as [C1 C2].
  destruct (Base64.sextet_of_char _) as [m|]; [|discriminate].
  apply N.eqb_eq in C1. subst m. split; [reflexivity|].
  now apply negb_true_iff in C2.
Qed.

Lemma sextets_small (a b : N) :
  is_octet a -> is_octet b ->
  (sextet0 a < 64 /\ sextet1 a b < 64 /\ sextet2 a b < 64 /\ sextet3 a < 64)%N.
Proof.
  intros Ha Hb.
  assert (C : ((sextet0 a <? 64) && (sextet1 a b <? 64) && (sextet2 a b <? 64)
               && (sextet3 a <? 64))%N = true).
  { revert a b Ha Hb. apply (check_below2 _ 256 256). vm_compute. reflexivity. }
  repeat (apply andb_true_iff in C as [C ?]).
  repeat split; now apply N.ltb_lt.
Qed.

(** Reassembling octets from sextets. *)
Lemma regroup (a b : N) :
  is_octet a -> is_octet b ->
  N.lor (N.shiftl (sextet0 a) 2) (N.shiftr (sextet1 a b) 4) = a /\
  N.land (sextet1 a b) 15 = N.shiftr b 4 /\
  N.lor (N.shiftl (N.shiftr a 4) 4) (N.shiftr (sextet2 a b) 2) = a /\
  N.land (sextet2 a b) 3 = N.shiftr b 6 /\
  N.lor (N.shiftl (N.shiftr b 6) 6) (sextet3 b) = b.
Proof.
  intros Ha Hb.
  assert (C : ((N.lor (N.shiftl (sextet0 a) 2) (N.shiftr (sextet1 a b) 4) =? a)
               && (N.land (sextet1 a b) 15 =? N.shiftr b 4)
               && (N.lor (N.shiftl (N.shiftr a 4) 4) (N.shiftr (sextet2 a b) 2) =? a)
               && (N.land (sextet2 a b) 3 =? N.shiftr b 6)
               && (N.lor (N.shiftl (N.shiftr b 6) 6) (sextet3 b) =? b))%N
              = true).
  { revert a b Ha Hb. apply (check_below2 _ 256 256). vm_compute. reflexivity. }
  repeat (apply andb_true_iff in C as [C ?]).
  repeat split; now apply N.eqb_eq.
Qed.

Lemma encode_group (a b c : N) (rest : list N) :
  Base64.encode (a :: b :: c :: rest) =
  Base64.char_of_sextet (sextet0 a) :: Base64.char_of_sextet (sextet1 a b)
  :: Base64.char_of_sextet (sextet2 b c) :: Base64.char_of_sextet (sextet3 c)
  :: Base64.encode rest.
Proof. reflexivity. Qed.

Lemma sextets_cons (n : N) (text : jstring) :
  (n < 64)%N ->
  Base64.sextets (Base64.char_of_sextet n :: text) = n :: Base64.sextets text.
Proof.
  intro H. destruct (sextet_char n H) as [S P]. simpl. now rewrite P, S.
Qed.

Lemma is_octet_0 : is_octet 0.
Proof. unfold is_octet. lia. Qed.

(** [Buffer.from(buf.toString('base64'), 'base64')] gives the octets back. *)
Lemma base64_roundtrip_upto (n : nat) (bytes : list N) :
  (length bytes <= n)%nat ->
  Forall is_octet bytes ->
  Base64.decode (Base64.encode bytes) = bytes.
Proof.
  revert bytes. induction n as [n IH] using lt_wf_ind. intros bytes L F.
  unfold Base64.decode.
  destruct bytes as [|a [|b [|c rest]]].
  - reflexivity.
  - inversion F as [|? ? Ha _]; subst.
    destruct (sextets_small a 0 Ha is_octet_0) as (S0 & S1 & _).
    destruct (regroup a 0 Ha is_octet_0) as (R1 & _).
    change (Base64.encode [a]) with
      [Base64.char_of_sextet (sextet0 a); Base64.char_of_sextet (N.shiftl (N.land a 3) 4);
       Base64.pad; Base64.pad].
    replace (N.shiftl (N.land a 3) 4) with (sextet1 a 0)
      by (unfold sextet1; change (N.shiftr 0 4) with 0%N; apply N.lor_0_r).
    rewrite !sextets_cons by assumption.
    change (Base64.sextets [Base64.pad; Base64.pad]) with (@nil N).
    change (Base64.bytes_of_sextets [sextet0 a; sextet1 a 0])
      with [N.lor (N.shiftl (sextet0 a) 2) (N.shiftr (sextet1 a 0) 4)].
    now rewrite R1.
  - inversion F as [|? ? Ha F']; subst. inversion F' as [|? ? Hb _]; subst.
    destruct (sextets_small a b Ha Hb) as (S0 & S1 & _).
    destruct (sextets_small b 0 Hb is_octet_0) as (_ & _ & S2 & _).
    destruct (regroup a b Ha Hb) as (R1 & R2 & _).
    destruct (regroup b 0 Hb is_octet_0) as (_ & _ & R3 & _).
    change (Base64.encode [a; b]) with
      [Base64.char_of_sextet (sextet0 a); Base64.char_of_sextet (sextet1 a b);
       Base64.char_of_sextet (N.shiftl (N.land b 15) 2); Base64.pad].
    replace (N.shiftl (N.land b 15) 2) with (sextet2 b 0)
      by (unfold sextet2; change (N.shiftr 0 6) with 0%N; apply N.lor_0_r).
    rewrite !sextets_cons by assumption.
    change (Base64.sextets [Base64.pad]) with (@nil N).
    change (Base64.bytes_of_sextets [sextet0 a; sextet1 a b; sextet2 b 0])
      with [N.lor (N.shiftl (sextet0 a) 2) (N.shiftr (sextet1 a b) 4);
            N.lor (N.shiftl (N.land (sextet1 a b) 15) 4) (N.shiftr (sextet2 b 0) 2)].
    now rewrite R1, R2, R3.
  - inversion F as [|? ? Ha F']; subst. inversion F' as [|? ? Hb F'']; subst.
    inversion F'' as [|? ? Hc Fr]; subst.
    destruct (sextets_small a b Ha Hb) as (S0 & S1 & _).
    destruct (sextets_small b c Hb Hc) as (_ & _ & S2 & _).
    destruct (sextets_small c c Hc Hc) as (_ & _ & _ & S3).
    destruct (regroup a b Ha Hb) as (R1 & R2 & _).
    destruct (regroup b c Hb Hc) as (_ & _ & R3 & R4 & R5).
    rewrite encode_group, !sextets_cons by assumption.
    change (Base64.bytes_of_sextets
              (sextet0 a :: sextet1 a b :: sextet2 b c :: sextet3 c
               :: Base64.sextets (Base64.encode rest)))
      with (N.lor (N.shiftl (sextet0 a) 2) (N.shiftr (sextet1 a b) 4)
            :: N.lor (N.shiftl (N.land (sextet1 a b) 15) 4) (N.shiftr (sextet2 b c) 2)
            :: N.lor (N.shiftl (N.land (sextet2 b c) 3) 6) (sextet3 c)
            :: Base64.decode (Base64.encode rest)).
    rewrite R1, R2, R3, R4, R5.
    rewrite (IH (length rest)); [reflexivity | simpl in L; lia | lia | exact Fr].
Qed.

Lemma base64_roundtrip (bytes : list N) :
  Forall is_octet bytes -> Base64.decode (Base64.encode bytes) = bytes.
Proof. apply (base64_roundtrip_upto (length bytes)). lia. Qed.

Lemma char_of_sextet_base64 (n : N) : is_base64_char (Base64.char_of_sextet n) = true.
Proof.
  unfold is_base64_char, Base64.char_of_sextet, Uri.is_alnum.
  repeat match goal with
         | |- context [(?x <? ?y)%N] => destruct (N.ltb_spec x y)
         | |- context [(?x =? ?y)%N] => destruct (N.eqb_spec x y)
         | |- context [(?x <=? ?y)%N] => destruct (N.leb_spec x y)
         end; simpl; try reflexivity; lia.
Qed.

Lemma encode_base64_chars_upto (n : nat) (bytes : list N) :
  (length bytes <= n)%nat ->
  forallb is_base64_char (Base64.encode bytes) = true.
Proof.
  revert bytes. induction n as [n IH] using lt_wf_ind. intros bytes L.
  destruct bytes as [|a [|b [|c rest]]]; try reflexivity.
  - change (Base64.encode [a]) with
      [Base64.char_of_sextet (sextet0 a); Base64.char_of_sextet (N.shiftl (N.land a 3) 4);
       Base64.pad; Base64.pad].
    simpl. now rewrite !char_of_sextet_base64.
  - change (Base64.encode [a; b]) with
      [Base64.char_of_sextet (sextet0 a); Base64.char_of_sextet (sextet1 a b);
       Base64.char_of_sextet (N.shiftl (N.land b 15) 2); Base64.pad].
    simpl. now rewrite !char_of_sextet_base64.
  - rewrite encode_group. simpl. rewrite !char_of_sextet_base64. simpl.
    apply (IH (length rest)); simpl in L; lia.
Qed.

Lemma encode_base64_chars (bytes : list N) :
  forallb is_base64_char (Base64.encode bytes) = true.
Proof. apply (encode_base64_chars_upto (length bytes)). lia. Qed.

(** ** Percent-encoding of ASCII text *)

Lemma ascii_not_surrogate (c : N) :
  is_ascii c ->
  Utf8.is_low_surrogate c = false /\ Utf8.is_high_surrogate c = false /\
  Utf8.encode_code_point c = [c].
Proof.
  unfold is_ascii, Utf8.is_low_surrogate, Utf8.is_high_surrogate, Utf8.encode_code_point.
  intro H. repeat split.
  - destruct (N.leb_spec 56320 c); [lia | reflexivity].
  - destruct (N.leb_spec 55296 c); [lia | reflexivity].
  - destruct (N.ltb_spec c 128); [reflexivity | lia].
Qed.

Lemma encodeURIComponent_ascii (s : jstring) :
  Forall is_ascii s ->
  Uri.encodeURIComponent s = Ok (flat_map escape_ascii s).
Proof.
  induction 1 as [|c s Hc _ IH]; [reflexivity|].
  destruct (ascii_not_surrogate c Hc) as (L & H & E).
  simpl. unfold escape_ascii. rewrite IH, L, H, E.
  destruct (Uri.unreserved c); reflexivity.
Qed.

Lemma hex_octet (b : N) :
  is_octet b ->
  Hex.digit_value (Hex.upper_digit (N.shiftr b 4)) = Some (N.shiftr b 4) /\
  Hex.digit_value (Hex.upper_digit (N.land b 15)) = Some (N.land b 15) /\
  (16 * N.shiftr b 4 + N.land b 15 = b)%N.
Proof.
  intro H.
  assert (C : (match Hex.digit_value (Hex.upper_digit (N.shiftr b 4)),
                     Hex.digit_value (Hex.upper_digit (N.land b 15)) with
               | Some x, Some y =>
                   (x =? N.shiftr b 4) && (y =? N.land b 15) && (16 * x + y =? b)
               | _, _ => false
               end)%N = true).
  { revert b H. apply (check_below _ 256). vm_compute. reflexivity. }
  destruct (Hex.digit_value _) as [x|]; [|discriminate].
  destruct (Hex.digit_value _) as [y|]; [|discriminate].
  apply andb_true_iff in C as [C C3]. apply andb_true_iff in C as [C1 C2].
  apply N.eqb_eq in C1, C2, C3. subst x y. auto.
Qed.

Lemma unreserved_not_percent (c : N) :
  Uri.unreserved c = true -> (c =? Uri.percent)%N = false.
Proof.
  intro H. destruct (N.eqb_spec c Uri.percent) as [->|]; [discriminate H | reflexivity].
Qed.

Lemma unescape_escape_ascii (s : jstring) :
  Forall is_ascii s ->
  Uri.unescape (flat_map escape_ascii s) = Ok (map item_of_ascii s).
Proof.
  induction 1 as [|c s Hc _ IH]; [reflexivity|].
  cbn [flat_map map]. unfold escape_ascii at 1, item_of_ascii at 1.
  destruct (Uri.unreserved c) eqn:U.
  - cbn [app Uri.unescape]. rewrite (unreserved_not_percent c U), IH. reflexivity.
  - assert (Ho : is_octet c) by (unfold is_octet, is_ascii in *; lia).
    destruct (hex_octet c Ho) as (Hh & Hl & Hv).
    unfold Uri.escape_byte. cbn [app Uri.unescape].
    rewrite N.eqb_refl, Hh, Hl, IH. cbn [bind]. now rewrite Hv.
Qed.

Lemma decode_items_ascii (s : jstring) :
  Forall is_ascii s ->
  Uri.decode_items (map item_of_ascii s) = Ok s.
Proof.
  induction 1 as [|c s Hc _ IH]; [reflexivity|].
  cbn [map]. unfold item_of_ascii at 1.
  destruct (Uri.unreserved c); cbn [Uri.decode_items]; rewrite IH; cbn [bind].
  - reflexivity.
  - unfold is_ascii in Hc. destruct (N.ltb_spec c 128); [reflexivity | lia].
Qed.

(** [decodeURIComponent(encodeURIComponent(s)) === s] for ASCII [s]. *)
Lemma uri_roundtrip_ascii (s : jstring) :
  Forall is_ascii s ->
  Uri.decodeURIComponent (flat_map escape_ascii s) = Ok s.
Proof.
  intro H. unfold Uri.decodeURIComponent.
  rewrite (unescape_escape_ascii s H). cbn [bind]. now apply decode_items_ascii.
Qed.

Lemma base64_char_ascii (c : N) :
  is_base64_char c = true -> is_ascii c /\ (c =? dot)%N = false.
Proof.
  unfold is_base64_char, Uri.is_alnum, is_ascii, dot. intro H.
  repeat match type of H with
         | (_ || _) = true => apply orb_true_iff in H as [H|H]
         | (_ && _) = true => apply andb_true_iff in H as [? H]
         end;
    repeat match goal with
           | H : (_ <=? _)%N = true |- _ => apply N.leb_le in H
           | H : (_ =? _)%N = true |- _ => apply N.eqb_eq in H
           end;
    (split; [lia | apply N.eqb_neq; lia]).
Qed.

(** ** [split] *)

Lemma split_nonempty (sep : N) (s : jstring) : split sep s <> [].
Proof.
  destruct s as [|c s]; simpl; [discriminate|].
  destruct (c =? sep)%N; [discriminate|].
  destruct (split sep s); discriminate.
Qed.

Lemma split_cons_other (sep c : N) (s : jstring) :
  (c =? sep)%N = false ->
  split sep (c :: s) =
  match split sep s with
  | seg :: segs => (c :: seg) :: segs
  | [] => [[c]]
  end.
Proof. intro H. simpl. now rewrite H. Qed.

Lemma split_segment (sep : N) (a rest : jstring) :
  forallb (fun c => negb (c =? sep)%N) a = true ->
  split sep (a ++ sep :: rest) = a :: split sep rest.
Proof.
  induction a as [|c a IH]; intro H.
  - simpl. now rewrite N.eqb_refl.
  - simpl in H. apply andb_true_iff in H as [Hc Ha]. apply negb_true_iff in Hc.
    cbn [app]. rewrite (split_cons_other sep c _ Hc), (IH Ha). reflexivity.
Qed.

Lemma split_last (sep : N) (a : jstring) :
  forallb (fun c => negb (c =? sep)%N) a = true ->
  split sep a = [a].
Proof.
  induction a as [|c a IH]; intro H; [reflexivity|].
  simpl in H. apply andb_true_iff in H as [Hc Ha]. apply negb_true_iff in Hc.
  rewrite (split_cons_other sep c _ Hc), (IH Ha). reflexivity.
Qed.

Lemma base64_no_dot (s : jstring) :
  forallb is_base64_char s = true ->
  forallb (fun c => negb (c =? dot)%N) s = true.
Proof.
  intro H. apply forallb_forall. intros c Hc.
  rewrite forallb_forall in H. apply negb_true_iff.
  now apply base64_char_ascii, H.
Qed.

Lemma base64_ascii (s : jstring) :
  forallb is_base64_char s = true -> Forall is_ascii s.
Proof.
  intro H. apply Forall_forall. intros c Hc.
  rewrite forallb_forall in H. now apply base64_char_ascii, H.
Qed.

(** ** 'binary' buffers *)

Lemma latin1_roundtrip (text : jstring) :
  Json.string_below 256 text = true ->
  Latin1.string_of_bytes (Latin1.bytes_of_string text) = text /\
  Forall is_octet (Latin1.bytes_of_string text).
Proof.
  unfold Latin1.string_of_bytes, Latin1.bytes_of_string, Json.string_below.
  induction text as [|c text IH]; intro H; [split; [reflexivity | constructor]|].
  simpl in H. apply andb_true_iff in H as [Hc Ht]. apply N.ltb_lt in Hc.
  destruct (IH Ht) as [E F].
  assert (L : N.land c 255 = c).
  { change 255%N with (N.ones 8). rewrite N.land_ones. apply N.mod_small. exact Hc. }
  cbn [map]. split; [now rewrite L, E|].
  constructor; [rewrite L; exact Hc | exact F].
Qed.

(** [#atob(#btoa(text)) === text] when every code unit of [text] is below
    256. *)
Lemma atob_btoa (text : jstring) :
  Json.string_below 256 text = true ->
  exists segment,
    Token.btoa (VStr text) = Ok segment /\
    forallb is_base64_char segment = true /\
    Token.atob segment = text.
Proof.
  intro H. destruct (latin1_roundtrip text H) as [E F].
  exists (Base64.encode (Latin1.bytes_of_string text)). split; [reflexivity|].
  split; [apply encode_base64_chars|].
  unfold Token.atob. rewrite (base64_roundtrip _ F). exact E.
Qed.

(** ** String literals *)

Lemma hex4_roundtrip (c : N) :
  (c < 65536)%N ->
  match Json.hex4 c with
  | [h1; h2; h3; h4] => Json.hex4_value h1 h2 h3 h4 = Some c
  | _ => False
  end.
Proof.
  intro H.
  assert (C : (match Json.hex4 c with
               | [h1; h2; h3; h4] =>
                   match Json.hex4_value h1 h2 h3 h4 with
                   | Some x => (x =? c)%N
                   | None => false
                   end
               | _ => false
               end) = true).
  { revert c H. apply (check_below _ 65536). vm_compute. reflexivity. }
  unfold Json.hex4 in *. destruct (Json.hex4_value _ _ _ _) as [x|]; [|discriminate].
  apply N.eqb_eq in C. now subst.
Qed.

Lemma parse_u_escape (h1 h2 h3 h4 : N) (tail : jstring) :
  Json.parse_string (Json.backslash :: 117%N :: h1 :: h2 :: h3 :: h4 :: tail) =
  match Json.hex4_value h1 h2 h3 h4 with
  | Some x => push x (Json.parse_string tail)
  | None => None
  end.
Proof. reflexivity. Qed.

Lemma parse_unicode_escape (c : N) (tail : jstring) :
  (c < 65536)%N ->
  Json.parse_string (Json.unicode_escape c ++ tail) = push c (Json.parse_string tail).
Proof.
  intro H. pose proof (hex4_roundtrip c H) as R.
  unfold Json.unicode_escape, Json.hex4 in *.
  cbn [app]. rewrite parse_u_escape, R. reflexivity.
Qed.

Lemma parse_raw (c : N) (tail : jstring) :
  (c =? 34)%N = false -> (c =? 92)%N = false -> (c <? 32)%N = false ->
  Json.parse_string (c :: tail) = push c (Json.parse_string tail).
Proof.
  intros Q B L. cbn [Json.parse_string]. unfold Json.quote_mark, Json.backslash.
  rewrite Q, B, L. reflexivity.
Qed.

Lemma parse_escape_unit (c : N) (tail : jstring) :
  (c < 65536)%N ->
  Json.parse_string (Json.escape_unit c ++ tail) = push c (Json.parse_string tail).
Proof.
  intro H. unfold Json.escape_unit, Json.quote_mark, Json.backslash.
  destruct (N.eqb_spec c 8) as [->|N8]; [reflexivity|].
  destruct (N.eqb_spec c 9) as [->|N9]; [reflexivity|].
  destruct (N.eqb_spec c 10) as [->|N10]; [reflexivity|].
  destruct (N.eqb_spec c 12) as [->|N12]; [reflexivity|].
  destruct (N.eqb_spec c 13) as [->|N13]; [reflexivity|].
  destruct (N.eqb_spec c 34) as [->|N34]; [reflexivity|].
  destruct (N.eqb_spec c 92) as [->|N92]; [reflexivity|].
  destruct (N.ltb_spec c 32) as [L|L].
  - now apply parse_unicode_escape.
  - apply parse_raw; [now apply N.eqb_neq | now apply N.eqb_neq | apply N.ltb_ge; exact L].
Qed.

Lemma surrogate_raw (c : N) :
  Utf8.is_high_surrogate c || Utf8.is_low_surrogate c = true ->
  (c =? 34)%N = false /\ (c =? 92)%N = false /\ (c <? 32)%N = false.
Proof.
  unfold Utf8.is_high_surrogate, Utf8.is_low_surrogate. intro H.
  assert (55296 <= c)%N.
  { apply orb_true_iff in H as [H|H]; apply andb_true_iff in H as [H _];
      apply N.leb_le in H; lia. }
  repeat split; [apply N.eqb_neq | apply N.eqb_neq | apply N.ltb_ge]; lia.
Qed.

Lemma parse_quote_body_upto (n : nat) (s rest : jstring) :
  (length s <= n)%nat ->
  Json.string_below 65536 s = true ->
  Json.parse_string (Json.quote_body s ++ Json.quote_mark :: rest) = Some (s, rest).
Proof.
  revert s. induction n as [n IH] using lt_wf_ind. intros s L W.
  destruct s as [|c s]; [reflexivity|].
  cbn [Json.string_below forallb] in W. apply andb_true_iff in W as [Wc Ws].
  apply N.ltb_lt in Wc.
  assert (IHs : Json.parse_string (Json.quote_body s ++ Json.quote_mark :: rest)
                = Some (s, rest)).
  { apply (IH (length s)); [simpl in L; lia | lia | exact Ws]. }
  cbn [Json.quote_body].
  destruct (Utf8.is_high_surrogate c) eqn:Hh.
  - destruct s as [|d s'].
    + rewrite parse_unicode_escape by exact Wc. reflexivity.
    + destruct (Utf8.is_low_surrogate d) eqn:Hl.
      * cbn [Json.string_below forallb] in Ws. apply andb_true_iff in Ws as [_ Ws'].
        destruct (surrogate_raw c) as (Q1 & B1 & L1); [now rewrite Hh|].
        destruct (surrogate_raw d) as (Q2 & B2 & L2); [now rewrite Hl, orb_true_r|].
        cbn [app]. rewrite (parse_raw c _ Q1 B1 L1), (parse_raw d _ Q2 B2 L2).
        rewrite (IH (length s')); [reflexivity | simpl in L; lia | lia | exact Ws'].
      * rewrite <- app_assoc, parse_unicode_escape by exact Wc.
        rewrite IHs. reflexivity.
  - destruct (Utf8.is_low_surrogate c).
    + rewrite <- app_assoc, parse_unicode_escape by exact Wc. rewrite IHs. reflexivity.
    + rewrite <- app_assoc, parse_escape_unit by exact Wc. rewrite IHs. reflexivity.
Qed.

Lemma parse_quoted (s rest : jstring) :
  Json.string_below 65536 s = true ->
  Json.parse_string (Json.quote_body s ++ Json.quote_mark :: rest) = Some (s, rest).
Proof. apply (parse_quote_body_upto (length s)). lia. Qed.

(** ** Values: induction, serialized text, parsing weight *)

Lemma value_induction (P : value -> Prop) :
  P VUndefined -> P VNull -> (forall b, P (VBool b)) -> (forall n, P (VNum n)) ->
  (forall s, P (VStr s)) ->
  (forall items, Forall P items -> P (VArr items)) ->
  (forall props, Forall (fun kv => P (snd kv)) props -> P (VObj props)) ->
  forall v, P v.
Proof.
  intros HU HN HB HZ HS HA HO.
  fix IH 1. intros [ | | b | n | s | items | props].
  - exact HU.
  - exact HN.
  - apply HB.
  - apply HZ.
  - apply HS.
  - apply HA. induction items as [|x items IHl]; constructor; [apply IH | exact IHl].
  - apply HO. induction props as [|[k x] props IHl]; constructor; [apply IH | exact IHl].
Qed.

Lemma weight_array (items : list value) : weight (VArr items) = S (weights items).
Proof.
  reflexivity.
Qed.

Lemma weight_object (props : list (jstring * value)) :
  weight (VObj props) = S (member_weights props).
Proof.
  cbn [weight]. f_equal. induction props as [|[k x] props IH]; [reflexivity|].
  cbn [member_weights fold_right snd]. fold (member_weights props). now rewrite <- IH.
Qed.

Lemma well_formed_array (bound : N) (items : list value) :
  Json.well_formed bound (VArr items) = forallb (Json.well_formed bound) items.
Proof.
  cbn [Json.well_formed]. induction items as [|x items IH]; [reflexivity|].
  cbn [forallb]. now rewrite IH.
Qed.

Lemma well_formed_object (bound : N) (props : list (jstring * value)) :
  Json.well_formed bound (VObj props) =
  Json.distinct (map fst props) && Obj.ordered (map fst props)
  && forallb (fun kv => Json.string_below bound (fst kv)
                        && Json.well_formed bound (snd kv)) props.
Proof.
  cbn [Json.well_formed]. f_equal. induction props as [|[k x] props IH]; [reflexivity|].
  cbn [forallb fst snd]. now rewrite IH.
Qed.

Lemma serialize_array (items : list value) :
  Json.serialize (VArr items)
  = Some (str "[" ++ JS.join (str ",") (map text items) ++ str "]").
Proof.
  cbn [Json.serialize]. do 3 f_equal.
Qed.

Lemma well_formed_defined (bound : N) (v : value) :
  Json.well_formed bound v = true -> Json.serialize v = Some (text v).
Proof.
  intro W. unfold text. destruct v; try discriminate; try reflexivity;
    destruct b; reflexivity.
Qed.

Lemma serialize_members (bound : N) (props : list (jstring * value)) :
  forallb (fun kv => Json.string_below bound (fst kv)
                     && Json.well_formed bound (snd kv)) props = true ->
  (fix each (l : list (jstring * value)) : list jstring :=
     match l with
     | [] => []
     | (k, x) :: l' =>
         match Json.serialize x with
         | Some s => (Json.quote k ++ str ":" ++ s) :: each l'
         | None => each l'
         end
     end) props
  = map member_text props.
Proof.
  induction props as [|[k x] props IH]; intro W; [reflexivity|].
  cbn [forallb fst snd] in W. apply andb_true_iff in W as [W Wr].
  apply andb_true_iff in W as [_ Wx].
  rewrite (well_formed_defined bound x Wx), (IH Wr). reflexivity.
Qed.

Lemma serialize_object (bound : N) (props : list (jstring * value)) :
  forallb (fun kv => Json.string_below bound (fst kv)
                     && Json.well_formed bound (snd kv)) props = true ->
  Json.serialize (VObj props)
  = Some (str "{" ++ JS.join (str ",") (map member_text props) ++ str "}").
Proof.
  intro W. cbn [Json.serialize]. now rewrite (serialize_members bound props W).
Qed.

Lemma join_cons2 (sep x y : jstring) (l : list jstring) :
  JS.join sep (x :: y :: l) = x ++ sep ++ JS.join sep (y :: l).
Proof. reflexivity. Qed.

(** ** Dispatch of [parse_value] on the first character *)

Lemma parse_value_string (f : nat) (r : jstring) :
  Json.parse_value (S f) (Json.quote_mark :: r)
  = option_map (fun p => (VStr (fst p), snd p)) (Json.parse_string r).
Proof. reflexivity. Qed.

Lemma parse_value_minus (f : nat) (r : jstring) :
  Json.parse_value (S f) (45%N :: r)
  = option_map (fun p => (VNum (fst p), snd p)) (Json.parse_number true r).
Proof. reflexivity. Qed.

Lemma parse_value_digit (f : nat) (c : N) (r : jstring) :
  JS.is_digit c = true ->
  Json.parse_value (S f) (c :: r)
  = option_map (fun p => (VNum (fst p), snd p)) (Json.parse_number false (c :: r)).
Proof.
  intro D. unfold JS.is_digit in D. apply andb_true_iff in D as [D1 D2].
  apply N.leb_le in D1, D2.
  assert (Hd : JS.is_digit c = true).
  { unfold JS.is_digit. apply andb_true_iff. split; now apply N.leb_le. }
  cbn [Json.parse_value Json.skip_ws]. unfold Json.is_ws, Json.quote_mark.
  repeat match goal with
         | |- context [(c =? ?k)%N] =>
             destruct (N.eqb_spec c k); [exfalso; lia|]
         end.
  cbn [orb].
  repeat match goal with
         | |- context [(c =? ?k)%N] =>
             destruct (N.eqb_spec c k); [exfalso; lia|]
         end.
  now rewrite Hd.
Qed.

Lemma parse_value_array (f : nat) (r : jstring) :
  Json.parse_value (S f) (91%N :: r) =
  match Json.skip_ws r with
  | c' :: r' =>
      if (c' =? 93)%N then Some (VArr [], r')
      else option_map (fun p => (VArr (fst p), snd p)) (Json.parse_elements f r)
  | [] => None
  end.
Proof. reflexivity. Qed.

Lemma parse_value_object (f : nat) (r : jstring) :
  Json.parse_value (S f) (123%N :: r) =
  match Json.skip_ws r with
  | c' :: r' =>
      if (c' =? 125)%N then Some (VObj [], r')
      else option_map (fun p => (Json.object_of_members (fst p), snd p))
             (Json.parse_members f r)
  | [] => None
  end.
Proof. reflexivity. Qed.

Lemma parse_elements_step (f : nat) (s : jstring) :
  Json.parse_elements (S f) s =
  match Json.parse_value f s with
  | Some (v, r) =>
      match Json.skip_ws r with
      | c :: r' =>
          if (c =? 44)%N then
            option_map (fun p => (v :: fst p, snd p)) (Json.parse_elements f r')
          else if (c =? 93)%N then Some ([v], r')
          else None
      | [] => None
      end
  | None => None
  end.
Proof. reflexivity. Qed.

Lemma parse_members_step (f : nat) (r0 : jstring) :
  Json.parse_members (S f) (Json.quote_mark :: r0) =
  match Json.parse_string r0 with
  | Some (k, r1) =>
      match Json.skip_ws r1 with
      | colon :: r2 =>
          if (colon =? 58)%N then
            match Json.parse_value f r2 with
            | Some (v, r3) =>
                match Json.skip_ws r3 with
                | c :: r4 =>
                    if (c =? 44)%N then
                      option_map (fun p => ((k, v) :: fst p, snd p))
                        (Json.parse_members f r4)
                    else if (c =? 125)%N then Some ([(k, v)], r4)
                    else None
                | [] => None
                end
            | None => None
            end
          else None
      | [] => None
      end
  | None => None
  end.
Proof. reflexivity. Qed.

(** ** [JSON.parse] inverts [JSON.stringify] *)

Lemma skip_ws_head (c : N) (t : jstring) :
  Json.is_ws c = false -> Json.skip_ws (c :: t) = c :: t.
Proof. intro H. simpl. now rewrite H. Qed.

Lemma digit_head (c : N) :
  JS.is_digit c = true -> Json.is_ws c = false /\ (c =? 93)%N = false.
Proof.
  unfold JS.is_digit, Json.is_ws. intro D. apply andb_true_iff in D as [D1 D2].
  apply N.leb_le in D1, D2.
  repeat match goal with
         | |- context [(c =? ?k)%N] => destruct (N.eqb_spec c k); [exfalso; lia|]
         end.
  auto.
Qed.

(** The first character of a serialized value is neither white space nor a
    closing bracket. *)
Lemma text_head (bound : N) (v : value) :
  Json.well_formed bound v = true ->
  exists c t, text v = c :: t /\ Json.is_ws c = false /\ (c =? 93)%N = false.
Proof.
  intro W. destruct v as [ | | [|] | x | s | items | props]; try discriminate;
    try (eexists _, _; split; [reflexivity | split; reflexivity]).
  cbn [Json.well_formed] in W. unfold text. rewrite (number_text x W).
  destruct (Number_toString_head x W) as (c & t & -> & [D | ->]).
  - exists c, t. split; [reflexivity|]. now apply digit_head.
  - eexists _, _; split; [reflexivity | split; reflexivity].
Qed.

Lemma delimited_punctuation (c : N) (rest : jstring) :
  c = 44%N \/ c = 93%N \/ c = 125%N -> delimited (c :: rest).
Proof. intros [ -> | [ -> | -> ] ]; split; reflexivity. Qed.

Lemma parse_elements_back (items : list value) :
  Forall parses_back items ->
  forallb (Json.well_formed 65536) items = true ->
  items <> [] ->
  forall (f : nat) (rest : jstring),
    (weights items <= f)%nat ->
    Json.parse_elements f (JS.join (str ",") (map text items) ++ 93%N :: rest)
    = Some (items, rest).
Proof.
  induction 1 as [|x items Px _ IH]; intros W Hne f rest Hf; [contradiction|].
  cbn [forallb] in W. apply andb_true_iff in W as [Wx Wl].
  cbn [weights fold_right] in Hf. fold (weights items) in Hf.
  destruct f as [|f]; [lia|]. rewrite parse_elements_step.
  destruct items as [|y items].
  - cbn [map JS.join].
    rewrite (Px Wx f (93%N :: rest)); [| lia | apply delimited_punctuation; auto].
    reflexivity.
  - cbn [map]. rewrite join_cons2, <- !app_assoc.
    change (str "," ++ ?t) with (44%N :: t).
    rewrite (Px Wx f); [| lia | apply delimited_punctuation; auto].
    rewrite skip_ws_head by reflexivity. rewrite N.eqb_refl.
    change (map text (y :: items)) with (text y :: map text items) in IH.
    rewrite (IH Wl); [reflexivity | discriminate |].
    cbn [weights fold_right]. cbn [weights fold_right] in Hf. lia.
Qed.

Lemma member_text_cons (k : jstring) (x : value) (tail : jstring) :
  member_text (k, x) ++ tail
  = Json.quote_mark :: Json.quote_body k ++ Json.quote_mark :: 58%N :: text x ++ tail.
Proof.
  unfold member_text, Json.quote. cbn [fst snd].
  change (str ":") with [58%N].
  cbn [app]. rewrite <- !app_assoc. reflexivity.
Qed.

Lemma parse_members_back (props : list (jstring * value)) :
  Forall (fun kv => parses_back (snd kv)) props ->
  forallb (fun kv => Json.string_below 65536 (fst kv)
                     && Json.well_formed 65536 (snd kv)) props = true ->
  props <> [] ->
  forall (f : nat) (rest : jstring),
    (member_weights props <= f)%nat ->
    Json.parse_members f (JS.join (str ",") (map member_text props) ++ 125%N :: rest)
    = Some (props, rest).
Proof.
  induction 1 as [|[k x] props Px _ IH]; intros W Hne f rest Hf; [contradiction|].
  cbn [forallb fst snd] in W. apply andb_true_iff in W as [W Wl].
  apply andb_true_iff in W as [Wk Wx]. cbn [snd] in Px.
  cbn [member_weights fold_right snd] in Hf. fold (member_weights props) in Hf.
  destruct f as [|f]; [lia|].
  destruct props as [|[k' y] props].
  - cbn [map JS.join]. rewrite member_text_cons, parse_members_step.
    rewrite (parse_quoted k _ Wk). rewrite skip_ws_head by reflexivity.
    rewrite N.eqb_refl.
    rewrite (Px Wx f (125%N :: rest)); [| lia | apply delimited_punctuation; auto].
    reflexivity.
  - cbn [map]. rewrite join_cons2, <- !app_assoc.
    change (str "," ++ ?t) with (44%N :: t).
    rewrite member_text_cons, parse_members_step.
    rewrite (parse_quoted k _ Wk). rewrite skip_ws_head by reflexivity.
    rewrite N.eqb_refl.
    rewrite (Px Wx f); [| lia | apply delimited_punctuation; auto].
    rewrite skip_ws_head by reflexivity. rewrite N.eqb_refl.
    change (map member_text ((k', y) :: props))
      with (member_text (k', y) :: map member_text props) in IH.
    rewrite (IH Wl); [reflexivity | discriminate |].
    cbn [member_weights fold_right]. cbn [member_weights fold_right] in Hf. lia.
Qed.

Lemma str_eqb_sym (a b : jstring) : str_eqb a b = str_eqb b a.
Proof.
  destruct (str_eqb a b) eqn:E.
  - apply str_eqb_eq in E. subst. symmetry. apply str_eqb_eq. reflexivity.
  - symmetry. destruct (str_eqb b a) eqn:E'; [|reflexivity].
    apply str_eqb_eq in E'. subst. rewrite (proj2 (str_eqb_eq a a) eq_refl) in E.
    discriminate.
Qed.

Lemma has_key_fresh (k : jstring) (acc : list (jstring * value)) :
  existsb (fun k' => str_eqb k' k) (map fst acc) = false ->
  Obj.has_key k acc = false.
Proof.
  induction acc as [|[k' v'] acc IH]; intro H; [reflexivity|].
  cbn [map fst existsb] in H. apply orb_false_iff in H as [Hk Hr].
  cbn [Obj.has_key]. now rewrite str_eqb_sym, Hk, (IH Hr).
Qed.

Lemma insert_index_last (n : N) (k : jstring) (v : value) (acc : list (jstring * value)) :
  forallb (fun k' => negb (Obj.comes_before n k')) (map fst acc) = true ->
  Obj.insert_index n k v acc = acc ++ [(k, v)].
Proof.
  induction acc as [|[k' v'] acc IH]; intro H; [reflexivity|].
  cbn [map fst forallb] in H. apply andb_true_iff in H as [Hk Hr].
  apply negb_true_iff in Hk. cbn [Obj.insert_index]. rewrite Hk. cbn [app].
  now rewrite (IH Hr).
Qed.

Lemma ordered_middle (a : list jstring) (k : jstring) (r : list jstring) :
  Obj.ordered (a ++ k :: r) = true ->
  forallb (fun k' => Obj.precedes k' k) a = true.
Proof.
  induction a as [|x a IH]; intro H; [reflexivity|].
  cbn [app Obj.ordered] in H. apply andb_true_iff in H as [Hx Hr].
  rewrite forallb_app in Hx. apply andb_true_iff in Hx as [_ Hx].
  cbn [forallb] in Hx. apply andb_true_iff in Hx as [Hx _].
  cbn [forallb]. now rewrite Hx, (IH Hr).
Qed.

(** A new key that may follow every key of the object goes to the end. *)
Lemma define_last (k : jstring) (v : value) (acc : list (jstring * value)) :
  existsb (fun k' => str_eqb k' k) (map fst acc) = false ->
  forallb (fun k' => Obj.precedes k' k) (map fst acc) = true ->
  Obj.define k v acc = acc ++ [(k, v)].
Proof.
  intros F P. unfold Obj.define. rewrite (has_key_fresh k acc F).
  destruct (Obj.array_index k) as [n|] eqn:E; [|reflexivity].
  apply insert_index_last. rewrite forallb_forall in *. intros k' Hk'.
  specialize (P k' Hk'). unfold Obj.precedes in P. unfold Obj.comes_before.
  rewrite E in P. destruct (Obj.array_index k') as [m|]; [|discriminate].
  apply N.ltb_lt in P. apply negb_true_iff, N.ltb_ge. lia.
Qed.

Lemma distinct_middle (a : list jstring) (k : jstring) (r : list jstring) :
  Json.distinct (a ++ k :: r) = true ->
  existsb (fun k' => str_eqb k' k) a = false.
Proof.
  induction a as [|x a IH]; intro H; [reflexivity|].
  cbn [app Json.distinct] in H. apply andb_true_iff in H as [Hx Hr].
  apply negb_true_iff in Hx. rewrite existsb_app in Hx.
  apply orb_false_iff in Hx as [_ Hx]. cbn [existsb] in Hx.
  apply orb_false_iff in Hx as [Hx _].
  cbn [existsb]. rewrite Hx. cbn [orb]. exact (IH Hr).
Qed.

Lemma fold_define (props acc : list (jstring * value)) :
  Json.distinct (map fst (acc ++ props)) = true ->
  Obj.ordered (map fst (acc ++ props)) = true ->
  fold_left (fun a kv => Obj.define (fst kv) (snd kv) a) props acc = acc ++ props.
Proof.
  revert acc. induction props as [|[k v] props IH]; intros acc D O.
  - now rewrite app_nil_r.
  - cbn [fold_left fst snd].
    rewrite map_app in D, O. cbn [map fst] in D, O.
    rewrite (define_last k v acc (distinct_middle _ _ _ D) (ordered_middle _ _ _ O)).
    rewrite IH; rewrite <- app_assoc; [reflexivity | |]; rewrite map_app; assumption.
Qed.

(** Members with distinct keys in the order of enumeration build the object
    they spell. *)
Lemma object_of_distinct_members (props : list (jstring * value)) :
  Json.distinct (map fst props) = true ->
  Obj.ordered (map fst props) = true ->
  Json.object_of_members props = VObj props.
Proof.
  intros D O. unfold Json.object_of_members. now rewrite (fold_define props [] D O).
Qed.

Lemma parse_value_back : forall v, parses_back v.
Proof.
  apply value_induction; unfold parses_back.
  - discriminate.
  - intros _ [|f] rest Hf _; [simpl in Hf; lia | reflexivity].
  - intros [|] _ [|f] rest Hf _; first [simpl in Hf; lia | reflexivity].
  - intros x W [|f] rest Hf R; [simpl in Hf; lia|].
    cbn [Json.well_formed] in W. unfold text. rewrite (number_text x W).
    pose proof (parse_number_text x rest W R) as Pn.
    destruct (Number_toString_head x W) as (c & t & E & D). rewrite E in *.
    cbn [app] in *. destruct (N.eqb_spec c 45) as [-> | Nm].
    + now rewrite parse_value_minus, Pn.
    + destruct D as [D | D]; [|contradiction].
      now rewrite (parse_value_digit f c _ D), Pn.
  - intros s W [|f] rest Hf _; [simpl in Hf; lia|].
    unfold text. cbn [Json.serialize Json.well_formed] in *. unfold Json.quote.
    cbn [app]. rewrite <- app_assoc. cbn [app].
    rewrite parse_value_string, (parse_quoted s rest W). reflexivity.
  - intros items IH W f rest Hf _.
    rewrite well_formed_array in W. rewrite weight_array in Hf.
    destruct f as [|f]; [lia|].
    unfold text. rewrite serialize_array.
    change (str "[" ++ ?t) with (91%N :: t). change (str "]") with [93%N].
    cbn [app]. rewrite <- app_assoc. cbn [app]. rewrite parse_value_array.
    destruct items as [|x items]; [reflexivity|].
    assert (Wx : Json.well_formed 65536 x = true).
    { cbn [forallb] in W. now apply andb_true_iff in W as [Wx _]. }
    destruct (text_head 65536 x Wx) as (c & t & E & Hws & Hc).
    assert (Hr : exists t', JS.join (str ",") (map text (x :: items)) ++ 93%N :: rest
                            = c :: t').
    { cbn [map]. destruct items as [|y items].
      - cbn [map JS.join]. rewrite E. eexists. reflexivity.
      - cbn [map]. rewrite join_cons2, E. eexists. reflexivity. }
    destruct Hr as (t' & Hr).
    rewrite Hr at 1. rewrite (skip_ws_head c t' Hws), Hc.
    rewrite (parse_elements_back (x :: items) IH W); [reflexivity | discriminate | lia].
  - intros props IH W f rest Hf _.
    rewrite well_formed_object in W. apply andb_true_iff in W as [D W].
    apply andb_true_iff in D as [D O].
    rewrite weight_object in Hf. destruct f as [|f]; [lia|].
    unfold text. rewrite (serialize_object 65536 props W).
    change (str "{" ++ ?t) with (123%N :: t). change (str "}") with [125%N].
    cbn [app]. rewrite <- app_assoc. cbn [app]. rewrite parse_value_object.
    destruct props as [|[k x] props]; [reflexivity|].
    assert (Hr : exists t', JS.join (str ",") (map member_text ((k, x) :: props))
                            ++ 125%N :: rest = Json.quote_mark :: t').
    { cbn [map]. destruct props as [|[k' y] props].
      - cbn [map JS.join]. rewrite member_text_cons. eexists. reflexivity.
      - cbn [map]. rewrite join_cons2, <- !app_assoc, member_text_cons.
        eexists. reflexivity. }
    destruct Hr as (t' & Hr).
    rewrite Hr at 1. rewrite skip_ws_head by reflexivity.
    change (Json.quote_mark =? 125)%N with false. cbv iota.
    rewrite (parse_members_back ((k, x) :: props) IH W); [| discriminate | lia].
    cbn [option_map fst snd]. now rewrite (object_of_distinct_members _ D O).
Qed.

(** The fuel that [JSON.parse] gives itself is enough for a serialized
    value. *)
Lemma join_length (sep : jstring) (parts : list jstring) :
  length sep = 1%nat ->
  fold_right (fun p acc => S (length p + acc)) O parts
  <= length (JS.join sep parts) + 1.
Proof.
  intro Hs. induction parts as [|p parts IH]; [simpl; lia|].
  destruct parts as [|q parts].
  - simpl. lia.
  - rewrite join_cons2, !length_app, Hs.
    cbn [fold_right] in *. lia.
Qed.

Lemma weight_le_text (v : value) :
  Json.well_formed 65536 v = true -> weight v <= length (text v).
Proof.
  revert v.
  apply (value_induction
           (fun v => Json.well_formed 65536 v = true -> weight v <= length (text v))).
  - intro W. discriminate W.
  - intros _. simpl. lia.
  - intros [|] _; simpl; lia.
  - intros x W. cbn [Json.well_formed] in W. unfold text. rewrite (number_text x W).
    destruct (Number_toString_head x W) as (c & t & -> & _). simpl. lia.
  - intros s _. simpl. lia.
  - intros items IH W. rewrite well_formed_array in W. rewrite weight_array.
    unfold text. rewrite serialize_array. rewrite !length_app.
    change (length (str "[")) with 1. change (length (str "]")) with 1.
    pose proof (join_length (str ",") (map text items) eq_refl) as J.
    assert (Hw : weights items
                 <= fold_right (fun p acc => S (length p + acc)) O (map text items)).
    { clear J. induction items as [|x items IHl]; [simpl; lia|].
      inversion IH as [|? ? Px Pl]; subst.
      cbn [forallb] in W. apply andb_true_iff in W as [Wx Wl].
      cbn [weights map fold_right]. fold (weights items).
      specialize (Px Wx). specialize (IHl Pl Wl). lia. }
    lia.
  - intros props IH W. rewrite well_formed_object in W.
    apply andb_true_iff in W as [_ W]. rewrite weight_object.
    unfold text. rewrite (serialize_object 65536 props W). rewrite !length_app.
    change (length (str "{")) with 1. change (length (str "}")) with 1.
    pose proof (join_length (str ",") (map member_text props) eq_refl) as J.
    assert (Hw : member_weights props
                 <= fold_right (fun p acc => S (length p + acc)) O
                      (map member_text props)).
    { clear J. induction props as [|[k x] props IHl]; [simpl; lia|].
      inversion IH as [|? ? Px Pl]; subst.
      cbn [forallb fst snd] in W. apply andb_true_iff in W as [Wx Wl].
      apply andb_true_iff in Wx as [_ Wx]. cbn [snd] in Px.
      cbn [member_weights map fold_right snd]. fold (member_weights props).
      specialize (Px Wx). specialize (IHl Pl Wl).
      unfold member_text at 1. cbn [fst snd]. rewrite !length_app. lia. }
    lia.
Qed.

(** [JSON.parse(JSON.stringify(v))] is [v] for every well-formed [v]. *)
Lemma parse_stringify (v : value) :
  Json.well_formed 65536 v = true ->
  Json.stringify v = VStr (text v) /\ Json.parse (text v) = Ok v.
Proof.
  intro W. split.
  - unfold Json.stringify. now rewrite (well_formed_defined 65536 v W).
  - unfold Json.parse.
    pose proof (parse_value_back v W (S (length (text v))) []) as P.
    rewrite List.app_nil_r in P. rewrite P; [reflexivity | | exact I].
    pose proof (weight_le_text v W). lia.
Qed.

(** ** Values whose text fits a 'binary' buffer *)

Lemma string_below_app (bound : N) (a b : jstring) :
  Json.string_below bound (a ++ b) = Json.string_below bound a && Json.string_below bound b.
Proof. apply forallb_app. Qed.

Lemma string_below_mono (s : jstring) :
  Json.string_below 256 s = true -> Json.string_below 65536 s = true.
Proof.
  unfold Json.string_below. rewrite !forallb_forall. intros H c Hc.
  specialize (H c Hc). apply N.ltb_lt in H. apply N.ltb_lt. lia.
Qed.

Lemma well_formed_mono (v : value) :
  Json.well_formed 256 v = true -> Json.well_formed 65536 v = true.
Proof.
  revert v.
  apply (value_induction
           (fun v => Json.well_formed 256 v = true -> Json.well_formed 65536 v = true));
    try (intros; assumption).
  - intros s W. cbn [Json.well_formed] in *. now apply string_below_mono.
  - intros items IH W. rewrite well_formed_array in *.
    induction IH as [|x items Px _ IHl]; [reflexivity|].
    cbn [forallb] in *. apply andb_true_iff in W as [Wx Wl].
    now rewrite (Px Wx), (IHl Wl).
  - intros props IH W. rewrite well_formed_object in *.
    apply andb_true_iff in W as [D W]. rewrite D. cbn [andb]. clear D.
    induction IH as [|[k x] props Px _ IHl]; [reflexivity|].
    cbn [forallb fst snd map] in *.
    apply andb_true_iff in W as [W Wl]. apply andb_true_iff in W as [Wk Wx].
    now rewrite (string_below_mono k Wk), (Px Wx), (IHl Wl).
Qed.

Lemma escape_unit_latin1 (c : N) :
  (c < 256)%N ->
  Json.string_below 256 (Json.escape_unit c) = true /\
  Utf8.is_high_surrogate c = false /\ Utf8.is_low_surrogate c = false.
Proof.
  intro H.
  assert (C : Json.string_below 256 (Json.escape_unit c)
              && negb (Utf8.is_high_surrogate c) && negb (Utf8.is_low_surrogate c) = true).
  { revert c H. apply (check_below _ 256). vm_compute. reflexivity. }
  apply andb_true_iff in C as [C C3]. apply andb_true_iff in C as [C1 C2].
  apply negb_true_iff in C2, C3. auto.
Qed.

Lemma quote_latin1 (s : jstring) :
  Json.string_below 256 s = true ->
  Json.string_below 256 (Json.quote s) = true.
Proof.
  intro W. unfold Json.quote.
  change (Json.quote_mark :: ?t) with ([Json.quote_mark] ++ t).
  rewrite !string_below_app. cbn [andb].
  change (Json.string_below 256 [Json.quote_mark]) with true.
  rewrite andb_true_r. cbn [andb].
  induction s as [|c s IH]; [reflexivity|].
  cbn [Json.string_below forallb] in W. apply andb_true_iff in W as [Wc Ws].
  apply N.ltb_lt in Wc. destruct (escape_unit_latin1 c Wc) as (E & Hh & Hl).
  cbn [Json.quote_body]. rewrite Hh, Hl, string_below_app, E. exact (IH Ws).
Qed.

Lemma numeric_latin1 (s : jstring) :
  forallb numeric_char s = true -> Json.string_below 256 s = true.
Proof.
  unfold Json.string_below. rewrite !forallb_forall. intros H c Hc.
  specialize (H c Hc). unfold numeric_char, JS.is_digit in H. apply N.ltb_lt.
  repeat (apply orb_true_iff in H as [H | H]);
    [apply andb_true_iff in H as [_ H]; apply N.leb_le in H | apply N.eqb_eq in H ..]; lia.
Qed.

Lemma join_below (bound : N) (sep : jstring) (parts : list jstring) :
  Json.string_below bound sep = true ->
  forallb (Json.string_below bound) parts = true ->
  Json.string_below bound (JS.join sep parts) = true.
Proof.
  intros Hs. induction parts as [|p parts IH]; intro H; [reflexivity|].
  cbn [forallb] in H. apply andb_true_iff in H as [Hp Hr].
  destruct parts as [|q parts]; [exact Hp|].
  rewrite join_cons2, !string_below_app, Hp, Hs. exact (IH Hr).
Qed.

(** Every code unit of the text of a value with Latin-1 strings is below
    256. *)
Lemma text_latin1 (v : value) :
  Json.well_formed 256 v = true -> Json.string_below 256 (text v) = true.
Proof.
  revert v.
  apply (value_induction
           (fun v => Json.well_formed 256 v = true -> Json.string_below 256 (text v) = true)).
  - intro W. discriminate W.
  - reflexivity.
  - intros [|] _; reflexivity.
  - intros x W. cbn [Json.well_formed] in W. unfold text. rewrite (number_text x W).
    apply numeric_latin1, Number_toString_numeric, W.
  - intros s W. apply (quote_latin1 s W).
  - intros items IH W. rewrite well_formed_array in W.
    unfold text. rewrite serialize_array, !string_below_app.
    change (Json.string_below 256 (str "[")) with true.
    change (Json.string_below 256 (str "]")) with true.
    rewrite andb_true_r. cbn [andb].
    apply join_below; [reflexivity|].
    induction IH as [|x items Px _ IHl]; [reflexivity|].
    cbn [forallb map] in *. apply andb_true_iff in W as [Wx Wl].
    now rewrite (Px Wx), (IHl Wl).
  - intros props IH W. rewrite well_formed_object in W.
    apply andb_true_iff in W as [_ W].
    unfold text. rewrite (serialize_object 256 props W), !string_below_app.
    change (Json.string_below 256 (str "{")) with true.
    change (Json.string_below 256 (str "}")) with true.
    rewrite andb_true_r. cbn [andb].
    apply join_below; [reflexivity|].
    induction IH as [|[k x] props Px _ IHl]; [reflexivity|].
    cbn [forallb map fst snd] in *.
    apply andb_true_iff in W as [W Wl]. apply andb_true_iff in W as [Wk Wx].
    rewrite (IHl Wl), andb_true_r. unfold member_text. cbn [fst snd].
    rewrite !string_below_app, (quote_latin1 k Wk), (Px Wx). reflexivity.
Qed.

(** ** Numbers as a token carries them *)

Lemma stored_serialize (x : float) :
  Json.serialize (VNum x) = Json.serialize (stored_number x).
Proof.
  unfold stored_number. cbn [Json.serialize].
  destruct (Prim2SF x) eqn:E; cbn [Json.serialize]; try reflexivity.
  - unfold JS.Number_toString. now rewrite E.
  - now rewrite E.
Qed.

Lemma stored_well_formed (bound : N) (x : float) :
  Json.well_formed bound (stored_number x) = true.
Proof.
  unfold stored_number. destruct (Prim2SF x) eqn:E; try reflexivity.
  cbn [Json.well_formed]. unfold Json.plain_number. now rewrite E.
Qed.

Lemma stored_plain (x : float) : Json.plain_number x = true -> stored_number x = VNum x.
Proof.
  unfold Json.plain_number, stored_number. intro P.
  destruct (Prim2SF x) as [[|]| | |] eqn:E; try discriminate; [|reflexivity].
  f_equal. rewrite <- (SF2Prim_Prim2SF x), E. reflexivity.
Qed.

(** ** [decode] and [validate] on strings *)

Arguments Sha512.hmac : simpl never.
Arguments Base64.encode : simpl never.
Arguments Base64.decode : simpl never.
Arguments Uri.decodeURIComponent : simpl never.
Arguments Uri.encodeURIComponent : simpl never.
Arguments Json.parse : simpl never.
Arguments split : simpl never.

Lemma loose_eq_strings (a b : jstring) :
  JS.loose_eq (VStr a) (VStr b) = Ok (str_eqb a b).
Proof. reflexivity. Qed.

Lemma decode_string (t : jstring) :
  Token.decode (VStr t) =
  match t with
  | [] => VBool false
  | _ :: _ =>
      match Uri.decodeURIComponent t with
      | Throw _ => VBool false
      | Ok d =>
          let segments := split dot d in
          if (length segments <? 3)%nat then VBool false
          else
            match Json.parse (Token.atob (JS.nth_string segments 0)),
                  Json.parse (Token.atob (JS.nth_string segments 1)) with
            | Ok h, Ok b => token_body h b (JS.nth_string segments 2)
            | _, _ => VBool false
            end
      end
  end.
Proof.
  unfold Token.decode, Token.decode_body. destruct t as [|c t]; [reflexivity|].
  simpl. destruct (Uri.decodeURIComponent (c :: t)) as [d|e]; simpl; [|reflexivity].
  destruct (length (split dot d) <? 3)%nat; [reflexivity|].
  destruct (Json.parse _) as [h|]; simpl; [|reflexivity].
  destruct (Json.parse _) as [b|]; simpl; reflexivity.
Qed.

(** A successful [decode] of a string: the token percent-decodes, has three
    segments or more, and the first two parse. *)
Lemma decode_string_inv (t : jstring) (h b : value) (s : jstring) :
  Token.decode (VStr t) = token_body h b s ->
  exists d,
    Uri.decodeURIComponent t = Ok d /\
    (3 <= length (split dot d))%nat /\
    Json.parse (Token.atob (JS.nth_string (split dot d) 0)) = Ok h /\
    Json.parse (Token.atob (JS.nth_string (split dot d) 1)) = Ok b /\
    s = JS.nth_string (split dot d) 2.
Proof.
  rewrite decode_string. destruct t as [|c t]; [discriminate|].
  destruct (Uri.decodeURIComponent (c :: t)) as [d|e]; [|discriminate].
  cbv zeta. destruct (Nat.ltb_spec (length (split dot d)) 3); [discriminate|].
  destruct (Json.parse (Token.atob (JS.nth_string (split dot d) 0))) as [h'|] eqn:Ph;
    [|discriminate].
  destruct (Json.parse (Token.atob (JS.nth_string (split dot d) 1))) as [b'|] eqn:Pb;
    [|discriminate].
  intro E. injection E as Eh Eb Es. subst. exists d. repeat split; auto.
Qed.

(** [decode] returns [false] or an object with the three fields. *)
Lemma decode_shape (token : value) :
  Token.decode token = VBool false \/
  exists h b s, Token.decode token = token_body h b s.
Proof.
  unfold Token.decode, Token.decode_body, try_catch.
  destruct (Token.or_else _ _) as [[|]|]; simpl; auto.
  destruct (JS.ToString token) as [t|]; simpl; auto.
  destruct (Uri.decodeURIComponent t) as [d|]; simpl; auto.
  destruct (length (split dot d) <? 3)%nat; auto.
  destruct (Json.parse _) as [h|]; simpl; auto.
  destruct (Json.parse _) as [b|]; simpl; auto.
  right. now exists h, b, (JS.nth_string (split dot d) 2).
Qed.

(** What [validate] does once the token has decoded, for any key. *)
Lemma validate_decoded (now : float) (token key : value) (h b : value) (s : jstring) :
  Token.decode token = token_body h b s ->
  Token.validate now token key =
  try_catch
    (let* is_expired := expired b now in
     if is_expired then Ok (Token.Result true Token.MSG_EXPIRED)
     else
       let* t := JS.ToString token in
       let* d := Uri.decodeURIComponent t in
       let* k := JS.ToString key in
       if negb (str_eqb s (signature k (split dot d)))
       then Ok (Token.Result false Token.MSG_INVALID)
       else Ok (Token.Result true Token.MSG_VALID))
    (Token.Result false Token.MSG_ERROR).
Proof.
  intro D. unfold Token.validate, Token.validate_body. rewrite D. unfold expired.
  change (negb (JS.truthy (token_body h b s))) with false. cbv iota.
  change (JS.get (token_body h b s) (str "body")) with (Ok b).
  simpl bind at 1.
  destruct (JS.get b (str "exp")) as [e|]; simpl; [|reflexivity].
  destruct (JS.lt_num e now) as [[|]|]; simpl; reflexivity.
Qed.

(** ** The shape of what the operations return *)

Lemma validate_shape (now : float) (token key : value) :
  exists success message, Token.validate now token key = Token.Result success message.
Proof.
  destruct (decode_shape token) as [D | (h & b & s & D)].
  - unfold Token.validate, Token.validate_body. rewrite D. simpl. eauto.
  - rewrite (validate_decoded now token key h b s D). unfold try_catch.
    destruct (expired b now) as [[|]|]; simpl; eauto.
    destruct (JS.ToString token); simpl; eauto.
    destruct (Uri.decodeURIComponent _); simpl; eauto.
    destruct (JS.ToString key); simpl; eauto.
    destruct (negb _); eauto.
Qed.

Lemma Result_success (success : bool) (message : jstring) :
  JS.get (Token.Result success message) (str "success") = Ok (VBool success).
Proof. reflexivity. Qed.

Lemma encode_shape (data key : value) :
  Token.encode data key = VBool false \/ exists t, Token.encode data key = VStr t.
Proof.
  unfold Token.encode, Token.encode_body, try_catch.
  destruct (Token.and_then _ _) as [[|]|]; cbn [bind]; auto.
  destruct (Token.btoa (Json.stringify Token.header)); cbn [bind]; auto.
  destruct (Token.btoa (Json.stringify data)); cbn [bind]; auto.
  destruct (JS.ToString key); cbn [bind]; auto.
  destruct (Crypto.hmac_sha512 _ _ _); cbn [bind]; auto.
  destruct (Uri.encodeURIComponent _); cbn [bind]; eauto.
Qed.

Lemma verify_shape (now_access now_refresh : float)
    (user accessKey accessToken refreshKey refreshToken : value) :
  exists r : bool,
    Token.verify now_access now_refresh user accessKey accessToken refreshKey refreshToken
    = VBool r.
Proof.
  unfold Token.verify, Token.verify_body, try_catch.
  destruct (negb (JS.truthy (Token.decode accessToken))); [eauto|].
  destruct (Token.lacks_capability user) as [[|]|]; simpl; eauto.
  destruct (JS.get (Token.decode accessToken) (str "body")) as [body|]; simpl; eauto.
  destruct (JS.get body (str "data")) as [data|]; simpl; eauto.
  destruct (Token.bound_to_user data user) as [[|]|]; simpl; eauto.
  destruct (validate_shape now_access accessToken accessKey) as (ok & m & ->).
  rewrite Result_success. simpl. destruct ok; simpl; eauto.
  destruct (Token.and_then _ _) as [[|]|]; simpl; eauto.
  destruct (Token.strict_eq_false _); eauto.
  destruct (Token.bound_to_refresh data _) as [[|]|]; simpl; eauto.
  destruct (validate_shape now_refresh (Token.default_to VNull refreshToken)
              (Token.default_to VNull refreshKey)) as (ok & m' & ->).
  rewrite Result_success. eauto.
Qed.

Lemma generate_shape (CONFIG : option Token.Config) (now : float)
    (user accessKey refreshKey : value) :
  let r := Token.generate CONFIG now user accessKey refreshKey in
  r = VBool false
  \/ (exists a d,
        r = VObj [(str "success", VNum 1%float); (str "accessToken", a); (str "dateAccess", d)])
  \/ (exists a f d d',
        r = VObj [(str "success", VNum 1%float); (str "accessToken", a);
                  (str "refreshToken", f); (str "dateAccess", d);
                  (str "dateRefresh", d')]).
Proof.
  unfold Token.generate, Token.generate_body, try_catch. destruct CONFIG as [cfg|]; simpl; auto.
  destruct (JS.loose_eq _ (VBool false)) as [[|]|]; simpl; auto.
  destruct (JS.loose_neq _ _) as [[|]|]; simpl; auto.
  - destruct (JS.loose_eq _ (VBool false)) as [[|]|]; simpl; auto.
    right; right. eauto.
  - right; left. eauto.
Qed.

Lemma stringify_object (props : list (jstring * value)) :
  exists text, Json.stringify (VObj props) = VStr text.
Proof. unfold Json.stringify. simpl. eauto. Qed.

(** [generateCsrf] signs when the key is a string and otherwise lands in its
    [catch] block, which returns nothing. *)
Lemma generateCsrf_cases (now : float) (id csrfKey : value) :
  match csrfKey with
  | VStr _ =>
      exists digest,
        Token.generateCsrf now id csrfKey =
        VObj [(str "csrfToken", VStr digest); (str "timeCreate", VNum now)]
  | _ => Token.generateCsrf now id csrfKey = VUndefined
  end.
Proof.
  unfold Token.generateCsrf, Token.generateCsrf_body.
  destruct (stringify_object [(str "id", id); (str "create", VNum now)]) as (text & ->).
  destruct csrfKey; try reflexivity. simpl. eauto.
Qed.

Lemma verifyCsrf_shape (key data token : value) :
  exists r : bool, Token.verifyCsrf key data token = VBool r.
Proof.
  unfold Token.verifyCsrf, Token.verifyCsrf_body, try_catch.
  destruct (Crypto.hmac_sha512 key (Json.stringify data) Crypto.hex); simpl; eauto.
  destruct (JS.loose_eq token _); simpl; eauto.
Qed.

(** ** [verify]: the capability and binding checks *)

Lemma lacks_capability_missing (user : value) :
  JS.has_own user (str "userId") = false \/
  JS.has_own user (str "userKey") = false \/
  JS.has_own user (str "userRkey") = false ->
  Token.lacks_capability user = Ok true \/ exists e, Token.lacks_capability user = Throw e.
Proof.
  intro H. unfold Token.lacks_capability, Token.or_else, JS.hasOwnProperty.
  destruct user; try (right; eexists; reflexivity);
    (destruct (JS.has_own _ (str "hasOwnProperty")); [right; eexists; reflexivity|]);
    cbn [bind];
    (destruct (JS.has_own _ (str "userId")); cbn [bind negb]; [|now left]);
    (destruct (JS.has_own _ (str "userKey")); cbn [bind negb]; [|now left]);
    (destruct (JS.has_own _ (str "userRkey")); cbn [bind negb]; [|now left]);
    destruct H as [H|[H|H]]; discriminate.
Qed.

(** C6.  An identity that lacks one of the own properties [userId],
    [userKey], [userRkey] is rejected by [verify], whatever the tokens and
    keys are. *)
Theorem verify_requires_capability (now_access now_refresh : float)
    (user accessKey accessToken refreshKey refreshToken : value) :
  JS.has_own user (str "userId") = false \/
  JS.has_own user (str "userKey") = false \/
  JS.has_own user (str "userRkey") = false ->
  Token.verify now_access now_refresh user accessKey accessToken refreshKey refreshToken
  = VBool false.
Proof.
  intro H. unfold Token.verify, Token.verify_body, try_catch.
  destruct (negb (JS.truthy (Token.decode accessToken))); [reflexivity|].
  destruct (lacks_capability_missing user H) as [-> | (e & ->)]; reflexivity.
Qed.

(** What [verify] does once the access token has decoded and the identity
    has passed the capability and binding checks. *)
Lemma verify_bound (now_access now_refresh : float)
    (user accessKey accessToken refreshKey refreshToken : value)
    (h b data : value) (s : jstring) :
  Token.decode accessToken = token_body h b s ->
  Token.lacks_capability user = Ok false ->
  JS.get b (str "data") = Ok data ->
  Token.bound_to_user data user = Ok true ->
  Token.verify now_access now_refresh user accessKey accessToken refreshKey refreshToken =
  try_catch
    (let* success := JS.get (Token.validate now_access accessToken accessKey) (str "success") in
     if negb (JS.truthy success) then
       let refreshKey := Token.default_to VNull refreshKey in
       let refreshToken := Token.default_to VNull refreshToken in
       let* supplied :=
         Token.and_then (JS.loose_neq refreshKey VNull) (JS.loose_neq refreshToken VNull) in
       if supplied then
         if Token.strict_eq_false (Token.decode refreshToken) then Ok (VBool false)
         else
           let* same := Token.bound_to_refresh data (Token.decode refreshToken) in
           if negb same then Ok (VBool false)
           else JS.get (Token.validate now_refresh refreshToken refreshKey) (str "success")
       else Ok (VBool false)
     else Ok (VBool true))
    (VBool false).
Proof.
  intros D C G B. unfold Token.verify, Token.verify_body. rewrite D, C.
  change (negb (JS.truthy (token_body h b s))) with false. cbv iota. cbn [bind].
  change (JS.get (token_body h b s) (str "body")) with (Ok b). cbn [bind].
  rewrite G. cbn [bind]. rewrite B. cbn [bind negb]. reflexivity.
Qed.

(** The properties that the classes read by name are no built-in ones, so
    that [JS.get] gives for them what the property access gives. *)
Lemma named_properties_not_inherited (k : JS.kind) :
  Forall (fun key => JS.inherits k (str key) = None)
    ["body"; "exp"; "data"; "sign"; "success"; "headers"; "user-agent";
     "x-forwarded-for"]%string.
Proof. destruct k; repeat constructor. Qed.

Lemma for_in_none (keys : list jstring) (mismatch : jstring -> result bool) :
  Forall (fun key => mismatch key = Ok false) keys ->
  Token.for_in keys mismatch = Ok true.
Proof.
  induction 1 as [|key keys H _ IH]; [reflexivity|].
  cbn [Token.for_in]. rewrite H. cbn [bind]. exact IH.
Qed.

Lemma matching_bound (data user : value) :
  matching data user -> Token.bound_to_user data user = Ok true.
Proof.
  intro M. unfold Token.bound_to_user. apply for_in_none.
  apply Forall_impl with (2 := M). intros key (a & u & -> & -> & D). exact D.
Qed.

Lemma capability_present (user : value) :
  JS.has_own user (str "hasOwnProperty") = false ->
  JS.has_own user (str "userId") = true ->
  JS.has_own user (str "userKey") = true ->
  JS.has_own user (str "userRkey") = true ->
  Token.lacks_capability user = Ok false.
Proof.
  intros H I K R. unfold Token.lacks_capability, Token.or_else, JS.hasOwnProperty.
  destruct user; try discriminate I; rewrite H, I, K, R; reflexivity.
Qed.

(** C2 (amended).  When the identity has the own properties [userId],
    [userKey] and [userRkey] and none named [hasOwnProperty], the access
    token decodes, every field of its payload's [data] is loosely equal to
    the field of the same name of the identity, and [validate] reports
    success on the access token, [verify] returns [true]; the refresh key
    and token play no part. *)
Theorem verify_access_success (now_access now_refresh : float)
    (user accessKey accessToken refreshKey refreshToken : value)
    (h b data : value) (s : jstring) :
  JS.has_own user (str "hasOwnProperty") = false ->
  JS.has_own user (str "userId") = true ->
  JS.has_own user (str "userKey") = true ->
  JS.has_own user (str "userRkey") = true ->
  Token.decode accessToken = token_body h b s ->
  JS.get b (str "data") = Ok data ->
  matching data user ->
  JS.get (Token.validate now_access accessToken accessKey) (str "success") = Ok (VBool true) ->
  Token.verify now_access now_refresh user accessKey accessToken refreshKey refreshToken
  = VBool true.
Proof.
  intros H I K R D G M V.
  rewrite (verify_bound now_access now_refresh user accessKey accessToken
             refreshKey refreshToken h b data s D
             (capability_present user H I K R) G (matching_bound data user M)).
  rewrite V. reflexivity.
Qed.

(** [validate] reports success with exactly two messages. *)
Lemma validate_success_messages (now : float) (token key : value) :
  JS.get (Token.validate now token key) (str "success") = Ok (VBool true) ->
  Token.validate now token key = Token.Result true Token.MSG_EXPIRED \/
  Token.validate now token key = Token.Result true Token.MSG_VALID.
Proof.
  destruct (decode_shape token) as [D | (h & b & s & D)].
  - unfold Token.validate, Token.validate_body. rewrite D. discriminate.
  - rewrite (validate_decoded now token key h b s D). unfold try_catch.
    destruct (expired b now) as [[|]|]; cbn [bind]; auto; try discriminate.
    destruct (JS.ToString token); cbn [bind]; try discriminate.
    destruct (Uri.decodeURIComponent _); cbn [bind]; try discriminate.
    destruct (JS.ToString key); cbn [bind]; try discriminate.
    destruct (negb _); auto; discriminate.
Qed.

(** ** [validate]: expiry comes first *)

(** C5.  A token that decodes and whose payload [exp] is below the clock is
    reported as expired, with success, under every key: the signature is not
    looked at.  [verify] therefore accepts it as soon as the capability and
    binding checks pass. *)
Theorem expired_before_signature (now : float) (token : value) (h b : value) (s : jstring) :
  Token.decode token = token_body h b s ->
  expired b now = Ok true ->
  (forall key, Token.validate now token key = Token.Result true Token.MSG_EXPIRED) /\
  (forall now_refresh user data accessKey refreshKey refreshToken,
      Token.lacks_capability user = Ok false ->
      JS.get b (str "data") = Ok data ->
      Token.bound_to_user data user = Ok true ->
      Token.verify now now_refresh user accessKey token refreshKey refreshToken
      = VBool true).
Proof.
  intros D X.
  assert (V : forall key, Token.validate now token key = Token.Result true Token.MSG_EXPIRED).
  { intro key. rewrite (validate_decoded now token key h b s D), X. reflexivity. }
  split; [exact V|].
  intros now_refresh user data accessKey refreshKey refreshToken C G B.
  rewrite (verify_bound now now_refresh user accessKey token refreshKey refreshToken
             h b data s D C G B).
  rewrite V. reflexivity.
Qed.

(** A numeric [exp] below the clock is expired. *)
Lemma expired_number (props : list (jstring * value)) (e now : float) :
  JS.lookup (str "exp") props = Some (VNum e) ->
  (e <? now)%float = true ->
  expired (VObj props) now = Ok true.
Proof.
  intros L H. unfold expired, JS.get, JS.find, JS.get_own. cbn [JS.kind_of bind].
  rewrite L. cbn [bind]. unfold JS.lt_num. cbn [JS.ToPrimitive JS.is_object bind JS.ToNumber].
  now rewrite H.
Qed.

(** ** [validate]: the outcomes *)

(** C1 (amended).  On a token string and a key string [validate] has five
    outcomes: corrupted when [decode] fails; otherwise a check error when
    reading or comparing the payload's [exp] throws; otherwise expired when
    [exp] is below the clock; otherwise invalid or valid as the third segment
    differs or not from the signature recomputed over the first two. *)
Theorem validate_outcomes (now : float) (t k : jstring) :
  let r := Token.validate now (VStr t) (VStr k) in
  (Token.decode (VStr t) = VBool false /\ r = Token.Result false Token.MSG_CORRUPTED)
  \/ exists h b d,
      Uri.decodeURIComponent t = Ok d /\
      Token.decode (VStr t) = token_body h b (JS.nth_string (split dot d) 2) /\
      ((exists e, expired b now = Throw e) /\ r = Token.Result false Token.MSG_ERROR
       \/ expired b now = Ok true /\ r = Token.Result true Token.MSG_EXPIRED
       \/ expired b now = Ok false
          /\ JS.nth_string (split dot d) 2 <> signature k (split dot d)
          /\ r = Token.Result false Token.MSG_INVALID
       \/ expired b now = Ok false
          /\ JS.nth_string (split dot d) 2 = signature k (split dot d)
          /\ r = Token.Result true Token.MSG_VALID).
Proof.
  cbv zeta. destruct (decode_shape (VStr t)) as [D | (h & b & s & D)].
  - left. split; [exact D|]. unfold Token.validate, Token.validate_body. rewrite D. reflexivity.
  - right. destruct (decode_string_inv t h b s D) as (d & U & _ & _ & _ & ->).
    exists h, b, d. split; [exact U|]. split; [exact D|].
    rewrite (validate_decoded now (VStr t) (VStr k) h b _ D).
    destruct (expired b now) as [[|]|e] eqn:X; cbn [bind try_catch].
    + right; left. auto.
    + right; right. cbn [JS.ToString bind]. rewrite U. cbn [bind].
      destruct (str_eqb _ _) eqn:S.
      * right. apply str_eqb_eq in S. auto.
      * left. apply str_eqb_neq in S. auto.
    + left. eauto.
Qed.

(** ** [encode] *)

Lemma segment_base64 (t : jstring) : forallb is_base64_char (segment t) = true.
Proof. apply encode_base64_chars. Qed.

Lemma digest_base64 (bytes : list N) :
  forallb is_base64_char (Crypto.digest Crypto.base64 bytes) = true.
Proof. apply encode_base64_chars. Qed.

Lemma signature_base64 (k : jstring) (segments : list jstring) :
  forallb is_base64_char (signature k segments) = true.
Proof. apply digest_base64. Qed.

Lemma dotted_ascii (seg0 seg1 sign : jstring) :
  forallb is_base64_char seg0 = true ->
  forallb is_base64_char seg1 = true ->
  Forall is_ascii sign ->
  Forall is_ascii (seg0 ++ str "." ++ seg1 ++ str "." ++ sign).
Proof.
  intros H0 H1 H2.
  assert (Hd : Forall is_ascii (str ".")).
  { repeat constructor. }
  repeat (apply Forall_app; split); auto using base64_ascii.
Qed.

Lemma signature_two (k a b : jstring) (more : list jstring) :
  signature k (a :: b :: more) =
  Crypto.digest Crypto.base64
    (Sha512.hmac (Utf8.bytes_of_string k) (Utf8.bytes_of_string (a ++ str "." ++ b))).
Proof. reflexivity. Qed.

Lemma header_text : Json.stringify Token.header = VStr (text Token.header).
Proof. reflexivity. Qed.

(** What [encode] returns for a non-empty string key when [JSON.stringify]
    gives a string for [data]. *)
Lemma encode_string_key (data : value) (k td : jstring) :
  k <> [] ->
  Json.stringify data = VStr td ->
  Token.encode data (VStr k) =
  VStr (wire (segment (text Token.header)) (segment td)
          (signature k [segment (text Token.header); segment td])).
Proof.
  intros Hk Hd. unfold Token.encode, Token.encode_body.
  assert (G : Token.and_then (JS.loose_neq (VStr k) VNull)
                (Token.and_then (JS.loose_neq (VStr k) VUndefined)
                   (JS.loose_neq (VStr k) (VStr []))) = Ok true).
  { unfold Token.and_then, JS.loose_neq. rewrite loose_eq_strings.
    apply str_eqb_neq in Hk. rewrite Hk. reflexivity. }
  rewrite G. cbn [bind]. rewrite header_text, Hd.
  change (Token.btoa (VStr ?t)) with (Ok (segment t)). cbn [bind JS.ToString].
  change (Crypto.hmac_sha512 (VStr k) (VStr ?d) Crypto.base64)
    with (Ok (Crypto.digest Crypto.base64
                (Sha512.hmac (Utf8.bytes_of_string k) (Utf8.bytes_of_string d)))).
  cbn [bind].
  rewrite <- (signature_two k (segment (text Token.header)) (segment td) []).
  pose proof (signature_base64 k [segment (text Token.header); segment td]) as Hsig.
  revert Hsig. generalize (signature k [segment (text Token.header); segment td]).
  intros sig Hsig.
  change (JS.join (str ".") [segment (text Token.header); segment td; sig])
    with (segment (text Token.header) ++ str "." ++ segment td ++ str "." ++ sig).
  rewrite encodeURIComponent_ascii; [reflexivity|].
  apply dotted_ascii; [apply segment_base64 | apply segment_base64 |].
  apply base64_ascii. exact Hsig.
Qed.

(** ** [decode] of a token with a well-formed prefix *)

Lemma unescape_prefix (a x : jstring) :
  Forall is_ascii a ->
  Uri.unescape (flat_map escape_ascii a ++ x) =
  let* r := Uri.unescape x in Ok (map item_of_ascii a ++ r).
Proof.
  induction 1 as [|c a Hc _ IH].
  - cbn [flat_map map app]. destruct (Uri.unescape x); reflexivity.
  - cbn [flat_map map]. rewrite <- List.app_assoc.
    unfold escape_ascii at 1, item_of_ascii at 1.
    destruct (Uri.unreserved c) eqn:U.
    + cbn [app Uri.unescape]. rewrite (unreserved_not_percent c U), IH.
      destruct (Uri.unescape x); reflexivity.
    + assert (Ho : is_octet c) by (unfold is_octet, is_ascii in *; lia).
      destruct (hex_octet c Ho) as (Hh & Hl & Hv).
      unfold Uri.escape_byte. cbn [app Uri.unescape].
      rewrite N.eqb_refl, Hh, Hl, IH, Hv.
      destruct (Uri.unescape x); reflexivity.
Qed.

Lemma decode_items_prefix (a : jstring) (items : list Uri.item) :
  Forall is_ascii a ->
  Uri.decode_items (map item_of_ascii a ++ items) =
  let* r := Uri.decode_items items in Ok (a ++ r).
Proof.
  induction 1 as [|c a Hc _ IH].
  - cbn [map app]. destruct (Uri.decode_items items); reflexivity.
  - cbn [map app]. unfold item_of_ascii at 1.
    destruct (Uri.unreserved c); cbn [Uri.decode_items]; rewrite IH.
    + destruct (Uri.decode_items items); reflexivity.
    + unfold is_ascii in Hc. destruct (N.ltb_spec c 128); [|lia].
      destruct (Uri.decode_items items); reflexivity.
Qed.

(** [decodeURIComponent] of an encoded ASCII text followed by anything. *)
Lemma decodeURIComponent_prefix (a x : jstring) :
  Forall is_ascii a ->
  Uri.decodeURIComponent (flat_map escape_ascii a ++ x) =
  let* r := Uri.decodeURIComponent x in Ok (a ++ r).
Proof.
  intro H. unfold Uri.decodeURIComponent. rewrite (unescape_prefix a x H).
  destruct (Uri.unescape x) as [items|]; cbn [bind]; [|reflexivity].
  apply (decode_items_prefix a items H).
Qed.

Lemma wire_split (seg0 seg1 sign : jstring) :
  wire seg0 seg1 sign = wire_prefix seg0 seg1 ++ flat_map escape_ascii sign.
Proof.
  unfold wire, wire_prefix. rewrite <- flat_map_app. f_equal.
  now rewrite <- !List.app_assoc.
Qed.

Lemma prefix_ascii (seg0 seg1 : jstring) :
  forallb is_base64_char seg0 = true ->
  forallb is_base64_char seg1 = true ->
  Forall is_ascii (seg0 ++ str "." ++ seg1 ++ str ".").
Proof.
  intros H0 H1.
  assert (Hd : Forall is_ascii (str ".")) by (repeat constructor).
  repeat (apply Forall_app; split); auto using base64_ascii.
Qed.

Lemma split_prefixed (seg0 seg1 tail : jstring) :
  forallb is_base64_char seg0 = true ->
  forallb is_base64_char seg1 = true ->
  split dot ((seg0 ++ str "." ++ seg1 ++ str ".") ++ tail)
  = seg0 :: seg1 :: split dot tail.
Proof.
  intros H0 H1. rewrite <- !List.app_assoc.
  change (str "." ++ ?t) with (dot :: t).
  rewrite (split_segment dot seg0 _ (base64_no_dot seg0 H0)).
  change (str "." ++ ?t) with (dot :: t).
  rewrite (split_segment dot seg1 _ (base64_no_dot seg1 H1)). reflexivity.
Qed.

Lemma decode_prefixed (seg0 seg1 x tail : jstring) (h b : value) :
  forallb is_base64_char seg0 = true ->
  forallb is_base64_char seg1 = true ->
  Uri.decodeURIComponent x = Ok tail ->
  Json.parse (Token.atob seg0) = Ok h ->
  Json.parse (Token.atob seg1) = Ok b ->
  Uri.decodeURIComponent (wire_prefix seg0 seg1 ++ x)
  = Ok ((seg0 ++ str "." ++ seg1 ++ str ".") ++ tail)
  /\ Token.decode (VStr (wire_prefix seg0 seg1 ++ x))
     = token_body h b (JS.nth_string (split dot tail) 0).
Proof.
  intros H0 H1 Hx Ph Pb.
  assert (U : Uri.decodeURIComponent (wire_prefix seg0 seg1 ++ x)
              = Ok ((seg0 ++ str "." ++ seg1 ++ str ".") ++ tail)).
  { unfold wire_prefix.
    rewrite (decodeURIComponent_prefix _ x (prefix_ascii seg0 seg1 H0 H1)), Hx.
    reflexivity. }
  split; [exact U|].
  rewrite decode_string. destruct (wire_prefix seg0 seg1 ++ x) as [|c t] eqn:E.
  - exfalso. change (Uri.decodeURIComponent []) with (@Ok jstring []) in U.
    injection U as U. symmetry in U. apply app_eq_nil in U as [U _].
    apply app_eq_nil in U as [_ U]. discriminate U.
  - rewrite U. cbv zeta. rewrite (split_prefixed seg0 seg1 tail H0 H1).
    pose proof (split_nonempty dot tail) as Hne.
    destruct (split dot tail) as [|s0 more]; [contradiction|].
    change (length (seg0 :: seg1 :: s0 :: more) <? 3)%nat with false. cbv iota.
    change (JS.nth_string (seg0 :: seg1 :: s0 :: more) 0) with seg0.
    change (JS.nth_string (seg0 :: seg1 :: s0 :: more) 1) with seg1.
    rewrite Ph, Pb. reflexivity.
Qed.

(** ** [decode] after [encode] *)

Lemma decode_wire (td tp : jstring) (h p : value) (sign : jstring) :
  Json.string_below 256 td = true ->
  Json.string_below 256 tp = true ->
  Json.parse td = Ok h ->
  Json.parse tp = Ok p ->
  forallb is_base64_char sign = true ->
  Token.decode (VStr (wire (segment td) (segment tp) sign)) = token_body h p sign.
Proof.
  intros Ld Lp Ph Pp Hs.
  destruct (atob_btoa td Ld) as (s0 & B0 & C0 & A0).
  destruct (atob_btoa tp Lp) as (s1 & B1 & C1 & A1).
  injection B0 as <-. injection B1 as <-. fold (segment td) in *. fold (segment tp) in *.
  rewrite wire_split.
  destruct (decode_prefixed (segment td) (segment tp) (flat_map escape_ascii sign) sign h p
              C0 C1 (uri_roundtrip_ascii sign (base64_ascii sign Hs)))
    as [_ D]; [now rewrite A0 | now rewrite A1 |].
  rewrite D, (split_last dot sign (base64_no_dot sign Hs)). reflexivity.
Qed.


(** ** [generate] *)

Lemma header_segment_head : exists r, segment (text Token.header) = 101%N :: r.
Proof. eexists. vm_compute. reflexivity. Qed.

Lemma wire_head (seg1 sign : jstring) :
  exists r, wire (segment (text Token.header)) seg1 sign = 101%N :: r.
Proof.
  destruct header_segment_head as (r & E). unfold wire. rewrite E.
  eexists. reflexivity.
Qed.

Lemma trim_left_last (l : jstring) (c : N) :
  JS.is_space c = false -> exists u, JS.trim_left (l ++ [c]) = u ++ [c].
Proof.
  intro H. induction l as [|x l IH].
  - exists []. simpl. now rewrite H.
  - cbn [app JS.trim_left]. destruct (JS.is_space x); [exact IH|].
    exists (x :: l). reflexivity.
Qed.

(** A string that starts with the letter e is not a number. *)
Lemma not_a_number (t : jstring) : JS.StringToNumber (101%N :: t) = nan.
Proof.
  unfold JS.StringToNumber, JS.trim.
  change (JS.trim_left (101%N :: t)) with (101%N :: t).
  cbn [rev]. destruct (trim_left_last (rev t) 101%N eq_refl) as (u & ->).
  rewrite rev_app_distr. cbn [rev app].
  assert (N : JS.non_decimal (101%N :: rev u) = None)
    by (destruct (rev u) as [|a [|b r]]; reflexivity).
  rewrite N. change (101 =? 45)%N with false. change (101 =? 43)%N with false.
  cbv iota. unfold JS.unsigned_decimal.
  change (str_eqb (101%N :: rev u) (str "Infinity")) with false. cbv iota.
  unfold JS.scan. cbn [JS.take_digits]. change (JS.is_digit 101) with false. cbv iota.
  change (101 =? 46)%N with false. cbv iota.
  destruct (JS.scan_exponent (101%N :: rev u)) as [[x [|c r]]|]; reflexivity.
Qed.

Lemma encoded_not_false (seg1 sign : jstring) :
  JS.loose_eq (VStr (wire (segment (text Token.header)) seg1 sign)) (VBool false)
  = Ok false.
Proof.
  destruct (wire_head seg1 sign) as (r & ->).
  unfold JS.loose_eq. cbn [JS.is_nullish JS.is_object andb JS.ToPrimitive bind].
  unfold JS.prim_loose_eq. cbn [JS.ToNumber]. now rewrite not_a_number.
Qed.

Lemma generate_access_only (cfg : Token.Config) (now : float) (user : value) (ak : jstring)
    (rk : value) :
  ak <> [] ->
  rk = VUndefined \/ rk = VStr [] ->
  exists td,
    Json.stringify
      (Token.payload (Token.DOMAIN cfg) now (Token.expiry now (Token.LTT cfg)) user)
    = VStr td /\
    Token.generate (Some cfg) now user (VStr ak) rk =
    VObj [(str "success", VNum 1%float);
          (str "accessToken",
           VStr (issued ak td));
          (str "dateAccess", VNum (Token.expiry now (Token.LTT cfg)))].
Proof.
  intros Hk Hr.
  destruct (stringify_object
              [(str "iss", Token.DOMAIN cfg); (str "gen", VNum now);
               (str "exp", VNum (Token.expiry now (Token.LTT cfg)));
               (str "data", user)]) as (td & S).
  exists td. split; [exact S|].
  unfold Token.generate, Token.generate_body. cbn [bind Token.default_to].
  rewrite (encode_string_key (Token.payload _ _ _ _) ak td Hk S), encoded_not_false. cbn [bind].
  assert (R : JS.loose_neq (Token.default_to (VStr []) rk) (VStr []) = Ok false).
  { destruct Hr as [-> | ->]; reflexivity. }
  rewrite R. reflexivity.
Qed.

Lemma generate_both (cfg : Token.Config) (now : float) (user : value) (ak rk : jstring) :
  ak <> [] ->
  rk <> [] ->
  exists td tr,
    Json.stringify
      (Token.payload (Token.DOMAIN cfg) now (Token.expiry now (Token.LTT cfg)) user)
    = VStr td /\
    Json.stringify
      (Token.payload (Token.DOMAIN cfg) now (Token.expiry now (Token.LTRT cfg)) user)
    = VStr tr /\
    Token.generate (Some cfg) now user (VStr ak) (VStr rk) =
    VObj [(str "success", VNum 1%float);
          (str "accessToken",
           VStr (issued ak td));
          (str "refreshToken",
           VStr (issued rk tr));
          (str "dateAccess", VNum (Token.expiry now (Token.LTT cfg)));
          (str "dateRefresh", VNum (Token.expiry now (Token.LTRT cfg)))].
Proof.
  intros Hk Hr.
  destruct (stringify_object
              [(str "iss", Token.DOMAIN cfg); (str "gen", VNum now);
               (str "exp", VNum (Token.expiry now (Token.LTT cfg)));
               (str "data", user)]) as (td & S).
  destruct (stringify_object
              [(str "iss", Token.DOMAIN cfg); (str "gen", VNum now);
               (str "exp", VNum (Token.expiry now (Token.LTRT cfg)));
               (str "data", user)]) as (tr & S').
  exists td, tr. split; [exact S|]. split; [exact S'|].
  unfold Token.generate, Token.generate_body. cbn [bind Token.default_to].
  rewrite (encode_string_key (Token.payload _ _ _ _) ak td Hk S), encoded_not_false. cbn [bind].
  assert (R : JS.loose_neq (VStr rk) (VStr []) = Ok true).
  { unfold JS.loose_neq. rewrite loose_eq_strings.
    apply str_eqb_neq in Hr. now rewrite Hr. }
  rewrite R.
  change (Token.set_exp (Token.payload ?d ?g ?e ?u) ?e')
    with (Token.payload d g e' u).
  change (JS.get (Token.payload ?d ?g ?e ?u) (str "exp")) with (Ok (VNum e)).
  cbn [bind].
  rewrite (encode_string_key (Token.payload _ _ _ _) rk tr Hr S'), encoded_not_false. reflexivity.
Qed.

(** The date is the clock plus 86,400,000 times the lifetime, in double
    arithmetic. *)
Lemma expiry_days (now lifetime : float) :
  Token.expiry now lifetime = (now + 86400000 * lifetime)%float.
Proof. reflexivity. Qed.

(** C7 (amended).  With the configuration loaded, an identity that is plain
    data and a non-empty access key, [generate] without a refresh key
    (absent or empty) returns [success], [accessToken] and
    [dateAccess = now + 86400000 * LTT] and no [refreshToken]; with a
    non-empty refresh key it also returns [refreshToken] and
    [dateRefresh = now + 86400000 * LTRT], the dates being computed in
    double arithmetic.  On a finite clock [dateAccess <= dateRefresh] when
    [LTT < LTRT]; and [dateAccess < dateRefresh] when the lifetimes are
    whole numbers of days and the clock a whole number of milliseconds with
    [dateRefresh] below [2^53]. *)
Theorem generate_tokens_and_dates (cfg : Token.Config) (now : float) (user : value)
    (accessKey : jstring) :
  accessKey <> [] ->
  (forall refreshKey,
      refreshKey = VUndefined \/ refreshKey = VStr [] ->
      exists A,
        Token.generate (Some cfg) now user (VStr accessKey) refreshKey =
        VObj [(str "success", VNum 1%float);
              (str "accessToken", VStr A);
              (str "dateAccess", VNum (now + 86400000 * Token.LTT cfg)%float)]
        /\ JS.has_own (Token.generate (Some cfg) now user (VStr accessKey) refreshKey)
             (str "refreshToken") = false)
  /\ (forall refreshKey,
         refreshKey <> [] ->
         exists A R,
           Token.generate (Some cfg) now user (VStr accessKey) (VStr refreshKey) =
           VObj [(str "success", VNum 1%float);
                 (str "accessToken", VStr A);
                 (str "refreshToken", VStr R);
                 (str "dateAccess", VNum (now + 86400000 * Token.LTT cfg)%float);
                 (str "dateRefresh", VNum (now + 86400000 * Token.LTRT cfg)%float)])
  /\ (finite_number now = true ->
      (Token.LTT cfg <? Token.LTRT cfg)%float = true ->
      (now + 86400000 * Token.LTT cfg <=? now + 86400000 * Token.LTRT cfg)%float = true)
  /\ (forall n a b : N,
         now = JS.of_N n -> Token.LTT cfg = JS.of_N a -> Token.LTRT cfg = JS.of_N b ->
         (a < b)%N -> (n + 86400000 * b < 2 ^ 53)%N ->
         (now + 86400000 * Token.LTT cfg <? now + 86400000 * Token.LTRT cfg)%float = true).
Proof.
  intro Hk. rewrite <- !expiry_days. split; [|split; [|split]].
  - intros rk Hr.
    destruct (generate_access_only cfg now user accessKey rk Hk Hr) as (td & _ & G).
    rewrite G. eexists. split; reflexivity.
  - intros rk Hr.
    destruct (generate_both cfg now user accessKey rk Hk Hr) as (td & tr & _ & _ & G).
    rewrite G. eexists _, _. reflexivity.
  - intros F L. apply (expiry_monotone now _ _ F). apply ltb_leb. exact L.
  - intros n a b -> -> -> L B. now apply expiry_whole_order.
Qed.

(** ** The fallback from the access token to the refresh token *)

Lemma carried_serialize (iss user : value) (gen exp : float) :
  Json.serialize (Token.payload iss gen exp user)
  = Json.serialize (carried iss gen exp user).
Proof.
  unfold Token.payload, carried. cbn [Json.serialize].
  now rewrite <- !stored_serialize.
Qed.

Lemma carried_text (iss user : value) (gen exp : float) :
  text (Token.payload iss gen exp user) = text (carried iss gen exp user).
Proof. unfold text. now rewrite carried_serialize. Qed.

Lemma carried_stringify (iss user : value) (gen exp : float) :
  Json.stringify (Token.payload iss gen exp user)
  = Json.stringify (carried iss gen exp user).
Proof. unfold Json.stringify. now rewrite carried_serialize. Qed.

Lemma carried_plain (iss user : value) (gen exp : float) :
  Json.plain_number gen = true -> Json.plain_number exp = true ->
  carried iss gen exp user = Token.payload iss gen exp user.
Proof. intros G E. unfold carried. now rewrite (stored_plain gen G), (stored_plain exp E). Qed.

Lemma payload_well_formed (iss user : value) (gen exp : float) :
  Json.well_formed 256 iss = true ->
  Json.well_formed 256 user = true ->
  Json.well_formed 256 (carried iss gen exp user) = true.
Proof.
  intros Hi Hu. unfold carried. rewrite well_formed_object.
  cbn [forallb map fst snd]. rewrite Hi, Hu, !stored_well_formed. reflexivity.
Qed.

Lemma expired_payload (iss user : value) (gen exp now : float) :
  expired (carried iss gen exp user) now = Ok (lapsed exp now).
Proof.
  unfold expired, carried.
  change (JS.get (VObj ?p) (str "exp")) with (Ok (stored_number exp)). cbn [bind].
  unfold lapsed, JS.lt_num, stored_number. destruct (Prim2SF exp); reflexivity.
Qed.

Lemma lapsed_plain (exp now : float) :
  Json.plain_number exp = true -> lapsed exp now = (exp <? now)%float.
Proof. intro P. unfold lapsed. now rewrite (stored_plain exp P). Qed.

(** [validate] on a token whose first two segments are well formed. *)
Lemma validate_prefixed (now : float) (seg0 seg1 x tail k : jstring) (h b : value) :
  forallb is_base64_char seg0 = true ->
  forallb is_base64_char seg1 = true ->
  Uri.decodeURIComponent x = Ok tail ->
  Json.parse (Token.atob seg0) = Ok h ->
  Json.parse (Token.atob seg1) = Ok b ->
  Token.validate now (VStr (wire_prefix seg0 seg1 ++ x)) (VStr k) =
  try_catch
    (let* is_expired := expired b now in
     if is_expired then Ok (Token.Result true Token.MSG_EXPIRED)
     else if negb (str_eqb (JS.nth_string (split dot tail) 0) (signature k [seg0; seg1]))
          then Ok (Token.Result false Token.MSG_INVALID)
          else Ok (Token.Result true Token.MSG_VALID))
    (Token.Result false Token.MSG_ERROR).
Proof.
  intros H0 H1 Hx Ph Pb.
  destruct (decode_prefixed seg0 seg1 x tail h b H0 H1 Hx Ph Pb) as [U D].
  rewrite (validate_decoded now _ (VStr k) h b _ D).
  destruct (expired b now) as [[|]|]; cbn [bind]; try reflexivity.
  cbn [JS.ToString bind]. rewrite U. cbn [bind].
  rewrite (split_prefixed seg0 seg1 tail H0 H1).
  rewrite (signature_two k seg0 seg1 (split dot tail)).
  rewrite <- (signature_two k seg0 seg1 []). reflexivity.
Qed.

Lemma atob_segment (t : jstring) :
  Json.string_below 256 t = true -> Token.atob (segment t) = t.
Proof.
  intro H. destruct (atob_btoa t H) as (s & B & _ & A).
  injection B as <-. exact A.
Qed.

Lemma parse_segment (v : value) :
  Json.well_formed 256 v = true ->
  Json.parse (Token.atob (segment (text v))) = Ok v.
Proof.
  intro W. rewrite (atob_segment _ (text_latin1 v W)).
  apply (parse_stringify v (well_formed_mono v W)).
Qed.

Lemma header_well_formed : Json.well_formed 256 Token.header = true.
Proof. reflexivity. Qed.

Lemma issued_prefixed (k td : jstring) :
  issued k td =
  wire_prefix (segment (text Token.header)) (segment td)
  ++ flat_map escape_ascii (signature k [segment (text Token.header); segment td]).
Proof. apply wire_split. Qed.

(** [validate] on an issued token, under the key that signed it. *)
Lemma validate_issued (now : float) (P : value) (k : jstring) :
  Json.well_formed 256 P = true ->
  Token.validate now (VStr (issued k (text P))) (VStr k) =
  try_catch
    (let* is_expired := expired P now in
     if is_expired then Ok (Token.Result true Token.MSG_EXPIRED)
     else Ok (Token.Result true Token.MSG_VALID))
    (Token.Result false Token.MSG_ERROR).
Proof.
  intro W. rewrite issued_prefixed.
  set (sig := signature k _).
  assert (Hs : forallb is_base64_char sig = true) by apply signature_base64.
  rewrite (validate_prefixed now _ _ _ sig k Token.header P
             (segment_base64 _) (segment_base64 _)
             (uri_roundtrip_ascii sig (base64_ascii sig Hs))
             (parse_segment Token.header header_well_formed) (parse_segment P W)).
  rewrite (split_last dot sig (base64_no_dot sig Hs)).
  change (JS.nth_string [sig] 0) with sig.
  unfold sig. rewrite str_eqb_refl. reflexivity.
Qed.

Lemma decode_issued (P : value) (k : jstring) :
  Json.well_formed 256 P = true ->
  Token.decode (VStr (issued k (text P))) =
  token_body Token.header P (signature k [segment (text Token.header); segment (text P)]).
Proof.
  intro W. unfold issued. apply decode_wire.
  - reflexivity.
  - apply (text_latin1 P W).
  - reflexivity.
  - apply (parse_stringify P (well_formed_mono P W)).
  - apply signature_base64.
Qed.

Lemma escape_no_dot (c : N) :
  is_base64_char c = true ->
  forallb (fun x => negb (x =? dot)%N) (escape_ascii c) = true.
Proof.
  intro H. destruct (base64_char_ascii c H) as [Ha _]. revert H.
  assert (C : implb (is_base64_char c)
                (forallb (fun x => negb (x =? dot)%N) (escape_ascii c)) = true).
  { revert c Ha. apply (check_below _ 128). vm_compute. reflexivity. }
  intro H. now rewrite H in C.
Qed.

Lemma escaped_no_dot (s : jstring) :
  forallb is_base64_char s = true ->
  forallb (fun x => negb (x =? dot)%N) (flat_map escape_ascii s) = true.
Proof.
  induction s as [|c s IH]; intro H; [reflexivity|].
  cbn [forallb] in H. apply andb_true_iff in H as [Hc Hs].
  cbn [flat_map]. rewrite forallb_app, (escape_no_dot c Hc). exact (IH Hs).
Qed.

Lemma wire_prefix_join (seg0 seg1 x : jstring) :
  wire_prefix seg0 seg1 ++ x =
  JS.join (str ".") [flat_map escape_ascii seg0; flat_map escape_ascii seg1; x].
Proof.
  unfold wire_prefix. rewrite !flat_map_app.
  change (flat_map escape_ascii (str ".")) with (str ".").
  cbn [JS.join]. now rewrite <- !List.app_assoc.
Qed.

Lemma wire_segments (seg0 seg1 sign : jstring) :
  forallb is_base64_char seg0 = true ->
  forallb is_base64_char seg1 = true ->
  forallb is_base64_char sign = true ->
  split dot (wire seg0 seg1 sign) =
  [flat_map escape_ascii seg0; flat_map escape_ascii seg1; flat_map escape_ascii sign].
Proof.
  intros H0 H1 H2. rewrite wire_split, wire_prefix_join. cbn [JS.join].
  change (str "." ++ ?t) with (dot :: t).
  rewrite (split_segment dot _ _ (escaped_no_dot seg0 H0)).
  change (str "." ++ ?t) with (dot :: t).
  rewrite (split_segment dot _ _ (escaped_no_dot seg1 H1)).
  rewrite (split_last dot _ (escaped_no_dot sign H2)). reflexivity.
Qed.

(** A token that does not percent-decode is rejected by [verify]. *)
Lemma verify_undecodable (now_access now_refresh : float)
    (user accessKey refreshKey refreshToken : value) (seg0 seg1 x : jstring) (e : exn) :
  forallb is_base64_char seg0 = true ->
  forallb is_base64_char seg1 = true ->
  Uri.decodeURIComponent x = Throw e ->
  Token.verify now_access now_refresh user accessKey
    (VStr (wire_prefix seg0 seg1 ++ x)) refreshKey refreshToken = VBool false.
Proof.
  intros H0 H1 Hx.
  assert (D : Token.decode (VStr (wire_prefix seg0 seg1 ++ x)) = VBool false).
  { rewrite decode_string. destruct (wire_prefix seg0 seg1 ++ x) eqn:E; [reflexivity|].
    rewrite <- E. unfold wire_prefix.
    rewrite (decodeURIComponent_prefix _ x (prefix_ascii seg0 seg1 H0 H1)), Hx.
    reflexivity. }
  unfold Token.verify, Token.verify_body. rewrite D. reflexivity.
Qed.

(** [verify] with an issued refresh token behind an access token whose first
    two segments are those of an issued access token and whose third segment
    is anything that percent-decodes. *)
Lemma verify_with_refresh (now_access now_refresh : float) (user data Pa Pr : value)
    (ka kr x tail : jstring) (ea er : bool) :
  Json.well_formed 256 Pa = true ->
  Json.well_formed 256 Pr = true ->
  Token.lacks_capability user = Ok false ->
  JS.get Pa (str "data") = Ok data ->
  Token.bound_to_user data user = Ok true ->
  Token.bound_to_refresh data
    (token_body Token.header Pr
       (signature kr [segment (text Token.header); segment (text Pr)])) = Ok true ->
  expired Pa now_access = Ok ea ->
  expired Pr now_refresh = Ok er ->
  Uri.decodeURIComponent x = Ok tail ->
  let A' := wire_prefix (segment (text Token.header)) (segment (text Pa)) ++ x in
  let R := issued kr (text Pr) in
  Token.verify now_access now_refresh user (VStr ka) (VStr A') (VStr kr) (VStr R)
  = VBool true
  /\ (ea = false ->
      JS.nth_string (split dot tail) 0
      <> signature ka [segment (text Token.header); segment (text Pa)] ->
      Token.validate now_access (VStr A') (VStr ka)
      = Token.Result false Token.MSG_INVALID)
  /\ JS.get (Token.validate now_refresh (VStr R) (VStr kr)) (str "success")
     = Ok (VBool true).
Proof.
  intros Wa Wr C G B Br Xa Xr Hx A' R.
  pose proof (parse_segment Token.header header_well_formed) as Ph.
  destruct (decode_prefixed _ _ x tail Token.header Pa
              (segment_base64 _) (segment_base64 _) Hx Ph (parse_segment Pa Wa))
    as [_ D].
  assert (Vr : JS.get (Token.validate now_refresh (VStr R) (VStr kr)) (str "success")
               = Ok (VBool true)).
  { unfold R. rewrite (validate_issued now_refresh Pr kr Wr), Xr.
    destruct er; reflexivity. }
  assert (Va : Token.validate now_access (VStr A') (VStr ka) =
               if ea then Token.Result true Token.MSG_EXPIRED
               else if negb (str_eqb (JS.nth_string (split dot tail) 0)
                               (signature ka [segment (text Token.header);
                                              segment (text Pa)]))
                    then Token.Result false Token.MSG_INVALID
                    else Token.Result true Token.MSG_VALID).
  { unfold A'.
    rewrite (validate_prefixed now_access _ _ x tail ka Token.header Pa
               (segment_base64 _) (segment_base64 _) Hx Ph (parse_segment Pa Wa)), Xa.
    destruct ea; [reflexivity|]. cbn [bind]. destruct (negb _); reflexivity. }
  split; [|split; [|exact Vr]].
  - rewrite (verify_bound now_access now_refresh user (VStr ka) (VStr A') (VStr kr)
               (VStr R) Token.header Pa data _ D C G B).
    rewrite Va. destruct ea; [reflexivity|].
    destruct (negb _); [|reflexivity].
    rewrite Result_success. cbn [bind JS.truthy negb Token.default_to].
    change (Token.and_then (JS.loose_neq (VStr kr) VNull) (JS.loose_neq (VStr R) VNull))
      with (@Ok bool true).
    cbn [bind]. unfold R at 1 2. rewrite (decode_issued Pr kr Wr).
    change (Token.strict_eq_false (token_body ?h ?b ?s)) with false. cbv iota.
    rewrite Br. cbn [bind negb]. rewrite Vr. reflexivity.
  - intros -> Hne. rewrite Va. apply str_eqb_neq in Hne. now rewrite Hne.
Qed.

(** C4 (amended).  For the identity [{userId:"u1", userKey:"k1",
    userRkey:"k2"}] and a loaded configuration with a Latin-1 [DOMAIN],
    [generate(identity, "k1", "k2")] yields tokens [A] and [R] that [verify]
    accepts.  Let [A'] be [A] with one character of its third segment
    replaced.  If that segment no longer percent-decodes, [verify] rejects
    [A'].  If it does, [verify] accepts [A']; and when the decoded segment
    differs from the signature and the access token is not yet expired,
    access validation reports an invalid token and the result is the
    success of [validate(R, "k2")]. *)
Theorem fallback_scenario (cfg : Token.Config) (now now_access now_refresh : float) :
  Json.well_formed 256 (Token.DOMAIN cfg) = true ->
  exists A R seg0 seg1 seg2 sign,
    Token.generate (Some cfg) now identity (VStr (str "k1")) (VStr (str "k2")) =
    VObj [(str "success", VNum 1%float);
          (str "accessToken", VStr A);
          (str "refreshToken", VStr R);
          (str "dateAccess", VNum (Token.expiry now (Token.LTT cfg)));
          (str "dateRefresh", VNum (Token.expiry now (Token.LTRT cfg)))]
    /\ Token.verify now_access now_refresh identity
         (VStr (str "k1")) (VStr A) (VStr (str "k2")) (VStr R) = VBool true
    /\ split dot A = [seg0; seg1; seg2]
    /\ JS.get (Token.decode (VStr A)) (str "sign") = Ok (VStr sign)
    /\ forall (i : nat) (c : N),
        let A' := JS.join (str ".") [seg0; seg1; corrupt i c seg2] in
        match Uri.decodeURIComponent (corrupt i c seg2) with
        | Throw _ =>
            Token.verify now_access now_refresh identity
              (VStr (str "k1")) (VStr A') (VStr (str "k2")) (VStr R) = VBool false
        | Ok tail =>
            Token.verify now_access now_refresh identity
              (VStr (str "k1")) (VStr A') (VStr (str "k2")) (VStr R) = VBool true
            /\ (lapsed (Token.expiry now (Token.LTT cfg)) now_access = false ->
                JS.nth_string (split dot tail) 0 <> sign ->
                Token.validate now_access (VStr A') (VStr (str "k1"))
                = Token.Result false Token.MSG_INVALID
                /\ JS.get (Token.validate now_refresh (VStr R) (VStr (str "k2")))
                     (str "success") = Ok (VBool true))
        end.
Proof.
  intro Wd.
  set (Pa := carried (Token.DOMAIN cfg) now (Token.expiry now (Token.LTT cfg)) identity).
  set (Pr := carried (Token.DOMAIN cfg) now (Token.expiry now (Token.LTRT cfg)) identity).
  assert (Wa : Json.well_formed 256 Pa = true)
    by (apply payload_well_formed; [exact Wd | reflexivity]).
  assert (Wr : Json.well_formed 256 Pr = true)
    by (apply payload_well_formed; [exact Wd | reflexivity]).
  destruct (generate_both cfg now identity (str "k1") (str "k2"))
    as (td & tr & Sa & Sr & G); try discriminate.
  rewrite carried_stringify in Sa, Sr. fold Pa in Sa. fold Pr in Sr.
  destruct (parse_stringify Pa (well_formed_mono Pa Wa)) as [Sa' _].
  destruct (parse_stringify Pr (well_formed_mono Pr Wr)) as [Sr' _].
  rewrite Sa' in Sa. rewrite Sr' in Sr. injection Sa as <-. injection Sr as <-.
  set (s0 := segment (text Token.header)) in *.
  set (siga := signature (str "k1") [s0; segment (text Pa)]).
  assert (Hsig : forallb is_base64_char siga = true) by apply signature_base64.
  assert (Facts : forall x tail,
             Uri.decodeURIComponent x = Ok tail ->
             Token.verify now_access now_refresh identity (VStr (str "k1"))
               (VStr (wire_prefix s0 (segment (text Pa)) ++ x))
               (VStr (str "k2")) (VStr (issued (str "k2") (text Pr))) = VBool true
             /\ (lapsed (Token.expiry now (Token.LTT cfg)) now_access = false ->
                 JS.nth_string (split dot tail) 0 <> siga ->
                 Token.validate now_access
                   (VStr (wire_prefix s0 (segment (text Pa)) ++ x)) (VStr (str "k1"))
                 = Token.Result false Token.MSG_INVALID)
             /\ JS.get (Token.validate now_refresh (VStr (issued (str "k2") (text Pr)))
                          (VStr (str "k2"))) (str "success") = Ok (VBool true)).
  { intros x tail Hx.
    apply (verify_with_refresh now_access now_refresh identity identity Pa Pr
             (str "k1") (str "k2") x tail
             (lapsed (Token.expiry now (Token.LTT cfg)) now_access)
             (lapsed (Token.expiry now (Token.LTRT cfg)) now_refresh) Wa Wr);
      try reflexivity; try apply expired_payload; exact Hx. }
  exists (issued (str "k1") (text Pa)), (issued (str "k2") (text Pr)),
    (flat_map escape_ascii s0), (flat_map escape_ascii (segment (text Pa))),
    (flat_map escape_ascii siga), siga.
  split; [exact G|]. split; [|split; [|split]].
  - rewrite issued_prefixed.
    apply (Facts _ siga (uri_roundtrip_ascii siga (base64_ascii siga Hsig))).
  - apply wire_segments; [apply segment_base64 | apply segment_base64 | exact Hsig].
  - rewrite (decode_issued Pa (str "k1") Wa). reflexivity.
  - intros i c. cbv zeta. rewrite <- wire_prefix_join.
    destruct (Uri.decodeURIComponent (corrupt i c (flat_map escape_ascii siga)))
      as [tail|e] eqn:Hx.
    + destruct (Facts _ tail Hx) as (V & I & S).
      split; [exact V|]. intros Hnow Hne. split; [|exact S].
      apply I; [exact Hnow | exact Hne].
    + apply (verify_undecodable now_access now_refresh identity _ _ _ s0
               (segment (text Pa)) _ e (segment_base64 _) (segment_base64 _) Hx).
Qed.

(** ** CSRF tokens *)

Lemma hmac_hex_strings (key message : jstring) :
  Crypto.hmac_sha512 (VStr key) (VStr message) Crypto.hex = Ok (hex_hmac key message).
Proof. reflexivity. Qed.

Lemma stringify_cases (v : value) :
  Json.stringify v = VUndefined \/ exists t, Json.stringify v = VStr t.
Proof. unfold Json.stringify. destruct (Json.serialize v); eauto. Qed.

Lemma verifyCsrf_strings (key token : jstring) (data : value) :
  Token.verifyCsrf (VStr key) data (VStr token) = VBool true <->
  exists t, Json.stringify data = VStr t /\ token = hex_hmac key t.
Proof.
  unfold Token.verifyCsrf, Token.verifyCsrf_body.
  destruct (stringify_cases data) as [-> | (t & ->)].
  - split; [discriminate | intros (t & E & _); discriminate E].
  - rewrite hmac_hex_strings. cbn [bind]. rewrite loose_eq_strings. cbn [bind try_catch].
    split.
    + intro H. injection H as H. apply str_eqb_eq in H. eauto.
    + intros (t' & E & ->). injection E as <-. now rewrite str_eqb_refl.
Qed.

(** C8 (amended).  For every [id] and key string, [generateCsrf(id, key)]
    signs [{id, create: now}] with HMAC-SHA512 in hex and returns
    [{csrfToken, timeCreate: now}]; [verifyCsrf(key, {id, create:
    timeCreate}, csrfToken)] is [true]; and [verifyCsrf(key, data, token)] is
    [true] exactly when [token] is the hex HMAC-SHA512 of [JSON(data)] under
    [key]. *)
Theorem csrf_roundtrip (now : float) (id : value) (key : jstring) :
  exists message,
    Json.stringify (VObj [(str "id", id); (str "create", VNum now)]) = VStr message
    /\ Token.generateCsrf now id (VStr key) =
       VObj [(str "csrfToken", VStr (hex_hmac key message));
             (str "timeCreate", VNum now)]
    /\ Token.verifyCsrf (VStr key) (VObj [(str "id", id); (str "create", VNum now)])
         (VStr (hex_hmac key message)) = VBool true
    /\ forall (data : value) (token : jstring),
        Token.verifyCsrf (VStr key) data (VStr token) = VBool true <->
        exists t, Json.stringify data = VStr t /\ token = hex_hmac key t.
Proof.
  destruct (stringify_object [(str "id", id); (str "create", VNum now)]) as (m & S).
  exists m. split; [exact S|]. split; [|split].
  - unfold Token.generateCsrf, Token.generateCsrf_body. rewrite S, hmac_hex_strings. reflexivity.
  - apply verifyCsrf_strings. eauto.
  - intros data token. apply verifyCsrf_strings.
Qed.

(** ** No operation throws *)


(** The failures of the platform inside the operations. *)





(** ** [generate] leaves the caller's objects alone *)

Lemma update_length (h : Store.heap) (l : Store.loc) (f : Store.cell -> Store.cell) :
  length (Store.update h l f) = length h.
Proof.
  revert l. induction h as [|c h IH]; intros [|l]; simpl; auto.
Qed.

Lemma update_firstn (h : Store.heap) (l : Store.loc) (f : Store.cell -> Store.cell)
    (n : nat) :
  n <= l -> firstn n (Store.update h l f) = firstn n h.
Proof.
  revert l n. induction h as [|c h IH]; intros l n H; [now destruct l|].
  destruct l as [|l].
  - assert (n = 0) by lia. now subst.
  - destruct n as [|n]; [reflexivity|]. simpl. f_equal. apply IH. lia.
Qed.

Lemma firstn_alloc (h : Store.heap) (c : Store.cell) :
  firstn (length h) (h ++ [c]) = h.
Proof. rewrite firstn_app, Nat.sub_diag, firstn_all. simpl. apply List.app_nil_r. Qed.

(** C9.  [generate] does not change any object that existed before the
    call: the store it leaves agrees with the store it was given on every
    location of the latter, whether or not a refresh key is supplied.  (The
    assignment [data.exp = ..] goes to the object that [generate] itself
    allocated.) *)
Theorem generate_preserves_store (CONFIG : option Token.Config) (now : float)
    (h : Store.heap) (user : Store.svalue) (accessKey refreshKey : value) :
  firstn (length h) (fst (Store.generate CONFIG now h user accessKey refreshKey)) = h.
Proof.
  unfold Store.generate, Store.alloc, Store.write.
  destruct CONFIG as [cfg|]; [|apply firstn_all].
  destruct (JS.loose_eq _ (VBool false)) as [[|]|]; cbn [fst]; try apply firstn_alloc.
  destruct (JS.loose_neq _ _) as [[|]|]; cbn [fst]; try apply firstn_alloc.
  rewrite update_firstn by lia. apply firstn_alloc.
Qed.

(** The store version computes what [Token.generate] computes on the tree
    that [JSON.stringify] sees from [user]. *)

Lemma all_some_map_ext {A B} (f g : A -> option B) (l : list A) (r : list B) :
  Forall (fun x => forall y, f x = Some y -> g x = Some y) l ->
  Store.all_some (map f l) = Some r ->
  Store.all_some (map g l) = Some r.
Proof.
  revert r. induction l as [|x l IH]; intros r F H; [exact H|].
  inversion F as [|? ? Hx Hl]; subst. cbn [map Store.all_some] in *.
  destruct (f x) as [y|] eqn:E; [|discriminate].
  rewrite (Hx y eq_refl).
  destruct (Store.all_some (map f l)) as [r'|] eqn:E'; [|discriminate].
  now rewrite (IH r' Hl eq_refl).
Qed.

Lemma snap_agree (h h' : Store.heap) :
  (forall l c, nth_error h l = Some c -> nth_error h' l = Some c) ->
  forall (fuel : nat) (v : Store.svalue) (u : value),
    Store.snap fuel h v = Some u -> Store.snap fuel h' v = Some u.
Proof.
  intros Hh fuel. induction fuel as [|f IH]; intros [p|l] u H; try exact H.
  cbn [Store.snap] in *.
  destruct (nth_error h l) as [c|] eqn:E; [|discriminate].
  rewrite (Hh l c E). destruct c as [props|items].
  - destruct (Store.all_some _) as [r|] eqn:A; [|discriminate].
    erewrite all_some_map_ext; [exact H | | exact A].
    apply Forall_forall. intros [k x] _ y Hy. cbn [fst snd] in *.
    destruct (Store.snap f h x) as [ux|] eqn:Ex; [|discriminate].
    now rewrite (IH x ux Ex).
  - destruct (Store.all_some _) as [r|] eqn:A; [|discriminate].
    erewrite all_some_map_ext; [exact H | | exact A].
    apply Forall_forall. intros x _ y Hy. now apply IH.
Qed.

Lemma nth_error_alloc (h : Store.heap) (c : Store.cell) :
  nth_error (h ++ [c]) (length h) = Some c.
Proof. rewrite nth_error_app2, Nat.sub_diag by lia. reflexivity. Qed.

Lemma nth_error_update (h : Store.heap) (l : Store.loc) (f : Store.cell -> Store.cell) :
  nth_error (Store.update h l f) l = option_map f (nth_error h l).
Proof. revert l. induction h as [|c h IH]; intros [|l]; simpl; auto. Qed.

Lemma nth_error_update_other (h : Store.heap) (l l' : Store.loc)
    (f : Store.cell -> Store.cell) :
  l <> l' -> nth_error (Store.update h l f) l' = nth_error h l'.
Proof.
  revert l l'. induction h as [|c h IH]; intros [|l] [|l'] H; simpl; auto;
    contradiction.
Qed.

Lemma snap_ref (f : nat) (h : Store.heap) (l : Store.loc) :
  Store.snap (S f) h (Store.SRef l) =
  match nth_error h l with
  | Some (Store.CObj props) =>
      option_map VObj
        (Store.all_some
           (map (fun kv => option_map (pair (fst kv)) (Store.snap f h (snd kv))) props))
  | Some (Store.CArr items) =>
      option_map VArr (Store.all_some (map (Store.snap f h) items))
  | None => None
  end.
Proof. reflexivity. Qed.

Lemma snap_prim (f : nat) (h : Store.heap) (p : value) :
  Store.snap f h (Store.SPrim p) = Some p.
Proof. destruct f; reflexivity. Qed.

(** The snapshot of [generate]'s own object: its four fields, [data] being
    the snapshot of [user]. *)
Lemma snapshot_payload (h h' : Store.heap) (user : Store.svalue) (u iss : value)
    (gen exp : float) :
  Store.snapshot h user = Some u ->
  length h' = S (length h) ->
  (forall l c, nth_error h l = Some c -> nth_error h' l = Some c) ->
  nth_error h' (length h) =
    Some (Store.CObj [(str "iss", Store.SPrim iss); (str "gen", Store.SPrim (VNum gen));
                      (str "exp", Store.SPrim (VNum exp)); (str "data", user)]) ->
  Store.snapshot h' (Store.SRef (length h)) = Some (Token.payload iss gen exp u).
Proof.
  intros Hu Hl Hh Hd. unfold Store.snapshot in *. rewrite Hl.
  rewrite snap_ref, Hd. cbn [map fst snd].
  rewrite !snap_prim, (snap_agree h h' Hh _ user u Hu). reflexivity.
Qed.

Lemma generate_refines (CONFIG : option Token.Config) (now : float)
    (h : Store.heap) (user : Store.svalue) (u accessKey refreshKey : value) :
  Store.snapshot h user = Some u ->
  snd (Store.generate CONFIG now h user accessKey refreshKey)
  = Token.generate CONFIG now u accessKey refreshKey.
Proof.
  intro Hu. unfold Store.generate, Token.generate, Token.generate_body, Store.alloc.
  destruct CONFIG as [cfg|]; [|reflexivity]. cbn [bind].
  set (c := Store.CObj _).
  assert (H1 : forall l c', nth_error h l = Some c' -> nth_error (h ++ [c]) l = Some c').
  { intros l c' E. rewrite nth_error_app1; [exact E|].
    apply nth_error_Some. congruence. }
  assert (S1 : Store.snapshot (h ++ [c]) (Store.SRef (length h))
               = Some (Token.payload (Token.DOMAIN cfg) now
                         (Token.expiry now (Token.LTT cfg)) u)).
  { apply (snapshot_payload h (h ++ [c]) user u _ _ _ Hu); [| exact H1 |].
    - rewrite length_app. simpl. lia.
    - apply nth_error_alloc. }
  unfold Store.encode. rewrite !S1.
  destruct (JS.loose_eq _ (VBool false)) as [[|]|]; cbn [bind snd]; try reflexivity.
  destruct (JS.loose_neq _ (VStr [])) as [[|]|]; cbn [bind snd]; try reflexivity.
  - unfold Store.write.
    set (g := fun c0 : Store.cell => _).
    assert (S2 : Store.snapshot (Store.update (h ++ [c]) (length h) g)
                   (Store.SRef (length h))
                 = Some (Token.payload (Token.DOMAIN cfg) now
                           (Token.expiry now (Token.LTRT cfg)) u)).
    { apply (snapshot_payload h _ user u _ _ _ Hu).
      - rewrite update_length, length_app. simpl. lia.
      - intros l c' E. rewrite nth_error_update_other; [now apply H1|].
        assert (l < length h) by (apply nth_error_Some; congruence). lia.
      - rewrite nth_error_update, nth_error_alloc. reflexivity. }
    rewrite S2.
    unfold Store.read_exp. rewrite nth_error_update, !nth_error_alloc.
    change (Token.set_exp (Token.payload ?d ?g0 ?e ?x) ?e')
      with (Token.payload d g0 e' x).
    change (JS.get (Token.payload ?d ?g0 ?e ?x) (str "exp")) with (Ok (VNum e)).
    subst c g. cbn [option_map bind].
    change (Store.set_field (str "exp") ?v
              [(str "iss", ?a); (str "gen", ?b); (str "exp", ?e); (str "data", ?d)])
      with [(str "iss", a); (str "gen", b); (str "exp", v); (str "data", d)].
    change (find (fun kv : jstring * Store.svalue => str_eqb (str "exp") (fst kv))
              [(str "iss", ?a); (str "gen", ?b); (str "exp", ?e); (str "data", ?d)])
      with (Some (str "exp", e)).
    cbn [bind]. reflexivity.
  - unfold Store.read_exp. rewrite nth_error_alloc.
    change (JS.get (Token.payload ?d ?g0 ?e ?x) (str "exp")) with (Ok (VNum e)).
    subst c. cbn [bind].
    change (find (fun kv : jstring * Store.svalue => str_eqb (str "exp") (fst kv))
              [(str "iss", ?a); (str "gen", ?b); (str "exp", ?e); (str "data", ?d)])
      with (Some (str "exp", e)).
    reflexivity.
Qed.

Lemma snap_more_fuel (h : Store.heap) (fuel : nat) (v : Store.svalue) (u : value) :
  Store.snap fuel h v = Some u -> Store.snap (S fuel) h v = Some u.
Proof.
  revert v u. induction fuel as [|f IH]; intros [p|l] u H; try exact H.
  - discriminate H.
  - rewrite snap_ref in H. rewrite snap_ref.
    destruct (nth_error h l) as [[props|items]|]; [| |discriminate].
    + destruct (Store.all_some _) as [r|] eqn:A; [|discriminate].
      erewrite all_some_map_ext; [exact H | | exact A].
      apply Forall_forall. intros [k x] _ y Hy. cbn [fst snd] in *.
      destruct (Store.snap f h x) as [ux|] eqn:Ex; [|discriminate].
      now rewrite (IH x ux Ex).
    + destruct (Store.all_some _) as [r|] eqn:A; [|discriminate].
      erewrite all_some_map_ext; [exact H | | exact A].
      apply Forall_forall. intros x _ y Hy. now apply IH.
Qed.

(** What [JSON.stringify] sees from [user] is the same after the call. *)
Lemma generate_preserves_snapshot (CONFIG : option Token.Config) (now : float)
    (h : Store.heap) (user : Store.svalue) (u accessKey refreshKey : value) :
  Store.snapshot h user = Some u ->
  Store.snapshot (fst (Store.generate CONFIG now h user accessKey refreshKey)) user
  = Some u.
Proof.
  intro Hu.
  assert (A : forall c' : Store.cell,
             Store.snapshot (h ++ [c']) user = Some u).
  { intro c'. unfold Store.snapshot in *. rewrite length_app. cbn [length].
    rewrite Nat.add_1_r. apply snap_more_fuel.
    apply (snap_agree h (h ++ [c'])); [|exact Hu].
    intros l x E. rewrite nth_error_app1; [exact E|].
    apply nth_error_Some. congruence. }
  assert (B : forall (c' : Store.cell) (g : Store.cell -> Store.cell),
             Store.snapshot (Store.update (h ++ [c']) (length h) g) user = Some u).
  { intros c' g. unfold Store.snapshot in *.
    rewrite update_length, length_app. cbn [length]. rewrite Nat.add_1_r.
    apply snap_more_fuel.
    apply (snap_agree h); [|exact Hu].
    intros l x E. assert (l < length h) by (apply nth_error_Some; congruence).
    rewrite nth_error_update_other by lia.
    rewrite nth_error_app1 by assumption. exact E. }
  unfold Store.generate, Store.alloc, Store.write.
  destruct CONFIG as [cfg|]; [|exact Hu].
  destruct (JS.loose_eq _ (VBool false)) as [[|]|]; cbn [fst]; try apply A.
  destruct (JS.loose_neq _ _) as [[|]|]; cbn [fst]; try apply A.
  apply B.
Qed.

(** ** Worked inputs *)

(** ** The worked inputs, evaluated *)

(** Closed goals are settled by evaluation, conjunct by conjunct. *)
Ltac evaluate :=
  repeat match goal with |- _ /\ _ => split end;
  vm_compute; reflexivity.

Example demo_access_value :
  demo_access =
  str ("eyJhbGciOiJTSEEyNTYifQ%3D%3D."
       ++ "eyJpc3MiOiJleGFtcGxlLmNvbSIsImdlbiI6MTcwMDAwMDAwMDAwMCwiZXhwIjoxNzAwMDg2NDAwMDAwLCJkYXRhIjp7InVzZXJJZCI6InUxIiwidXNlcktleSI6ImsxIiwidXNlclJrZXkiOiJrMiJ9fQ%3D%3D."
       ++ "2soFFBNy3EjI2b5AAQx46RqIcZp6vttt1AAJwT%2BNkYT4QoDTolSHY07XVIPEcngaIIWdBotRnd6gI6Yb0s577Q%3D%3D").
Proof. vm_compute. reflexivity. Qed.

Example demo_decode :
  Token.decode (VStr demo_access) = token_body Token.header demo_payload demo_sign.
Proof. vm_compute. reflexivity. Qed.

(** C1, counterexample.  The token header.null.x decodes, and [validate]
    answers with the message of its [catch] block, which is none of the four
    results of the claim. *)
Lemma validate_fifth_outcome :
  Token.decode (VStr null_body_token) = token_body Token.header VNull (str "x")
  /\ Token.validate demo_now (VStr null_body_token) k1
     = Token.Result false Token.MSG_ERROR
  /\ ~ In (Token.validate demo_now (VStr null_body_token) k1)
         [Token.Result false Token.MSG_CORRUPTED; Token.Result true Token.MSG_EXPIRED;
          Token.Result false Token.MSG_INVALID; Token.Result true Token.MSG_VALID].
Proof.
  split; [vm_compute; reflexivity|].
  assert (V : Token.validate demo_now (VStr null_body_token) k1
              = Token.Result false Token.MSG_ERROR) by (vm_compute; reflexivity).
  split; [exact V|]. rewrite V. intros [H|[H|[H|[H|[]]]]]; discriminate H.
Qed.

(** C2, counterexample.  The identity has the three properties, the access
    token of the scenario decodes, the fields of its [data] are those of the
    identity and [validate] reports success; but the identity has a property
    [hasOwnProperty] of its own, the call [user.hasOwnProperty('userId')]
    throws, and [verify] returns false. *)
Lemma shadowed_hasOwnProperty :
  JS.has_own shadowing_identity (str "userId") = true
  /\ JS.has_own shadowing_identity (str "userKey") = true
  /\ JS.has_own shadowing_identity (str "userRkey") = true
  /\ Token.decode (VStr demo_access) = token_body Token.header demo_payload demo_sign
  /\ JS.get demo_payload (str "data") = Ok identity
  /\ Token.bound_to_user identity shadowing_identity = Ok true
  /\ Token.validate demo_now (VStr demo_access) k1 = Token.Result true Token.MSG_VALID
  /\ JS.hasOwnProperty shadowing_identity (str "userId") = Throw TypeError
  /\ Token.verify demo_now demo_now shadowing_identity k1 (VStr demo_access) VNull VNull
     = VBool false.
Proof. evaluate. Qed.


(** C4, counterexample.  The access token of the scenario ends with the
    escape [%3D]; with its last character [D] replaced by [G] the token no
    longer percent-decodes and [verify] returns false without looking at
    the refresh token. *)
Lemma corrupted_escape_rejected :
  Token.verify demo_now demo_now identity k1 (VStr demo_access) k2 (VStr demo_refresh)
  = VBool true
  /\ length (split dot demo_access) = 3
  /\ nth_error demo_access (length demo_access - 1) = Some (ch "D")
  /\ Token.verify demo_now demo_now identity k1
       (VStr (corrupt (length demo_access - 1) (ch "G") demo_access))
       k2 (VStr demo_refresh)
     = VBool false.
Proof. evaluate. Qed.

(** C7, counterexample.  With lifetimes of one day and of one day and the
    last binary place the refresh lifetime exceeds the access lifetime, and
    the two dates are the same number: the difference is lost when the
    product is added to the clock.  And for an identity that refers to
    itself [JSON.stringify] throws inside [encode], and [generate] returns
    false instead of a result with [accessToken]. *)
Lemma generate_dates_collide :
  (Token.LTT close_config <? Token.LTRT close_config)%float = true
  /\ JS.get (Token.generate (Some close_config) demo_now identity k1 k2) (str "dateAccess")
     = Ok (VNum 1700086400000)
  /\ JS.get (Token.generate (Some close_config) demo_now identity k1 k2) (str "dateRefresh")
     = Ok (VNum 1700086400000)
  /\ (1700086400000 <? 1700086400000)%float = false
  /\ Store.snapshot cyclic_heap (Store.SRef 0) = None
  /\ snd (Store.generate (Some demo_config) demo_now cyclic_heap (Store.SRef 0)
            k1 VUndefined) = VBool false.
Proof. evaluate. Qed.

(** C8, counterexample.  The object returned by [generateCsrf] has no
    [createdAt], and verifying the returned digest against [{id, createdAt}]
    fails: the signed text is [{"id":..,"create":..}]. *)
Lemma csrf_field_names :
  JS.has_own (Token.generateCsrf 1000 (VStr (str "x")) k1) (str "createdAt") = false
  /\ JS.has_own (Token.generateCsrf 1000 (VStr (str "x")) k1) (str "timeCreate") = true
  /\ Token.verifyCsrf k1
       (VObj [(str "id", VStr (str "x")); (str "createdAt", VNum 1000)])
       (VStr (string_field (Token.generateCsrf 1000 (VStr (str "x")) k1) "csrfToken"))
     = VBool false
  /\ Token.verifyCsrf k1
       (VObj [(str "id", VStr (str "x")); (str "create", VNum 1000)])
       (VStr (string_field (Token.generateCsrf 1000 (VStr (str "x")) k1) "csrfToken"))
     = VBool true.
Proof. evaluate. Qed.


(** ** The theorems at the worked inputs *)

(** The scenario of C4 with the first character of the signature segment
    replaced: the token still decodes, the access check reports an invalid
    token, and the refresh token carries the verification. *)
Example first_signature_character_corrupted :
  nth_error demo_access demo_sign_offset = Some (ch "2")
  /\ Token.validate demo_now
       (VStr (corrupt demo_sign_offset (ch "A") demo_access)) k1
     = Token.Result false Token.MSG_INVALID
  /\ Token.validate demo_now (VStr demo_refresh) k2
     = Token.Result true Token.MSG_VALID
  /\ Token.verify demo_now demo_now identity k1
       (VStr (corrupt demo_sign_offset (ch "A") demo_access)) k2 (VStr demo_refresh)
     = VBool true
  /\ Token.verify demo_now demo_now identity k1
       (VStr (corrupt demo_sign_offset (ch "A") demo_access)) VNull VNull
     = VBool false.
Proof. evaluate. Qed.

(** [generate(identity, "k1", null)]: [null != ''] holds, the refresh branch
    runs, [encode] refuses the null key and [generate] returns false. *)
Example generate_null_refresh_key :
  Token.generate (Some demo_config) demo_now identity k1 VNull = VBool false.
Proof. vm_compute. reflexivity. Qed.

Lemma verify_requires_capability_witness :
  (JS.has_own partial_identity (str "userId") = false \/
   JS.has_own partial_identity (str "userKey") = false \/
   JS.has_own partial_identity (str "userRkey") = false)
  /\ Token.verify demo_now demo_now partial_identity k1 (VStr demo_access) k2
       (VStr demo_refresh) = VBool false.
Proof.
  assert (H : JS.has_own partial_identity (str "userId") = false \/
              JS.has_own partial_identity (str "userKey") = false \/
              JS.has_own partial_identity (str "userRkey") = false).
  { right. right. vm_compute. reflexivity. }
  split; [exact H|].
  exact (verify_requires_capability demo_now demo_now partial_identity k1
           (VStr demo_access) k2 (VStr demo_refresh) H).
Defined.

Lemma verify_access_success_witness :
  JS.has_own identity (str "hasOwnProperty") = false
  /\ JS.has_own identity (str "userId") = true
  /\ JS.has_own identity (str "userKey") = true
  /\ JS.has_own identity (str "userRkey") = true
  /\ Token.decode (VStr demo_access) = token_body Token.header demo_payload demo_sign
  /\ JS.get demo_payload (str "data") = Ok identity
  /\ matching identity identity
  /\ JS.get (Token.validate demo_now (VStr demo_access) k1) (str "success")
     = Ok (VBool true)
  /\ Token.verify demo_now demo_now identity k1 (VStr demo_access) VNull VNull
     = VBool true.
Proof.
  assert (H : JS.has_own identity (str "hasOwnProperty") = false) by reflexivity.
  assert (I : JS.has_own identity (str "userId") = true) by reflexivity.
  assert (K : JS.has_own identity (str "userKey") = true) by reflexivity.
  assert (R : JS.has_own identity (str "userRkey") = true) by reflexivity.
  assert (D : Token.decode (VStr demo_access)
              = token_body Token.header demo_payload demo_sign)
    by (vm_compute; reflexivity).
  assert (G : JS.get demo_payload (str "data") = Ok identity)
    by (vm_compute; reflexivity).
  assert (M : matching identity identity).
  { repeat constructor; eexists _, _; repeat split; reflexivity. }
  assert (V : JS.get (Token.validate demo_now (VStr demo_access) k1) (str "success")
              = Ok (VBool true)) by (vm_compute; reflexivity).
  repeat match goal with |- _ /\ _ => split; [assumption|] end.
  exact (verify_access_success demo_now demo_now identity k1 (VStr demo_access)
           VNull VNull Token.header demo_payload identity demo_sign H I K R D G M V).
Defined.

Lemma expired_before_signature_witness :
  Token.decode (VStr demo_access) = token_body Token.header demo_payload demo_sign
  /\ expired demo_payload demo_later = Ok true
  /\ Token.validate demo_later (VStr demo_access) (VStr (str "not the key"))
     = Token.Result true Token.MSG_EXPIRED
  /\ Token.verify demo_later demo_later identity (VStr (str "not the key"))
       (VStr demo_access) VNull VNull = VBool true.
Proof.
  assert (D : Token.decode (VStr demo_access)
              = token_body Token.header demo_payload demo_sign)
    by (vm_compute; reflexivity).
  assert (X : expired demo_payload demo_later = Ok true) by (vm_compute; reflexivity).
  destruct (expired_before_signature demo_later (VStr demo_access)
              Token.header demo_payload demo_sign D X) as [V F].
  split; [exact D|]. split; [exact X|]. split; [apply V|].
  apply (F demo_later identity identity).
  - vm_compute. reflexivity.
  - vm_compute. reflexivity.
  - vm_compute. reflexivity.
Defined.


Lemma fallback_scenario_witness :
  Json.well_formed 256 (Token.DOMAIN demo_config) = true
  /\ exists A R seg0 seg1 seg2 sign,
      Token.generate (Some demo_config) demo_now identity (VStr (str "k1"))
        (VStr (str "k2")) =
      VObj [(str "success", VNum 1);
            (str "accessToken", VStr A);
            (str "refreshToken", VStr R);
            (str "dateAccess", VNum (Token.expiry demo_now (Token.LTT demo_config)));
            (str "dateRefresh", VNum (Token.expiry demo_now (Token.LTRT demo_config)))]
      /\ Token.verify demo_now demo_later identity
           (VStr (str "k1")) (VStr A) (VStr (str "k2")) (VStr R) = VBool true
      /\ split dot A = [seg0; seg1; seg2]
      /\ JS.get (Token.decode (VStr A)) (str "sign") = Ok (VStr sign)
      /\ forall (i : nat) (c : N),
          let A' := JS.join (str ".") [seg0; seg1; corrupt i c seg2] in
          match Uri.decodeURIComponent (corrupt i c seg2) with
          | Throw _ =>
              Token.verify demo_now demo_later identity
                (VStr (str "k1")) (VStr A') (VStr (str "k2")) (VStr R) = VBool false
          | Ok tail =>
              Token.verify demo_now demo_later identity
                (VStr (str "k1")) (VStr A') (VStr (str "k2")) (VStr R) = VBool true
              /\ (lapsed (Token.expiry demo_now (Token.LTT demo_config)) demo_now = false ->
                  JS.nth_string (split dot tail) 0 <> sign ->
                  Token.validate demo_now (VStr A') (VStr (str "k1"))
                  = Token.Result false Token.MSG_INVALID
                  /\ JS.get (Token.validate demo_later (VStr R) (VStr (str "k2")))
                       (str "success") = Ok (VBool true))
          end.
Proof.
  assert (W : Json.well_formed 256 (Token.DOMAIN demo_config) = true)
    by (vm_compute; reflexivity).
  split; [exact W|].
  exact (fallback_scenario demo_config demo_now demo_now demo_later W).
Defined.

(** One day and seven days on the clock of the scenario, and the dates as
    whole numbers. *)
Lemma generate_tokens_and_dates_witness :
  str "k1" <> []
  /\ finite_number demo_now = true
  /\ (Token.LTT demo_config <? Token.LTRT demo_config)%float = true
  /\ demo_now = JS.of_N 1700000000000
  /\ Token.LTT demo_config = JS.of_N 1
  /\ Token.LTRT demo_config = JS.of_N 7
  /\ (1 < 7)%N
  /\ (1700000000000 + 86400000 * 7 < 2 ^ 53)%N
  /\ (exists A,
         Token.generate (Some demo_config) demo_now identity k1 VUndefined =
         VObj [(str "success", VNum 1);
               (str "accessToken", VStr A);
               (str "dateAccess", VNum (demo_now + 86400000 * 1))])
  /\ (exists A R,
         Token.generate (Some demo_config) demo_now identity k1 k2 =
         VObj [(str "success", VNum 1);
               (str "accessToken", VStr A);
               (str "refreshToken", VStr R);
               (str "dateAccess", VNum (demo_now + 86400000 * 1));
               (str "dateRefresh", VNum (demo_now + 86400000 * 7))])
  /\ (demo_now + 86400000 * 1 <=? demo_now + 86400000 * 7)%float = true
  /\ (demo_now + 86400000 * 1 <? demo_now + 86400000 * 7)%float = true.
Proof.
  assert (K : str "k1" <> []) by discriminate.
  assert (F : finite_number demo_now = true) by reflexivity.
  assert (L : (Token.LTT demo_config <? Token.LTRT demo_config)%float = true)
    by reflexivity.
  assert (En : demo_now = JS.of_N 1700000000000) by (vm_compute; reflexivity).
  assert (Ea : Token.LTT demo_config = JS.of_N 1) by (vm_compute; reflexivity).
  assert (Eb : Token.LTRT demo_config = JS.of_N 7) by (vm_compute; reflexivity).
  assert (Lab : (1 < 7)%N) by reflexivity.
  assert (B : (1700000000000 + 86400000 * 7 < 2 ^ 53)%N) by reflexivity.
  destruct (generate_tokens_and_dates demo_config demo_now identity (str "k1") K)
    as (G1 & G2 & G3 & G4).
  repeat match goal with |- _ /\ _ => split; [assumption|] end.
  split; [|split; [|split]].
  - destruct (G1 VUndefined (or_introl eq_refl)) as (A & E & _). exists A. exact E.
  - apply (G2 (str "k2")). discriminate.
  - exact (G3 F L).
  - exact (G4 1700000000000%N 1%N 7%N En Ea Eb Lab B).
Defined.


(** * Further properties of the token class *)

(** ** Keys that [encode] accepts *)

Lemma serialize_undefined (v : value) : Json.serialize v = None -> v = VUndefined.
Proof. destruct v as [ | | [|] | n | s | items | props]; cbn; congruence. Qed.

Lemma stringify_undefined (v : value) :
  Json.stringify v = VUndefined <-> v = VUndefined.
Proof.
  split.
  - unfold Json.stringify. destruct (Json.serialize v) eqn:E; [discriminate|].
    intros _. now apply serialize_undefined.
  - intros ->. reflexivity.
Qed.

(** X1.  With a string key and data that is a tree of plain values,
    [encode] returns [false] exactly when the key is the empty string or the
    data is [undefined]; in every other case it returns a token string.  For
    data made of objects in a store the third case is data that leads back
    to itself, on which [JSON.stringify] throws. *)
Theorem encode_refuses_exactly (k : jstring) :
  (forall data,
      Token.encode data (VStr k) = VBool false <-> k = [] \/ data = VUndefined)
  /\ (forall data,
         k <> [] -> data <> VUndefined -> exists t, Token.encode data (VStr k) = VStr t)
  /\ (forall h v,
         Store.encode h v (VStr k) = VBool false <->
         k = [] \/ Store.snapshot h v = None \/ Store.snapshot h v = Some VUndefined).
Proof.
  assert (G : forall data, k <> [] -> data <> VUndefined ->
              exists t, Token.encode data (VStr k) = VStr t).
  { intros data Hk Hd. destruct (stringify_cases data) as [U | (td & S)].
    - apply (proj1 (stringify_undefined data)) in U. contradiction.
    - eexists. apply (encode_string_key data k td Hk S). }
  assert (R : forall data,
             Token.encode data (VStr k) = VBool false <-> k = [] \/ data = VUndefined).
  { intro data. split.
    - intro F. destruct k as [|c k']; [now left|]. right.
      destruct data; try reflexivity;
        match goal with
        | |- ?d = VUndefined =>
            destruct (G d) as (t & E); [discriminate | discriminate | congruence]
        end.
    - intros [-> | ->].
      + reflexivity.
      + destruct k; reflexivity. }
  split; [exact R|]. split; [exact G|].
  intros h v. unfold Store.encode. destruct (Store.snapshot h v) as [d|].
  - rewrite R. split.
    + intros [H | ->]; auto.
    + intros [H | [H | H]]; [now left | discriminate | right; congruence].
  - split; auto.
Qed.

Lemma encode_refuses_exactly_witness :
  Store.encode cyclic_heap (Store.SRef 0) k1 = VBool false
  /\ exists t, Token.encode identity (VStr (str "k1")) = VStr t.
Proof.
  destruct (encode_refuses_exactly (str "k1")) as (_ & G & S).
  split.
  - apply (S cyclic_heap (Store.SRef 0)). right. left. reflexivity.
  - apply (G identity); discriminate.
Defined.

Lemma encode_coerces (data key : value) (k : jstring) :
  key_given key = Ok true ->
  JS.ToString key = Ok k ->
  k <> [] ->
  Token.encode data key = Token.encode data (VStr k).
Proof.
  intros G T Hk. unfold Token.encode, Token.encode_body. fold (key_given key). fold (key_given (VStr k)).
  rewrite G.
  assert (G' : key_given (VStr k) = Ok true).
  { unfold key_given, Token.and_then, JS.loose_neq. rewrite loose_eq_strings.
    apply str_eqb_neq in Hk. rewrite Hk. reflexivity. }
  rewrite G', T. reflexivity.
Qed.

Lemma number_key_given (x : float) :
  key_given (VNum x) = Ok (negb (x =? 0)%float).
Proof. reflexivity. Qed.

(** X2.  A key is used through [String(key)], and a key that is loosely
    equal to [null] or to the empty string is refused: [null], [undefined],
    [false], the empty array and the numbers equal to 0 give [false] for
    every data, every other number (NaN among them) signs like the text
    [String] gives for it, and [true] like "true". *)
Theorem encode_key_coercion (data : value) :
  Token.encode data VNull = VBool false
  /\ Token.encode data VUndefined = VBool false
  /\ Token.encode data (VBool false) = VBool false
  /\ Token.encode data (VArr []) = VBool false
  /\ (forall x : float,
         (x =? 0)%float = true -> Token.encode data (VNum x) = VBool false)
  /\ (forall x : float,
         (x =? 0)%float = false ->
         Token.encode data (VNum x) = Token.encode data (VStr (JS.Number_toString x)))
  /\ Token.encode data (VBool true) = Token.encode data (VStr (str "true")).
Proof.
  repeat split; try reflexivity.
  - intros x Hx. unfold Token.encode, Token.encode_body. fold (key_given (VNum x)).
    now rewrite number_key_given, Hx.
  - intros x Hx. apply encode_coerces; [| reflexivity | apply Number_toString_nonempty].
    now rewrite number_key_given, Hx.
Qed.

Lemma encode_key_coercion_witness :
  Token.encode identity (VNum 0) = VBool false
  /\ Token.encode identity (VNum 1.5) = Token.encode identity (VStr (str "1.5"))
  /\ Token.encode identity (VNum 1e21) = Token.encode identity (VStr (str "1e+21"))
  /\ Token.encode identity (VNum nan) = Token.encode identity (VStr (str "NaN")).
Proof.
  destruct (encode_key_coercion identity) as (_ & _ & _ & _ & Z & N & _).
  assert (E : JS.Number_toString 1e21 = str "1e+21") by (vm_compute; reflexivity).
  split; [apply Z; reflexivity|].
  split; [apply (N 1.5%float); reflexivity|].
  split; [rewrite <- E; apply (N 1e21%float); reflexivity | apply (N nan); reflexivity].
Defined.

(** ** The alphabet of a token *)

Lemma encode_given (data key : value) (k td : jstring) :
  key_given key = Ok true ->
  Json.stringify data = VStr td ->
  JS.ToString key = Ok k ->
  Token.encode data key =
  VStr (wire (segment (text Token.header)) (segment td)
          (signature k [segment (text Token.header); segment td])).
Proof.
  intros G Hd T. unfold Token.encode, Token.encode_body. fold (key_given key).
  rewrite G. cbn [bind]. rewrite header_text, Hd.
  change (Token.btoa (VStr ?t)) with (Ok (segment t)). cbn [bind].
  rewrite T. cbn [bind].
  change (Crypto.hmac_sha512 (VStr k) (VStr ?d) Crypto.base64)
    with (Ok (Crypto.digest Crypto.base64
                (Sha512.hmac (Utf8.bytes_of_string k) (Utf8.bytes_of_string d)))).
  cbn [bind].
  rewrite <- (signature_two k (segment (text Token.header)) (segment td) []).
  pose proof (signature_base64 k [segment (text Token.header); segment td]) as Hsig.
  revert Hsig. generalize (signature k [segment (text Token.header); segment td]).
  intros sig Hsig.
  change (JS.join (str ".") [segment (text Token.header); segment td; sig])
    with (segment (text Token.header) ++ str "." ++ segment td ++ str "." ++ sig).
  rewrite encodeURIComponent_ascii; [reflexivity|].
  apply dotted_ascii; [apply segment_base64 | apply segment_base64 |].
  apply base64_ascii. exact Hsig.
Qed.

Lemma encode_inv (data key : value) (t : jstring) :
  Token.encode data key = VStr t ->
  exists k td,
    Json.stringify data = VStr td /\
    t = wire (segment (text Token.header)) (segment td)
          (signature k [segment (text Token.header); segment td]).
Proof.
  intro E.
  destruct (key_given key) as [[|]|e] eqn:G.
  - destruct (stringify_cases data) as [U | (td & S)].
    + exfalso. revert E. unfold Token.encode, Token.encode_body. fold (key_given key).
      rewrite G, U. cbn [bind]. rewrite header_text.
      change (Token.btoa (VStr ?t)) with (Ok (segment t)). cbn. discriminate.
    + destruct (JS.ToString key) as [k|e] eqn:T.
      * exists k, td. split; [exact S|].
        rewrite (encode_given data key k td G S T) in E. now injection E.
      * exfalso. revert E. unfold Token.encode, Token.encode_body. fold (key_given key).
        rewrite G, S. cbn [bind]. rewrite header_text.
        change (Token.btoa (VStr ?t)) with (Ok (segment t)). cbn [bind].
        rewrite T. cbn. discriminate.
  - exfalso. revert E. unfold Token.encode, Token.encode_body. fold (key_given key). rewrite G.
    cbn. discriminate.
  - exfalso. revert E. unfold Token.encode, Token.encode_body. fold (key_given key). rewrite G.
    cbn. discriminate.
Qed.

Lemma escape_token_chars (c : N) :
  is_base64_char c || (c =? 46)%N = true ->
  forallb token_char (escape_ascii c) = true.
Proof.
  intro H.
  assert (L : (c < 128)%N).
  { apply orb_true_iff in H as [H | H].
    - apply (base64_char_ascii c H).
    - apply N.eqb_eq in H. subst. reflexivity. }
  pose proof (check_below
                (fun c => implb (is_base64_char c || (c =? 46)%N)
                            (forallb token_char (escape_ascii c))) 128
                eq_refl c L) as C.
  cbv beta in C. rewrite H in C. exact C.
Qed.

Lemma wire_token_chars (s : jstring) :
  forallb (fun c => is_base64_char c || (c =? 46)%N) s = true ->
  forallb token_char (flat_map escape_ascii s) = true.
Proof.
  induction s as [|c s IH]; intro H; [reflexivity|].
  cbn [forallb] in H. apply andb_true_iff in H as [Hc Hs].
  cbn [flat_map]. rewrite forallb_app, (escape_token_chars c Hc), (IH Hs). reflexivity.
Qed.

Lemma base64_or_dot (s : jstring) :
  forallb is_base64_char s = true ->
  forallb (fun c => is_base64_char c || (c =? 46)%N) s = true.
Proof.
  intro H. rewrite forallb_forall in *. intros c Hc. now rewrite (H c Hc).
Qed.

(** X3.  Every token that [encode] returns, for any data and any key,
    consists of letters, digits, dots and percent signs only: it can be put
    in a URL or in a cookie as it is. *)
Theorem encode_alphabet (data key : value) (t : jstring) :
  Token.encode data key = VStr t -> forallb token_char t = true.
Proof.
  intro E. destruct (encode_inv data key t E) as (k & td & _ & ->).
  unfold wire. apply wire_token_chars.
  rewrite !forallb_app.
  rewrite (base64_or_dot _ (segment_base64 _)), (base64_or_dot _ (segment_base64 _)),
    (base64_or_dot _ (signature_base64 _ _)).
  reflexivity.
Qed.

Lemma encode_alphabet_witness :
  Token.encode demo_payload k1 = VStr demo_access
  /\ forallb token_char demo_access = true.
Proof.
  assert (E : Token.encode demo_payload k1 = VStr demo_access)
    by (vm_compute; reflexivity).
  split; [exact E|].
  exact (encode_alphabet demo_payload k1 demo_access E).
Defined.

(** ** Signing, then validating *)

Lemma expired_exp (props : list (jstring * value)) (now : float) :
  expired (VObj props) now =
  match JS.lookup (str "exp") props with
  | Some exp => JS.lt_num exp now
  | None => Ok false
  end.
Proof.
  unfold expired, JS.get, JS.find, JS.get_own. cbn [JS.kind_of bind].
  destruct (JS.lookup (str "exp") props) as [exp|] eqn:L; [reflexivity|].
  assert (I : JS.inherits JS.KObject (str "exp") = None) by reflexivity.
  rewrite I. unfold JS.lt_num. cbn [JS.ToPrimitive JS.is_object bind JS.ToNumber].
  now rewrite nan_ltb.
Qed.

Lemma encode_issued (P : value) (K : jstring) :
  Json.well_formed 256 P = true ->
  K <> [] ->
  Token.encode P (VStr K) = VStr (issued K (text P)).
Proof.
  intros W HK.
  destruct (parse_stringify P (well_formed_mono P W)) as [S _].
  apply (encode_string_key P K (text P) HK S).
Qed.

(** X4.  A payload object with a numeric [exp], signed by [encode] with a
    non-empty key, is accepted by [validate] under the same key: the answer
    is "valid" as long as the clock has not passed [exp] (the instant [exp]
    itself included) and "expired" afterwards; it is never "corrupted",
    "invalid" or the error result. *)
Theorem validate_encode (now : float) (props : list (jstring * value)) (K : jstring)
    (e : float) :
  Json.well_formed 256 (VObj props) = true ->
  K <> [] ->
  JS.lookup (str "exp") props = Some (VNum e) ->
  exists t,
    Token.encode (VObj props) (VStr K) = VStr t /\
    Token.validate now (VStr t) (VStr K) =
    if (e <? now)%float then Token.Result true Token.MSG_EXPIRED
    else Token.Result true Token.MSG_VALID.
Proof.
  intros W HK L. exists (issued K (text (VObj props))).
  split; [apply (encode_issued _ K W HK)|].
  rewrite (validate_issued now (VObj props) K W), expired_exp, L.
  unfold JS.lt_num. cbn [JS.ToPrimitive JS.is_object bind JS.ToNumber].
  destruct (e <? now)%float; reflexivity.
Qed.

Lemma validate_encode_witness :
  Json.well_formed 256 demo_payload = true
  /\ str "k1" <> []
  /\ exists t,
      Token.encode demo_payload (VStr (str "k1")) = VStr t /\
      Token.validate (demo_now + 86400000) (VStr t) (VStr (str "k1")) =
      Token.Result true Token.MSG_VALID.
Proof.
  assert (W : Json.well_formed 256 demo_payload = true) by (vm_compute; reflexivity).
  assert (K : str "k1" <> []) by discriminate.
  split; [exact W|]. split; [exact K|].
  exact (validate_encode (demo_now + 86400000)
           [(str "iss", VStr (str "example.com")); (str "gen", VNum demo_now);
            (str "exp", VNum (demo_now + 86400000)); (str "data", identity)]
           (str "k1") (demo_now + 86400000) W K eq_refl).
Defined.

(** X5.  A payload object without an [exp] property never expires: signed
    with a non-empty key, it is "valid" under that key at every reading of
    the clock. *)
Theorem validate_without_exp (props : list (jstring * value)) (K : jstring) :
  Json.well_formed 256 (VObj props) = true ->
  K <> [] ->
  JS.lookup (str "exp") props = None ->
  exists t,
    Token.encode (VObj props) (VStr K) = VStr t /\
    forall now : float,
      Token.validate now (VStr t) (VStr K) = Token.Result true Token.MSG_VALID.
Proof.
  intros W HK L. exists (issued K (text (VObj props))).
  split; [apply (encode_issued _ K W HK)|].
  intro now. rewrite (validate_issued now (VObj props) K W), expired_exp, L.
  reflexivity.
Qed.

Lemma validate_without_exp_witness :
  Json.well_formed 256 identity = true
  /\ str "k1" <> []
  /\ JS.lookup (str "exp")
       [(str "userId", VStr (str "u1")); (str "userKey", VStr (str "k1"));
        (str "userRkey", VStr (str "k2"))] = None
  /\ exists t,
      Token.encode identity (VStr (str "k1")) = VStr t /\
      forall now : float,
        Token.validate now (VStr t) (VStr (str "k1"))
        = Token.Result true Token.MSG_VALID.
Proof.
  assert (W : Json.well_formed 256 identity = true) by (vm_compute; reflexivity).
  assert (K : str "k1" <> []) by discriminate.
  split; [exact W|]. split; [exact K|]. split; [reflexivity|].
  exact (validate_without_exp _ (str "k1") W K eq_refl).
Defined.

(** ** Segments after the third *)

Lemma unescape_app_upto (n : nat) (a x : jstring) (ia : list Uri.item) :
  (length a <= n)%nat ->
  Uri.unescape a = Ok ia ->
  Uri.unescape (a ++ x) = let* r := Uri.unescape x in Ok (ia ++ r).
Proof.
  revert a ia. induction n as [|n IH]; intros a ia Hn Ha.
  - destruct a; [|simpl in Hn; lia]. cbn in Ha. injection Ha as <-.
    cbn [app]. destruct (Uri.unescape x); reflexivity.
  - destruct a as [|c a]; [cbn in Ha; injection Ha as <-; cbn [app];
                           destruct (Uri.unescape x); reflexivity|].
    cbn [app Uri.unescape] in *.
    destruct (c =? Uri.percent)%N.
    + destruct a as [|h [|l a]]; try discriminate.
      cbn [app].
      destruct (Hex.digit_value h); try discriminate.
      destruct (Hex.digit_value l); try discriminate.
      destruct (Uri.unescape a) as [ra|] eqn:E; try discriminate.
      cbn [bind] in Ha. injection Ha as <-.
      rewrite (IH a ra); [| simpl in Hn; lia | exact E].
      destruct (Uri.unescape x); reflexivity.
    + destruct (Uri.unescape a) as [ra|] eqn:E; try discriminate.
      cbn [bind] in Ha. injection Ha as <-.
      rewrite (IH a ra); [| simpl in Hn; lia | exact E].
      destruct (Uri.unescape x); reflexivity.
Qed.

Lemma decode_items_app_upto (n : nat) (ia ix : list Uri.item) (da : jstring) :
  (length ia <= n)%nat ->
  Uri.decode_items ia = Ok da ->
  Uri.decode_items (ia ++ ix) = let* r := Uri.decode_items ix in Ok (da ++ r).
Proof.
  revert ia da. induction n as [|n IH]; intros ia da Hn Ha.
  - destruct ia; [|simpl in Hn; lia]. cbn in Ha. injection Ha as <-.
    cbn [app]. destruct (Uri.decode_items ix); reflexivity.
  - assert (step : forall rest pre dr,
               (length rest <= n)%nat ->
               (let* r := Uri.decode_items rest in Ok (pre ++ r)) = Ok dr ->
               (let* r := Uri.decode_items (rest ++ ix) in Ok (pre ++ r))
               = let* r := Uri.decode_items ix in Ok (dr ++ r)).
    { intros rest pre dr Hr H.
      destruct (Uri.decode_items rest) as [rr|] eqn:E; try discriminate.
      cbn [bind] in H. injection H as <-.
      rewrite (IH rest rr Hr E).
      destruct (Uri.decode_items ix); cbn [bind]; [|reflexivity].
      now rewrite List.app_assoc. }
    destruct ia as [|[c|b] rest].
    + cbn in Ha. injection Ha as <-. cbn [app].
      destruct (Uri.decode_items ix); reflexivity.
    + cbn [app Uri.decode_items] in *.
      apply (step rest [c] da); [simpl in Hn; lia | exact Ha].
    + cbn [app Uri.decode_items] in *.
      destruct (b <? 128)%N.
      { apply (step rest [b] da); [simpl in Hn; lia | exact Ha]. }
      destruct (N.shiftr b 5 =? 6)%N.
      { destruct rest as [|[|b1] rest]; try discriminate. cbn [app].
        destruct (_ && _); try discriminate.
        apply (step rest [_] da); [simpl in Hn; lia | exact Ha]. }
      destruct (N.shiftr b 4 =? 14)%N.
      { destruct rest as [|[|b1] [|[|b2] rest]]; try discriminate. cbn [app].
        destruct (_ && _); try discriminate.
        apply (step rest [_] da); [simpl in Hn; lia | exact Ha]. }
      destruct (N.shiftr b 3 =? 30)%N; try discriminate.
      destruct rest as [|[|b1] [|[|b2] [|[|b3] rest]]]; try discriminate. cbn [app].
      destruct (_ && _); try discriminate.
      apply (step rest (Uri.code_units_of_code_point _) da); [simpl in Hn; lia | exact Ha].
Qed.

(** Percent-decoding goes through a concatenation when the first part
    decodes on its own. *)
Lemma decodeURIComponent_app (a x d : jstring) :
  Uri.decodeURIComponent a = Ok d ->
  Uri.decodeURIComponent (a ++ x) = let* r := Uri.decodeURIComponent x in Ok (d ++ r).
Proof.
  unfold Uri.decodeURIComponent. intro H.
  destruct (Uri.unescape a) as [ia|] eqn:U; try discriminate. cbn [bind] in H.
  rewrite (unescape_app_upto (length a) a x ia (le_n _) U).
  destruct (Uri.unescape x) as [ix|]; cbn [bind]; [|reflexivity].
  apply (decode_items_app_upto (length ia) ia ix d (le_n _) H).
Qed.

Lemma split_cons (sep c : N) (s : jstring) :
  split sep (c :: s) =
  if (c =? sep)%N then [] :: split sep s
  else match split sep s with
       | seg :: segs => (c :: seg) :: segs
       | [] => [[c]]
       end.
Proof. reflexivity. Qed.

Lemma split_app_sep (sep : N) (d y : jstring) :
  split sep (d ++ sep :: y) = split sep d ++ split sep y.
Proof.
  induction d as [|c d IH].
  - cbn [app]. rewrite split_cons, N.eqb_refl. reflexivity.
  - cbn [app]. rewrite !split_cons. destruct (c =? sep)%N.
    + now rewrite IH.
    + rewrite IH. pose proof (split_nonempty sep d) as NE.
      destruct (split sep d); [contradiction|reflexivity].
Qed.

Lemma nth_string_app (l l' : list jstring) (i : nat) :
  (i < length l)%nat -> JS.nth_string (l ++ l') i = JS.nth_string l i.
Proof. intro H. unfold JS.nth_string. now apply app_nth1. Qed.

Lemma signature_app (k : jstring) (l l' : list jstring) :
  (3 <= length l)%nat -> signature k (l ++ l') = signature k l.
Proof.
  intro H. unfold signature. rewrite !nth_string_app by lia. reflexivity.
Qed.

(** X6.  Only the first three segments of a token are read: when a token
    decodes, appending a dot and any text that percent-decodes leaves the
    result of [decode] and, for every key and clock reading, the result of
    [validate] unchanged. *)
Theorem trailing_segments_ignored (now : float) (t x x' : jstring) (key h b : value)
    (s : jstring) :
  Token.decode (VStr t) = token_body h b s ->
  Uri.decodeURIComponent x = Ok x' ->
  Token.decode (VStr (t ++ str "." ++ x)) = token_body h b s
  /\ Token.validate now (VStr (t ++ str "." ++ x)) key
     = Token.validate now (VStr t) key.
Proof.
  intros D X.
  destruct (decode_string_inv t h b s D) as (d & Ud & L & Ph & Pb & ->).
  assert (U : Uri.decodeURIComponent (t ++ str "." ++ x) = Ok (d ++ dot :: x')).
  { rewrite (decodeURIComponent_app t (str "." ++ x) d Ud).
    change (str "." ++ x) with (flat_map escape_ascii (str ".") ++ x).
    rewrite decodeURIComponent_prefix, X; [reflexivity|].
    repeat constructor. }
  assert (D' : Token.decode (VStr (t ++ str "." ++ x))
               = token_body h b (JS.nth_string (split dot d) 2)).
  { rewrite decode_string, U.
    destruct (t ++ str "." ++ x) eqn:E; [destruct t; discriminate|].
    cbv zeta. rewrite split_app_sep, length_app.
    replace (length (split dot d) + length (split dot x') <? 3)%nat with false
      by (symmetry; apply Nat.ltb_ge; lia).
    rewrite !nth_string_app by lia. rewrite Ph, Pb. reflexivity. }
  split; [exact D'|].
  rewrite (validate_decoded now _ key h b _ D'), (validate_decoded now _ key h b _ D).
  cbn [JS.ToString bind]. rewrite U, Ud. cbn [bind].
  rewrite split_app_sep.
  destruct (expired b now) as [[|]|]; cbn [bind]; try reflexivity.
  destruct (JS.ToString key) as [k|]; cbn [bind]; try reflexivity.
  rewrite signature_app by exact L. reflexivity.
Qed.

Lemma trailing_segments_ignored_witness :
  Token.decode (VStr demo_access) = token_body Token.header demo_payload demo_sign
  /\ Uri.decodeURIComponent (str "anything%20else") = Ok (str "anything else")
  /\ Token.decode (VStr (demo_access ++ str "." ++ str "anything%20else"))
     = token_body Token.header demo_payload demo_sign
  /\ Token.validate demo_now (VStr (demo_access ++ str "." ++ str "anything%20else")) k1
     = Token.validate demo_now (VStr demo_access) k1.
Proof.
  assert (D : Token.decode (VStr demo_access)
              = token_body Token.header demo_payload demo_sign)
    by (vm_compute; reflexivity).
  assert (X : Uri.decodeURIComponent (str "anything%20else") = Ok (str "anything else"))
    by (vm_compute; reflexivity).
  split; [exact D|]. split; [exact X|].
  exact (trailing_segments_ignored demo_now demo_access _ _ k1 _ _ _ D X).
Defined.

(** ** Verifying what [generate] issued *)

(** The access token of [generate], with or without a refresh key. *)
Lemma generate_access_token (cfg : Token.Config) (now : float) (user : value)
    (ak : jstring) (rk : value) :
  ak <> [] ->
  rk = VUndefined \/ (exists r, rk = VStr r) ->
  exists td,
    Json.stringify
      (Token.payload (Token.DOMAIN cfg) now (Token.expiry now (Token.LTT cfg)) user)
    = VStr td /\
    JS.get (Token.generate (Some cfg) now user (VStr ak) rk) (str "accessToken")
    = Ok (VStr (issued ak td)).
Proof.
  intros Hk [-> | ([|c r] & ->)].
  - destruct (generate_access_only cfg now user ak VUndefined Hk (or_introl eq_refl))
      as (td & S & ->).
    exists td. split; [exact S | reflexivity].
  - destruct (generate_access_only cfg now user ak (VStr []) Hk (or_intror eq_refl))
      as (td & S & ->).
    exists td. split; [exact S | reflexivity].
  - destruct (generate_both cfg now user ak (c :: r) Hk) as (td & tr & S & _ & ->);
      [discriminate|].
    exists td. split; [exact S | reflexivity].
Qed.

Lemma eqb_plain (x : float) : Json.plain_number x = true -> (x =? x)%float = true.
Proof.
  unfold Json.plain_number. rewrite eqb_spec. unfold SFeqb.
  destruct (Prim2SF x) as [s | s | | s m e]; try discriminate; intros _; [reflexivity|].
  cbn [SFcompare]. rewrite Z.compare_refl, Pos.compare_cont_refl.
  destruct s; reflexivity.
Qed.

(** A primitive value of a payload is loosely equal to itself. *)
Lemma loose_eq_refl (x : value) :
  JS.is_object x = false -> Json.well_formed 256 x = true -> JS.loose_eq x x = Ok true.
Proof.
  destruct x as [ | | [|] | n | s | items | props]; try discriminate; intros _ W;
    try reflexivity.
  - unfold JS.loose_eq. cbn [JS.is_nullish JS.is_object andb JS.ToPrimitive bind].
    unfold JS.prim_loose_eq. cbn [JS.ToNumber]. cbn [Json.well_formed] in W.
    now rewrite (eqb_plain n W).
  - rewrite loose_eq_strings, str_eqb_refl. reflexivity.
Qed.

Lemma own_property (props : list (jstring * value)) (k : jstring) (x : value) :
  JS.lookup k props = Some x ->
  JS.get (VObj props) k = Ok x /\ JS.find (VObj props) k = Ok (JS.Own x).
Proof.
  intro L. unfold JS.get, JS.find, JS.get_own. cbn [JS.kind_of bind]. rewrite L.
  split; reflexivity.
Qed.

Lemma well_formed_property (bound : N) (props : list (jstring * value)) (k : jstring)
    (x : value) :
  Json.well_formed bound (VObj props) = true ->
  In (k, x) props -> Json.well_formed bound x = true.
Proof.
  rewrite well_formed_object. intros W I. apply andb_true_iff in W as [_ W].
  rewrite forallb_forall in W. specialize (W _ I). cbn [fst snd] in W.
  now apply andb_true_iff in W as [_ W].
Qed.

Lemma lookup_in (k : jstring) (props : list (jstring * value)) (x : value) :
  JS.lookup k props = Some x -> exists k', In (k', x) props.
Proof.
  induction props as [|[k' v] props IH]; [discriminate|].
  cbn [JS.lookup]. destruct (str_eqb k k').
  - intros [= ->]. exists k'. now left.
  - intro H. destruct (IH H) as (k'' & I). exists k''. now right.
Qed.

Lemma lookup_own_key (props : list (jstring * value)) (k : jstring) :
  In k (map fst props) -> exists x, JS.lookup k props = Some x.
Proof.
  induction props as [|[k' v] props IH]; [contradiction|].
  cbn [map fst JS.lookup In]. intros [-> | H].
  - rewrite str_eqb_refl. eauto.
  - destruct (str_eqb k k'); eauto.
Qed.

Lemma for_in_all (keys : list jstring) (mismatch : jstring -> result bool) :
  (forall k, In k keys -> mismatch k = Ok false) ->
  Token.for_in keys mismatch = Ok true.
Proof.
  induction keys as [|k keys IH]; intro H; [reflexivity|].
  cbn [Token.for_in]. rewrite (H k (or_introl eq_refl)). cbn [bind].
  apply IH. intros k' I. apply H. now right.
Qed.


Lemma flat_bound_to_itself (props : list (jstring * value)) :
  flat (VObj props) = true ->
  Json.well_formed 256 (VObj props) = true ->
  Token.bound_to_user (VObj props) (VObj props) = Ok true.
Proof.
  intros F W. unfold Token.bound_to_user. apply for_in_all.
  intros k I. cbn [JS.forin_keys] in I.
  destruct (lookup_own_key props k I) as (x & L).
  destruct (own_property props k x L) as [-> ->]. cbn [bind JS.differs].
  destruct (lookup_in k props x L) as (k' & I').
  cbn [flat] in F. rewrite forallb_forall in F. specialize (F _ I').
  cbn [snd] in F. apply negb_true_iff in F.
  unfold JS.loose_neq.
  now rewrite (loose_eq_refl x F (well_formed_property 256 props k' x W I')).
Qed.

Lemma validate_issued_success (now : float) (iss user : value) (gen exp : float)
    (k : jstring) :
  Json.well_formed 256 (carried iss gen exp user) = true ->
  JS.get (Token.validate now (VStr (issued k (text (carried iss gen exp user))))
            (VStr k)) (str "success") = Ok (VBool true).
Proof.
  intro W. rewrite (validate_issued now _ k W), expired_payload. cbn [bind].
  destruct (lapsed exp now); reflexivity.
Qed.

(** The text that [generate] signs is the text of the payload as the token
    carries it. *)
Lemma issued_carried (iss user : value) (gen exp : float) (td : jstring) :
  Json.well_formed 256 iss = true ->
  Json.well_formed 256 user = true ->
  Json.stringify (Token.payload iss gen exp user) = VStr td ->
  td = text (carried iss gen exp user).
Proof.
  intros Wi Wu S. rewrite carried_stringify in S.
  pose proof (payload_well_formed iss user gen exp Wi Wu) as W.
  destruct (parse_stringify _ (well_formed_mono _ W)) as [S' _].
  rewrite S' in S. now injection S.
Qed.

(** X7.  An identity whose properties are all primitive (strings, numbers,
    booleans, [null]) and Latin-1, with the own properties [userId],
    [userKey] and [userRkey] and none named [hasOwnProperty], is verified
    against the access token that [generate] issued for it under a
    configuration with a Latin-1 [DOMAIN], with the same access key, at
    every reading of the clock and whatever refresh arguments are passed. *)
Theorem verify_generated (cfg : Token.Config) (now now_access now_refresh : float)
    (user : value) (ak : jstring) (rk refreshKey refreshToken : value) :
  Json.well_formed 256 (Token.DOMAIN cfg) = true ->
  Json.well_formed 256 user = true ->
  flat user = true ->
  JS.has_own user (str "hasOwnProperty") = false ->
  JS.has_own user (str "userId") = true ->
  JS.has_own user (str "userKey") = true ->
  JS.has_own user (str "userRkey") = true ->
  ak <> [] ->
  rk = VUndefined \/ (exists r, rk = VStr r) ->
  exists A,
    JS.get (Token.generate (Some cfg) now user (VStr ak) rk) (str "accessToken")
    = Ok (VStr A) /\
    Token.verify now_access now_refresh user (VStr ak) (VStr A) refreshKey refreshToken
    = VBool true.
Proof.
  intros Wd Wu F H I K R Hk Hr.
  pose proof (capability_present user H I K R) as C.
  set (P := carried (Token.DOMAIN cfg) now (Token.expiry now (Token.LTT cfg)) user).
  assert (W : Json.well_formed 256 P = true) by (apply payload_well_formed; assumption).
  destruct (generate_access_token cfg now user ak rk Hk Hr) as (td & S & G).
  rewrite (issued_carried _ _ _ _ td Wd Wu S) in G. fold P in G.
  exists (issued ak (text P)). split; [exact G|].
  destruct user as [ | | | | | | props]; try discriminate.
  rewrite (verify_bound now_access now_refresh (VObj props) (VStr ak) _ refreshKey
             refreshToken Token.header P (VObj props) _ (decode_issued P ak W) C
             eq_refl (flat_bound_to_itself props F Wu)).
  unfold P. rewrite validate_issued_success by exact W. reflexivity.
Qed.

Lemma verify_generated_witness :
  Json.well_formed 256 (Token.DOMAIN demo_config) = true
  /\ Json.well_formed 256 identity = true
  /\ flat identity = true
  /\ JS.has_own identity (str "hasOwnProperty") = false
  /\ JS.has_own identity (str "userId") = true
  /\ JS.has_own identity (str "userKey") = true
  /\ JS.has_own identity (str "userRkey") = true
  /\ str "k1" <> []
  /\ exists A,
      JS.get (Token.generate (Some demo_config) demo_now identity (VStr (str "k1"))
                VUndefined) (str "accessToken") = Ok (VStr A) /\
      Token.verify demo_later demo_later identity (VStr (str "k1")) (VStr A) VNull VNull
      = VBool true.
Proof.
  assert (Wd : Json.well_formed 256 (Token.DOMAIN demo_config) = true)
    by (vm_compute; reflexivity).
  assert (Wu : Json.well_formed 256 identity = true) by (vm_compute; reflexivity).
  assert (F : flat identity = true) by (vm_compute; reflexivity).
  assert (H : JS.has_own identity (str "hasOwnProperty") = false) by reflexivity.
  assert (I : JS.has_own identity (str "userId") = true) by reflexivity.
  assert (Ky : JS.has_own identity (str "userKey") = true) by reflexivity.
  assert (R : JS.has_own identity (str "userRkey") = true) by reflexivity.
  assert (K : str "k1" <> []) by discriminate.
  repeat match goal with |- _ /\ _ => split; [assumption|] end.
  exact (verify_generated demo_config demo_now demo_later demo_later identity (str "k1")
           VUndefined VNull VNull Wd Wu F H I Ky R K (or_introl eq_refl)).
Defined.




(** ** When [generate] gives up *)

Lemma encode_not_false (data key : value) :
  JS.loose_eq (Token.encode data key) (VBool false) = Ok true
  \/ exists t, Token.encode data key = VStr t
               /\ JS.loose_eq (VStr t) (VBool false) = Ok false.
Proof.
  destruct (encode_shape data key) as [-> | (t & E)]; [now left|].
  right. exists t. split; [exact E|].
  destruct (encode_inv data key t E) as (k & td & _ & ->).
  apply encoded_not_false.
Qed.

(** X9.  [generate] returns [false] when the configuration has not been
    loaded, when the access key is absent, empty or [null], and when the
    refresh key is [null] (a refresh token is left out by omitting the
    refresh key or by passing the empty string, not by passing [null]). *)
Theorem generate_refusals (now : float) (user : value) :
  (forall accessKey refreshKey,
      Token.generate None now user accessKey refreshKey = VBool false)
  /\ (forall cfg accessKey refreshKey,
         accessKey = VUndefined \/ accessKey = VStr [] \/ accessKey = VNull ->
         Token.generate (Some cfg) now user accessKey refreshKey = VBool false)
  /\ (forall cfg accessKey,
         Token.generate (Some cfg) now user accessKey VNull = VBool false).
Proof.
  split; [reflexivity|]. split.
  - intros cfg accessKey refreshKey [-> | [-> | ->]]; reflexivity.
  - intros cfg accessKey. unfold Token.generate, Token.generate_body. cbn [bind Token.default_to].
    set (P := Token.payload _ _ _ _).
    destruct (encode_not_false P (Token.default_to (VStr []) accessKey))
      as [-> | (t & -> & ->)]; [reflexivity|].
    reflexivity.
Qed.

(** ** What the two tokens carry *)

(** X10.  With both keys, the two tokens of [generate] carry the same
    issuer, issue time and identity and differ in [exp] only: the payload of
    the access token expires at the returned [dateAccess], the payload of the
    refresh token at the returned [dateRefresh].  A number is carried as
    JSON stores it: as it is when it is finite (and not [-0]), as [null]
    when it is not. *)
Theorem generated_payloads (cfg : Token.Config) (now : float) (user : value)
    (ak rk : jstring) :
  Json.well_formed 256 (Token.DOMAIN cfg) = true ->
  Json.well_formed 256 user = true ->
  ak <> [] ->
  rk <> [] ->
  exists A R dateAccess dateRefresh,
    Token.generate (Some cfg) now user (VStr ak) (VStr rk) =
    VObj [(str "success", VNum 1); (str "accessToken", VStr A);
          (str "refreshToken", VStr R);
          (str "dateAccess", VNum dateAccess); (str "dateRefresh", VNum dateRefresh)]
    /\ JS.get (Token.decode (VStr A)) (str "body")
       = Ok (VObj [(str "iss", Token.DOMAIN cfg); (str "gen", stored_number now);
                   (str "exp", stored_number dateAccess); (str "data", user)])
    /\ JS.get (Token.decode (VStr R)) (str "body")
       = Ok (VObj [(str "iss", Token.DOMAIN cfg); (str "gen", stored_number now);
                   (str "exp", stored_number dateRefresh); (str "data", user)])
    /\ (forall x, In x [now; dateAccess; dateRefresh] ->
                  Json.plain_number x = true -> stored_number x = VNum x).
Proof.
  intros Wd Wu Hk Hr.
  set (Pa := carried (Token.DOMAIN cfg) now (Token.expiry now (Token.LTT cfg)) user).
  set (Pr := carried (Token.DOMAIN cfg) now (Token.expiry now (Token.LTRT cfg)) user).
  assert (Wa : Json.well_formed 256 Pa = true) by (apply payload_well_formed; assumption).
  assert (Wr : Json.well_formed 256 Pr = true) by (apply payload_well_formed; assumption).
  destruct (generate_both cfg now user ak rk Hk Hr) as (td & tr & Sa & Sr & G).
  rewrite (issued_carried _ _ _ _ td Wd Wu Sa), (issued_carried _ _ _ _ tr Wd Wu Sr) in G.
  fold Pa Pr in G.
  exists (issued ak (text Pa)), (issued rk (text Pr)),
    (Token.expiry now (Token.LTT cfg)), (Token.expiry now (Token.LTRT cfg)).
  split; [exact G|].
  rewrite (decode_issued Pa ak Wa), (decode_issued Pr rk Wr).
  split; [reflexivity|]. split; [reflexivity|].
  intros x _. apply stored_plain.
Qed.

Lemma generated_payloads_witness :
  Json.well_formed 256 (Token.DOMAIN demo_config) = true
  /\ Json.well_formed 256 identity = true
  /\ str "k1" <> []
  /\ str "k2" <> []
  /\ exists A R dateAccess dateRefresh,
      Token.generate (Some demo_config) demo_now identity (VStr (str "k1"))
        (VStr (str "k2")) =
      VObj [(str "success", VNum 1); (str "accessToken", VStr A);
            (str "refreshToken", VStr R);
            (str "dateAccess", VNum dateAccess); (str "dateRefresh", VNum dateRefresh)]
      /\ JS.get (Token.decode (VStr A)) (str "body")
         = Ok (VObj [(str "iss", Token.DOMAIN demo_config);
                     (str "gen", stored_number demo_now);
                     (str "exp", stored_number dateAccess); (str "data", identity)])
      /\ JS.get (Token.decode (VStr R)) (str "body")
         = Ok (VObj [(str "iss", Token.DOMAIN demo_config);
                     (str "gen", stored_number demo_now);
                     (str "exp", stored_number dateRefresh); (str "data", identity)])
      /\ (forall x, In x [demo_now; dateAccess; dateRefresh] ->
                    Json.plain_number x = true -> stored_number x = VNum x).
Proof.
  assert (Wd : Json.well_formed 256 (Token.DOMAIN demo_config) = true)
    by (vm_compute; reflexivity).
  assert (Wu : Json.well_formed 256 identity = true) by (vm_compute; reflexivity).
  assert (K1 : str "k1" <> []) by discriminate.
  assert (K2 : str "k2" <> []) by discriminate.
  repeat match goal with |- _ /\ _ => split; [assumption|] end.
  exact (generated_payloads demo_config demo_now identity (str "k1") (str "k2")
           Wd Wu K1 K2).
Defined.

(** X11.  Two well-formed Latin-1 payloads that [encode] maps to the same
    token are the same payload, whatever the (non-empty) keys: the payload
    can be read back from the token. *)
Theorem encode_injective (P P' : value) (K K' : jstring) :
  Json.well_formed 256 P = true ->
  Json.well_formed 256 P' = true ->
  K <> [] ->
  K' <> [] ->
  Token.encode P (VStr K) = Token.encode P' (VStr K') ->
  P = P'.
Proof.
  intros W W' HK HK' E.
  rewrite (encode_issued P K W HK), (encode_issued P' K' W' HK') in E.
  apply (f_equal Token.decode) in E.
  rewrite (decode_issued P K W), (decode_issued P' K' W') in E.
  unfold token_body in E. now injection E.
Qed.

Lemma encode_injective_witness :
  Json.well_formed 256 demo_payload = true
  /\ str "k1" <> []
  /\ Token.encode demo_payload (VStr (str "k1")) = Token.encode demo_payload (VStr (str "k1"))
  /\ demo_payload = demo_payload.
Proof.
  assert (W : Json.well_formed 256 demo_payload = true) by (vm_compute; reflexivity).
  assert (K : str "k1" <> []) by discriminate.
  split; [exact W|]. split; [exact K|]. split; [reflexivity|].
  exact (encode_injective demo_payload demo_payload (str "k1") (str "k1") W W K K eq_refl).
Defined.

(** ** The shape of a CSRF token *)

Lemma be_bytes_length (count : nat) (x : N) : length (Sha512.be_bytes count x) = count.
Proof. induction count as [|c IH]; [reflexivity|]. cbn [Sha512.be_bytes length]. now rewrite IH. Qed.

Lemma be_bytes_octets (count : nat) (x : N) : Forall is_octet (Sha512.be_bytes count x).
Proof.
  induction count as [|c IH]; [constructor|]. cbn [Sha512.be_bytes].
  constructor; [|exact IH]. unfold is_octet.
  change 255%N with (N.ones 8). rewrite N.land_ones. apply N.mod_lt. discriminate.
Qed.

Lemma compress_length (h block : list N) :
  length h = 8%nat -> length (Sha512.compress h block) = 8%nat.
Proof.
  intro H. unfold Sha512.compress. rewrite length_map, length_combine, H. reflexivity.
Qed.

Lemma fold_compress_length (blocks : list (list N)) (h : list N) :
  length h = 8%nat -> length (fold_left Sha512.compress blocks h) = 8%nat.
Proof.
  revert h. induction blocks as [|b blocks IH]; intros h H; [exact H|].
  cbn [fold_left]. apply IH, compress_length, H.
Qed.

Lemma flat_map_be_bytes_length (l : list N) :
  length (flat_map (Sha512.be_bytes 8) l) = (8 * length l)%nat.
Proof.
  induction l as [|x l IH]; [reflexivity|].
  cbn [flat_map]. rewrite length_app, be_bytes_length, IH. cbn [length]. lia.
Qed.

Lemma flat_map_be_bytes_octets (l : list N) :
  Forall is_octet (flat_map (Sha512.be_bytes 8) l).
Proof.
  induction l as [|x l IH]; [constructor|].
  cbn [flat_map]. apply Forall_app. split; [apply be_bytes_octets | exact IH].
Qed.

Lemma hash_length (msg : list N) : length (Sha512.hash msg) = 64%nat.
Proof.
  unfold Sha512.hash. rewrite flat_map_be_bytes_length, fold_compress_length; reflexivity.
Qed.

Lemma hash_octets (msg : list N) : Forall is_octet (Sha512.hash msg).
Proof. unfold Sha512.hash. apply flat_map_be_bytes_octets. Qed.

Lemma hex_encode_length (bytes : list N) :
  length (Hex.encode bytes) = (2 * length bytes)%nat.
Proof.
  unfold Hex.encode. induction bytes as [|b bytes IH]; [reflexivity|].
  cbn [flat_map length app]. rewrite IH. lia.
Qed.

Lemma hex_encode_digits (bytes : list N) :
  Forall is_octet bytes -> forallb is_lower_hex (Hex.encode bytes) = true.
Proof.
  unfold Hex.encode. induction 1 as [|b bytes Hb _ IH]; [reflexivity|].
  cbn [flat_map app forallb]. rewrite IH, andb_true_r.
  apply (check_below
           (fun b => is_lower_hex (Hex.lower_digit (N.shiftr b 4))
                     && is_lower_hex (Hex.lower_digit (N.land b 15))) 256 eq_refl b Hb).
Qed.

(** X12.  For every [id] and every key string, the [csrfToken] of
    [generateCsrf] is a string of exactly 128 lower-case hexadecimal
    digits. *)
Theorem csrf_token_format (now : float) (id : value) (key : jstring) :
  exists digest,
    Token.generateCsrf now id (VStr key) =
    VObj [(str "csrfToken", VStr digest); (str "timeCreate", VNum now)]
    /\ length digest = 128%nat
    /\ forallb is_lower_hex digest = true.
Proof.
  destruct (stringify_object [(str "id", id); (str "create", VNum now)]) as (m & S).
  exists (hex_hmac key m). split; [|split].
  - unfold Token.generateCsrf, Token.generateCsrf_body. rewrite S, hmac_hex_strings. reflexivity.
  - unfold hex_hmac, Crypto.digest, Sha512.hmac.
    rewrite hex_encode_length, hash_length. reflexivity.
  - unfold hex_hmac, Crypto.digest, Sha512.hmac.
    apply hex_encode_digits, hash_octets.
Qed.

(** * Properties of the input filter *)

(** ** Matching: runs of one character *)

Arguments RegExp.iterate : simpl never.

Lemma in_downto (lo hi k : nat) : In k (downto lo hi) <-> lo <= k <= hi.
Proof. unfold downto. rewrite <- in_rev, in_seq. lia. Qed.

Lemma downto_step (lo hi : nat) :
  lo <= S hi -> map S (downto (Nat.pred lo) hi) ++ (if (lo =? 0)%nat then [0] else [])
               = downto lo (S hi).
Proof.
  intro H. unfold downto. destruct lo as [|lo].
  - cbn [Nat.pred Nat.eqb]. replace (S (S hi) - 0) with (S (S hi - 0)) by lia.
    cbn [seq rev]. rewrite <- seq_shift, map_rev. reflexivity.
  - cbn [Nat.pred Nat.eqb]. rewrite List.app_nil_r.
    replace (S (S hi) - S lo) with (S hi - lo) by lia.
    rewrite <- seq_shift, map_rev. reflexivity.
Qed.

Lemma filter_all {A} (l : list A) : filter (fun _ => true) l = l.
Proof. induction l as [|a l IH]; [reflexivity|]. cbn. now rewrite IH. Qed.

Lemma forget_nothing (i : nat) (s : jstring) (c : list (nat * (nat * nat))) :
  RegExp.forget [] (RegExp.mkState i s c) = RegExp.mkState i s c.
Proof. unfold RegExp.forget. cbn. now rewrite filter_all. Qed.

Lemma iterate_ext (one one' : RegExp.state -> list RegExp.state) :
  (forall x, one x = one' x) ->
  forall fuel min max x,
    RegExp.iterate fuel one min max x = RegExp.iterate fuel one' min max x.
Proof.
  intros E fuel. induction fuel as [|f IH]; intros min max x.
  - reflexivity.
  - unfold RegExp.iterate; fold RegExp.iterate.
    destruct max as [[|m]|]; try reflexivity.
    + rewrite E. f_equal. erewrite flat_map_ext; [reflexivity|].
      intro y. now rewrite IH.
    + rewrite E. f_equal. erewrite flat_map_ext; [reflexivity|].
      intro y. now rewrite IH.
Qed.

Lemma option_eq_dec_zero (max : option nat) : max = Some 0 \/ max <> Some 0.
Proof. destruct max as [[|m]|]; [now left | right; discriminate | right; discriminate]. Qed.

Lemma advance_succ (k i : nat) (a : N) (s : jstring) (c : list (nat * (nat * nat))) :
  advance k (RegExp.mkState (S i) s c) = advance (S k) (RegExp.mkState i (a :: s) c).
Proof. unfold advance. cbn. f_equal. lia. Qed.

Lemma advance_zero (i : nat) (s : jstring) (c : list (nat * (nat * nat))) :
  advance 0 (RegExp.mkState i s c) = RegExp.mkState i s c.
Proof. unfold advance. cbn. f_equal. lia. Qed.

Lemma iterate_unfold (f : nat) (one : RegExp.state -> list RegExp.state)
    (min : nat) (max : option nat) (x : RegExp.state) :
  max <> Some 0 ->
  RegExp.iterate (S f) one min max x =
  flat_map
    (fun y =>
       if (min =? 0)%nat && (length (RegExp.rest y) =? length (RegExp.rest x))%nat then []
       else RegExp.iterate f one (Nat.pred min) (RegExp.lower max) y)
    (one x)
  ++ (if (min =? 0)%nat then [x] else []).
Proof.
  intro H. unfold RegExp.iterate; fold RegExp.iterate.
  destruct max as [[|m]|]; try contradiction;
    destruct (min =? 0)%nat; now rewrite ?List.app_nil_r.
Qed.

Lemma iterate_done (fuel : nat) (one : RegExp.state -> list RegExp.state)
    (min : nat) (x : RegExp.state) :
  RegExp.iterate fuel one min (Some 0) x = [x].
Proof. destruct fuel; reflexivity. Qed.

Lemma step_cons (ok : N -> bool) (i : nat) (a : N) (s : jstring)
    (c : list (nat * (nat * nat))) :
  RegExp.step ok (RegExp.mkState i (a :: s) c)
  = if ok a then [RegExp.mkState (S i) s c] else [].
Proof. reflexivity. Qed.

Lemma step_nil (ok : N -> bool) (i : nat) (c : list (nat * (nat * nat))) :
  RegExp.step ok (RegExp.mkState i [] c) = [].
Proof. reflexivity. Qed.

Lemma downto_empty (lo hi : nat) : hi < lo -> downto lo hi = [].
Proof. intro H. unfold downto. now replace (S hi - lo) with 0 by lia. Qed.

Lemma downto_zero : downto 0 0 = [0].
Proof. reflexivity. Qed.

(** A quantified single character: the matcher offers the runs of [min] to
    [max] characters that pass [ok], the longest first. *)
Lemma iterate_step (ok : N -> bool) (fuel : nat) :
  forall (min : nat) (max : option nat) (i : nat) (s : jstring)
         (c : list (nat * (nat * nat))),
    min + length s < fuel ->
    (forall m, max = Some m -> min <= m) ->
    RegExp.iterate fuel (RegExp.step ok) min max (RegExp.mkState i s c)
    = map (fun k => advance k (RegExp.mkState i s c))
        (downto min (most max (span ok s))).
Proof.
  induction fuel as [|f IH]; intros min max i s c Hf Hm; [lia|].
  destruct (option_eq_dec_zero max) as [-> | Hz].
  { assert (min = 0) by (specialize (Hm 0 eq_refl); lia). subst min.
    rewrite iterate_done. cbn [most Nat.min]. rewrite downto_zero. cbn [map].
    now rewrite advance_zero. }
  rewrite (iterate_unfold f _ min max _ Hz).
  assert (Stop : span ok s = 0 ->
                 RegExp.step ok (RegExp.mkState i s c) = [] ->
                 flat_map
                   (fun y =>
                      if (min =? 0)%nat
                         && (length (RegExp.rest y)
                             =? length (RegExp.rest (RegExp.mkState i s c)))%nat
                      then []
                      else RegExp.iterate f (RegExp.step ok) (Nat.pred min)
                             (RegExp.lower max) y)
                   (RegExp.step ok (RegExp.mkState i s c))
                 ++ (if (min =? 0)%nat then [RegExp.mkState i s c] else [])
                 = map (fun k => advance k (RegExp.mkState i s c))
                     (downto min (most max (span ok s)))).
  { intros Hs ->. rewrite Hs. cbn [flat_map app].
    replace (most max 0) with 0 by (destruct max; cbn; [now rewrite Nat.min_0_r|reflexivity]).
    destruct min as [|min].
    - rewrite downto_zero. cbn. now rewrite advance_zero.
    - rewrite downto_empty by lia. reflexivity. }
  destruct s as [|a s]; [apply Stop; reflexivity|].
  destruct (ok a) eqn:Ha; [|apply Stop; [cbn; now rewrite Ha | now rewrite step_cons, Ha]].
  clear Stop. rewrite step_cons, Ha. cbn [flat_map RegExp.rest length]. rewrite List.app_nil_r.
  replace ((min =? 0)%nat && (length s =? S (length s))%nat) with false
    by (symmetry; apply andb_false_iff; right; apply Nat.eqb_neq; lia).
  rewrite IH; [| cbn [length] in Hf; lia
               | intros m' E; destruct max as [[|m]|];
                 [contradiction | | discriminate];
                 injection E as <-; specialize (Hm (S m) eq_refl); lia].
  cbn [span]. rewrite Ha.
  assert (M : most max (S (span ok s)) = S (most (RegExp.lower max) (span ok s))).
  { destruct max as [[|m]|]; [contradiction | | reflexivity].
    cbn [most RegExp.lower option_map Nat.pred]. now rewrite Nat.succ_min_distr. }
  rewrite M.
  destruct (Nat.le_gt_cases min (S (most (RegExp.lower max) (span ok s)))) as [L|G].
  - rewrite <- (downto_step min _ L), map_app, map_map.
    erewrite map_ext; [|intro k; apply advance_succ].
    destruct (min =? 0)%nat; [|reflexivity].
    cbn [map]. now rewrite advance_zero.
  - rewrite !downto_empty by lia.
    replace (min =? 0)%nat with false by (symmetry; apply Nat.eqb_neq; lia).
    reflexivity.
Qed.

Lemma run_atom (ic : bool) (p : RegExp.pattern) (ok : N -> bool) (x : RegExp.state) :
  char_test ic p = Some ok -> RegExp.run ic p x = RegExp.step ok x.
Proof. destruct p; try discriminate; intros [= <-]; reflexivity. Qed.

Lemma groups_atom (ic : bool) (p : RegExp.pattern) (ok : N -> bool) :
  char_test ic p = Some ok -> RegExp.groups p = [].
Proof. destruct p; try discriminate; reflexivity. Qed.

Lemma run_repeat_atom (ic : bool) (p : RegExp.pattern) (ok : N -> bool)
    (min : nat) (max : option nat) (i : nat) (s : jstring)
    (c : list (nat * (nat * nat))) :
  char_test ic p = Some ok ->
  (forall m, max = Some m -> min <= m) ->
  RegExp.run ic (RegExp.Repeat min max p) (RegExp.mkState i s c)
  = map (fun k => advance k (RegExp.mkState i s c))
      (downto min (most max (span ok s))).
Proof.
  intros T M. cbn [RegExp.run RegExp.rest].
  rewrite (iterate_ext _ (RegExp.step ok)).
  - apply iterate_step; [lia | exact M].
  - intros [j t d]. rewrite (groups_atom ic p ok T), forget_nothing.
    apply run_atom, T.
Qed.

Lemma run_class (ic negated : bool) (items : list RegExp.item) (x : RegExp.state) :
  RegExp.run ic (RegExp.Class negated items) x
  = RegExp.step (RegExp.in_class negated items) x.
Proof. reflexivity. Qed.

Lemma run_char (ic : bool) (a : N) (x : RegExp.state) :
  RegExp.run ic (RegExp.Char a) x = RegExp.step (RegExp.same ic a) x.
Proof. reflexivity. Qed.

Lemma run_repeat_class (ic negated : bool) (items : list RegExp.item)
    (min : nat) (max : option nat) (i : nat) (s : jstring)
    (c : list (nat * (nat * nat))) :
  (forall m, max = Some m -> min <= m) ->
  RegExp.run ic (RegExp.Repeat min max (RegExp.Class negated items)) (RegExp.mkState i s c)
  = map (fun k => advance k (RegExp.mkState i s c))
      (downto min (most max (span (RegExp.in_class negated items) s))).
Proof. now apply run_repeat_atom. Qed.

Lemma run_seq (ic : bool) (a b : RegExp.pattern) (x : RegExp.state) :
  RegExp.run ic (RegExp.Seq a b) x = flat_map (RegExp.run ic b) (RegExp.run ic a x).
Proof. reflexivity. Qed.

Lemma run_bol (ic : bool) (s : jstring) (c : list (nat * (nat * nat))) :
  RegExp.run ic RegExp.Bol (RegExp.mkState 0 s c) = [RegExp.mkState 0 s c].
Proof. reflexivity. Qed.

(** ** Matching: where a match may start *)

Lemma search_none (re : RegExp.regexp) (s : jstring) (i : nat) :
  RegExp.search re i s = None <->
  forall k, k <= length s ->
            found (RegExp.ignore_case re) (RegExp.pattern_of re) (i + k) (skipn k s) = false.
Proof.
  revert i. induction s as [|a s IH]; intro i; cbn [RegExp.search].
  - unfold found. split.
    + intros H k Hk. cbn in Hk. replace k with 0 by lia. rewrite Nat.add_0_r. cbn [skipn].
      destruct (RegExp.run _ _ _); [reflexivity | discriminate].
    + intro H. specialize (H 0 (Nat.le_0_l _)). rewrite Nat.add_0_r in H. cbn [skipn] in H.
      destruct (RegExp.run _ _ _); [reflexivity | discriminate].
  - split.
    + intros H k Hk. destruct k as [|k].
      * rewrite Nat.add_0_r. cbn [skipn]. unfold found.
        destruct (RegExp.run _ _ _); [reflexivity | discriminate].
      * replace (i + S k) with (S i + k) by lia. cbn [skipn].
        destruct (RegExp.run _ _ _); [|discriminate].
        apply (proj1 (IH (S i)) H). cbn in Hk. lia.
    + intro H. pose proof (H 0 (Nat.le_0_l _)) as H0.
      rewrite Nat.add_0_r in H0. cbn [skipn] in H0. unfold found in H0.
      destruct (RegExp.run _ _ _); [|discriminate].
      apply IH. intros k Hk. specialize (H (S k)).
      replace (i + S k) with (S i + k) in H by lia. apply H. cbn. lia.
Qed.

Lemma classic_found (re : RegExp.regexp) (s : jstring) :
  (exists k, k <= length s /\
             found (RegExp.ignore_case re) (RegExp.pattern_of re) k (skipn k s) = true)
  \/ (forall k, k <= length s ->
                found (RegExp.ignore_case re) (RegExp.pattern_of re) k (skipn k s) = false).
Proof.
  assert (G : forall n, n <= S (length s) ->
              (exists k, k < n /\
                 found (RegExp.ignore_case re) (RegExp.pattern_of re) k (skipn k s) = true)
              \/ (forall k, k < n ->
                     found (RegExp.ignore_case re) (RegExp.pattern_of re) k (skipn k s)
                     = false)).
  { induction n as [|n IH]; intro Hn; [right; intros k Hk; lia|].
    destruct (IH ltac:(lia)) as [(k & Hk & F) | H].
    - left. exists k. split; [lia | exact F].
    - destruct (found (RegExp.ignore_case re) (RegExp.pattern_of re) n (skipn n s)) eqn:F.
      + left. exists n. split; [lia | exact F].
      + right. intros k Hk. destruct (Nat.eq_dec k n) as [-> | Hne]; [exact F|].
        apply H. lia. }
  destruct (G (S (length s)) (le_n _)) as [(k & Hk & F) | H].
  - left. exists k. split; [lia | exact F].
  - right. intros k Hk. apply H. lia.
Qed.

(** [test] is true when the pattern matches from some index of the input,
    the end included. *)
Lemma test_found (re : RegExp.regexp) (s : jstring) :
  RegExp.test re s = true <->
  exists k, k <= length s /\
            found (RegExp.ignore_case re) (RegExp.pattern_of re) k (skipn k s) = true.
Proof.
  unfold RegExp.test, RegExp.exec.
  destruct (RegExp.search re 0 s) as [[j y]|] eqn:E.
  - split; [intros _ | reflexivity].
    destruct (classic_found re s) as [H | H]; [exact H|].
    exfalso. assert (N : RegExp.search re 0 s = None); [|congruence].
    apply search_none. intros k Hk. cbn [Nat.add]. apply H, Hk.
  - split; [discriminate|]. intros (k & Hk & F).
    pose proof (proj1 (search_none re s 0) E k Hk) as F'. cbn [Nat.add] in F'.
    rewrite F in F'. discriminate.
Qed.

Lemma run_anchored (ic : bool) (p : RegExp.pattern) (x : RegExp.state) :
  anchored p = true -> RegExp.pos x <> 0 -> RegExp.run ic p x = [].
Proof.
  revert x. induction p; intros x A Hx; try discriminate; cbn [RegExp.run anchored] in *.
  - destruct (Nat.eqb_spec (RegExp.pos x) 0); [contradiction | reflexivity].
  - rewrite (IHp1 x A Hx). reflexivity.
  - rewrite (IHp x A Hx). reflexivity.
Qed.

Lemma test_anchored (re : RegExp.regexp) (s : jstring) :
  anchored (RegExp.pattern_of re) = true ->
  RegExp.test re s = found (RegExp.ignore_case re) (RegExp.pattern_of re) 0 s.
Proof.
  intro A. apply eq_true_iff_eq. rewrite test_found. split.
  - intros (k & _ & F). destruct k as [|k]; [exact F|].
    unfold found in F. rewrite run_anchored in F; [discriminate | exact A | discriminate].
  - intro F. exists 0. split; [lia | exact F].
Qed.

(** ** Matching: a pattern that ends with [$] *)

Lemma found_eol (ic : bool) (p : RegExp.pattern) (i : nat) (s : jstring) :
  found ic (RegExp.Seq p RegExp.Eol) i s
  = existsb at_end (RegExp.run ic p (RegExp.mkState i s [])).
Proof.
  unfold found. cbn [RegExp.run].
  induction (RegExp.run ic p (RegExp.mkState i s [])) as [|y l IH]; [reflexivity|].
  cbn [flat_map existsb]. unfold at_end at 1.
  destruct (RegExp.rest y); cbn [app orb]; [reflexivity | exact IH].
Qed.

Lemma existsb_flat_map {A B} (f : B -> bool) (g : A -> list B) (l : list A) :
  existsb f (flat_map g l) = existsb (fun x => existsb f (g x)) l.
Proof.
  induction l as [|x l IH]; [reflexivity|].
  cbn [flat_map existsb]. now rewrite existsb_app, IH.
Qed.

Lemma existsb_map {A B} (f : B -> bool) (g : A -> B) (l : list A) :
  existsb f (map g l) = existsb (fun x => f (g x)) l.
Proof. induction l as [|x l IH]; [reflexivity|]. cbn. now rewrite IH. Qed.

Lemma span_le (ok : N -> bool) (s : jstring) : span ok s <= length s.
Proof. induction s as [|a s IH]; cbn; [lia|]. destruct (ok a); cbn; lia. Qed.

Lemma span_all (ok : N -> bool) (s : jstring) :
  span ok s = length s <-> forallb ok s = true.
Proof.
  induction s as [|a s IH]; cbn; [tauto|].
  destruct (ok a); cbn; [|split; [lia | discriminate]].
  rewrite <- IH. lia.
Qed.

Lemma most_le (max : option nat) (n : nat) : most max n <= n.
Proof. destruct max; cbn; lia. Qed.

Lemma at_end_advance (k i : nat) (s : jstring) (c : list (nat * (nat * nat))) :
  at_end (advance k (RegExp.mkState i s c)) = (length s <=? k)%nat.
Proof.
  unfold at_end, advance. cbn [RegExp.rest].
  destruct (Nat.leb_spec (length s) k) as [L|L].
  - now rewrite skipn_all2.
  - destruct (skipn k s) eqn:E; [|reflexivity].
    apply (f_equal (@length N)) in E. rewrite length_skipn in E. cbn in E. lia.
Qed.

(** A run of [min] to [max] characters that pass [ok] reaches the end of
    the input exactly when the input is such a run. *)
Lemma run_to_end (ok : N -> bool) (min : nat) (max : option nat) (i : nat)
    (s : jstring) (c : list (nat * (nat * nat))) :
  existsb at_end
    (map (fun k => advance k (RegExp.mkState i s c)) (downto min (most max (span ok s))))
  = (min <=? length s)%nat && within max (length s) && forallb ok s.
Proof.
  rewrite existsb_map. apply eq_true_iff_eq.
  rewrite existsb_exists, !andb_true_iff, Nat.leb_le, <- span_all.
  pose proof (span_le ok s) as SL. pose proof (most_le max (span ok s)) as ML.
  split.
  - intros (k & Hk & E). apply in_downto in Hk. rewrite at_end_advance in E.
    apply Nat.leb_le in E.
    assert (K : k = length s) by lia. subst k.
    repeat split; try lia.
    destruct max as [m|]; cbn in *; [apply Nat.leb_le; lia | reflexivity].
  - intros ((Hmin & W) & A). exists (length s). split.
    + apply in_downto. split; [exact Hmin|]. rewrite A.
      destruct max as [m|]; cbn in *; [apply Nat.leb_le in W; lia | lia].
    + rewrite at_end_advance. apply Nat.leb_refl.
Qed.

(** ** The rules of [validate] *)

(** Every rule of [regular] reads as a pattern, and [regular] holds the
    patterns read. *)
Lemma rules_read :
  forallb (fun e => match RegExp.read (snd e) with Some _ => true | None => false end)
    Filter.rule_sources = true
  /\ Filter.regular =
     [(str "login", login_rule); (str "name", name_rule); (str "email", email_rule);
      (str "pass", pass_rule); (str "telephone", telephone_rule)].
Proof. split; vm_compute; reflexivity. Qed.

Lemma literals_read :
  forallb (fun e => match RegExp.read e with Some _ => true | None => false end)
    Filter.literal_sources = true.
Proof. vm_compute. reflexivity. Qed.

Lemma os_table_reads :
  forallb (fun e => match RegExp.read (snd e) with Some _ => true | None => false end)
    InputHttp.os_table = true.
Proof. vm_compute. reflexivity. Qed.

(** Replace a closed term by its value. *)
Ltac compute_term t :=
  let v := eval vm_compute in t in
  replace t with v by (vm_compute; reflexivity).

Lemma validate_from_cons (key : jstring) (rule : RegExp.regexp)
    (more : list (jstring * RegExp.regexp)) (t : jstring) (v : value) :
  Filter.validate_from ((key, rule) :: more) (VStr t) v =
  match Filter.type_pattern key with
  | Ok reg =>
      if RegExp.test reg t
      then let* s := JS.ToString v in Ok (VBool (RegExp.test rule s))
      else Filter.validate_from more (VStr t) v
  | Throw e => Throw e
  end.
Proof.
  cbn [Filter.validate_from]. destruct (Filter.type_pattern key); cbn [bind JS.ToString];
    [|reflexivity].
  destruct (RegExp.test a t); [|reflexivity].
  destruct (JS.ToString v); cbn [bind]; [|reflexivity].
  destruct (RegExp.test rule a0); reflexivity.
Qed.

Lemma type_patterns :
  Filter.type_pattern (str "login") = Ok (type_rule (str "login"))
  /\ Filter.type_pattern (str "name") = Ok (type_rule (str "name"))
  /\ Filter.type_pattern (str "email") = Ok (type_rule (str "email"))
  /\ Filter.type_pattern (str "pass") = Ok (type_rule (str "pass"))
  /\ Filter.type_pattern (str "telephone") = Ok (type_rule (str "telephone")).
Proof. repeat split; vm_compute; reflexivity. Qed.

(** [validate] on a type string and a text: the rule of the first key
    whose pattern the type matches. *)
Lemma validate_strings (t s : jstring) :
  Filter.validate (VStr t) (VStr s) =
  if RegExp.test (type_rule (str "login")) t then Ok (VBool (RegExp.test login_rule s))
  else if RegExp.test (type_rule (str "name")) t then Ok (VBool (RegExp.test name_rule s))
  else if RegExp.test (type_rule (str "email")) t then Ok (VBool (RegExp.test email_rule s))
  else if RegExp.test (type_rule (str "pass")) t then Ok (VBool (RegExp.test pass_rule s))
  else if RegExp.test (type_rule (str "telephone")) t
       then Ok (VBool (RegExp.test telephone_rule s))
  else Ok VNull.
Proof.
  unfold Filter.validate. rewrite (proj2 rules_read).
  destruct type_patterns as (T1 & T2 & T3 & T4 & T5).
  rewrite !validate_from_cons, T1, T2, T3, T4, T5. reflexivity.
Qed.

(** ** Literal text in a pattern *)

Lemma flat_map_flat_map {A B C} (f : A -> list B) (g : B -> list C) (l : list A) :
  flat_map g (flat_map f l) = flat_map (fun x => flat_map g (f x)) l.
Proof.
  induction l as [|x l IH]; [reflexivity|].
  cbn [flat_map]. now rewrite flat_map_app, IH.
Qed.

Lemma expect_cons (c : N) (cs : jstring) (y : RegExp.state) :
  flat_map (expect cs) (RegExp.step (RegExp.same false c) y) = expect (c :: cs) y.
Proof.
  destruct y as [i s d]. unfold RegExp.step, expect. cbn [RegExp.rest RegExp.pos RegExp.caps].
  destruct s as [|a s]; [reflexivity|]. cbn [after RegExp.same].
  destruct (c =? a)%N; [|reflexivity].
  cbn [flat_map RegExp.rest RegExp.pos RegExp.caps]. rewrite List.app_nil_r.
  destruct (after cs s); [|reflexivity]. cbn [length]. do 2 f_equal. lia.
Qed.

Lemma expect_nil (l : list RegExp.state) :
  flat_map (expect []) l = l.
Proof.
  induction l as [|[i s d] l IH]; [reflexivity|].
  cbn [flat_map]. rewrite IH. unfold expect. cbn. now rewrite Nat.add_0_r.
Qed.

Lemma run_chain (cs : jstring) (p : RegExp.pattern) (x : RegExp.state) :
  RegExp.run false (chain p cs) x = flat_map (expect cs) (RegExp.run false p x).
Proof.
  revert p. induction cs as [|c cs IH]; intro p.
  - cbn [chain fold_left]. now rewrite expect_nil.
  - cbn [chain fold_left]. fold (chain (RegExp.Seq p (RegExp.Char c)) cs).
    rewrite IH. cbn [RegExp.run]. rewrite flat_map_flat_map.
    apply flat_map_ext. intro y. apply expect_cons.
Qed.

Lemma after_app (cs s r : jstring) : after cs s = Some r <-> s = cs ++ r.
Proof.
  revert s. induction cs as [|c cs IH]; intro s; cbn [after app].
  - split; congruence.
  - destruct s as [|a s]; [split; discriminate|].
    destruct (N.eqb_spec c a) as [-> | Hne].
    + rewrite IH. split; congruence.
    + split; [discriminate | congruence].
Qed.

(** ** The type of a field *)

Lemma anchored_chain (p : RegExp.pattern) (cs : jstring) :
  anchored (chain p cs) = anchored p.
Proof.
  revert p. induction cs as [|c cs IH]; intro p; [reflexivity|].
  cbn [chain fold_left]. fold (chain (RegExp.Seq p (RegExp.Char c)) cs). now rewrite IH.
Qed.

Lemma span_firstn (ok : N -> bool) (s : jstring) (k : nat) :
  k <= span ok s -> forallb ok (firstn k s) = true.
Proof.
  revert k. induction s as [|a s IH]; intros k H.
  - now rewrite firstn_nil.
  - destruct k as [|k]; [reflexivity|]. cbn [span] in H. cbn [firstn forallb].
    destruct (ok a); [|lia]. apply IH. lia.
Qed.

Lemma span_app (ok : N -> bool) (p r : jstring) :
  forallb ok p = true -> length p <= span ok (p ++ r).
Proof.
  induction p as [|a p IH]; intro H; cbn; [lia|].
  cbn in H. apply andb_true_iff in H as [Ha Hp]. rewrite Ha. specialize (IH Hp). lia.
Qed.

Lemma same_run (c : N) (r : jstring) :
  forallb (RegExp.same false c) r = true <-> r = repeat c (length r).
Proof.
  induction r as [|a r IH]; cbn [forallb repeat length RegExp.same]; [tauto|].
  rewrite andb_true_iff, IH, N.eqb_eq. split.
  - intros [-> E]. now f_equal.
  - intros [= -> E]. split; [reflexivity | exact E].
Qed.

Lemma test_type_shape (stem : jstring) (last : N) (t : jstring) :
  RegExp.test (RegExp.mkRegExp (type_shape stem last) false) t = true <->
  exists p j, forallb not_terminator p = true /\ t = p ++ stem ++ repeat last j.
Proof.
  rewrite test_anchored by (cbn; now rewrite anchored_chain).
  cbn [RegExp.ignore_case RegExp.pattern_of]. unfold type_shape.
  rewrite found_eol, run_seq, run_chain, run_seq, run_bol.
  cbn [flat_map]. rewrite List.app_nil_r.
  rewrite (run_repeat_atom false RegExp.Any not_terminator 0 None 0 t [] eq_refl)
    by discriminate.
  rewrite !existsb_flat_map, existsb_map. cbn [most].
  rewrite existsb_exists. split.
  - intros (k & Hk & E). apply in_downto in Hk.
    unfold expect, advance in E. cbn [RegExp.rest RegExp.pos RegExp.caps] in E.
    destruct (after stem (skipn k t)) as [r|] eqn:A; [|discriminate].
    cbn [existsb] in E. rewrite orb_false_r in E.
    rewrite (run_repeat_atom false (RegExp.Char last) (RegExp.same false last) 0 None
               _ r [] eq_refl) in E by discriminate.
    rewrite run_to_end in E. cbn [within Nat.leb andb] in E.
    apply after_app in A. apply same_run in E.
    exists (firstn k t), (length r). split; [apply span_firstn; lia|].
    rewrite <- E, <- A. symmetry. apply firstn_skipn.
  - intros (p & j & Hp & ->). exists (length p). split.
    + apply in_downto. split; [lia|]. apply span_app, Hp.
    + unfold expect, advance. cbn [RegExp.rest RegExp.pos RegExp.caps].
      rewrite skipn_app, skipn_all, Nat.sub_diag. cbn [skipn app].
      rewrite (proj2 (after_app stem (stem ++ repeat last j) (repeat last j)) eq_refl).
      cbn [existsb]. rewrite orb_false_r.
      rewrite (run_repeat_atom false (RegExp.Char last) (RegExp.same false last) 0 None
                 _ _ [] eq_refl) by discriminate.
      rewrite run_to_end. cbn [within Nat.leb andb].
      apply same_run. now rewrite repeat_length.
Qed.

Lemma type_rules :
  type_rule (str "login") = RegExp.mkRegExp (type_shape (str "logi") 110) false
  /\ type_rule (str "name") = RegExp.mkRegExp (type_shape (str "nam") 101) false
  /\ type_rule (str "email") = RegExp.mkRegExp (type_shape (str "emai") 108) false
  /\ type_rule (str "pass") = RegExp.mkRegExp (type_shape (str "pas") 115) false
  /\ type_rule (str "telephone") = RegExp.mkRegExp (type_shape (str "telephon") 101) false.
Proof. repeat split; vm_compute; reflexivity. Qed.

(** ** The rule for logins *)

Ltac compare_all :=
  repeat match goal with
         | |- context [(?a <=? ?b)%N] => destruct (a <=? b)%N
         | |- context [(?a =? ?b)%N] => destruct (a =? b)%N
         end;
  reflexivity.

Lemma login_classes (c : N) :
  RegExp.in_class false [RegExp.Range 97 122; RegExp.Range 65 90] c = RegExp.is_letter c
  /\ RegExp.in_class false
       [RegExp.Range 97 122; RegExp.Range 65 90; RegExp.Range 48 57;
        RegExp.One 45; RegExp.One 95; RegExp.One 46] c = login_char c.
Proof.
  unfold RegExp.in_class, login_char, RegExp.is_letter, JS.is_digit.
  cbn [existsb RegExp.member xorb].
  rewrite (N.eqb_sym 45 c), (N.eqb_sym 95 c), (N.eqb_sym 46 c).
  split; compare_all.
Qed.

Lemma forallb_ext {A} (f g : A -> bool) (l : list A) :
  (forall x, f x = g x) -> forallb f l = forallb g l.
Proof. intro E. induction l as [|x l IH]; [reflexivity|]. cbn. now rewrite E, IH. Qed.

Lemma test_login (s : jstring) : RegExp.test login_rule s = login_shape s.
Proof.
  replace login_rule with
    (RegExp.mkRegExp
       (RegExp.Seq
          (RegExp.Seq
             (RegExp.Seq RegExp.Bol
                (RegExp.Class false [RegExp.Range 97 122; RegExp.Range 65 90]))
             (RegExp.Repeat 3 (Some 20)
                (RegExp.Class false
                   [RegExp.Range 97 122; RegExp.Range 65 90; RegExp.Range 48 57;
                    RegExp.One 45; RegExp.One 95; RegExp.One 46])))
          RegExp.Eol) false) by (vm_compute; reflexivity).
  rewrite test_anchored by reflexivity. cbn [RegExp.ignore_case RegExp.pattern_of].
  rewrite found_eol, !run_seq, run_bol. cbn [flat_map]. rewrite List.app_nil_r.
  rewrite run_class.
  destruct s as [|a r]; [reflexivity|].
  rewrite step_cons, (proj1 (login_classes a)). cbn [login_shape].
  destruct (RegExp.is_letter a); [|reflexivity].
  cbn [flat_map]. rewrite List.app_nil_r.
  rewrite run_repeat_class by (intros m [= <-]; lia).
  rewrite run_to_end. cbn [within andb].
  rewrite (forallb_ext _ login_char) by (intro c; apply login_classes).
  reflexivity.
Qed.

(** X13.  [validate("login", s)] is [true] exactly for the texts made of a
    letter followed by 3 to 20 letters, digits, dashes, underscores or dots,
    and [false] for every other text. *)
Theorem validate_login (s : jstring) :
  Filter.validate (VStr (str "login")) (VStr s) = Ok (VBool (login_shape s)).
Proof.
  rewrite validate_strings.
  compute_term (RegExp.test (type_rule (str "login")) (str "login")).
  now rewrite test_login.
Qed.

(** ** The rule for passwords *)

Lemma pass_class (c : N) :
  RegExp.in_class true
    [RegExp.Range 1040 1071; RegExp.Range 1072 1103; RegExp.One 1025; RegExp.One 1105] c
  = negb (is_cyrillic c).
Proof.
  unfold RegExp.in_class, is_cyrillic. cbn [existsb RegExp.member xorb].
  rewrite (N.eqb_sym 1025 c), (N.eqb_sym 1105 c), orb_false_r.
  destruct (N.leb_spec 1040 c), (N.leb_spec c 1071), (N.leb_spec 1072 c),
    (N.leb_spec c 1103); cbn; try reflexivity; lia.
Qed.

Lemma test_pass (s : jstring) : RegExp.test pass_rule s = pass_shape s.
Proof.
  replace pass_rule with
    (RegExp.mkRegExp
       (RegExp.Seq
          (RegExp.Seq RegExp.Bol
             (RegExp.Repeat 8 (Some 20)
                (RegExp.Class true
                   [RegExp.Range 1040 1071; RegExp.Range 1072 1103; RegExp.One 1025;
                    RegExp.One 1105])))
          RegExp.Eol) false) by (vm_compute; reflexivity).
  rewrite test_anchored by reflexivity. cbn [RegExp.ignore_case RegExp.pattern_of].
  rewrite found_eol, !run_seq, run_bol. cbn [flat_map]. rewrite List.app_nil_r.
  rewrite run_repeat_class by (intros m [= <-]; lia).
  rewrite run_to_end. cbn [within]. unfold pass_shape.
  now rewrite (forallb_ext _ (fun c => negb (is_cyrillic c))) by (intro c; apply pass_class).
Qed.

(** X14.  [validate("pass", s)] is [true] exactly for the texts of 8 to 20
    characters without a Cyrillic letter, and [false] for every other
    text. *)
Theorem validate_pass (s : jstring) :
  Filter.validate (VStr (str "pass")) (VStr s) = Ok (VBool (pass_shape s)).
Proof.
  rewrite validate_strings.
  compute_term (RegExp.test (type_rule (str "login")) (str "pass")).
  compute_term (RegExp.test (type_rule (str "name")) (str "pass")).
  compute_term (RegExp.test (type_rule (str "email")) (str "pass")).
  compute_term (RegExp.test (type_rule (str "pass")) (str "pass")).
  now rewrite test_pass.
Qed.

(** ** The rule for names *)

Lemma name_class (c : N) :
  RegExp.in_class false
    [RegExp.Range 65 122; RegExp.Range 1040 1103; RegExp.Range 1025 1105] c
  = name_char c.
Proof.
  unfold RegExp.in_class, name_char. cbn [existsb RegExp.member xorb].
  rewrite orb_false_r.
  destruct (N.leb_spec 65 c), (N.leb_spec c 122), (N.leb_spec 1040 c),
    (N.leb_spec c 1103), (N.leb_spec 1025 c), (N.leb_spec c 1105);
    cbn; try reflexivity; lia.
Qed.

Lemma last_two_app (ok : N -> bool) (p t : jstring) :
  2 <= length t -> last_two ok (p ++ t) = last_two ok t.
Proof.
  intro H. unfold last_two. rewrite rev_app_distr.
  rewrite <- length_rev in H. destruct (rev t) as [|b [|a r]]; cbn in H; try lia.
  reflexivity.
Qed.

Lemma last_two_all (ok : N -> bool) (t : jstring) :
  2 <= length t -> forallb ok t = true -> last_two ok t = true.
Proof.
  intros H A. unfold last_two.
  assert (A' : forallb ok (rev t) = true).
  { rewrite forallb_forall in *. intros c Hc. apply A. now apply in_rev. }
  rewrite <- length_rev in H. destruct (rev t) as [|b [|a r]]; cbn in H; try lia.
  cbn in A'. apply andb_true_iff in A' as [Hb A']. apply andb_true_iff in A' as [Ha _].
  now rewrite Ha, Hb.
Qed.

Lemma test_name (s : jstring) : RegExp.test name_rule s = last_two name_char s.
Proof.
  replace name_rule with
    (RegExp.mkRegExp
       (RegExp.Seq
          (RegExp.Repeat 2 (Some 30)
             (RegExp.Class false
                [RegExp.Range 65 122; RegExp.Range 1040 1103; RegExp.Range 1025 1105]))
          RegExp.Eol) false) by (vm_compute; reflexivity).
  apply eq_true_iff_eq. rewrite test_found.
  cbn [RegExp.ignore_case RegExp.pattern_of].
  assert (F : forall k,
             found false
               (RegExp.Seq
                  (RegExp.Repeat 2 (Some 30)
                     (RegExp.Class false
                        [RegExp.Range 65 122; RegExp.Range 1040 1103;
                         RegExp.Range 1025 1105]))
                  RegExp.Eol) k (skipn k s)
             = (2 <=? length (skipn k s))%nat && (length (skipn k s) <=? 30)%nat
               && forallb name_char (skipn k s)).
  { intro k. rewrite found_eol, run_repeat_class by (intros m [= <-]; lia).
    rewrite run_to_end. cbn [within].
    now rewrite (forallb_ext _ name_char) by (intro c; apply name_class). }
  split.
  - intros (k & Hk & E). rewrite F in E.
    apply andb_true_iff in E as [E A]. apply andb_true_iff in E as [L _].
    apply Nat.leb_le in L.
    rewrite <- (firstn_skipn k s), (last_two_app _ _ _ L). now apply last_two_all.
  - unfold last_two. intro E.
    destruct (rev s) as [|b [|a r]] eqn:R; try discriminate.
    assert (S : s = rev r ++ [a; b]).
    { rewrite <- (rev_involutive s), R. cbn [rev]. now rewrite <- List.app_assoc. }
    exists (length (rev r)). split.
    + rewrite S, length_app. lia.
    + rewrite F, S, skipn_app, skipn_all, Nat.sub_diag. cbn [skipn app length forallb].
      cbn [Nat.leb]. apply andb_true_iff in E as [-> ->]. reflexivity.
Qed.

(** X15.  [validate("name", s)] looks at the end of the text only: it is
    [true] exactly when the text has at least two characters and its last
    two are letters of the rule (ASCII "A" to "z", U+0401 to U+0451),
    whatever comes before them. *)
Theorem validate_name (s : jstring) :
  Filter.validate (VStr (str "name")) (VStr s) = Ok (VBool (last_two name_char s)).
Proof.
  rewrite validate_strings.
  compute_term (RegExp.test (type_rule (str "login")) (str "name")).
  compute_term (RegExp.test (type_rule (str "name")) (str "name")).
  now rewrite test_name.
Qed.

(** ** Which rule a type selects *)

Lemma test_type_rules (t : jstring) :
  (RegExp.test (type_rule (str "login")) t = true <-> ends_like (str "logi") 110 t)
  /\ (RegExp.test (type_rule (str "name")) t = true <-> ends_like (str "nam") 101 t)
  /\ (RegExp.test (type_rule (str "email")) t = true <-> ends_like (str "emai") 108 t)
  /\ (RegExp.test (type_rule (str "pass")) t = true <-> ends_like (str "pas") 115 t)
  /\ (RegExp.test (type_rule (str "telephone")) t = true
      <-> ends_like (str "telephon") 101 t).
Proof.
  destruct type_rules as (-> & -> & -> & -> & ->).
  repeat split; apply test_type_shape.
Qed.

(** X16.  The type of a field selects a rule by its ending: [validate]
    returns [null] exactly when the type is not some text (without line
    terminator) followed by "logi", "nam", "emai", "pas" or "telephon" and any
    number of repetitions of the letter that completes the key. *)
Theorem validate_null_iff (t s : jstring) :
  Filter.validate (VStr t) (VStr s) = Ok VNull <->
  ~ ends_like (str "logi") 110 t /\ ~ ends_like (str "nam") 101 t
  /\ ~ ends_like (str "emai") 108 t /\ ~ ends_like (str "pas") 115 t
  /\ ~ ends_like (str "telephon") 101 t.
Proof.
  rewrite validate_strings.
  destruct (test_type_rules t) as (T1 & T2 & T3 & T4 & T5).
  rewrite <- T1, <- T2, <- T3, <- T4, <- T5.
  destruct (RegExp.test (type_rule (str "login")) t);
    [split; [discriminate | intros (H & _); now contradiction H]|].
  destruct (RegExp.test (type_rule (str "name")) t);
    [split; [discriminate | intros (_ & H & _); now contradiction H]|].
  destruct (RegExp.test (type_rule (str "email")) t);
    [split; [discriminate | intros (_ & _ & H & _); now contradiction H]|].
  destruct (RegExp.test (type_rule (str "pass")) t);
    [split; [discriminate | intros (_ & _ & _ & H & _); now contradiction H]|].
  destruct (RegExp.test (type_rule (str "telephone")) t);
    [split; [discriminate | intros (_ & _ & _ & _ & H); now contradiction H]|].
  split; [intros _; repeat split; discriminate | reflexivity].
Qed.

Lemma last_app_cons (p : jstring) (a : N) (r : jstring) (d : N) :
  last (p ++ a :: r) d = last (a :: r) d.
Proof.
  induction p as [|b p IH]; [reflexivity|].
  cbn [app]. destruct (p ++ a :: r) as [|n l] eqn:E; [destruct p; discriminate|].
  change (last (b :: n :: l) d) with (last (n :: l) d). exact IH.
Qed.

Lemma last_repeat (c d : N) (j : nat) : last (repeat c (S j)) d = c.
Proof. induction j as [|j IH]; [reflexivity|]. cbn [repeat last] in *. exact IH. Qed.

(** A type that ends like a key ends with the last letter of the stem or
    with the letter that follows it. *)
Lemma ends_like_last (stem : jstring) (c l : N) (t : jstring) :
  ends_like (stem ++ [c]) l t -> last t 0%N = c \/ last t 0%N = l.
Proof.
  intros (p & j & _ & ->). destruct j as [|j].
  - left. cbn [repeat]. rewrite List.app_nil_r, List.app_assoc.
    now rewrite last_last.
  - right. rewrite !List.app_assoc.
    change (repeat l (S j)) with (l :: repeat l j).
    rewrite last_app_cons. apply (last_repeat l 0%N j).
Qed.

(** X17.  A type that ends in "name" (such as "username" or "surname") is
    checked by the rule for names, not by the rule for logins: the result
    only depends on the last two characters of the text. *)
Theorem validate_name_suffix (p s : jstring) :
  forallb not_terminator p = true ->
  Filter.validate (VStr (p ++ str "name")) (VStr s) = Ok (VBool (last_two name_char s)).
Proof.
  intro Hp. rewrite validate_strings.
  destruct (test_type_rules (p ++ str "name")) as (T1 & T2 & _).
  destruct (RegExp.test (type_rule (str "login")) (p ++ str "name")) eqn:E1.
  - exfalso. apply proj1 in T1. specialize (T1 eq_refl).
    apply (ends_like_last (str "log") 105 110) in T1.
    change (str "name") with (str "nam" ++ [101%N]) in T1.
    rewrite List.app_assoc, last_last in T1. destruct T1; discriminate.
  - replace (RegExp.test (type_rule (str "name")) (p ++ str "name")) with true.
    + now rewrite test_name.
    + symmetry. apply T2. exists p, 1. split; [exact Hp | reflexivity].
Qed.

Lemma validate_name_suffix_witness :
  forallb not_terminator (str "user") = true
  /\ Filter.validate (VStr (str "user" ++ str "name")) (VStr (str "1234ab"))
     = Ok (VBool true).
Proof.
  split; [reflexivity|].
  exact (validate_name_suffix (str "user") (str "1234ab") eq_refl).
Defined.

(** ** Assignment to a property *)

Lemma in_replace_value {A} (k : jstring) (v : A) (props : list (jstring * A))
    (k' : jstring) (x : A) :
  In (k', x) (Obj.replace_value k v props) -> (k' = k /\ x = v) \/ In (k', x) props.
Proof.
  induction props as [|[k0 v0] props IH]; [contradiction|].
  cbn [Obj.replace_value]. destruct (str_eqb k k0).
  - intros [[= <- <-] | H]; [now left | right; now right].
  - intros [[= <- <-] | H]; [right; now left|].
    destruct (IH H) as [E | I]; [now left | right; now right].
Qed.

Lemma in_insert_index {A} (n : N) (k : jstring) (v : A) (props : list (jstring * A))
    (e : jstring * A) :
  In e (Obj.insert_index n k v props) <-> e = (k, v) \/ In e props.
Proof.
  induction props as [|[k0 v0] props IH]; cbn [Obj.insert_index In].
  - split; [intros [<- | []]; now left | intros [-> | []]; now left].
  - destruct (Obj.comes_before n k0); cbn [In]; [split; intros [<- | H]; auto|].
    rewrite IH. tauto.
Qed.

(** Assignment adds nothing but the pair assigned. *)
Lemma in_assign {A} (k : jstring) (v : A) (props : list (jstring * A))
    (k' : jstring) (x : A) :
  In (k', x) (Obj.assign k v props) -> (k' = k /\ x = v) \/ In (k', x) props.
Proof.
  unfold Obj.assign. destruct (str_eqb k (str "__proto__")); [now right|].
  destruct (Obj.has_key k props).
  - apply in_replace_value.
  - destruct (Obj.array_index k).
    + intro H. apply in_insert_index in H as [[= -> ->] | H]; [now left | now right].
    + intro H. apply in_app_or in H as [H | [[= -> ->] | []]]; [now right | now left].
Qed.

Lemma has_key_in {A} (k : jstring) (props : list (jstring * A)) :
  Obj.has_key k props = true <-> In k (map fst props).
Proof.
  induction props as [|[k0 v0] props IH]; cbn [Obj.has_key map fst In]; [split; [discriminate|tauto]|].
  rewrite orb_true_iff, IH, str_eqb_eq. split; intros [H | H]; auto.
Qed.

Lemma in_replace_other {A} (k : jstring) (v : A) (props : list (jstring * A))
    (k' : jstring) (x : A) :
  k' <> k -> In (k', x) props -> In (k', x) (Obj.replace_value k v props).
Proof.
  intro Hne. induction props as [|[k0 v0] props IH]; [contradiction|].
  cbn [Obj.replace_value]. destruct (str_eqb k k0) eqn:E.
  - apply str_eqb_eq in E. subst k0.
    intros [[= -> ->] | H]; [contradiction | now right].
  - intros [H | H]; [now left | right; now apply IH].
Qed.

(** Assignment to another key keeps what is there. *)
Lemma assign_keeps {A} (k : jstring) (v : A) (props : list (jstring * A))
    (k' : jstring) (x : A) :
  k' <> k -> In (k', x) props -> In (k', x) (Obj.assign k v props).
Proof.
  intros Hne I. unfold Obj.assign. destruct (str_eqb k (str "__proto__")); [exact I|].
  destruct (Obj.has_key k props).
  - now apply in_replace_other.
  - destruct (Obj.array_index k).
    + apply in_insert_index. now right.
    + apply in_or_app. now left.
Qed.

Lemma in_replace_same {A} (k : jstring) (v : A) (props : list (jstring * A)) :
  Obj.has_key k props = true -> In (k, v) (Obj.replace_value k v props).
Proof.
  induction props as [|[k0 v0] props IH]; [discriminate|].
  cbn [Obj.has_key Obj.replace_value]. destruct (str_eqb k k0); [intros _; now left|].
  cbn [orb]. intro H. right. now apply IH.
Qed.

(** The property assigned is there afterwards, "__proto__" apart. *)
Lemma assign_sets {A} (k : jstring) (v : A) (props : list (jstring * A)) :
  k <> str "__proto__" -> In (k, v) (Obj.assign k v props).
Proof.
  intro Hne. unfold Obj.assign. apply str_eqb_neq in Hne. rewrite Hne.
  destruct (Obj.has_key k props) eqn:H.
  - now apply in_replace_same.
  - destruct (Obj.array_index k).
    + apply in_insert_index. now left.
    + apply in_or_app. right. now left.
Qed.

(** ** [getUserData] *)

Lemma validate_from_results (rules : list (jstring * RegExp.regexp)) (type v : value)
    (r : value) :
  Filter.validate_from rules type v = Ok r ->
  r = VBool true \/ r = VBool false \/ r = VNull.
Proof.
  induction rules as [|[key rule] rules IH]; cbn [Filter.validate_from].
  - intros [= <-]. auto.
  - destruct (Filter.type_pattern key); cbn [bind]; [|discriminate].
    destruct (JS.ToString type); cbn [bind]; [|discriminate].
    destruct (RegExp.test a a0); [|exact IH].
    destruct (JS.ToString v); cbn [bind]; [|discriminate].
    destruct (RegExp.test rule a1); intros [= <-]; auto.
Qed.

Lemma getUserData_from_soft (data : value) (keys : list jstring)
    (acc : list (jstring * value)) (r : value) :
  (forall k x, In (k, x) acc -> kept data k x) ->
  Filter.getUserData_from keys data false acc = Ok r ->
  exists props, r = VObj props /\ forall k x, In (k, x) props -> kept data k x.
Proof.
  revert acc. induction keys as [|key keys IH]; intros acc Hacc; cbn [Filter.getUserData_from].
  - intros [= <-]. eauto.
  - destruct (JS.get data key) as [v|] eqn:G; cbn [bind]; [|discriminate].
    destruct (Filter.filled v) as [[|]|] eqn:F; cbn [bind]; [| apply IH, Hacc | discriminate].
    destruct (Filter.validate (VStr key) v) as [valid|] eqn:V; cbn [bind]; [|discriminate].
    destruct (validate_from_results _ _ _ _ V) as [-> | [-> | ->]]; cbn.
    + apply IH. intros k x I. apply in_assign in I as [[-> ->] | I]; [|now apply Hacc].
      repeat split; auto.
    + apply IH, Hacc.
    + apply IH. intros k x I. apply in_assign in I as [[-> ->] | I]; [|now apply Hacc].
      repeat split; auto.
Qed.

(** X18.  Without [hardCheck], [getUserData] never returns [false]: when it
    returns, the result is an object, and each of its properties is a
    property of [data] with the same value, not loosely equal to [null] or
    to the empty string, that its rule accepts or that has no rule. *)
Theorem getUserData_soft (data r : value) :
  Filter.getUserData data false = Ok r ->
  exists props, r = VObj props /\ forall k x, In (k, x) props -> kept data k x.
Proof.
  unfold Filter.getUserData. apply getUserData_from_soft. intros k x [].
Qed.

Lemma getUserData_soft_witness :
  Filter.getUserData demo_form false
  = Ok (VObj [(str "login", VStr (str "abcd")); (str "note", VStr (str "<b>"))])
  /\ exists props,
      VObj [(str "login", VStr (str "abcd")); (str "note", VStr (str "<b>"))] = VObj props
      /\ forall k x, In (k, x) props -> kept demo_form k x.
Proof.
  assert (E : Filter.getUserData demo_form false
              = Ok (VObj [(str "login", VStr (str "abcd")); (str "note", VStr (str "<b>"))]))
    by (vm_compute; reflexivity).
  split; [exact E|].
  exact (getUserData_soft demo_form _ E).
Defined.

Lemma getUserData_from_persist (data : value) (hardCheck : bool) (keys : list jstring)
    (acc u : list (jstring * value)) :
  Filter.getUserData_from keys data hardCheck acc = Ok (VObj u) ->
  forall k x, In (k, x) acc -> ~ In k keys -> In (k, x) u.
Proof.
  revert acc. induction keys as [|key keys IH]; intros acc; cbn [Filter.getUserData_from].
  - intros [= <-] k x I _. exact I.
  - destruct (JS.get data key) as [v|]; cbn [bind]; [|discriminate].
    destruct (Filter.filled v) as [[|]|]; cbn [bind]; [| | discriminate].
    + destruct (Filter.validate (VStr key) v) as [valid|]; cbn [bind]; [|discriminate].
      destruct (JS.loose_eq valid VNull) as [unknown|]; cbn [bind]; [|discriminate].
      destruct (JS.truthy valid || unknown).
      * intros E k x I N. apply (IH _ E).
        -- apply assign_keeps; [|exact I]. intros ->. apply N. now left.
        -- intro H. apply N. now right.
      * destruct hardCheck; [discriminate|].
        intros E k x I N. apply (IH _ E k x I). intro H. apply N. now right.
    + intros E k x I N. apply (IH _ E k x I). intro H. apply N. now right.
Qed.

Lemma getUserData_from_hard (data : value) (keys : list jstring)
    (acc : list (jstring * value)) (r : value) :
  NoDup keys ->
  Filter.getUserData_from keys data true acc = Ok r ->
  (r = VBool false
   /\ exists k x, In k keys /\ JS.get data k = Ok x /\ Filter.filled x = Ok true
                  /\ Filter.validate (VStr k) x = Ok (VBool false))
  \/ (exists u, r = VObj u
      /\ forall k x, In k keys -> JS.get data k = Ok x -> Filter.filled x = Ok true ->
                     k <> str "__proto__" -> In (k, x) u).
Proof.
  intro ND. revert acc.
  induction keys as [|key keys IH]; intros acc; cbn [Filter.getUserData_from].
  - intros [= <-]. right. exists acc. split; [reflexivity|]. intros k x [].
  - apply NoDup_cons_iff in ND as [Nk ND]. specialize (IH ND).
    destruct (JS.get data key) as [v|] eqn:G; cbn [bind]; [|discriminate].
    destruct (Filter.filled v) as [[|]|] eqn:F; cbn [bind]; [| | discriminate].
    + destruct (Filter.validate (VStr key) v) as [valid|] eqn:V; cbn [bind]; [|discriminate].
      destruct (validate_from_results _ _ _ _ V) as [-> | [-> | ->]]; cbn.
      * intro E. destruct (IH _ E) as [(-> & k & x & I & H) | (u & -> & H)].
        -- left. split; [reflexivity|]. exists k, x. split; [now right | exact H].
        -- right. exists u. split; [reflexivity|].
           intros k x [<- | I] Gk Fk Pk; [|now apply H].
           rewrite G in Gk. injection Gk as <-.
           apply (getUserData_from_persist data true keys _ u E); [|exact Nk].
           now apply assign_sets.
      * intros [= <-]. left. split; [reflexivity|]. exists key, v.
        split; [now left | auto].
      * intro E. destruct (IH _ E) as [(-> & k & x & I & H) | (u & -> & H)].
        -- left. split; [reflexivity|]. exists k, x. split; [now right | exact H].
        -- right. exists u. split; [reflexivity|].
           intros k x [<- | I] Gk Fk Pk; [|now apply H].
           rewrite G in Gk. injection Gk as <-.
           apply (getUserData_from_persist data true keys _ u E); [|exact Nk].
           now apply assign_sets.
    + intro E. destruct (IH _ E) as [(-> & k & x & I & H) | (u & -> & H)].
      * left. split; [reflexivity|]. exists k, x. split; [now right | exact H].
      * right. exists u. split; [reflexivity|].
        intros k x [<- | I] Gk Fk Pk; [|now apply H].
        rewrite G in Gk. injection Gk as <-. rewrite F in Fk. discriminate.
Qed.

Lemma lookup_nodup (props : list (jstring * value)) (k : jstring) (x : value) :
  NoDup (map fst props) -> In (k, x) props -> JS.lookup k props = Some x.
Proof.
  induction props as [|[k0 v0] props IH]; [contradiction|].
  cbn [map fst JS.lookup]. intros ND [[= -> ->] | I].
  - now rewrite str_eqb_refl.
  - apply NoDup_cons_iff in ND as [Nk ND].
    destruct (str_eqb k k0) eqn:E.
    + apply str_eqb_eq in E. subst k0. exfalso. apply Nk.
      apply in_map_iff. now exists (k, x).
    + now apply IH.
Qed.

(** X19.  With [hardCheck], for an object with distinct keys: when
    [getUserData] returns [false], some property of [data] that is not
    loosely empty is rejected by its rule; when it returns an object, that
    object holds every property of [data] that is not loosely equal to
    [null] or to the empty string. *)
Theorem getUserData_hard (props : list (jstring * value)) (r : value) :
  NoDup (map fst props) ->
  Filter.getUserData (VObj props) true = Ok r ->
  (r = VBool false
   /\ exists k x, In (k, x) props /\ Filter.filled x = Ok true
                  /\ Filter.validate (VStr k) x = Ok (VBool false))
  \/ (exists u, r = VObj u
      /\ forall k x, In (k, x) props -> Filter.filled x = Ok true ->
                     k <> str "__proto__" -> In (k, x) u).
Proof.
  intros ND E. unfold Filter.getUserData in E. cbn [JS.forin_keys] in E.
  destruct (getUserData_from_hard (VObj props) (map fst props) [] r ND E)
    as [(-> & k & x & I & G & F & V) | (u & -> & H)].
  - left. split; [reflexivity|]. exists k, x. split; [|auto].
    destruct (lookup_own_key props k I) as (y & L).
    rewrite (proj1 (own_property props k y L)) in G. injection G as <-.
    clear - L. induction props as [|[k0 v0] props IH]; [discriminate|].
    cbn [JS.lookup] in L. destruct (str_eqb k k0) eqn:E.
    + apply str_eqb_eq in E. subst. injection L as <-. now left.
    + right. now apply IH.
  - right. exists u. split; [reflexivity|]. intros k x I F P.
    apply H; auto.
    + apply in_map_iff. now exists (k, x).
    + apply own_property, (lookup_nodup props k x ND I).
Qed.

Lemma distinct_nodup (keys : list jstring) : Json.distinct keys = true -> NoDup keys.
Proof.
  induction keys as [|k keys IH]; intro D; [constructor|].
  cbn [Json.distinct] in D. apply andb_true_iff in D as [N D]. constructor; [|now apply IH].
  apply negb_true_iff in N. intro I.
  assert (E : existsb (str_eqb k) keys = true)
    by (apply existsb_exists; exists k; split; [exact I | apply str_eqb_refl]).
  congruence.
Qed.

Lemma getUserData_hard_witness :
  let props := [(str "login", VStr (str "abcd")); (str "age", VNum 0);
                (str "pass", VStr (str "short")); (str "note", VStr (str "<b>"))] in
  NoDup (map fst props)
  /\ Filter.getUserData (VObj props) true = Ok (VBool false)
  /\ ((VBool false = VBool false
       /\ exists k x, In (k, x) props /\ Filter.filled x = Ok true
                      /\ Filter.validate (VStr k) x = Ok (VBool false))
      \/ (exists u, VBool false = VObj u
          /\ forall k x, In (k, x) props -> Filter.filled x = Ok true ->
                         k <> str "__proto__" -> In (k, x) u)).
Proof.
  intro props.
  assert (ND : NoDup (map fst props)) by (apply distinct_nodup; vm_compute; reflexivity).
  assert (E : Filter.getUserData (VObj props) true = Ok (VBool false))
    by (vm_compute; reflexivity).
  split; [exact ND|]. split; [exact E|].
  exact (getUserData_hard props (VBool false) ND E).
Defined.

Lemma getUserData_from_ext (data data' : value) (hardCheck : bool) (keys : list jstring) :
  (forall key, In key keys -> JS.get data key = JS.get data' key) ->
  forall acc,
    Filter.getUserData_from keys data hardCheck acc
    = Filter.getUserData_from keys data' hardCheck acc.
Proof.
  induction keys as [|key keys IH]; intros H acc; [reflexivity|].
  cbn [Filter.getUserData_from]. rewrite <- (H key (or_introl eq_refl)).
  assert (H' : forall key', In key' keys -> JS.get data key' = JS.get data' key')
    by (intros key' I; apply H; now right).
  destruct (JS.get data key) as [v|]; cbn [bind]; [|reflexivity].
  destruct (Filter.filled v) as [[|]|]; cbn [bind]; [| now apply IH | reflexivity].
  destruct (Filter.validate (VStr key) v) as [valid|]; cbn [bind]; [|reflexivity].
  destruct (JS.loose_eq valid VNull) as [unknown|]; cbn [bind]; [|reflexivity].
  destruct (JS.truthy valid || unknown); [now apply IH|].
  destruct hardCheck; [reflexivity | now apply IH].
Qed.

Lemma lookup_skip (p1 p2 : list (jstring * value)) (k key : jstring) (v : value) :
  key <> k ->
  JS.lookup key (p1 ++ (k, v) :: p2) = JS.lookup key (p1 ++ p2).
Proof.
  intro Hne. induction p1 as [|[k0 v0] p1 IH]; cbn [app JS.lookup].
  - apply str_eqb_neq in Hne. now rewrite Hne.
  - destruct (str_eqb key k0); [reflexivity | exact IH].
Qed.

Lemma lookup_middle (p1 p2 : list (jstring * value)) (k : jstring) (v : value) :
  ~ In k (map fst p1) -> JS.lookup k (p1 ++ (k, v) :: p2) = Some v.
Proof.
  induction p1 as [|[k0 v0] p1 IH]; cbn [app JS.lookup map fst In]; intro N.
  - now rewrite str_eqb_refl.
  - destruct (str_eqb k k0) eqn:E.
    + apply str_eqb_eq in E. subst. exfalso. apply N. now left.
    + apply IH. intro H. apply N. now right.
Qed.

(** X20.  A property whose value is [undefined], [null], the empty string,
    the number 0, [false] or an empty array is passed over by [getUserData]
    without being checked, with and without [hardCheck]: the result is the
    same as for the object without that property. *)
Theorem getUserData_skips_empty (p1 p2 : list (jstring * value)) (k : jstring)
    (v : value) (hardCheck : bool) :
  ~ In k (map fst (p1 ++ p2)) ->
  In v [VUndefined; VNull; VStr []; VNum 0; VBool false; VArr []] ->
  Filter.getUserData (VObj (p1 ++ (k, v) :: p2)) hardCheck
  = Filter.getUserData (VObj (p1 ++ p2)) hardCheck.
Proof.
  intros N V. unfold Filter.getUserData. cbn [JS.forin_keys].
  rewrite !map_app. cbn [map fst]. rewrite map_app in N.
  assert (F : Filter.filled v = Ok false).
  { cbn [In] in V. decompose [or] V; subst; try reflexivity. contradiction. }
  assert (G : forall key, key <> k ->
                JS.get (VObj (p1 ++ (k, v) :: p2)) key = JS.get (VObj (p1 ++ p2)) key).
  { intros key Hne. unfold JS.get, JS.find, JS.get_own. cbn [JS.kind_of bind].
    now rewrite lookup_skip. }
  assert (Gk : JS.get (VObj (p1 ++ (k, v) :: p2)) k = Ok v).
  { unfold JS.get, JS.find, JS.get_own. cbn [JS.kind_of bind].
    rewrite lookup_middle; [reflexivity|].
    intro H. apply N, in_or_app. now left. }
  generalize (@nil (jstring * value)) as acc.
  assert (N1 : ~ In k (map fst p1)) by (intro H; apply N, in_or_app; now left).
  assert (N2 : ~ In k (map fst p2)) by (intro H; apply N, in_or_app; now right).
  clear N. revert N1. generalize (map fst p1) as ks1.
  induction ks1 as [|key ks1 IH]; intros N1 acc; cbn [app Filter.getUserData_from].
  - rewrite Gk. cbn [bind]. rewrite F. cbn [bind].
    apply getUserData_from_ext. intros key I. apply G. intros ->. contradiction.
  - assert (Hne : key <> k) by (intros ->; apply N1; now left).
    rewrite (G key Hne).
    assert (N1' : ~ In k ks1) by (intro H; apply N1; now right).
    destruct (JS.get (VObj (p1 ++ p2)) key) as [x|]; cbn [bind]; [|reflexivity].
    destruct (Filter.filled x) as [[|]|]; cbn [bind]; [| now apply IH | reflexivity].
    destruct (Filter.validate (VStr key) x) as [valid|]; cbn [bind]; [|reflexivity].
    destruct (JS.loose_eq valid VNull) as [unknown|]; cbn [bind]; [|reflexivity].
    destruct (JS.truthy valid || unknown); [now apply IH|].
    destruct hardCheck; [reflexivity | now apply IH].
Qed.

Lemma getUserData_skips_empty_witness :
  ~ In (str "age")
      (map fst ([(str "login", VStr (str "abcd"))] ++ [(str "note", VStr (str "x"))]))
  /\ In (VNum 0) [VUndefined; VNull; VStr []; VNum 0; VBool false; VArr []]
  /\ Filter.getUserData
       (VObj ([(str "login", VStr (str "abcd"))] ++ (str "age", VNum 0)
              :: [(str "note", VStr (str "x"))])) true
     = Filter.getUserData
         (VObj ([(str "login", VStr (str "abcd"))] ++ [(str "note", VStr (str "x"))])) true.
Proof.
  assert (N : ~ In (str "age")
                (map fst ([(str "login", VStr (str "abcd"))]
                          ++ [(str "note", VStr (str "x"))]))).
  { cbn. intros [H | [H | []]]; discriminate. }
  assert (V : In (VNum 0) [VUndefined; VNull; VStr []; VNum 0; VBool false; VArr []])
    by (cbn; tauto).
  split; [exact N|]. split; [exact V|].
  exact (getUserData_skips_empty _ _ _ _ true N V).
Defined.

(** ** [getOs]: entries that are never reached *)

Lemma getOs_from_in (entries : list (jstring * RegExp.regexp)) (agent : value)
    (name : jstring) :
  InputHttp.getOs_from entries agent = Ok name ->
  name = str "Unknown" \/ In name (map fst entries).
Proof.
  induction entries as [|[item reg] entries IH]; cbn [InputHttp.getOs_from].
  - intros [= <-]. now left.
  - destruct (JS.ToString agent); cbn [bind]; [|discriminate].
    destruct (RegExp.test reg a).
    + intros [= <-]. right. now left.
    + intro H. destruct (IH H); [now left | right; now right].
Qed.

Lemma getOs_from_found (pre post : list (jstring * RegExp.regexp)) (agent : value)
    (s name : jstring) :
  JS.ToString agent = Ok s ->
  existsb (fun e => RegExp.test (snd e) s) pre = true ->
  InputHttp.getOs_from (pre ++ post) agent = Ok name ->
  In name (map fst pre).
Proof.
  intro T. induction pre as [|[item reg] pre IH]; [discriminate|].
  cbn [existsb snd app InputHttp.getOs_from map fst]. rewrite T. cbn [bind].
  destruct (RegExp.test reg s); cbn [orb].
  - intros _ [= <-]. now left.
  - intros E H. right. now apply IH.
Qed.

Lemma getOs_from_skip (pre post : list (jstring * RegExp.regexp)) (agent : value)
    (s : jstring) :
  JS.ToString agent = Ok s ->
  existsb (fun e => RegExp.test (snd e) s) pre = false ->
  InputHttp.getOs_from (pre ++ post) agent = InputHttp.getOs_from post agent.
Proof.
  intro T. induction pre as [|[item reg] pre IH]; [reflexivity|].
  cbn [existsb snd app InputHttp.getOs_from]. rewrite T. cbn [bind].
  destruct (RegExp.test reg s); cbn [orb]; [discriminate | exact IH].
Qed.

Lemma listed_in (name : jstring) (l : list jstring) : In name l -> listed name l = true.
Proof.
  intro I. apply existsb_exists. exists name. split; [exact I | apply str_eqb_refl].
Qed.

(** An entry is never the answer when every text in which its pattern is
    found has the pattern of an earlier entry, and no other entry has its
    name. *)
Lemma getOs_from_shadowed (pre post : list (jstring * RegExp.regexp))
    (name : jstring) (reg earlier : RegExp.regexp) (agent : value) :
  In earlier (map snd pre) ->
  (forall s, RegExp.test reg s = true -> RegExp.test earlier s = true) ->
  listed name (str "Unknown" :: names pre ++ names post) = false ->
  InputHttp.getOs_from (pre ++ (name, reg) :: post) agent <> Ok name.
Proof.
  intros I Sh L E.
  destruct (JS.ToString agent) as [s|] eqn:T.
  - destruct (existsb (fun e => RegExp.test (snd e) s) pre) eqn:X.
    + pose proof (getOs_from_found pre _ agent s name T X E) as H.
      rewrite (listed_in name (str "Unknown" :: names pre ++ names post)) in L;
        [discriminate|].
      right. apply in_or_app. now left.
    + rewrite (getOs_from_skip pre _ agent s T X) in E.
      cbn [InputHttp.getOs_from] in E. rewrite T in E. cbn [bind] in E.
      destruct (RegExp.test reg s) eqn:R.
      * apply Sh in R. apply in_map_iff in I as (e & <- & Ie).
        assert (X' : existsb (fun e => RegExp.test (snd e) s) pre = true)
          by (apply existsb_exists; exists e; auto).
        congruence.
      * destruct (getOs_from_in post agent name E) as [-> | H].
        -- cbn in L. discriminate.
        -- rewrite (listed_in name (str "Unknown" :: names pre ++ names post)) in L;
             [discriminate|].
           right. apply in_or_app. now right.
  - destruct pre as [|[item r] pre]; cbn [app InputHttp.getOs_from] in E;
      rewrite T in E; discriminate.
Qed.

Lemma found_seq (ic : bool) (a b : RegExp.pattern) (i : nat) (s : jstring) :
  found ic (RegExp.Seq a b) i s = true -> found ic a i s = true.
Proof.
  unfold found. rewrite run_seq.
  destruct (RegExp.run ic a (RegExp.mkState i s [])); [discriminate | reflexivity].
Qed.

Lemma found_group (ic : bool) (n : nat) (p : RegExp.pattern) (i : nat) (s : jstring) :
  found ic (RegExp.Group n p) i s = found ic p i s.
Proof.
  unfold found. cbn [RegExp.run].
  destruct (RegExp.run ic p (RegExp.mkState i s [])); reflexivity.
Qed.

Lemma found_alt (ic : bool) (a b : RegExp.pattern) (i : nat) (s : jstring) :
  found ic (RegExp.Alt a b) i s = found ic a i s || found ic b i s.
Proof.
  unfold found. cbn [RegExp.run].
  destruct (RegExp.run ic a (RegExp.mkState i s [])); reflexivity.
Qed.

Lemma test_mono (p q : RegExp.pattern) (ic : bool) (s : jstring) :
  (forall i t, found ic p i t = true -> found ic q i t = true) ->
  RegExp.test (RegExp.mkRegExp p ic) s = true ->
  RegExp.test (RegExp.mkRegExp q ic) s = true.
Proof.
  intro H. rewrite !test_found. cbn [RegExp.ignore_case RegExp.pattern_of].
  intros (k & Hk & F). exists k. split; [exact Hk | now apply H].
Qed.

(** "Windows NT 5.01" holds "Windows NT 5.0", and "Red Hat Enterprise"
    holds "Red Hat". *)
Lemma windows_2000_first (s : jstring) :
  RegExp.test (os_pattern 4) s = true -> RegExp.test (os_pattern 3) s = true.
Proof.
  pose (P := match RegExp.pattern_of (os_pattern 3) with
             | RegExp.Alt (RegExp.Group _ p) _ => p
             | _ => RegExp.Empty
             end).
  pose (Q := match RegExp.pattern_of (os_pattern 3) with
             | RegExp.Alt _ q => q
             | _ => RegExp.Empty
             end).
  replace (os_pattern 4)
    with (RegExp.mkRegExp (RegExp.Group 1 (RegExp.Seq P (RegExp.Char 49))) false)
    by (vm_compute; reflexivity).
  replace (os_pattern 3)
    with (RegExp.mkRegExp (RegExp.Alt (RegExp.Group 1 P) Q) false)
    by (vm_compute; reflexivity).
  apply test_mono. intros i t F.
  rewrite found_group in F. apply found_seq in F.
  now rewrite found_alt, found_group, F.
Qed.

Lemma found_chain (p : RegExp.pattern) (cs : jstring) (i : nat) (s : jstring) :
  found false (chain p cs) i s = true -> found false p i s = true.
Proof.
  unfold found. rewrite run_chain.
  destruct (RegExp.run false p (RegExp.mkState i s [])); [discriminate | reflexivity].
Qed.

Lemma red_hat_first (s : jstring) :
  RegExp.test (os_pattern 57) s = true -> RegExp.test (os_pattern 56) s = true.
Proof.
  pose (P := match RegExp.pattern_of (os_pattern 56) with
             | RegExp.Group _ p => p
             | _ => RegExp.Empty
             end).
  replace (os_pattern 57)
    with (RegExp.mkRegExp (RegExp.Group 1 (chain P (str " Enterprise"))) false)
    by (vm_compute; reflexivity).
  replace (os_pattern 56) with (RegExp.mkRegExp (RegExp.Group 1 P) false)
    by (vm_compute; reflexivity).
  apply test_mono. intros i t F.
  rewrite found_group in *. now apply found_chain in F.
Qed.

Lemma open_bsd_first (s : jstring) :
  RegExp.test (os_pattern 64) s = true -> RegExp.test (os_pattern 27) s = true.
Proof.
  replace (os_pattern 64) with (os_pattern 27) by (vm_compute; reflexivity). auto.
Qed.

Lemma oses_split (i : nat) :
  i < length InputHttp.oses ->
  InputHttp.oses
  = firstn i InputHttp.oses
    ++ (nth i (names InputHttp.oses) [], os_pattern i) :: skipn (S i) InputHttp.oses.
Proof.
  intro H. unfold os_pattern, names.
  rewrite <- (firstn_skipn i InputHttp.oses) at 1. f_equal.
  generalize dependent i. generalize InputHttp.oses as l.
  induction l as [|[a b] l IH]; intros i H; [cbn in H; lia|].
  destruct i as [|i]; [reflexivity|]. cbn [skipn map nth]. apply IH. cbn in H. lia.
Qed.

Lemma getOs_shadowed (i j : nat) (request : value) :
  j < i ->
  i < length InputHttp.oses ->
  (forall s, RegExp.test (os_pattern i) s = true -> RegExp.test (os_pattern j) s = true) ->
  listed (nth i (names InputHttp.oses) [])
    (str "Unknown" :: names (firstn i InputHttp.oses)
     ++ names (skipn (S i) InputHttp.oses)) = false ->
  InputHttp.getOs request <> nth i (names InputHttp.oses) [].
Proof.
  intros Hj Hi Sh L. unfold InputHttp.getOs.
  assert (U : str "Unknown" <> nth i (names InputHttp.oses) []).
  { intro E. rewrite <- E in L. cbn in L. discriminate. }
  destruct (JS.get request (str "headers")) as [headers|]; cbn [bind try_catch];
    [|exact U].
  destruct (JS.get headers (str "user-agent")) as [agent|]; cbn [bind]; [|exact U].
  destruct (InputHttp.getOs_from InputHttp.oses agent) as [name|] eqn:E; [|exact U].
  cbn [try_catch]. intros ->. revert E. rewrite (oses_split i Hi) at 1.
  apply (getOs_from_shadowed _ _ _ _ (os_pattern j)); [| exact Sh | exact L].
  unfold os_pattern. apply in_map_iff.
  exists (nth j InputHttp.oses ([], RegExp.mkRegExp RegExp.Empty false)). split.
  - rewrite <- (map_nth snd). reflexivity.
  - rewrite <- (firstn_skipn i InputHttp.oses) at 1.
    rewrite app_nth1 by (rewrite length_firstn; lia).
    apply nth_In. rewrite length_firstn. lia.
Qed.

(** X21.  Three entries of the table [oses] are never the answer of
    [getOs], whatever the request: "Windows 2000 Service Pack 1" and "Red
    Hat Enterprise Linux", whose patterns hold the pattern of the entry
    before them, and "OpenBSD", whose pattern is that of the earlier entry
    "Open BSD". *)
Theorem getOs_unreachable (request : value) :
  InputHttp.getOs request <> str "Windows 2000 Service Pack 1"
  /\ InputHttp.getOs request <> str "Red Hat Enterprise Linux"
  /\ InputHttp.getOs request <> str "OpenBSD".
Proof.
  split; [|split].
  - apply (getOs_shadowed 4 3 request); [lia | vm_compute; lia | apply windows_2000_first |].
    vm_compute. reflexivity.
  - apply (getOs_shadowed 57 56 request); [lia | vm_compute; lia | apply red_hat_first |].
    vm_compute. reflexivity.
  - apply (getOs_shadowed 64 27 request); [lia | vm_compute; lia | apply open_bsd_first |].
    vm_compute. reflexivity.
Qed.

(** X22.  [getOs] answers "Unknown" when the request has no header
    "user-agent", when it has no [headers], and when it is [undefined] or
    [null]. *)
Theorem getOs_without_agent (request : value) :
  (forall headers,
      JS.get request (str "headers") = Ok headers ->
      JS.get headers (str "user-agent") = Ok VUndefined
      \/ exists e, JS.get headers (str "user-agent") = Throw e) ->
  InputHttp.getOs request = str "Unknown".
Proof.
  intro H. unfold InputHttp.getOs.
  destruct (JS.get request (str "headers")) as [headers|]; [|reflexivity].
  cbn [bind]. destruct (H headers eq_refl) as [-> | (e & ->)]; [|reflexivity].
  cbn [bind]. vm_compute. reflexivity.
Qed.

Lemma getOs_without_agent_witness :
  (forall headers,
      JS.get (VObj [(str "headers", VObj [(str "host", VStr (str "example.com"))])])
        (str "headers") = Ok headers ->
      JS.get headers (str "user-agent") = Ok VUndefined
      \/ exists e, JS.get headers (str "user-agent") = Throw e)
  /\ InputHttp.getOs
       (VObj [(str "headers", VObj [(str "host", VStr (str "example.com"))])])
     = str "Unknown".
Proof.
  assert (H : forall headers,
             JS.get (VObj [(str "headers", VObj [(str "host", VStr (str "example.com"))])])
               (str "headers") = Ok headers ->
             JS.get headers (str "user-agent") = Ok VUndefined
             \/ exists e, JS.get headers (str "user-agent") = Throw e).
  { intros headers E. cbn in E. injection E as <-. left. reflexivity. }
  split; [exact H|].
  exact (getOs_without_agent _ H).
Defined.

(** ** Matching: where a match ends *)

Lemma in_step (ok : N -> bool) (x y : RegExp.state) :
  In y (RegExp.step ok x) <->
  exists a, RegExp.rest x = a :: RegExp.rest y /\ ok a = true
            /\ RegExp.pos y = S (RegExp.pos x) /\ RegExp.caps y = RegExp.caps x.
Proof.
  unfold RegExp.step. destruct x as [i s c]. cbn [RegExp.rest RegExp.pos RegExp.caps].
  destruct s as [|a s]; [|destruct (ok a) eqn:Ha].
  - split; [intros [] | intros (a & E & _); discriminate].
  - split.
    + intros [<- | []]. exists a. cbn. auto.
    + intros (a' & E & _ & P & C). left. injection E as <- E.
      destruct y as [j t d]. cbn in *. now subst.
  - split; [intros [] | intros (a' & E & Hok & _)]. injection E as <- _. congruence.
Qed.

Lemma in_group (ic : bool) (n : nat) (p : RegExp.pattern) (x y : RegExp.state) :
  In y (RegExp.run ic (RegExp.Group n p) x) ->
  exists y', In y' (RegExp.run ic p x)
             /\ RegExp.pos y = RegExp.pos y' /\ RegExp.rest y = RegExp.rest y'.
Proof.
  cbn [RegExp.run]. intro H. apply in_map_iff in H as (y' & <- & I).
  exists y'. split; [exact I | split; reflexivity].
Qed.

Lemma group_in (ic : bool) (n : nat) (p : RegExp.pattern) (x y' : RegExp.state) :
  In y' (RegExp.run ic p x) ->
  In (RegExp.capture n (RegExp.pos x) y') (RegExp.run ic (RegExp.Group n p) x).
Proof. intro I. cbn [RegExp.run]. now apply in_map. Qed.

Lemma in_repeat_class (ic negated : bool) (items : list RegExp.item)
    (min : nat) (max : option nat) (x y : RegExp.state) :
  (forall m, max = Some m -> min <= m) ->
  (In y (RegExp.run ic (RegExp.Repeat min max (RegExp.Class negated items)) x) <->
   exists k, min <= k <= most max (span (RegExp.in_class negated items) (RegExp.rest x))
             /\ y = advance k x).
Proof.
  intro M. destruct x as [i s c]. rewrite run_repeat_class by exact M.
  rewrite in_map_iff. cbn [RegExp.rest]. split.
  - intros (k & <- & I). apply in_downto in I. eauto.
  - intros (k & I & ->). exists k. split; [reflexivity | now apply in_downto].
Qed.

Lemma in_run_seq (ic : bool) (a b : RegExp.pattern) (x z : RegExp.state) :
  In z (RegExp.run ic (RegExp.Seq a b) x) <->
  exists y, In y (RegExp.run ic a x) /\ In z (RegExp.run ic b y).
Proof. rewrite run_seq. apply in_flat_map. Qed.

(** ** The pattern of a tag *)

Lemma tag_pattern_read : Filter.tag_pattern = RegExp.mkRegExp tag false.
Proof. reflexivity. Qed.

Lemma bracket_class (c : N) :
  RegExp.in_class true [RegExp.One 60; RegExp.One 62] c = not_bracket c.
Proof.
  unfold RegExp.in_class, not_bracket. cbn [existsb RegExp.member xorb].
  now rewrite orb_false_r, (N.eqb_sym 60 c), (N.eqb_sym 62 c).
Qed.

Lemma span_ext (f g : N -> bool) (s : jstring) :
  (forall c, f c = g c) -> span f s = span g s.
Proof. intro E. induction s as [|a s IH]; [reflexivity|]. cbn. now rewrite E, IH. Qed.

(** A tag starts with "<". *)
Lemma tag_needs_bracket (i : nat) (t : jstring) (c : list (nat * (nat * nat))) :
  match t with 60%N :: _ => False | _ => True end ->
  RegExp.run false tag (RegExp.mkState i t c) = [].
Proof.
  intro H. unfold tag. rewrite !run_seq. cbn [RegExp.run].
  replace (RegExp.step (RegExp.same false 60) (RegExp.mkState i t c)) with (@nil RegExp.state);
    [reflexivity|].
  destruct t as [|a t]; [reflexivity|]. rewrite step_cons. cbn [RegExp.same].
  destruct (N.eqb_spec 60 a) as [<- | _]; [contradiction | reflexivity].
Qed.

Lemma span_run (ok : N -> bool) (b : jstring) (a : N) (r : jstring) :
  forallb ok b = true -> ok a = false -> span ok (b ++ a :: r) = length b.
Proof.
  intros Hb Ha. induction b as [|c b IH]; cbn [app span length].
  - now rewrite Ha.
  - cbn in Hb. apply andb_true_iff in Hb as [-> Hb]. now rewrite IH.
Qed.

Lemma skipn_run (k : nat) (b : jstring) (r : jstring) :
  k <= length b -> skipn k (b ++ r) = skipn k b ++ r.
Proof. intro H. rewrite skipn_app. replace (k - length b) with 0 by lia. reflexivity. Qed.

Lemma forallb_skipn {A} (f : A -> bool) (k : nat) (l : list A) :
  forallb f l = true -> forallb f (skipn k l) = true.
Proof.
  revert l. induction k as [|k IH]; intros l H; [exact H|].
  destruct l as [|a l]; [reflexivity|]. cbn in *. apply andb_true_iff in H as [_ H].
  now apply IH.
Qed.

(** "<", a non-empty body without brackets, ">": the pattern matches, and
    every way of matching it ends right after the ">". *)
Lemma tag_matches (i : nat) (b r : jstring) (c : list (nat * (nat * nat))) :
  b <> [] ->
  forallb not_bracket b = true ->
  RegExp.run false tag (RegExp.mkState i (60%N :: b ++ 62%N :: r) c) <> []
  /\ forall y,
      In y (RegExp.run false tag (RegExp.mkState i (60%N :: b ++ 62%N :: r) c)) ->
      RegExp.pos y = i + length b + 2 /\ RegExp.rest y = r.
Proof.
  intros Hne Hb.
  assert (NB : not_bracket 62 = false) by reflexivity.
  assert (Sp : forall k, k <= length b ->
                 span (RegExp.in_class true [RegExp.One 60; RegExp.One 62])
                   (skipn k (b ++ 62%N :: r)) = length b - k).
  { intros k Hk. rewrite (span_ext _ not_bracket) by apply bracket_class.
    rewrite skipn_run by exact Hk.
    rewrite span_run; [apply length_skipn | now apply forallb_skipn | exact NB]. }
  split.
  - assert (I : exists y, In y (RegExp.run false tag
                                  (RegExp.mkState i (60%N :: b ++ 62%N :: r) c))).
    { unfold tag. eexists. apply in_run_seq. eexists. split.
      - apply in_run_seq. eexists. split.
        + apply in_run_seq. eexists. split.
          * apply group_in. rewrite run_char, step_cons. left. reflexivity.
          * apply group_in. apply in_repeat_class; [intros m [= <-]; lia|].
            exists 0. split; [lia | reflexivity].
        + apply in_repeat_class; [discriminate|].
          exists (length b). split; [|reflexivity].
          unfold advance, RegExp.capture. cbn [RegExp.rest most skipn].
          pose proof (Sp 0 (Nat.le_0_l _)) as S0. cbn [skipn] in S0. rewrite S0.
          destruct b; [contradiction|]. cbn [length]. lia.
      - apply group_in. rewrite run_char. unfold advance, RegExp.capture.
        cbn [RegExp.rest RegExp.pos RegExp.caps skipn].
        rewrite skipn_app, skipn_all, Nat.sub_diag. cbn [skipn app].
        rewrite step_cons. left. reflexivity. }
    destruct I as (y & I). intro E. rewrite E in I. contradiction.
  - intros y4 I. unfold tag in I.
    apply in_run_seq in I as (y3 & I3 & I4).
    apply in_run_seq in I3 as (y2 & I2 & I3).
    apply in_run_seq in I2 as (y1 & I1 & I2).
    apply in_group in I1 as (y1' & I1 & P1 & R1).
    rewrite run_char in I1. apply in_step in I1 as (a & E1 & _ & P1' & _).
    cbn [RegExp.rest RegExp.pos] in E1, P1'. injection E1 as _ E1.
    apply in_group in I2 as (y2' & I2 & P2 & R2).
    apply in_repeat_class in I2 as (k2 & H2 & ->); [|intros m [= <-]; lia].
    apply in_repeat_class in I3 as (k3 & H3 & ->); [|discriminate].
    apply in_group in I4 as (y4' & I4 & P4 & R4).
    rewrite run_char in I4. apply in_step in I4 as (a' & E4 & A4 & P4' & _).
    unfold advance in *. cbn [RegExp.rest RegExp.pos RegExp.caps most] in *.
    cbn [RegExp.same] in A4. apply N.eqb_eq in A4. subst a'.
    rewrite R2, R1, <- E1 in *. rewrite P2, P1, P1' in *. clear R2 R1 P2 P1 P1' E1.
    assert (K2 : k2 <= 1) by (destruct H2 as [_ H2]; apply Nat.min_glb_l in H2; exact H2).
    assert (L : 1 <= length b) by (destruct b; [contradiction | cbn; lia]).
    rewrite (Sp k2) in H3 by lia.
    rewrite skipn_skipn in E4.
    assert (K : k3 + k2 = length b).
    { destruct (Nat.eq_dec (k3 + k2) (length b)) as [E | Hne']; [exact E|].
      exfalso. rewrite skipn_run in E4 by lia.
      destruct (skipn (k3 + k2) b) as [|h q] eqn:Sk.
      - apply (f_equal (@length N)) in Sk. rewrite length_skipn in Sk. cbn in Sk. lia.
      - cbn [app] in E4. injection E4 as -> _.
        assert (F : forallb not_bracket (skipn (k3 + k2) b) = true)
          by now apply forallb_skipn.
        rewrite Sk in F. cbn in F. discriminate. }
    rewrite K, skipn_app, skipn_all, Nat.sub_diag in E4. cbn [skipn app] in E4.
    injection E4 as E4. split; [|now rewrite R4, <- E4].
    rewrite P4, P4'. lia.
Qed.

(** ** [stripTags] on a marked-up text *)

Lemma search_cons (re : RegExp.regexp) (i : nat) (a : N) (s : jstring) :
  RegExp.run (RegExp.ignore_case re) (RegExp.pattern_of re) (RegExp.mkState i (a :: s) []) = [] ->
  RegExp.search re i (a :: s) = RegExp.search re (S i) s.
Proof. intro H. cbn [RegExp.search]. now rewrite H. Qed.

(** Text without "<" is passed over. *)
Lemma search_tag_text (text t : jstring) (i : nat) :
  no_open text = true ->
  t <> [] ->
  RegExp.search Filter.tag_pattern i (text ++ t)
  = RegExp.search Filter.tag_pattern (i + length text) t.
Proof.
  intros H Ht. revert i. induction text as [|a text IH]; intro i.
  - cbn [app length]. now rewrite Nat.add_0_r.
  - cbn [no_open forallb] in H. apply andb_true_iff in H as [Ha H].
    cbn [app length]. rewrite search_cons.
    + rewrite (IH H). f_equal. lia.
    + rewrite tag_pattern_read. apply tag_needs_bracket.
      apply negb_true_iff, N.eqb_neq in Ha.
      destruct a as [|p]; [exact I|].
      destruct (N.eq_dec (N.pos p) 60) as [E | _]; [contradiction|].
      repeat (destruct p as [p|p|]; try exact I; try (exfalso; apply Ha; reflexivity)).
Qed.

Lemma search_tag_none (text : jstring) (i : nat) :
  no_open text = true -> RegExp.search Filter.tag_pattern i text = None.
Proof.
  intro H. apply search_none. intros k _.
  rewrite tag_pattern_read. cbn [RegExp.ignore_case RegExp.pattern_of].
  unfold found. rewrite tag_needs_bracket; [reflexivity|].
  assert (F : no_open (skipn k text) = true) by now apply forallb_skipn.
  destruct (skipn k text) as [|a t]; [exact I|].
  cbn in F. apply andb_true_iff in F as [Ha _].
  apply negb_true_iff, N.eqb_neq in Ha.
  destruct a as [|p]; [exact I|].
  repeat (destruct p as [p|p|]; try exact I; try (exfalso; apply Ha; reflexivity)).
Qed.

Lemma search_tag (b r : jstring) (i : nat) :
  b <> [] ->
  forallb not_bracket b = true ->
  exists y, RegExp.search Filter.tag_pattern i (60%N :: b ++ 62%N :: r) = Some (i, y)
            /\ RegExp.pos y = i + length b + 2 /\ RegExp.rest y = r.
Proof.
  intros Hne Hb. destruct (tag_matches i b r [] Hne Hb) as [NE All].
  cbn [RegExp.search]. rewrite tag_pattern_read.
  cbn [RegExp.ignore_case RegExp.pattern_of].
  destruct (RegExp.run false tag (RegExp.mkState i (60%N :: b ++ 62%N :: r) []))
    as [|y l]; [contradiction|].
  exists y. split; [reflexivity|]. apply All. now left.
Qed.

Lemma replace_markup (pieces : list (jstring * jstring)) (last : jstring) :
  well_marked pieces last = true ->
  forall fuel i,
    length pieces < fuel ->
    RegExp.replace_from fuel Filter.tag_pattern [] i (render pieces last)
    = plain pieces last.
Proof.
  unfold well_marked. intro W. apply andb_true_iff in W as [W L].
  induction pieces as [|[text body] pieces IH]; intros fuel i Hf;
    (destruct fuel as [|f]; [cbn in Hf; lia|]); cbn [RegExp.replace_from render plain].
  - now rewrite search_tag_none.
  - cbn [forallb fst snd] in W. apply andb_true_iff in W as [W1 W].
    apply andb_true_iff in W1 as [W1 Wb]. apply andb_true_iff in W1 as [Wt Wn].
    assert (Hne : body <> []) by (destruct body; [discriminate | discriminate]).
    rewrite search_tag_text by (exact Wt || discriminate).
    destruct (search_tag body (render pieces last) (i + length text) Hne Wb)
      as (y & -> & P & R).
    replace (i + length text - i) with (length text) by lia.
    rewrite firstn_app, firstn_all, Nat.sub_diag. cbn [firstn]. rewrite List.app_nil_r.
    replace (RegExp.pos y =? i + length text)%nat with false
      by (symmetry; apply Nat.eqb_neq; lia).
    cbn [app]. rewrite List.app_nil_r, R. f_equal. apply IH; [exact W|]. cbn in Hf. lia.
Qed.

Lemma render_length (pieces : list (jstring * jstring)) (last : jstring) :
  length pieces <= length (render pieces last).
Proof.
  induction pieces as [|[text body] pieces IH]; cbn [render length]; [lia|].
  rewrite length_app. cbn [length]. rewrite length_app. cbn [length]. lia.
Qed.

(** X23.  On a text with well-formed tags ("<", a non-empty body without
    brackets, ">", and no "<" elsewhere) [stripTags] removes exactly the
    tags: what it returns is the text between them.  In particular a text
    without "<" comes back unchanged. *)
Theorem stripTags_markup (pieces : list (jstring * jstring)) (last : jstring) :
  well_marked pieces last = true ->
  Filter.stripTags (VStr (render pieces last)) = Ok (VStr (plain pieces last)).
Proof.
  intro W. cbn [Filter.stripTags Str.toString JS.ToString bind].
  unfold Filter.strip, RegExp.replace.
  rewrite (replace_markup pieces last W); [reflexivity|].
  pose proof (render_length pieces last). lia.
Qed.

Lemma stripTags_markup_witness :
  well_marked [(str "Hello, ", str "b"); (str "world", str "/b")] (str "!") = true
  /\ Filter.stripTags (VStr (str "Hello, <b>world</b>!")) = Ok (VStr (str "Hello, world!")).
Proof.
  split; [reflexivity|].
  exact (stripTags_markup [(str "Hello, ", str "b"); (str "world", str "/b")] (str "!")
           eq_refl).
Defined.

(** ** [stripTags] on other values *)

Lemma strip_plain (s : jstring) : no_open s = true -> Filter.strip s = s.
Proof.
  intro H. unfold Filter.strip, RegExp.replace. cbn [RegExp.replace_from].
  now rewrite search_tag_none.
Qed.

Lemma digits_no_open (s : jstring) : forallb JS.is_digit s = true -> no_open s = true.
Proof.
  unfold no_open. intro H. rewrite forallb_forall in *. intros c Hc.
  specialize (H c Hc). unfold JS.is_digit in H. apply andb_true_iff in H as [_ H].
  apply N.leb_le in H. apply negb_true_iff, N.eqb_neq. lia.
Qed.

Lemma numeric_no_open (s : jstring) : forallb numeric_char s = true -> no_open s = true.
Proof.
  unfold no_open. intro H. rewrite forallb_forall in *. intros c Hc.
  specialize (H c Hc). unfold numeric_char, JS.is_digit in H.
  apply negb_true_iff, N.eqb_neq.
  repeat (apply orb_true_iff in H as [H | H]);
    [apply andb_true_iff in H as [_ H]; apply N.leb_le in H | apply N.eqb_eq in H ..]; lia.
Qed.

(** The text of a number has no [<]. *)
Lemma Number_toString_no_open (x : float) : no_open (JS.Number_toString x) = true.
Proof.
  unfold JS.Number_toString.
  destruct (Prim2SF x) as [s | s | | s m e]; try reflexivity.
  - destruct s; reflexivity.
  - destruct (JS.shortest_decimal m e) as [D E]. unfold no_open.
    rewrite forallb_app. fold (no_open (JS.format D E)).
    rewrite (numeric_no_open _ (format_numeric D E)). destruct s; reflexivity.
Qed.

Lemma strip_items_ok (items r : list value) :
  Filter.strip_items items = Ok r ->
  exists texts, r = map VStr texts /\ length texts = length items.
Proof.
  revert r. induction items as [|x items IH]; intros r; cbn [Filter.strip_items].
  - intros [= <-]. now exists [].
  - destruct (Str.toString x) as [s|]; cbn [bind]; [|discriminate].
    destruct (Filter.strip_items items) as [r'|]; cbn [bind]; [|discriminate].
    intros [= <-]. destruct (IH r' eq_refl) as (texts & -> & L).
    exists (Filter.strip s :: texts). split; [reflexivity | cbn; now rewrite L].
Qed.

Lemma strip_items_throws (items : list value) :
  In VNull items \/ In VUndefined items ->
  exists e, Filter.strip_items items = Throw e.
Proof.
  induction items as [|x items IH]; [intros [[] | []]|].
  intro H. cbn [Filter.strip_items].
  destruct (Str.toString x) as [s|e] eqn:T; cbn [bind]; [|eauto].
  destruct IH as (e & ->); [|cbn [bind]; eauto].
  destruct H as [[-> | H] | [-> | H]]; try discriminate; auto.
Qed.

(** X24.  [stripTags] outside plain texts: [null] comes back as it is;
    [undefined] makes it throw; a number comes back as the text of its
    numeral, the text that [String] gives for it; an array comes back as an
    array of as many texts, unless one of
    its elements is [null] or [undefined], in which case the call throws. *)
Theorem stripTags_values :
  Filter.stripTags VNull = Ok VNull
  /\ Filter.stripTags VUndefined = Throw TypeError
  /\ (forall x : float, Filter.stripTags (VNum x) = Ok (VStr (JS.Number_toString x)))
  /\ (forall items r,
         Filter.stripTags (VArr items) = Ok r ->
         exists texts, r = VArr (map VStr texts) /\ length texts = length items)
  /\ (forall items,
         In VNull items \/ In VUndefined items ->
         exists e, Filter.stripTags (VArr items) = Throw e).
Proof.
  split; [reflexivity|]. split; [reflexivity|]. split; [|split].
  - intro x. cbn [Filter.stripTags Str.toString JS.ToString bind].
    now rewrite strip_plain by apply Number_toString_no_open.
  - intros items r. cbn [Filter.stripTags].
    destruct (Filter.strip_items items) as [r'|] eqn:E; cbn [bind]; [|discriminate].
    intros [= <-]. destruct (strip_items_ok items r' E) as (texts & -> & L). eauto.
  - intros items H. cbn [Filter.stripTags].
    destruct (strip_items_throws items H) as (e & ->). cbn [bind]. eauto.
Qed.

Lemma stripTags_values_witness :
  Filter.stripTags (VArr [VStr (str "<b>a</b>"); VNum 1.5])
  = Ok (VArr [VStr (str "a"); VStr (str "1.5")])
  /\ (exists texts,
         VArr [VStr (str "a"); VStr (str "1.5")] = VArr (map VStr texts)
         /\ length texts = length [VStr (str "<b>a</b>"); VNum 1.5])
  /\ (In VNull [VStr (str "a"); VNull] \/ In VUndefined [VStr (str "a"); VNull])
  /\ exists e, Filter.stripTags (VArr [VStr (str "a"); VNull]) = Throw e.
Proof.
  assert (E : Filter.stripTags (VArr [VStr (str "<b>a</b>"); VNum 1.5])
              = Ok (VArr [VStr (str "a"); VStr (str "1.5")])) by (vm_compute; reflexivity).
  assert (H : In VNull [VStr (str "a"); VNull] \/ In VUndefined [VStr (str "a"); VNull])
    by (left; right; left; reflexivity).
  split; [exact E|].
  split; [exact (proj1 (proj2 (proj2 (proj2 stripTags_values))) _ _ E)|].
  split; [exact H|].
  exact (proj2 (proj2 (proj2 (proj2 stripTags_values))) _ H).
Defined.

(** ** Percent-encoding of a text of the Basic Multilingual Plane *)

Lemma bmp_units (c : N) :
  bmp_unit c = true ->
  Uri.decodeURIComponent (escaped c) = Ok [c]
  /\ separator_free (escaped c) = true.
Proof.
  intro B.
  assert (L : (c < 65536)%N).
  { unfold bmp_unit in B. apply andb_true_iff in B as [B _].
    apply andb_true_iff in B as [B _]. now apply N.ltb_lt in B. }
  pose proof (check_below
                (fun c => implb (bmp_unit c)
                            (decodes_to (escaped c) [c] && separator_free (escaped c)))
                65536 ltac:(vm_compute; reflexivity) c L) as C.
  cbv beta in C. rewrite B in C. cbn [implb] in C.
  apply andb_true_iff in C as [D S]. split; [|exact S].
  unfold decodes_to in D. destruct (Uri.decodeURIComponent (escaped c)); [|discriminate].
  apply str_eqb_eq in D. now subst.
Qed.

Lemma encodeURIComponent_unit (c : N) (s : jstring) :
  Utf8.is_low_surrogate c = false ->
  Utf8.is_high_surrogate c = false ->
  Uri.encodeURIComponent (c :: s)
  = let* r := Uri.encodeURIComponent s in Ok (escaped c ++ r).
Proof.
  intros Lo Hi. unfold escaped.
  change (Uri.encodeURIComponent (c :: s))
    with (if Uri.unreserved c then
            let* r := Uri.encodeURIComponent s in Ok (c :: r)
          else if Utf8.is_low_surrogate c then Throw URIError
          else if Utf8.is_high_surrogate c then
            match s with
            | d :: rest' =>
                if Utf8.is_low_surrogate d then
                  let* r := Uri.encodeURIComponent rest' in
                  Ok (Uri.escape (Utf8.encode_code_point (Utf8.pair_code_point c d)) ++ r)
                else Throw URIError
            | [] => Throw URIError
            end
          else
            let* r := Uri.encodeURIComponent s in
            Ok (Uri.escape (Utf8.encode_code_point c) ++ r)).
  rewrite Lo, Hi. destruct (Uri.unreserved c); reflexivity.
Qed.

Lemma encodeURIComponent_bmp (s : jstring) :
  bmp_text s = true -> Uri.encodeURIComponent s = Ok (flat_map escaped s).
Proof.
  induction s as [|c s IH]; intro H; [reflexivity|].
  cbn [bmp_text forallb] in H. apply andb_true_iff in H as [B H].
  unfold bmp_unit in B. apply andb_true_iff in B as [B Lo].
  apply andb_true_iff in B as [_ Hi]. apply negb_true_iff in Lo, Hi.
  rewrite (encodeURIComponent_unit c s Lo Hi), (IH H). reflexivity.
Qed.

(** [decodeURIComponent(encodeURIComponent(s)) === s] for a text without
    surrogates. *)
Lemma uri_roundtrip_bmp (s : jstring) :
  bmp_text s = true -> Uri.decodeURIComponent (flat_map escaped s) = Ok s.
Proof.
  induction s as [|c s IH]; intro H; [reflexivity|].
  cbn [bmp_text forallb] in H. apply andb_true_iff in H as [B H].
  cbn [flat_map]. destruct (bmp_units c B) as (D & _).
  rewrite (decodeURIComponent_app _ _ _ D), (IH H). reflexivity.
Qed.

Lemma escaped_separator_free (s : jstring) :
  bmp_text s = true -> separator_free (flat_map escaped s) = true.
Proof.
  induction s as [|c s IH]; intro H; [reflexivity|].
  cbn [bmp_text forallb] in H. apply andb_true_iff in H as [B H].
  cbn [flat_map]. unfold separator_free. rewrite forallb_app.
  destruct (bmp_units c B) as (_ & S). unfold separator_free in S. rewrite S.
  apply (IH H).
Qed.

(** ** [parseData] on a query string *)

Lemma separator_free_parts (e : jstring) :
  separator_free e = true ->
  forallb (fun c => negb (c =? 38)%N) e = true
  /\ forallb (fun c => negb (c =? 61)%N) e = true.
Proof.
  unfold separator_free. intro H. split; rewrite forallb_forall in *; intros c Hc;
    specialize (H c Hc); apply andb_true_iff in H as [A B]; assumption.
Qed.

Lemma join_cons (sep p : jstring) (q : jstring) (rest : list jstring) :
  JS.join sep (p :: q :: rest) = p ++ sep ++ JS.join sep (q :: rest).
Proof. reflexivity. Qed.

Lemma split_join (sep : N) (items : list jstring) :
  items <> [] ->
  forallb (fun item => forallb (fun c => negb (c =? sep)%N) item) items = true ->
  split sep (JS.join [sep] items) = items.
Proof.
  induction items as [|p [|q rest] IH]; intros Hne H; [contradiction | |].
  - cbn [JS.join]. cbn in H. apply andb_true_iff in H as [H _]. now apply split_last.
  - rewrite join_cons. cbn [forallb] in H. apply andb_true_iff in H as [Hp H].
    cbn [app]. rewrite split_segment by exact Hp. f_equal.
    apply IH; [discriminate | exact H].
Qed.

Lemma split_item (k e : jstring) :
  forallb (fun c => negb (c =? 61)%N) k = true ->
  forallb (fun c => negb (c =? 61)%N) e = true ->
  split 61 (k ++ 61%N :: e) = [k; e].
Proof. intros Hk He. now rewrite split_segment, split_last. Qed.

Lemma assign_fresh {A} (k : jstring) (v : A) (props : list (jstring * A)) :
  plain_key k = true ->
  Obj.has_key k props = false ->
  Obj.assign k v props = props ++ [(k, v)].
Proof.
  unfold plain_key, Obj.assign. intros P H.
  apply andb_true_iff in P as [P I]. apply andb_true_iff in P as [_ P].
  apply negb_true_iff in P. rewrite P, H.
  destruct (Obj.array_index k); [discriminate | reflexivity].
Qed.

Lemma has_key_app {A} (k : jstring) (a b : list (jstring * A)) :
  Obj.has_key k (a ++ b) = Obj.has_key k a || Obj.has_key k b.
Proof.
  induction a as [|[k0 v0] a IH]; [reflexivity|].
  cbn [app Obj.has_key]. now rewrite IH, orb_assoc.
Qed.

Lemma has_key_listed {A} (k : jstring) (props : list (jstring * A)) :
  Obj.has_key k props = existsb (str_eqb k) (map fst props).
Proof.
  induction props as [|[k0 v0] props IH]; [reflexivity|].
  cbn [Obj.has_key map fst existsb]. now rewrite IH.
Qed.

Lemma read_fields (hardCheck : bool) (fields : list (jstring * jstring)) :
  forallb plain_key (map fst fields) = true ->
  forallb bmp_text (map snd fields) = true ->
  forall found,
    Json.distinct (map fst found ++ map fst fields) = true ->
    Filter.read_items (map (fun f => fst f ++ 61%N :: encoded (snd f)) fields)
      hardCheck found
    = Ok (Some (found ++ fields)).
Proof.
  induction fields as [|[k v] fields IH]; intros K V found D.
  - cbn. now rewrite List.app_nil_r.
  - cbn [map fst snd forallb] in K, V.
    apply andb_true_iff in K as [Kk K]. apply andb_true_iff in V as [Vv V].
    cbn [map fst snd Filter.read_items].
    assert (E : encoded v = flat_map escaped v)
      by (unfold encoded; now rewrite encodeURIComponent_bmp).
    rewrite E.
    assert (Pk := Kk). unfold plain_key in Pk. apply andb_true_iff in Pk as [Pk _].
    apply andb_true_iff in Pk as [Sk _].
    rewrite split_item;
      [| apply (separator_free_parts k Sk)
       | apply (separator_free_parts _ (escaped_separator_free v Vv))].
    rewrite uri_roundtrip_bmp by exact Vv. cbn [bind].
    assert (F : Obj.has_key k found = false).
    { rewrite has_key_listed. clear - D. induction (map fst found) as [|a l IHl].
      - reflexivity.
      - cbn [app Json.distinct] in D. apply andb_true_iff in D as [N D].
        cbn [existsb]. rewrite (IHl D), orb_false_r.
        apply negb_true_iff in N. rewrite existsb_app in N.
        apply orb_false_iff in N as [_ N]. cbn [map fst existsb] in N.
        apply orb_false_iff in N as [N _]. now rewrite str_eqb_sym. }
    rewrite (assign_fresh k v found Kk F).
    rewrite IH; [now rewrite <- List.app_assoc | exact K | exact V |].
    rewrite map_app. cbn [map fst]. now rewrite <- List.app_assoc.
Qed.

(** X25.  [parseData] reads back a query string: for fields with distinct
    plain keys and values without surrogates, written as
    [key=encodeURIComponent(value)] and joined by "&", it returns the object
    of these fields in the same order, each value after the conversion to
    boolean or number; keys are taken as they are.  This holds when the
    text does not contain "content-disposition" in any case (it is then
    read as a multipart body), and with [hardCheck] when there is at least
    one field. *)
Theorem parseData_query (fields : list (jstring * jstring)) (hardCheck : bool) :
  forallb plain_key (map fst fields) = true ->
  Json.distinct (map fst fields) = true ->
  forallb bmp_text (map snd fields) = true ->
  RegExp.test Filter.disposition_pattern (query fields) = false ->
  fields <> [] \/ hardCheck = false ->
  Filter.parseData (query fields) hardCheck
  = Ok (Filter.Fields (map (fun f => (fst f, Filter.convert (snd f))) fields)).
Proof.
  intros K D V T H. unfold Filter.parseData. rewrite T.
  destruct fields as [|f fields].
  - destruct H as [H | ->]; [contradiction | reflexivity].
  - unfold query. rewrite split_join; [| discriminate |].
    + rewrite (read_fields hardCheck (f :: fields) K V [] D). reflexivity.
    + clear - K V. induction (f :: fields) as [|[k v] l IH]; [reflexivity|].
      cbn [map fst snd forallb] in *.
      apply andb_true_iff in K as [Kk K]. apply andb_true_iff in V as [Vv V].
      rewrite (IH K V), andb_true_r.
      unfold plain_key in Kk. apply andb_true_iff in Kk as [Kk _].
      apply andb_true_iff in Kk as [Sk _].
      rewrite forallb_app. cbn [forallb].
      rewrite (proj1 (separator_free_parts k Sk)).
      assert (E : encoded v = flat_map escaped v)
        by (unfold encoded; now rewrite encodeURIComponent_bmp).
      rewrite E, (proj1 (separator_free_parts _ (escaped_separator_free v Vv))).
      reflexivity.
Qed.

Lemma parseData_query_witness :
  forallb plain_key (map fst demo_fields) = true
  /\ Json.distinct (map fst demo_fields) = true
  /\ forallb bmp_text (map snd demo_fields) = true
  /\ RegExp.test Filter.disposition_pattern (query demo_fields) = false
  /\ (demo_fields <> [] \/ true = false)
  /\ Filter.parseData (str "id=42&admin=True&q=a%20b%26c%3Dd") true
     = Ok (Filter.Fields
             [(str "id", Filter.FNumber (Str.mkDecimal 42 0));
              (str "admin", Filter.FBoolean true);
              (str "q", Filter.FString (str "a b&c=d"))]).
Proof.
  assert (K : forallb plain_key (map fst demo_fields) = true) by (vm_compute; reflexivity).
  assert (D : Json.distinct (map fst demo_fields) = true) by (vm_compute; reflexivity).
  assert (V : forallb bmp_text (map snd demo_fields) = true) by (vm_compute; reflexivity).
  assert (T : RegExp.test Filter.disposition_pattern (query demo_fields) = false)
    by (vm_compute; reflexivity).
  assert (H : demo_fields <> [] \/ true = false) by (left; discriminate).
  split; [exact K|]. split; [exact D|]. split; [exact V|]. split; [exact T|].
  split; [exact H|].
  exact (parseData_query demo_fields true K D V T H).
Defined.

(** ** The conversion of a value by [parseData] *)

Lemma word_cons (ic : bool) (c : N) (cs : jstring) (y : RegExp.state) :
  flat_map (word ic cs) (RegExp.step (RegExp.same ic c) y) = word ic (c :: cs) y.
Proof.
  destruct y as [i s d]. unfold RegExp.step, word. cbn [RegExp.rest RegExp.pos RegExp.caps].
  destruct s as [|a s]; [reflexivity|]. cbn [begins].
  destruct (RegExp.same ic c a); [|reflexivity].
  cbn [flat_map RegExp.rest RegExp.pos RegExp.caps]. rewrite List.app_nil_r.
  destruct (begins ic cs s); [|reflexivity]. cbn [length]. do 2 f_equal. lia.
Qed.

Lemma word_nil (ic : bool) (l : list RegExp.state) : flat_map (word ic []) l = l.
Proof.
  induction l as [|[i s d] l IH]; [reflexivity|].
  cbn [flat_map]. rewrite IH. unfold word. cbn. now rewrite Nat.add_0_r.
Qed.

Lemma run_word (ic : bool) (cs : jstring) (p : RegExp.pattern) (x : RegExp.state) :
  RegExp.run ic (chain p cs) x = flat_map (word ic cs) (RegExp.run ic p x).
Proof.
  revert p. induction cs as [|c cs IH]; intro p.
  - cbn [chain fold_left]. now rewrite word_nil.
  - cbn [chain fold_left]. fold (chain (RegExp.Seq p (RegExp.Char c)) cs).
    rewrite IH. cbn [RegExp.run]. rewrite flat_map_flat_map.
    apply flat_map_ext. intro y. apply word_cons.
Qed.

(** A literal word of the pattern. *)
Lemma run_literal (ic : bool) (c : N) (cs : jstring) (x : RegExp.state) :
  RegExp.run ic (chain (RegExp.Char c) cs) x = word ic (c :: cs) x.
Proof. rewrite run_word, run_char. apply word_cons. Qed.

Lemma same_small (c a : N) :
  is_small_letter c = true ->
  RegExp.same true c a = (hd 0%N (Str.toLowerCase [a]) =? c)%N.
Proof.
  unfold is_small_letter, RegExp.same, RegExp.canonical, Str.toLowerCase.
  cbn [map hd]. intro H. rewrite H.
  apply andb_true_iff in H as [L U]. apply N.leb_le in L, U.
  destruct ((97 <=? a) && (a <=? 122))%N eqn:A;
    destruct ((65 <=? a) && (a <=? 90))%N eqn:B;
    rewrite ?andb_true_iff, ?andb_false_iff, ?N.leb_le, ?N.leb_gt in A, B;
    apply eq_true_iff_eq; rewrite !N.eqb_eq; lia.
Qed.

(** Without regard to case, a text is a word in small letters when its
    lower-case form is the word. *)
Lemma begins_lower (cs s : jstring) :
  forallb is_small_letter cs = true ->
  (begins true cs s = Some [] <-> Str.toLowerCase s = cs).
Proof.
  revert s. induction cs as [|c cs IH]; intros s H.
  - cbn [begins]. unfold Str.toLowerCase.
    destruct s; cbn [map]; split; [reflexivity | reflexivity | discriminate | discriminate].
  - cbn [forallb] in H. apply andb_true_iff in H as [Hc H].
    destruct s as [|a s]; [cbn; split; discriminate|].
    cbn [begins]. rewrite (same_small c a Hc).
    change (Str.toLowerCase (a :: s))
      with (hd 0%N (Str.toLowerCase [a]) :: Str.toLowerCase s).
    destruct (N.eqb_spec (hd 0%N (Str.toLowerCase [a])) c) as [-> | Hne].
    + rewrite (IH s H). split; congruence.
    + split; [discriminate | congruence].
Qed.

Lemma at_end_word (ic : bool) (cs : jstring) (n from : nat) (x : RegExp.state) :
  existsb at_end (map (RegExp.capture n from) (word ic cs x))
  = match begins ic cs (RegExp.rest x) with Some [] => true | _ => false end.
Proof.
  unfold word. destruct (begins ic cs (RegExp.rest x)) as [[|a r]|]; reflexivity.
Qed.

Lemma test_boolean (s : jstring) :
  RegExp.test Filter.boolean_pattern s
  = str_eqb (Str.toLowerCase s) (str "false") || str_eqb (Str.toLowerCase s) (str "true").
Proof.
  change Filter.boolean_pattern with
    (RegExp.mkRegExp
       (RegExp.Seq
          (RegExp.Seq RegExp.Bol
             (RegExp.Group 1
                (RegExp.Alt (chain (RegExp.Char 102) (str "alse"))
                   (chain (RegExp.Char 116) (str "rue")))))
          RegExp.Eol) true).
  rewrite test_anchored by reflexivity. cbn [RegExp.ignore_case RegExp.pattern_of].
  rewrite found_eol, run_seq, run_bol. cbn [flat_map]. rewrite List.app_nil_r.
  cbn [RegExp.run]. fold (chain (RegExp.Char 102) (str "alse")).
  fold (chain (RegExp.Char 116) (str "rue")).
  rewrite !run_literal, map_app, existsb_app, !at_end_word. cbn [RegExp.rest].
  apply eq_true_iff_eq. rewrite !orb_true_iff, !str_eqb_eq.
  rewrite <- (begins_lower (str "false") s eq_refl), <- (begins_lower (str "true") s eq_refl).
  change (102%N :: str "alse") with (str "false").
  change (116%N :: str "rue") with (str "true").
  destruct (begins true (str "false") s) as [[|? ?]|];
    destruct (begins true (str "true") s) as [[|? ?]|];
    split; intros [H | H]; try discriminate; auto.
Qed.

Lemma digit_class (c : N) : RegExp.in_class false [RegExp.Range 48 57] c = JS.is_digit c.
Proof.
  unfold RegExp.in_class, JS.is_digit. cbn [existsb RegExp.member xorb].
  now rewrite orb_false_r.
Qed.

Lemma point_class (c : N) : RegExp.in_class false [RegExp.One 46] c = (c =? 46)%N.
Proof.
  unfold RegExp.in_class. cbn [existsb RegExp.member xorb].
  now rewrite orb_false_r, N.eqb_sym.
Qed.

Lemma number_shape_digit (a : N) (r : jstring) :
  JS.is_digit a = true ->
  number_shape (a :: r) = match r with [] => true | _ :: _ => number_shape r end.
Proof.
  intro D. unfold number_shape. cbn [span]. rewrite D. cbn [skipn].
  destruct (skipn (span JS.is_digit r) r) as [|c f] eqn:E.
  - destruct r as [|b r]; [reflexivity|].
    destruct (span JS.is_digit (b :: r)) eqn:S0; [discriminate E | reflexivity].
  - destruct r as [|b r]; [discriminate E | reflexivity].
Qed.

Lemma number_shape_other (a : N) (r : jstring) :
  JS.is_digit a = false ->
  number_shape (a :: r)
  = (a =? 46)%N && (0 <? length r)%nat && forallb JS.is_digit r.
Proof. intro D. unfold number_shape. cbn [span]. now rewrite D. Qed.

Lemma number_shape_intro (s : jstring) :
  forall k j,
    k <= span JS.is_digit s ->
    j <= most (Some 1) (span (fun c => (c =? 46)%N) (skipn k s)) ->
    skipn j (skipn k s) <> [] ->
    forallb JS.is_digit (skipn j (skipn k s)) = true ->
    number_shape s = true.
Proof.
  induction s as [|a r IH]; intros k j Hk Hj Ne All.
  - rewrite !skipn_nil in Ne. contradiction.
  - destruct (JS.is_digit a) eqn:D.
    + rewrite (number_shape_digit a r D). destruct r as [|b r]; [reflexivity|].
      destruct k as [|k].
      * cbn [skipn span most] in Hj.
        assert (P : (a =? 46)%N = false).
        { unfold JS.is_digit in D. apply andb_true_iff in D as [L U].
          apply N.leb_le in L. apply N.eqb_neq. lia. }
        rewrite P in Hj. assert (j = 0) by lia. subst j. cbn [skipn] in *.
        cbn [forallb] in All. apply andb_true_iff in All as [_ All].
        apply (IH 0 0); [lia | lia | discriminate | exact All].
      * change (span JS.is_digit (a :: b :: r))
          with (if JS.is_digit a then S (span JS.is_digit (b :: r)) else 0) in Hk.
        rewrite D in Hk.
        change (skipn (S k) (a :: b :: r)) with (skipn k (b :: r)) in *.
        apply (IH k j); [lia | exact Hj | exact Ne | exact All].
    + rewrite (number_shape_other a r D).
      cbn [span] in Hk. rewrite D in Hk. assert (k = 0) by lia. subst k.
      cbn [skipn span most] in *.
      destruct (a =? 46)%N eqn:P.
      * destruct j as [|[|j]]; [| |cbn in Hj; lia].
        -- cbn [skipn forallb] in All. rewrite D in All. discriminate.
        -- cbn [skipn] in *. rewrite All. destruct r; [contradiction | reflexivity].
      * assert (j = 0) by (cbn in Hj; lia). subst j.
        cbn [skipn forallb] in All. rewrite D in All. discriminate.
Qed.

Lemma span_digits (s : jstring) :
  span (RegExp.in_class false [RegExp.Range 48 57]) s = span JS.is_digit s.
Proof. apply span_ext, digit_class. Qed.

Lemma span_point (s : jstring) :
  span (RegExp.in_class false [RegExp.One 46]) s = span (fun c => (c =? 46)%N) s.
Proof. apply span_ext, point_class. Qed.

Lemma test_number (s : jstring) : RegExp.test Filter.number_pattern s = number_shape s.
Proof.
  unfold Filter.number_pattern.
  rewrite test_anchored by reflexivity. cbn [RegExp.ignore_case RegExp.pattern_of].
  rewrite found_eol. apply eq_true_iff_eq. rewrite existsb_exists. split.
  - intros (y & I & E).
    apply in_run_seq in I as (y2 & I & I3). apply in_run_seq in I as (y1 & I & I2).
    apply in_run_seq in I as (y0 & I & I1). rewrite run_bol in I.
    destruct I as [<- | []].
    apply in_repeat_class in I1 as (k & Hk & ->); [|discriminate].
    apply in_repeat_class in I2 as (j & Hj & ->); [|intros m [= <-]; lia].
    apply in_repeat_class in I3 as (l & Hl & ->); [|discriminate].
    unfold advance in *. cbn [RegExp.rest RegExp.pos RegExp.caps most] in *.
    rewrite span_digits in Hk, Hl.
    rewrite span_point in Hj.
    unfold at_end in E. cbn [RegExp.rest] in E.
    set (t := skipn j (skipn k s)) in *.
    assert (L : l = length t).
    { pose proof (span_le JS.is_digit t).
      destruct (skipn l t) eqn:S0; [|discriminate].
      apply (f_equal (@length N)) in S0. rewrite length_skipn in S0. cbn in S0. lia. }
    apply (number_shape_intro s k j); [lia | cbn [most]; lia | |].
    + fold t. intro T. rewrite T in L. cbn in L. lia.
    + fold t. apply span_all. pose proof (span_le JS.is_digit t). lia.
  - intro H. unfold number_shape in H.
    destruct (skipn (span JS.is_digit s) s) as [|c f] eqn:E.
    + apply Nat.ltb_lt in H.
      assert (A : span JS.is_digit s = length s).
      { pose proof (span_le JS.is_digit s). apply (f_equal (@length N)) in E.
        rewrite length_skipn in E. cbn in E. lia. }
      exists (advance (length s) (advance 0 (advance 0 (RegExp.mkState 0 s [])))).
      split.
      * apply in_run_seq. eexists. split; [apply in_run_seq; eexists; split;
          [apply in_run_seq; eexists; split; [rewrite run_bol; left; reflexivity|]|]|].
        -- apply in_repeat_class; [discriminate|]. exists 0. split; [cbn; lia | reflexivity].
        -- apply in_repeat_class; [intros m [= <-]; lia|]. exists 0.
           split; [cbn; lia | reflexivity].
        -- apply in_repeat_class; [discriminate|]. exists (length s).
           split; [|reflexivity]. unfold advance. cbn [RegExp.rest skipn most].
           rewrite span_digits. lia.
      * unfold at_end, advance. cbn [RegExp.rest skipn]. now rewrite skipn_all.
    + apply andb_true_iff in H as [H All]. apply andb_true_iff in H as [P Ne].
      apply N.eqb_eq in P. subst c. apply Nat.ltb_lt in Ne.
      exists (advance (length f)
                (advance 1 (advance (span JS.is_digit s) (RegExp.mkState 0 s [])))).
      split.
      * apply in_run_seq. eexists. split; [apply in_run_seq; eexists; split;
          [apply in_run_seq; eexists; split; [rewrite run_bol; left; reflexivity|]|]|].
        -- apply in_repeat_class; [discriminate|]. exists (span JS.is_digit s).
           split; [|reflexivity]. cbn [RegExp.rest most].
           rewrite span_digits. lia.
        -- apply in_repeat_class; [intros m [= <-]; lia|]. exists 1.
           split; [|reflexivity]. unfold advance. cbn [RegExp.rest most].
           rewrite E. rewrite span_point.
           cbn. lia.
        -- apply in_repeat_class; [discriminate|]. exists (length f).
           split; [|reflexivity]. unfold advance. cbn [RegExp.rest most].
           rewrite E. cbn [skipn].
           rewrite span_digits.
           apply span_all in All. lia.
      * unfold at_end, advance. cbn [RegExp.rest]. rewrite E. cbn [skipn].
        now rewrite skipn_all.
Qed.

(** X26.  The conversion that [parseData] applies to a value: "true" and
    "false" in any mix of small and capital letters become the booleans;
    digits, or digits (maybe none) followed by a point and at least one
    digit, become the number they write; every other text stays as it
    is. *)
Theorem convert_cases (s : jstring) :
  Filter.convert s
  = if str_eqb (Str.toLowerCase s) (str "true") then Filter.FBoolean true
    else if str_eqb (Str.toLowerCase s) (str "false") then Filter.FBoolean false
    else if number_shape s then Filter.FNumber (Str.Number s)
    else Filter.FString s.
Proof.
  unfold Filter.convert, Filter.to_boolean. rewrite test_boolean.
  destruct (str_eqb (Str.toLowerCase s) (str "true")) eqn:T.
  - rewrite orb_true_r. reflexivity.
  - rewrite orb_false_r.
    destruct (str_eqb (Str.toLowerCase s) (str "false")) eqn:F; [reflexivity|].
    cbn [Filter.to_number]. now rewrite test_number.
Qed.

(** ** When [parseData] gives no object *)

Lemma unescape_throws (s : jstring) (e : exn) :
  Uri.unescape s = Throw e -> e = URIError.
Proof.
  remember (length s) as n eqn:L. assert (B : length s <= n) by lia. clear L.
  revert s B. induction n as [|n IH]; intros s B.
  - destruct s; [discriminate | cbn in B; lia].
  - destruct s as [|c rest]; [discriminate|]. cbn [Uri.unescape].
    destruct (c =? Uri.percent)%N.
    + destruct rest as [|h [|l rest']]; try (now intros [= <-]).
      destruct (Hex.digit_value h), (Hex.digit_value l); try (now intros [= <-]).
      destruct (Uri.unescape rest') eqn:U; [discriminate|].
      cbn [bind]. intros [= <-]. apply (IH rest'); [cbn in B; lia | exact U].
    + destruct (Uri.unescape rest) eqn:U; [discriminate|].
      cbn [bind]. intros [= <-]. apply (IH rest); [cbn in B; lia | exact U].
Qed.

Lemma decode_items_throws (l : list Uri.item) (e : exn) :
  Uri.decode_items l = Throw e -> e = URIError.
Proof.
  remember (length l) as n eqn:L. assert (B : length l <= n) by lia. clear L.
  revert l B. induction n as [|n IH]; intros l B.
  - destruct l; [discriminate | cbn in B; lia].
  - assert (T : forall r, length r <= n ->
                  (let* t := Uri.decode_items r in Ok t) = Uri.decode_items r).
    { intros r _. now destruct (Uri.decode_items r). }
    assert (K : forall (r : list Uri.item) (f : jstring -> jstring), length r <= n ->
                  (let* t := Uri.decode_items r in Ok (f t)) = Throw e -> e = URIError).
    { intros r f Hr H. destruct (Uri.decode_items r) eqn:D; [discriminate|].
      cbn [bind] in H. injection H as <-. now apply (IH r). }
    destruct l as [|[c|b] rest]; [discriminate | |]; cbn [Uri.decode_items].
    + apply K. cbn in B. lia.
    + destruct (b <? 128)%N; [apply K; cbn in B; lia|].
      destruct (N.shiftr b 5 =? 6)%N.
      { destruct rest as [|[?|b1] rest']; try (now intros [= <-]).
        match goal with |- (if ?c then _ else _) = _ -> _ => destruct c end;
          [apply K; cbn in B; lia | now intros [= <-]]. }
      destruct (N.shiftr b 4 =? 14)%N.
      { destruct rest as [|[?|b1] [|[?|b2] rest']]; try (now intros [= <-]).
        match goal with |- (if ?c then _ else _) = _ -> _ => destruct c end;
          [apply K; cbn in B; lia | now intros [= <-]]. }
      destruct (N.shiftr b 3 =? 30)%N; [|now intros [= <-]].
      destruct rest as [|[?|b1] [|[?|b2] [|[?|b3] rest']]]; try (now intros [= <-]).
      match goal with |- (if ?c then _ else _) = _ -> _ => destruct c end;
        [apply K; cbn in B; lia | now intros [= <-]].
Qed.

(** [decodeURIComponent] throws nothing but a [URIError]. *)
Lemma decodeURIComponent_throws (s : jstring) (e : exn) :
  Uri.decodeURIComponent s = Throw e -> e = URIError.
Proof.
  unfold Uri.decodeURIComponent. destruct (Uri.unescape s) eqn:U; cbn [bind].
  - apply decode_items_throws.
  - intros [= <-]. exact (unescape_throws s _ U).
Qed.

Lemma read_items_refused (hardCheck : bool) (items : list jstring) :
  forall found,
    Filter.read_items items hardCheck found = Ok None <->
    hardCheck = true
    /\ exists pre item post,
         items = pre ++ item :: post
         /\ length (split 61%N item) <> 2
         /\ forallb (passes true) pre = true.
Proof.
  induction items as [|item more IH]; intro found.
  - cbn [Filter.read_items]. split; [discriminate|].
    intros (_ & [|? ?] & ? & ? & E & _); discriminate E.
  - cbn [Filter.read_items].
    assert (Stop : length (split 61%N item) <> 2 ->
                   (if hardCheck then Ok None
                    else Filter.read_items more hardCheck found) = Ok None <->
                   hardCheck = true
                   /\ exists pre i post,
                        item :: more = pre ++ i :: post
                        /\ length (split 61%N i) <> 2
                        /\ forallb (passes true) pre = true).
    { intro Ne. destruct hardCheck.
      - split; [intros _ | reflexivity]. split; [reflexivity|].
        exists [], item, more. repeat split. exact Ne.
      - rewrite IH. split; intros [H _]; discriminate H. }
    destruct (split 61%N item) as [|k [|t [|u l]]] eqn:S;
      [apply Stop; cbn; lia | apply Stop; cbn; lia | | apply Stop; cbn; lia].
    destruct (Uri.decodeURIComponent t) as [v|e] eqn:D; cbn [bind].
    + rewrite IH. split; intros (-> & pre & i & post & E & Ne & P); (split; [reflexivity|]).
      * exists (item :: pre), i, post. repeat split; [now rewrite E | exact Ne |].
        cbn [forallb]. unfold passes at 1. now rewrite S, D.
      * destruct pre as [|i0 pre].
        -- injection E as <- _. rewrite S in Ne. cbn in Ne. lia.
        -- injection E as <- E. cbn [forallb] in P. apply andb_true_iff in P as [_ P].
           exists pre, i, post. repeat split; assumption.
    + split; [discriminate|]. intros (_ & pre & i & post & E & Ne & P). exfalso.
      destruct pre as [|i0 pre].
      * injection E as <- _. rewrite S in Ne. cbn in Ne. lia.
      * injection E as <- E. cbn [forallb] in P. unfold passes at 1 in P.
        rewrite S, D in P. discriminate.
Qed.

Lemma read_items_throws (hardCheck : bool) (items : list jstring) (e : exn) :
  forall found,
    Filter.read_items items hardCheck found = Throw e <->
    exists pre item post key text,
      items = pre ++ item :: post
      /\ forallb (passes hardCheck) pre = true
      /\ split 61%N item = [key; text]
      /\ Uri.decodeURIComponent text = Throw e.
Proof.
  induction items as [|item more IH]; intro found.
  - cbn [Filter.read_items]. split; [discriminate|].
    intros ([|? ?] & ? & ? & ? & ? & E & _); discriminate E.
  - cbn [Filter.read_items].
    assert (Skip : (forall k t, split 61%N item <> [k; t]) ->
                   (if hardCheck then Ok None
                    else Filter.read_items more hardCheck found) = Throw e <->
                   exists pre i post key text,
                     item :: more = pre ++ i :: post
                     /\ forallb (passes hardCheck) pre = true
                     /\ split 61%N i = [key; text]
                     /\ Uri.decodeURIComponent text = Throw e).
    { intro Ne.
      assert (P0 : passes hardCheck item = negb hardCheck).
      { unfold passes. destruct (split 61%N item) as [|k [|t [|u l]]]; try reflexivity.
        now destruct (Ne k t). }
      split.
      - destruct hardCheck; [discriminate|]. rewrite IH.
        intros (pre & i & post & key & text & E & P & S & D).
        exists (item :: pre), i, post, key, text. repeat split; try assumption.
        + now rewrite E.
        + cbn [forallb]. now rewrite P0, P.
      - intros (pre & i & post & key & text & E & P & S & D).
        destruct pre as [|i0 pre].
        + injection E as <- _. now destruct (Ne key text).
        + injection E as <- E. cbn [forallb] in P. apply andb_true_iff in P as [Pi P].
          rewrite P0 in Pi. destruct hardCheck; [discriminate|].
          apply IH. exists pre, i, post, key, text. repeat split; assumption. }
    destruct (split 61%N item) as [|k [|t [|u l]]] eqn:S;
      [apply Skip; discriminate | apply Skip; discriminate | | apply Skip; discriminate].
    destruct (Uri.decodeURIComponent t) as [v|e'] eqn:D; cbn [bind].
    + rewrite IH. split; intros (pre & i & post & key & text & E & P & Si & Di).
      * exists (item :: pre), i, post, key, text. repeat split; try assumption.
        -- now rewrite E.
        -- cbn [forallb]. unfold passes at 1. now rewrite S, D.
      * destruct pre as [|i0 pre].
        -- injection E as <- _. rewrite S in Si. injection Si as _ <-. congruence.
        -- injection E as <- E. cbn [forallb] in P. apply andb_true_iff in P as [_ P].
           exists pre, i, post, key, text. repeat split; assumption.
    + split.
      * intros [= <-]. exists [], item, more, k, t. repeat split; assumption.
      * intros (pre & i & post & key & text & E & P & Si & Di).
        destruct pre as [|i0 pre].
        -- injection E as <- _. rewrite S in Si. injection Si as _ <-. congruence.
        -- injection E as <- E. cbn [forallb] in P. unfold passes at 1 in P.
           rewrite S, D in P. discriminate.
Qed.

(** X27.  [parseData] returns [false] in one case only: [hardCheck] is
    set, the text is not read as a multipart body, and among the items
    between "&" one that has not exactly one "=" comes before any item
    whose value does not decode. *)
Theorem parseData_refused (uri : jstring) (hardCheck : bool) :
  Filter.parseData uri hardCheck = Ok Filter.Refused <->
  hardCheck = true
  /\ RegExp.test Filter.disposition_pattern uri = false
  /\ exists pre item post,
       split 38%N uri = pre ++ item :: post
       /\ length (split 61%N item) <> 2
       /\ forallb (passes true) pre = true.
Proof.
  unfold Filter.parseData.
  destruct (RegExp.test Filter.disposition_pattern uri).
  - split; [discriminate | intros (_ & H & _); discriminate H].
  - destruct (Filter.read_items (split 38%N uri) hardCheck []) as [[found|]|e] eqn:R;
      cbn [bind].
    + split; [discriminate|]. intros (H & _ & E).
      assert (N : Filter.read_items (split 38%N uri) hardCheck [] = Ok None)
        by (apply read_items_refused; split; assumption).
      congruence.
    + split; [intros _ | reflexivity].
      apply read_items_refused in R as [H E]. repeat split; assumption.
    + split; [discriminate|]. intros (H & _ & E).
      assert (N : Filter.read_items (split 38%N uri) hardCheck [] = Ok None)
        by (apply read_items_refused; split; assumption).
      congruence.
Qed.

(** X28.  [parseData] throws in one case only, and then a [URIError]: the
    text is not read as a multipart body, and an item with exactly one "="
    whose value does not decode is reached, that is, every item before it
    has a value that decodes or, without [hardCheck], has not exactly one
    "=". *)
Theorem parseData_throws (uri : jstring) (hardCheck : bool) (e : exn) :
  Filter.parseData uri hardCheck = Throw e <->
  e = URIError
  /\ RegExp.test Filter.disposition_pattern uri = false
  /\ exists pre item post key text,
       split 38%N uri = pre ++ item :: post
       /\ forallb (passes hardCheck) pre = true
       /\ split 61%N item = [key; text]
       /\ Uri.decodeURIComponent text = Throw URIError.
Proof.
  unfold Filter.parseData.
  destruct (RegExp.test Filter.disposition_pattern uri).
  - split; [discriminate | intros (_ & H & _); discriminate H].
  - split.
    + intro H.
      assert (R : Filter.read_items (split 38%N uri) hardCheck [] = Throw e).
      { destruct (Filter.read_items (split 38%N uri) hardCheck []) as [[found|]|e'];
          cbn [bind] in H; [discriminate | discriminate | now injection H as ->]. }
      apply read_items_throws in R as (pre & i & post & key & text & E & P & S & D).
      pose proof (decodeURIComponent_throws text e D) as ->.
      split; [reflexivity|]. split; [reflexivity|].
      exists pre, i, post, key, text. repeat split; assumption.
    + intros (-> & _ & pre & i & post & key & text & E & P & S & D).
      assert (R : Filter.read_items (split 38%N uri) hardCheck [] = Throw URIError)
        by (apply read_items_throws; exists pre, i, post, key, text;
            repeat split; assumption).
      now rewrite R.
Qed.
